(** * CalcMySky: the atmosphere-texture generator

    A shallow embedding of [src/shaders.cpp] (the shader source assembler and
    the compilation cache) and of [src/generator/main.cpp] (the precomputation
    scheduler), followed by the properties that the specification states
    about them.

    Conventions.
    - A [QString] is the list of its UTF-16 code units ([QChar]), each a
      number below 65536.
    - C++ [throw MustQuit{}] is the [Throw] outcome; the message the code
      prints to [std::cerr] just before throwing is kept as the error value.
    - Numbers of the GPU side ([GLfloat], [glm::vec4], [glm::mat4]) are exact
      rationals [Q]; rounding is outside the model. *)

From Stdlib Require Import ZArith QArith Qabs List Ascii String DecimalString Lia Bool.
From Stdlib Require DecimalZ.
From stdpp Require Import gmap strings list fin_maps.
Import ListNotations.

Local Open Scope Z_scope.
Local Open Scope list_scope.

(** ** Text: the fragments of QString, QTextStream and QRegExp the code uses *)

Module Text.

(** A [QChar] is its code unit. *)
Abbreviation QChar := N.
Abbreviation text := (list QChar).

(** A string literal of the sources, all of whose characters are ASCII. *)
Definition txt (s : string) : text := map N_of_ascii (list_ascii_of_string s).

Definition nl : QChar := 10%N.
Definition cr : QChar := 13%N.
Definition dq : QChar := 34%N.
Definition sp : QChar := 32%N.
Definition hash : QChar := 35%N.

Definition code (c : QChar) : N := c.

(** [QChar::isSpace]: the space, the controls 9..13, U+0085, U+00A0, and
    the characters of the Unicode categories Zs, Zl and Zp (Unicode 6.3 and
    later): U+1680, U+2000..U+200A, U+2028, U+2029, U+202F, U+205F and
    U+3000.  The white space class of QRegExp is the same set. *)
Definition isSpace (c : QChar) : bool :=
  ((code c =? 32) || ((9 <=? code c) && (code c <=? 13))
   || (code c =? 133) || (code c =? 160) || (code c =? 5760)
   || ((8192 <=? code c) && (code c <=? 8202))
   || (code c =? 8232) || (code c =? 8233) || (code c =? 8239)
   || (code c =? 8287) || (code c =? 12288))%N.

Definition isDigit (c : QChar) : bool :=
  ((48 <=? code c) && (code c <=? 57))%N.

Definition isLetter (c : QChar) : bool :=
  (((65 <=? code c) && (code c <=? 90)) || ((97 <=? code c) && (code c <=? 122)))%N.

(** A character of an identifier: ASCII letter, digit or underscore. *)
Definition isWordChar (c : QChar) : bool :=
  isLetter c || isDigit c || (code c =? 95)%N.

(** A word character of QRegExp's [\b]: [QChar::isLetterOrNumber()],
    [QChar::isMark()] or the underscore.  Below 128 these are the characters
    of an identifier; from 128 on the Unicode tables of Qt decide, which
    are a parameter: [unicodeWord]. *)
Definition isWord (unicodeWord : QChar -> bool) (c : QChar) : bool :=
  if (code c <? 128)%N then isWordChar c else unicodeWord c.

(** [QString::startsWith]. *)
Fixpoint startsWith (s p : text) {struct p} : bool :=
  match p, s with
  | [], _ => true
  | _ :: _, [] => false
  | a :: p', b :: s' => N.eqb a b && startsWith s' p'
  end.

(** [QString::endsWith]. *)
Definition endsWith (s p : text) : bool := startsWith (rev s) (rev p).

Fixpoint skipSpaces (s : text) : text :=
  match s with
  | c :: s' => if isSpace c then skipSpaces s' else s
  | [] => []
  end.

Fixpoint simplified_from (pending : bool) (s : text) : text :=
  match s with
  | [] => []
  | c :: s' =>
      if isSpace c then simplified_from true s'
      else (if pending then [sp] else []) ++ c :: simplified_from false s'
  end.

(** [QString::simplified]: white space stripped at both ends, every inner
    run of white space replaced by one space. *)
Definition simplified (s : text) : text := simplified_from false (skipSpaces s).

(** [QString::replace(before, after)] for a non-empty [before] (every call
    site passes a literal token): a left-to-right scan, occurrences do not
    overlap and the inserted text is not scanned again.  [skip] counts the
    characters of the current occurrence still to be dropped. *)
Fixpoint replace_from (before after : text) (skip : nat) (s : text) : text :=
  match s with
  | [] => []
  | c :: s' =>
      match skip with
      | S k => replace_from before after k s'
      | O =>
          if startsWith s before
          then after ++ replace_from before after (Nat.pred (length before)) s'
          else c :: replace_from before after 0 s'
      end
  end.

Definition replace (before after s : text) : text :=
  match before with
  | [] => s
  | _ => replace_from before after 0 s
  end.

(** [QString::replace(QRegExp("\\bWORD\\b"), after)] for a [word] of word
    characters: as [replace], but an occurrence counts only between word
    boundaries.  [prev] tells whether the character before the scan
    position is a word character. *)
Fixpoint replaceWord_from (unicodeWord : QChar -> bool) (word after : text) (prev : bool)
    (skip : nat) (s : text) : text :=
  match s with
  | [] => []
  | c :: s' =>
      match skip with
      | S k => replaceWord_from unicodeWord word after (isWord unicodeWord c) k s'
      | O =>
          if negb prev && startsWith s word
             && negb (match skipn (length word) s with
                      | d :: _ => isWord unicodeWord d
                      | [] => false
                      end)
          then after ++ replaceWord_from unicodeWord word after (isWord unicodeWord c)
                          (Nat.pred (length word)) s'
          else c :: replaceWord_from unicodeWord word after (isWord unicodeWord c) 0 s'
      end
  end.

Definition replaceWord (unicodeWord : QChar -> bool) (word after s : text) : text :=
  match word with
  | [] => s
  | _ => replaceWord_from unicodeWord word after false 0 s
  end.

(** [QString::count(QChar)]. *)
Definition countChar (c : QChar) (s : text) : nat :=
  length (filter (N.eqb c) s).

(** Decimal rendering: [QString::number(int)], [QString::arg(int)],
    [std::to_string(int)]. *)
Definition number (z : Z) : text :=
  txt (DecimalString.NilZero.string_of_int (Z.to_int z)).

(** *** QTextStream::readLine

    A line ends at a line feed; a carriage return just before the line feed,
    or at the very end of the data, is not part of the line.  At the end of
    the data the null string is returned ([None]). *)
Definition chopCR (rline : text) : text :=
  match rline with
  | c :: r => if N.eqb c cr then r else rline
  | [] => []
  end.

(** [cur] is the current line read so far, last character first. *)
Fixpoint readLine_from (cur : text) (s : text) : text * text :=
  match s with
  | [] => (rev (chopCR cur), [])
  | c :: s' =>
      if N.eqb c nl then (rev (chopCR cur), s')
      else readLine_from (c :: cur) s'
  end.

Definition readLine (stream : text) : option (text * text) :=
  match stream with
  | [] => None
  | _ => Some (readLine_from [] stream)
  end.

(** All the lines [readLine] returns until the stream is at its end. *)
Fixpoint lines_from (cur : text) (s : text) : list text :=
  match s with
  | [] => match cur with [] => [] | _ => [rev (chopCR cur)] end
  | c :: s' =>
      if N.eqb c nl then rev (chopCR cur) :: lines_from [] s'
      else lines_from (c :: cur) s'
  end.

Definition lines (s : text) : list text := lines_from [] s.

End Text.
Export Text.

(** ** Outcomes

    Every failure of the generator is [throw MustQuit{}], preceded by a
    message on [std::cerr]; [main] turns it into exit status 1.  The error
    value records which message was printed. *)

Inductive Error : Type :=
| ErrOpenShader (fileName : text)
| ErrIncludeSyntax (filename : text) (lineNumber : Z)
| ErrIncludeSuffix (filename : text) (lineNumber : Z)
| ErrRecursionDepth
| ErrCompile (description : text)
| ErrLink (description : text)
| ErrFramebuffer (what : text).

Inductive result (A : Type) : Type :=
| Ok (a : A)
| Throw (e : Error).
Arguments Ok {A} a.
Arguments Throw {A} e.

Definition isOk {A} (r : result A) : bool :=
  match r with Ok _ => true | Throw _ => false end.

(** ** src/shaders.cpp: sources on disk *)

(** What [getShaderSrc] sees of the installation: whether the directory of
    the running binary is [INSTALL_BINDIR] or [BUILD_BINDIR], the two roots
    of [config.h], and the readable files by path. *)
Record Disk : Type := {
  appBinDirIsInstall : bool;
  appBinDirIsBuild : bool;
  DATA_ROOT_DIR : text;
  SOURCE_DIR : text;
  fileContents : text -> option text
}.

(** [getShaderSrc(fileName)] of src/shaders.cpp. *)
Definition getShaderSrc (disk : Disk) (fileName : text) : result text :=
  let opened :=
    if appBinDirIsInstall disk then fileContents disk (DATA_ROOT_DIR disk ++ fileName)
    else if appBinDirIsBuild disk then fileContents disk (SOURCE_DIR disk ++ fileName)
    else None in
  match opened with
  | Some contents => Ok contents
  | None => Throw (ErrOpenShader fileName)
  end.

(** Modelled from the spec: the two header names that resolve to generated
    strings.  Their definitions are in shaders.hpp, which is not part of the
    sources; the specification gives their values. *)
Definition CONSTANTS_HEADER_FILENAME : text := txt "const.h.glsl".
Definition DENSITIES_HEADER_FILENAME : text := txt "densities.h.glsl".

Definition headerSuffix : text := txt ".h.glsl".

(** The word #include, a space and the opening double quote. *)
Definition includeOpening : text := txt "#include " ++ [dq].

(** The text between the quotes when [line] matches the pattern
    ^#include Q([^Q]+)Q$ exactly, Q standing for the double quote. *)
Definition includePattern (line : text) : option text :=
  if startsWith line includeOpening then
    match rev (skipn (length includeOpening) line) with
    | q :: rname =>
        if N.eqb q dq && negb (existsb (N.eqb dq) rname)
           && negb (Nat.eqb (length rname) 0)
        then Some (rev rname) else None
    | [] => None
    end
  else None.

(** [cap(1)] when [line] matches ^#include Q([^Q]+)(\.h\.glsl)Q$ exactly. *)
Definition includePatternBase (line : text) : option text :=
  match includePattern line with
  | Some inner =>
      if endsWith inner headerSuffix && (length headerSuffix <? length inner)%nat
      then Some (firstn (length inner - length headerSuffix) inner)
      else None
  | None => None
  end.

Section Assembler.

(** The source lookup the assembler uses for names it does not generate
    itself; src/shaders.cpp passes [getShaderSrc]. *)
Variable shaderSrc : text -> result text.
(** The globals [constantsHeader] and [densitiesHeader]. *)
Variable constantsHeader densitiesHeader : text.

(** The loop variables of [withHeadersIncluded]. *)
Record IncludeState : Type := {
  lineNumber : Z;
  headerNumber : Z;
  newSrc : text
}.

(** One iteration of the loop of [withHeadersIncluded], for the line just
    read; the increment [++lineNumber] of the loop header is part of it.
    [int] overflow is undefined behaviour in C++: counters are exact. *)
Definition includeStep (filename : text) (st : IncludeState) (line : text)
  : result IncludeState :=
  if negb (startsWith (simplified line) includeOpening) then
    Ok {| lineNumber := lineNumber st + 1;
          headerNumber := headerNumber st;
          newSrc := newSrc st ++ line ++ [nl] |}
  else
    match includePattern line with
    | None => Throw (ErrIncludeSyntax filename (lineNumber st))
    | Some includeFileName =>
        if negb (endsWith includeFileName headerSuffix) then
          Throw (ErrIncludeSuffix filename (lineNumber st))
        else
          let header :=
            if decide (includeFileName = CONSTANTS_HEADER_FILENAME) then Ok constantsHeader
            else if decide (includeFileName = DENSITIES_HEADER_FILENAME) then Ok densitiesHeader
            else shaderSrc includeFileName in
          match header with
          | Throw e => Throw e
          | Ok header =>
              Ok {| lineNumber := lineNumber st + 1;
                    headerNumber := headerNumber st + 1;
                    newSrc := newSrc st
                      ++ (txt "#line 1 " ++ number (headerNumber st) ++ txt " // "
                            ++ includeFileName ++ [nl])
                      ++ header
                      ++ (txt "#line " ++ number (lineNumber st + 1) ++ txt " 0 // "
                            ++ filename ++ [nl]) |}
          end
    end.

(** The [for] loop of [withHeadersIncluded] as written: [readLine] until
    the null string.  [fuel] bounds the number of iterations; [None] means
    the bound was too small. *)
Fixpoint withHeadersIncluded_loop (fuel : nat) (filename : text) (srcStream : text)
    (st : IncludeState) : option (result text) :=
  match fuel with
  | O => None
  | S fuel' =>
      match readLine srcStream with
      | None => Some (Ok (newSrc st))
      | Some (line, rest) =>
          match includeStep filename st line with
          | Throw e => Some (Throw e)
          | Ok st' => withHeadersIncluded_loop fuel' filename rest st'
          end
      end
  end.

(** The same loop over the lines of the stream. *)
Fixpoint includeLines (filename : text) (ls : list text) (st : IncludeState)
  : result text :=
  match ls with
  | [] => Ok (newSrc st)
  | line :: rest =>
      match includeStep filename st line with
      | Throw e => Throw e
      | Ok st' => includeLines filename rest st'
      end
  end.

Definition includeStart : IncludeState :=
  {| lineNumber := 1; headerNumber := 1; newSrc := [] |}.

(** [withHeadersIncluded(src, filename)]. *)
Definition withHeadersIncluded (src filename : text) : result text :=
  includeLines filename (lines src) includeStart.

End Assembler.

(** ** src/shaders.cpp: companion sources to link with *)

Section Linking.

Variable shaderSrc : text -> result text.
(** The global [internalShaders]; its contents are declared outside the
    repository files at hand. *)
Variable internalShaders : gset text.

Definition maxRecursionDepth : Z := 50.

(** The companion source a line asks for: [Some] of base name plus .frag
    when the line is an include of a header other than the constants
    header (which has no companion source). *)
Definition companionOfLine (line : text) : option text :=
  match includePatternBase line with
  | None => None
  | Some includeFileBaseName =>
      if decide (includeFileBaseName ++ headerSuffix = CONSTANTS_HEADER_FILENAME)
      then None
      else Some (includeFileBaseName ++ txt ".frag")
  end.

(** The recursion guard of the loop body. *)
Definition followed (filename shaderFileNameToLinkWith : text) : bool :=
  negb (bool_decide (shaderFileNameToLinkWith ∈ internalShaders))
  && negb (bool_decide (shaderFileNameToLinkWith = filename)).

(** The loop over the lines of one source; [recur] is the recursive call
    at [recursionDepth+1].  [None]: the recursion ran out of fuel. *)
Fixpoint linkScan (recur : text -> option (result (gset text))) (filename : text)
    (ls : list text) (filenames : gset text) : option (result (gset text)) :=
  match ls with
  | [] => Some (Ok filenames)
  | line :: rest =>
      match companionOfLine line with
      | None => linkScan recur filename rest filenames
      | Some shaderFileNameToLinkWith =>
          let filenames := {[ shaderFileNameToLinkWith ]} ∪ filenames in
          if followed filename shaderFileNameToLinkWith then
            match recur shaderFileNameToLinkWith with
            | None => None
            | Some (Throw e) => Some (Throw e)
            | Some (Ok extraFileNames) =>
                linkScan recur filename rest (extraFileNames ∪ filenames)
            end
          else linkScan recur filename rest filenames
      end
  end.

(** [getShaderFileNamesToLinkWith(filename, recursionDepth)].  The
    recursion is not structural; [fuel] bounds the nesting of calls. *)
Fixpoint getShaderFileNamesToLinkWith_fuel (fuel : nat) (filename : text)
    (recursionDepth : Z) : option (result (gset text)) :=
  if recursionDepth >? maxRecursionDepth then Some (Throw ErrRecursionDepth)
  else
    match fuel with
    | O => None
    | S fuel' =>
        match shaderSrc filename with
        | Throw e => Some (Throw e)
        | Ok shaderSrc =>
            linkScan (fun f => getShaderFileNamesToLinkWith_fuel fuel' f (recursionDepth + 1))
                     filename (lines shaderSrc) ∅
        end
    end.

(** Nesting never exceeds [maxRecursionDepth + 1] calls below depth 0, so
    this much fuel is always enough (lemma [link_fuel_enough]). *)
Definition linkFuel : nat := 52.

Definition getShaderFileNamesToLinkWith (filename : text) : result (gset text) :=
  match getShaderFileNamesToLinkWith_fuel linkFuel filename 0 with
  | Some r => r
  | None => Throw ErrRecursionDepth
  end.

End Linking.

(** ** src/shaders.cpp: the listing printed when a shader does not compile *)

(** A C++ [int]: the value of a conversion to 32 bits. *)
Definition int32 (z : Z) : Z := (z + 2147483648) mod 4294967296 - 2147483648.

Fixpoint takeDigits (s : text) : text * text :=
  match s with
  | c :: s' =>
      if isDigit c then let (d, r) := takeDigits s' in (c :: d, r) else ([], s)
  | [] => ([], [])
  end.

Definition digitValue (c : QChar) : Z := Z.of_N (code c) - 48.

(** [QString::toInt] on a string of digits: the value, or 0 when it does
    not fit an [int]. *)
Definition toInt (digits : text) : Z :=
  let v := fold_left (fun acc c => 10 * acc + digitValue c) digits 0 in
  if v <=? 2147483647 then v else 0.

(** [std::setw]: left padding with spaces to a minimal width. *)
Definition setw (width : nat) (s : text) : text :=
  repeat sp (width - length s) ++ s.

(** The width [std::ceil(std::log10(lineCount))]: the least [w] with
    [lineCount <= 10^w].  For [lineCount = 0] the C++ expression is not a
    number; no padding is modelled then. *)
Fixpoint ceilLog10_from (fuel : nat) (w : nat) (pow : Z) (n : Z) : nat :=
  match fuel with
  | O => w
  | S fuel' => if n <=? pow then w else ceilLog10_from fuel' (S w) (10 * pow) n
  end.

Definition ceilLog10 (n : nat) : nat :=
  match n with
  | O => O
  | _ => ceilLog10_from n 0 1 (Z.of_nat n)
  end.

Section SourceListing.

(** The Unicode tables of Qt behind the word boundary of QRegExp. *)
Variable unicodeWord : QChar -> bool.

(** The digits captured when [line] matches the pattern
    ^\s*#\s*line\s+([0-9]+)\b.* exactly: the boundary holds where the
    digits end the line or a character that is not a word character
    follows. *)
Definition lineChanger (line : text) : option text :=
  match skipSpaces line with
  | c :: afterHash =>
      if N.eqb c hash then
        let s := skipSpaces afterHash in
        if startsWith s (txt "line") then
          let s := skipn 4 s in
          match s with
          | b :: _ =>
              if isSpace b then
                let (digits, rest) := takeDigits (skipSpaces s) in
                match digits with
                | [] => None
                | _ =>
                    match rest with
                    | [] => Some digits
                    | d :: _ => if isWord unicodeWord d then None else Some digits
                    end
                end
              else None
          | [] => None
          end
        else None
      else None
  | [] => None
  end.

(** The number printed before each line, and the line: [lineNumber] is the
    [int] loop variable, set to one less than the number named by every
    #line directive and incremented after every line; the increment wraps
    around as the conversion to [int] does. *)
Fixpoint sourceListing (ls : list text) (lineNumber : Z) : list (Z * text) :=
  match ls with
  | [] => []
  | line :: rest =>
      (lineNumber, line) ::
      match lineChanger line with
      | Some digits => sourceListing rest (int32 (int32 (toInt digits - 1) + 1))
      | None => sourceListing rest (int32 (lineNumber + 1))
      end
  end.

Definition listingText (source : text) : text :=
  let lineCount := countChar nl source in
  concat (map (fun '(n, line) => setw (ceilLog10 lineCount) (number n) ++ [sp] ++ line ++ [nl])
              (sourceListing (lines source) 1)).

End SourceListing.

(** ** glm: four-component vectors and column-major 4x4 matrices *)

Module Glm.

Record vec4 : Type := Vec4 { vx : Q; vy : Q; vz : Q; vw : Q }.

(** [v[i]]. *)
Definition vidx (v : vec4) (i : nat) : Q :=
  match i with
  | O => vx v
  | 1%nat => vy v
  | 2%nat => vz v
  | _ => vw v
  end.

(** [mat4(c0, c1, c2, c3)]: the arguments are the columns. *)
Record mat4 : Type := Mat4 { col0 : vec4; col1 : vec4; col2 : vec4; col3 : vec4 }.

(** [m[j]]: column [j]. *)
Definition mcol (m : mat4) (j : nat) : vec4 :=
  match j with
  | O => col0 m
  | 1%nat => col1 m
  | 2%nat => col2 m
  | _ => col3 m
  end.

Definition vadd (a b : vec4) : vec4 :=
  Vec4 (vx a + vx b) (vy a + vy b) (vz a + vz b) (vw a + vw b).
Definition vscale (a : vec4) (s : Q) : vec4 :=
  Vec4 (vx a * s) (vy a * s) (vz a * s) (vw a * s).
Definition vdiv (a : vec4) (s : Q) : vec4 :=
  Vec4 (vx a / s) (vy a / s) (vz a / s) (vw a / s).

(** [m * s] and [m / s] for a scalar [s]. *)
Definition mscale (m : mat4) (s : Q) : mat4 :=
  Mat4 (vscale (col0 m) s) (vscale (col1 m) s) (vscale (col2 m) s) (vscale (col3 m) s).
Definition mdiv (m : mat4) (s : Q) : mat4 :=
  Mat4 (vdiv (col0 m) s) (vdiv (col1 m) s) (vdiv (col2 m) s) (vdiv (col3 m) s).

(** [m * v], then [m1 * m2]: column [j] of the product is [m1 * m2[j]]. *)
Definition mapply (m : mat4) (v : vec4) : vec4 :=
  vadd (vadd (vadd (vscale (col0 m) (vx v)) (vscale (col1 m) (vy v)))
             (vscale (col2 m) (vz v)))
       (vscale (col3 m) (vw v)).
Definition mmul (m1 m2 : mat4) : mat4 :=
  Mat4 (mapply m1 (col0 m2)) (mapply m1 (col1 m2)) (mapply m1 (col2 m2)) (mapply m1 (col3 m2)).

Definition veq (a b : vec4) : Prop :=
  vx a == vx b /\ vy a == vy b /\ vz a == vz b /\ vw a == vw b.
Definition meq (a b : mat4) : Prop :=
  veq (col0 a) (col0 b) /\ veq (col1 a) (col1 b)
  /\ veq (col2 a) (col2 b) /\ veq (col3 a) (col3 b).

(** [&m[0][0]]: the sixteen numbers as glm stores them, column after
    column. *)
Definition valuePtr (m : mat4) : list Q :=
  concat (map (fun c => [vx c; vy c; vz c; vw c]) [col0 m; col1 m; col2 m; col3 m]).

(** [QMatrix4x4(values)] reads the sixteen numbers row after row; a
    QMatrix4x4 is the list of its rows. *)
Definition QMatrix4x4 (values : list Q) : list (list Q) :=
  [firstn 4 values; firstn 4 (skipn 4 values);
   firstn 4 (skipn 8 values); firstn 4 (skipn 12 values)].

Definition qrow (rows : list (list Q)) (i : nat) : list Q := nth i rows [].

(** [QMatrix4x4::transposed]. *)
Definition transposed (rows : list (list Q)) : list (list Q) :=
  map (fun j => map (fun i => nth j (qrow rows i) 0%Q) [0; 1; 2; 3]%nat) [0; 1; 2; 3]%nat.

End Glm.
Export Glm.

(** ** The atmosphere description (data.hpp) as far as the code at hand reads it *)

Module Scatterer.
Record t : Type := Make {
  name : text;
  numberDensity : text;
  crossSection : vec4 -> vec4
}.
End Scatterer.

Module Absorber.
Record t : Type := Make {
  name : text;
  numberDensity : text;
  crossSection : vec4 -> vec4
}.
End Absorber.

(** ** src/shaders.cpp: the generated sources *)

(** The one place where a literal of src/shaders.cpp is not ASCII: the
    formula in a comment of the optical-depth template, r2^2=r1^2+l^2+2r1lmu
    written with U+2082, U+00B2, U+2081 and U+03BC. *)
Definition lawOfCosines : text :=
  txt "r" ++ [8322; 178]%N ++ txt "=r" ++ [8321; 178]%N ++ txt "+l" ++ [178]%N
    ++ txt "+2r" ++ [8321]%N ++ txt "l" ++ [956]%N.

Section Generators.

Variable shaderSrc : text -> result text.
Variable scatterers : list Scatterer.t.
Variable absorbers : list Absorber.t.
(** [toString(glm::vec4)] of util.hpp (not among the sources). *)
Variable toString : vec4 -> text.
(** File name constants of shaders.hpp (not among the sources). *)
Variable COMPUTE_TRANSMITTANCE_SHADER_FILENAME : text.
Variable DENSITIES_SHADER_FILENAME : text.

(** The functions below read the globals [constantsHeader] and
    [densitiesHeader]; they take them as arguments, and a function that
    assigns [densitiesHeader] returns its new value as second component.

    [makeDensitiesFunctions()]: the source it returns, and the value of the
    global [densitiesHeader] afterwards (set only while it is empty). *)
Definition makeDensitiesFunctions (densitiesHeader : text) : text * text :=
  let src :=
    concat (map (fun scatterer =>
                   txt "float scattererNumberDensity_" ++ Scatterer.name scatterer
                     ++ txt "(float altitude)
{
" ++ Scatterer.numberDensity scatterer ++ txt "}
") scatterers)
    ++ concat (map (fun absorber =>
                   txt "float absorberNumberDensity_" ++ Absorber.name absorber
                     ++ txt "(float altitude)
{
" ++ Absorber.numberDensity absorber ++ txt "}
") absorbers) in
  let header :=
    concat (map (fun scatterer =>
                   txt "float scattererNumberDensity_" ++ Scatterer.name scatterer
                     ++ txt "(float altitude);
") scatterers)
    ++ concat (map (fun absorber =>
                   txt "float absorberNumberDensity_" ++ Absorber.name absorber
                     ++ txt "(float altitude);
") absorbers)
    ++ txt "vec4 scatteringCrossSection();
float scattererDensity(float altitude);
" in
  (src, match densitiesHeader with [] => header | _ => densitiesHeader end).

Definition transmittanceHead : text :=
  txt "#version 330
#extension GL_ARB_shading_language_420pack : require

#include " ++ [dq] ++ txt "const.h.glsl" ++ [dq] ++ txt "
#include " ++ [dq] ++ txt "common-functions.h.glsl" ++ [dq] ++ txt "
".

Definition opticalDepthFunctionTemplate : text :=
  txt "
vec4 opticalDepthToAtmosphereBorder_##agentSpecies(float altitude, float cosZenithAngle, vec4 crossSection)
{
    const float integrInterval=distanceToAtmosphereBorder(cosZenithAngle, altitude);

    const float R=earthRadius;
    const float r1=R+altitude;
    const float l=integrInterval;
    const float mu=cosZenithAngle;
    /* From law of cosines: " ++ lawOfCosines ++ txt " */
    const float endAltitude=-R+sqrt(sqr(r1)+sqr(l)+2*r1*l*mu);

    const float dl=integrInterval/(numTransmittanceIntegrationPoints-1);

    /* Using trapezoid rule on a uniform grid: f0/2+f1+f2+...+f(N-2)+f(N-1)/2. */
    float sum=(agent##NumberDensity_##agentSpecies(altitude)+
               agent##NumberDensity_##agentSpecies(endAltitude))/2;
    for(int n=1;n<numTransmittanceIntegrationPoints-1;++n)
    {
        const float dist=n*dl;
        const float currAlt=-R+sqrt(sqr(r1)+sqr(dist)+2*r1*dist*mu);
        sum+=agent##NumberDensity_##agentSpecies(currAlt);
    }
    return sum*dl*crossSection;
}
".

Definition computeFunctionOpening : text :=
  txt "
// This assumes that ray doesn't intersect Earth
vec4 computeTransmittanceToAtmosphereBorder(float cosZenithAngle, float altitude)
{
    const vec4 depth=
".

Definition computeFunctionClosing : text :=
  txt "      ;
    return exp(-depth);
}
".

(** The two strings the loops of [makeTransmittanceComputeFunctionsSrc]
    build: [opticalDepthFunctions] and [computeFunction]. *)
Definition opticalDepthFunctions : text :=
  concat (map (fun scatterer =>
                 replace (txt "agent##") (txt "scatterer")
                   (replace (txt "##agentSpecies") (Scatterer.name scatterer)
                      opticalDepthFunctionTemplate)) scatterers)
  ++ concat (map (fun absorber =>
                 replace (txt "agent##") (txt "absorber")
                   (replace (txt "##agentSpecies") (Absorber.name absorber)
                      opticalDepthFunctionTemplate)) absorbers).

Definition computeFunction (wavelengths : vec4) : text :=
  computeFunctionOpening
  ++ concat (map (fun scatterer =>
                 txt "        +opticalDepthToAtmosphereBorder_" ++ Scatterer.name scatterer
                   ++ txt "(altitude,cosZenithAngle,"
                   ++ toString (Scatterer.crossSection scatterer wavelengths) ++ txt ")
") scatterers)
  ++ concat (map (fun absorber =>
                 txt "        +opticalDepthToAtmosphereBorder_" ++ Absorber.name absorber
                   ++ txt "(altitude,cosZenithAngle,"
                   ++ toString (Absorber.crossSection absorber wavelengths) ++ txt ")
") absorbers)
  ++ computeFunctionClosing.

(** [makeTransmittanceComputeFunctionsSrc(wavelengths)], given the globals
    [constantsHeader] and [densitiesHeader]; the second component is
    [densitiesHeader] afterwards. *)
Definition makeTransmittanceComputeFunctionsSrc (constantsHeader densitiesHeader : text)
    (wavelengths : vec4) : result text * text :=
  let (densities, densitiesHeader) := makeDensitiesFunctions densitiesHeader in
  (withHeadersIncluded shaderSrc constantsHeader densitiesHeader
     (transmittanceHead ++ densities ++ opticalDepthFunctions ++ computeFunction wavelengths)
     (txt "(virtual)" ++ COMPUTE_TRANSMITTANCE_SHADER_FILENAME),
   densitiesHeader).

Definition densitiesHead : text :=
  txt "#version 330
#extension GL_ARB_shading_language_420pack : require

#include " ++ [dq] ++ txt "const.h.glsl" ++ [dq] ++ txt "
".

(** [makeScattererDensityFunctionsSrc(wavelengths)]; the argument is not
    used by the code. *)
Definition makeScattererDensityFunctionsSrc (constantsHeader densitiesHeader : text)
    (wavelengths : vec4) : result text * text :=
  let (densities, densitiesHeader) := makeDensitiesFunctions densitiesHeader in
  (withHeadersIncluded shaderSrc constantsHeader densitiesHeader
     (densitiesHead ++ densities)
     (txt "(virtual)" ++ DENSITIES_SHADER_FILENAME),
   densitiesHeader).

End Generators.

(** ** The world of the generator: OpenGL state, caches, and what it emits *)

Inductive Texture : Type :=
| TEX_TRANSMITTANCE
| TEX_DELTA_IRRADIANCE
| TEX_IRRADIANCE
| TEX_DELTA_SCATTERING
| TEX_DELTA_SCATTERING_DENSITY
| TEX_MULTIPLE_SCATTERING.

Inductive Framebuffer : Type :=
| FBO_TRANSMITTANCE
| FBO_IRRADIANCE
| FBO_DELTA_SCATTERING
| FBO_MULTIPLE_SCATTERING.

Inductive ShaderType : Type := Vertex | Fragment | Geometry.
Inductive BlendFactor : Type := GL_ZERO | GL_ONE.
Inductive Capability : Type := GL_BLEND.

#[global] Instance Texture_eq_dec : EqDecision Texture.
Proof. solve_decision. Defined.
#[global] Instance Framebuffer_eq_dec : EqDecision Framebuffer.
Proof. solve_decision. Defined.

(** The part of the OpenGL context the generator changes.  Blending is
    kept per draw buffer: [glEnable]/[glDisable] set every buffer,
    [glEnablei]/[glDisablei] one. *)
Record GLState : Type := {
  framebufferBinding : option Framebuffer;
  colorAttachments : Framebuffer -> nat -> option Texture;
  drawBuffers : Framebuffer -> list nat;
  blendEnabled : nat -> bool;
  blendFunc : BlendFactor * BlendFactor;
  viewport : Z * Z;
  currentProgram : option text
}.

(** A compiled [QOpenGLShader]: its stage, the source [compileShader] was
    given, and the source with headers included that was compiled. *)
Record Shader : Type := {
  shaderType : ShaderType;
  givenSource : text;
  sourceCode : text
}.

(** The globals that change during a run.  [virtualSourceFiles] is the
    table src/generator/main.cpp writes to; nothing in src/shaders.cpp
    reads it: [getShaderSrc] opens the file of the shader directory. *)
Record World : Type := {
  constantsHeader : text;
  densitiesHeader : text;
  virtualSourceFiles : gmap text text;
  allShaders : gmap text Shader;
  gl : GLState
}.

Inductive Event : Type :=
| Stderr (message : text)
| Draw (state : GLState)
| Finish
| SaveTexture (texture : Texture) (what path : text)
| Uniform (uniformName : text)
| UniformMatrix (uniformName : text) (rows : list (list Q))
| Compile (type : ShaderType) (description source : text)
| ShaderUsed (filename : text) (shader : Shader)
| VirtualWrite (filename source : text).

(** Everything the run is given: the installation, the GPU toolchain as
    oracles, and the globals set from the command line and the atmosphere
    description before the computation starts. *)
Record Setup : Type := {
  disk : Disk;
  internalShaders : gset text;
  glslCompile : ShaderType -> text -> bool * text;
  glslLink : list Shader -> bool;
  framebufferComplete : GLState -> bool;
  scatterers : list Scatterer.t;
  absorbers : list Absorber.t;
  allWavelengths : list vec4;
  scatteringOrdersToCompute : Z;
  saveResultAsRadiance : bool;
  textureOutputDir : text;
  dbgSaveGroundIrradiance : bool;
  dbgSaveScatDensity : bool;
  dbgSaveScatDensityOrder2FromGround : bool;
  dbgSaveAccumScattering : bool;
  dbgSaveDeltaScattering : bool;
  scatTexWidth : Z;
  scatTexHeight : Z;
  scatTexDepth : nat;
  irradianceTexW : Z;
  irradianceTexH : Z;
  transmittanceTexW : Z;
  transmittanceTexH : Z;
  toString : vec4 -> text;
  wavelengthToXYZW : Q -> vec4;
  unicodeWord : QChar -> bool;
  constantsHeaderFor : vec4 -> text;
  makePhaseFunctionsSrc : text -> text -> result text;
  makeTotalScatteringCoefSrc : text -> text -> result text;
  DENSITIES_SHADER_FILENAME : text;
  PHASE_FUNCTIONS_SHADER_FILENAME : text;
  COMPUTE_TRANSMITTANCE_SHADER_FILENAME : text;
  COMPUTE_SCATTERING_DENSITY_FILENAME : text;
  COMPUTE_INDIRECT_IRRADIANCE_FILENAME : text;
  TOTAL_SCATTERING_COEFFICIENT_SHADER_FILENAME : text
}.

(** *** The monad: state, exceptions and emitted events *)

Definition M (A : Type) : Type := World -> result A * World * list Event.

Definition ret {A} (a : A) : M A := fun w => (Ok a, w, []).

Definition bind {A B} (m : M A) (k : A -> M B) : M B :=
  fun w =>
    match m w with
    | (Ok a, w1, evs1) =>
        match k a w1 with
        | (r, w2, evs2) => (r, w2, evs1 ++ evs2)
        end
    | (Throw e, w1, evs1) => (Throw e, w1, evs1)
    end.

Definition throw {A} (e : Error) : M A := fun w => (Throw e, w, []).
Definition emit (ev : Event) : M unit := fun w => (Ok tt, w, [ev]).
Definition getWorld : M World := fun w => (Ok w, w, []).
Definition setWorld (f : World -> World) : M unit := fun w => (Ok tt, f w, []).
Definition liftResult {A} (r : result A) : M A :=
  match r with Ok a => ret a | Throw e => throw e end.

Declare Scope gen_scope.
Delimit Scope gen_scope with gen.
Notation "x <- m ;; k" := (bind m (fun x => k))
  (at level 100, m at next level, k at level 200, right associativity) : gen_scope.
Notation "m ;; k" := (bind m (fun _ => k))
  (at level 100, k at level 200, right associativity) : gen_scope.
Local Open Scope gen_scope.

(** [for (x : xs) body]. *)
Fixpoint forEach {A} (xs : list A) (body : A -> M unit) : M unit :=
  match xs with
  | [] => ret tt
  | x :: rest => body x ;; forEach rest body
  end.

Definition when (b : bool) (m : M unit) : M unit := if b then m else ret tt.

(** The outcome, final world and events of a computation. *)
Definition outcome {A} (m : M A) (w : World) : result A := fst (fst (m w)).
Definition finalWorld {A} (m : M A) (w : World) : World := snd (fst (m w)).
Definition events {A} (m : M A) (w : World) : list Event := snd (m w).

(** *** World updates *)

Definition setGL (f : GLState -> GLState) : M unit :=
  setWorld (fun w =>
    {| constantsHeader := constantsHeader w; densitiesHeader := densitiesHeader w;
       virtualSourceFiles := virtualSourceFiles w; allShaders := allShaders w;
       gl := f (gl w) |}).

Definition setAllShaders (f : gmap text Shader -> gmap text Shader) : M unit :=
  setWorld (fun w =>
    {| constantsHeader := constantsHeader w; densitiesHeader := densitiesHeader w;
       virtualSourceFiles := virtualSourceFiles w; allShaders := f (allShaders w);
       gl := gl w |}).

Definition setConstantsHeader (h : text) : M unit :=
  setWorld (fun w =>
    {| constantsHeader := h; densitiesHeader := densitiesHeader w;
       virtualSourceFiles := virtualSourceFiles w; allShaders := allShaders w;
       gl := gl w |}).

Definition setDensitiesHeader (h : text) : M unit :=
  setWorld (fun w =>
    {| constantsHeader := constantsHeader w; densitiesHeader := h;
       virtualSourceFiles := virtualSourceFiles w; allShaders := allShaders w;
       gl := gl w |}).

(** [virtualSourceFiles[filename]=source]. *)
Definition writeVirtualSourceFile (filename source : text) : M unit :=
  setWorld (fun w =>
    {| constantsHeader := constantsHeader w; densitiesHeader := densitiesHeader w;
       virtualSourceFiles := <[filename := source]> (virtualSourceFiles w);
       allShaders := allShaders w; gl := gl w |}) ;;
  emit (VirtualWrite filename source).

(** [allShaders.erase(filename)] and [allShaders.clear()]. *)
Definition eraseShader (filename : text) : M unit := setAllShaders (delete filename).
Definition clearShaders : M unit := setAllShaders (fun _ => ∅).

(** *** OpenGL calls *)

Definition glBindFramebuffer (fbo : option Framebuffer) : M unit :=
  setGL (fun g =>
    {| framebufferBinding := fbo; colorAttachments := colorAttachments g;
       drawBuffers := drawBuffers g; blendEnabled := blendEnabled g;
       blendFunc := blendFunc g; viewport := viewport g;
       currentProgram := currentProgram g |}).

(** [glFramebufferTexture(GL_FRAMEBUFFER, GL_COLOR_ATTACHMENT0+i, texture, 0)];
    without a bound framebuffer object the call is an error that changes
    nothing. *)
Definition glFramebufferTexture (i : nat) (texture : Texture) : M unit :=
  setGL (fun g =>
    match framebufferBinding g with
    | None => g
    | Some fbo =>
        {| framebufferBinding := framebufferBinding g;
           colorAttachments := fun f j =>
             if decide (f = fbo) then
               if decide (j = i) then Some texture else colorAttachments g f j
             else colorAttachments g f j;
           drawBuffers := drawBuffers g; blendEnabled := blendEnabled g;
           blendFunc := blendFunc g; viewport := viewport g;
           currentProgram := currentProgram g |}
    end).

Definition setDrawBuffers (bufs : list nat) : M unit :=
  setGL (fun g =>
    match framebufferBinding g with
    | None => g
    | Some fbo =>
        {| framebufferBinding := framebufferBinding g;
           colorAttachments := colorAttachments g;
           drawBuffers := fun f => if decide (f = fbo) then bufs else drawBuffers g f;
           blendEnabled := blendEnabled g;
           blendFunc := blendFunc g; viewport := viewport g;
           currentProgram := currentProgram g |}
    end).

Definition setBlend (f : (nat -> bool) -> nat -> bool) : M unit :=
  setGL (fun g =>
    {| framebufferBinding := framebufferBinding g; colorAttachments := colorAttachments g;
       drawBuffers := drawBuffers g; blendEnabled := f (blendEnabled g);
       blendFunc := blendFunc g; viewport := viewport g;
       currentProgram := currentProgram g |}).

Definition glEnable (cap : Capability) : M unit := setBlend (fun _ _ => true).
Definition glDisable (cap : Capability) : M unit := setBlend (fun _ _ => false).
Definition glEnablei (cap : Capability) (i : nat) : M unit :=
  setBlend (fun b j => if decide (j = i) then true else b j).
Definition glDisablei (cap : Capability) (i : nat) : M unit :=
  setBlend (fun b j => if decide (j = i) then false else b j).

Definition glBlendFunc (sfactor dfactor : BlendFactor) : M unit :=
  setGL (fun g =>
    {| framebufferBinding := framebufferBinding g; colorAttachments := colorAttachments g;
       drawBuffers := drawBuffers g; blendEnabled := blendEnabled g;
       blendFunc := (sfactor, dfactor); viewport := viewport g;
       currentProgram := currentProgram g |}).

Definition glViewport (width height : Z) : M unit :=
  setGL (fun g =>
    {| framebufferBinding := framebufferBinding g; colorAttachments := colorAttachments g;
       drawBuffers := drawBuffers g; blendEnabled := blendEnabled g;
       blendFunc := blendFunc g; viewport := (width, height);
       currentProgram := currentProgram g |}).

(** [program->bind()]; a program is known by its description. *)
Definition bindProgram (description : text) : M unit :=
  setGL (fun g =>
    {| framebufferBinding := framebufferBinding g; colorAttachments := colorAttachments g;
       drawBuffers := drawBuffers g; blendEnabled := blendEnabled g;
       blendFunc := blendFunc g; viewport := viewport g;
       currentProgram := Some description |}).

Definition glFinish : M unit := emit Finish.
Definition glActiveTexture (textureUnit : nat) : M unit := ret tt.

(** [renderQuad()] of util.hpp draws with the whole current state. *)
Definition renderQuad : M unit := w <- getWorld ;; emit (Draw (gl w)).

Definition setUniformValue (uniformName : text) : M unit := emit (Uniform uniformName).
Definition setUniformMatrix (uniformName : text) (rows : list (list Q)) : M unit :=
  emit (UniformMatrix uniformName rows).
Definition setUniformTexture (texture : Texture) (textureUnit : nat) (uniformName : text)
  : M unit :=
  emit (Uniform uniformName).

(** [saveTexture] of util.hpp writes one file. *)
Definition saveTexture (texture : Texture) (what path : text) : M unit :=
  emit (SaveTexture texture what path).

Definition cerr (message : text) : M unit := emit (Stderr message).

(** The iteration order of [std::set<QString>]: increasing by
    [operator<] of QString, which compares code unit by code unit. *)
Fixpoint textLtb (a b : text) : bool :=
  match a, b with
  | [], [] => false
  | [], _ :: _ => true
  | _ :: _, [] => false
  | x :: a', y :: b' =>
      if (code x <? code y)%N then true
      else if (code y <? code x)%N then false
      else textLtb a' b'
  end.

Fixpoint insertSorted (x : text) (l : list text) : list text :=
  match l with
  | [] => [x]
  | y :: l' => if textLtb y x then y :: insertSorted x l' else x :: l
  end.

Definition inOrder (s : gset text) : list text :=
  foldr insertSorted [] (elements s).

(** A linked [QOpenGLShaderProgram]. *)
Record Program : Type := {
  programDescription : text;
  programShaders : list Shader
}.

Definition zeroVec : vec4 := Vec4 0 0 0 0.

Section Generator.

Variable cfg : Setup.

(** [allWavelengths[texIndex]]. *)
Definition wavelengthsOf (texIndex : Z) : vec4 :=
  nth (Z.to_nat texIndex) (allWavelengths cfg) zeroVec.

(** Runs a source generator of src/shaders.cpp on the globals of the
    world, and stores [densitiesHeader] back.  The generator reads headers
    with [getShaderSrc]. *)
Definition withGlobals
    (generator : (text -> result text) -> text -> text -> result text * text) : M text :=
  w <- getWorld ;;
  let '(r, densitiesHeader') :=
    generator (getShaderSrc (disk cfg)) (constantsHeader w) (densitiesHeader w) in
  setDensitiesHeader densitiesHeader' ;;
  liftResult r.

(** *** src/shaders.cpp: compiling and linking *)

Definition rule : text := txt "________________________________________________
".

(** [compileShader(type, source, description)]; the call of the GPU
    compiler, [compileSourceCode], is recorded as an event. *)
Definition compileShader (type : ShaderType) (source description : text) : M Shader :=
  w <- getWorld ;;
  source' <- liftResult (withHeadersIncluded (getShaderSrc (disk cfg)) (constantsHeader w)
                           (densitiesHeader w) source description) ;;
  emit (Compile type description source') ;;
  let (compiled, log) := glslCompile cfg type source' in
  if negb compiled then
    cerr (txt "Failed to compile " ++ description ++ txt ":
" ++ log ++ [nl]) ;;
    cerr (txt "Source of the shader:
" ++ rule) ;;
    cerr (listingText (unicodeWord cfg) source') ;;
    cerr rule ;;
    throw (ErrCompile description)
  else
    when (negb (Nat.eqb (length log) 0))
      (cerr (txt "Warnings while compiling " ++ description ++ txt ":
" ++ log ++ [nl])) ;;
    ret {| shaderType := type; givenSource := source; sourceCode := source' |}.

(** [compileShader(type, filename)]. *)
Definition compileShaderFile (type : ShaderType) (filename : text) : M Shader :=
  src <- liftResult (getShaderSrc (disk cfg) filename) ;;
  compileShader type src filename.

(** [getOrCompileShader(type, filename)]; the shader it returns is also
    recorded as an event. *)
Definition getOrCompileShader (type : ShaderType) (filename : text) : M Shader :=
  w <- getWorld ;;
  shader <- match allShaders w !! filename with
            | Some shader => ret shader
            | None =>
                shader <- compileShaderFile type filename ;;
                setAllShaders (insert filename shader) ;;
                ret shader
            end ;;
  emit (ShaderUsed filename shader) ;;
  ret shader.

Fixpoint getOrCompileShaders (type : ShaderType) (filenames : list text) : M (list Shader) :=
  match filenames with
  | [] => ret []
  | filename :: rest =>
      shader <- getOrCompileShader type filename ;;
      shaders <- getOrCompileShaders type rest ;;
      ret (shader :: shaders)
  end.

(** [compileShaderProgram(mainSrcFileName, description, useGeomShader)]. *)
Definition compileShaderProgram (mainSrcFileName description : text) (useGeomShader : bool)
  : M Program :=
  shaderFileNames <- liftResult (getShaderFileNamesToLinkWith (getShaderSrc (disk cfg))
                                   (internalShaders cfg) mainSrcFileName) ;;
  let shaderFileNames := {[ mainSrcFileName ]} ∪ shaderFileNames in
  fragments <- getOrCompileShaders Fragment (inOrder shaderFileNames) ;;
  vertex <- getOrCompileShader Vertex (txt "shader.vert") ;;
  geometry <- (if useGeomShader
               then shader <- getOrCompileShader Geometry (txt "shader.geom") ;; ret [shader]
               else ret []) ;;
  let shaders := fragments ++ [vertex] ++ geometry in
  if negb (glslLink cfg shaders) then
    cerr (txt "Failed to link " ++ description ++ [nl]) ;;
    throw (ErrLink description)
  else ret {| programDescription := description; programShaders := shaders |}.

Definition bind_ (program : Program) : M unit := bindProgram (programDescription program).

(** [checkFramebufferStatus] of util.hpp: throws when the bound
    framebuffer is not complete. *)
Definition checkFramebufferStatus (what : text) : M unit :=
  w <- getWorld ;;
  if framebufferComplete cfg (gl w) then ret tt
  else cerr (txt "Error: " ++ what ++ txt " is incomplete
") ;; throw (ErrFramebuffer what).

(** *** src/generator/main.cpp

    The progress messages are kept without the indentation prefix of
    util.hpp. *)

Definition wlsetSuffix (texIndex : Z) : text :=
  txt "-wlset" ++ number texIndex ++ txt ".f32".

Definition saveIrradiance (scatteringOrder texIndex : Z) : M unit :=
  if negb (dbgSaveGroundIrradiance cfg) then ret tt
  else
    saveTexture TEX_DELTA_IRRADIANCE (txt "irradiance texture")
      (textureOutputDir cfg ++ txt "/irradiance-delta-order" ++ number (scatteringOrder - 1)
         ++ wlsetSuffix texIndex) ;;
    saveTexture TEX_IRRADIANCE (txt "irradiance texture")
      (textureOutputDir cfg ++ txt "/irradiance-accum-order" ++ number (scatteringOrder - 1)
         ++ wlsetSuffix texIndex).

Definition saveScatteringDensity (scatteringOrder texIndex : Z) : M unit :=
  if negb (dbgSaveScatDensity cfg) then ret tt
  else
    saveTexture TEX_DELTA_SCATTERING_DENSITY
      (txt "order " ++ number scatteringOrder ++ txt " scattering density")
      (textureOutputDir cfg ++ txt "/scattering-density" ++ number scatteringOrder
         ++ wlsetSuffix texIndex).

Definition layerStatus (layer : nat) : text :=
  number (Z.of_nat layer) ++ txt " of " ++ number (Z.of_nat (scatTexDepth cfg))
    ++ txt " layers done".

Definition backspace : QChar := 8%N.

Definition render3DTexLayers (program : Program) (whatIsBeingDone : text) : M unit :=
  cerr (whatIsBeingDone ++ txt "... ") ;;
  forEach (seq 0 (scatTexDepth cfg)) (fun layer =>
    cerr (layerStatus layer) ;;
    setUniformValue (txt "layer") ;;
    renderQuad ;;
    glFinish ;;
    let statusWidth := length (layerStatus layer) in
    cerr (repeat backspace statusWidth ++ repeat sp statusWidth
            ++ repeat backspace statusWidth)) ;;
  cerr (txt "done
").

Definition computeTransmittance (texIndex : Z) : M unit :=
  program <- compileShaderProgram (txt "compute-transmittance.frag")
               (txt "transmittance computation shader program") false ;;
  cerr (txt "Computing transmittance... ") ;;
  glBindFramebuffer (Some FBO_TRANSMITTANCE) ;;
  glFramebufferTexture 0 TEX_TRANSMITTANCE ;;
  checkFramebufferStatus (txt "framebuffer for transmittance texture") ;;
  bind_ program ;;
  glViewport (transmittanceTexW cfg) (transmittanceTexH cfg) ;;
  renderQuad ;;
  glFinish ;;
  cerr (txt "done
") ;;
  saveTexture TEX_TRANSMITTANCE (txt "transmittance texture")
    (textureOutputDir cfg ++ txt "/transmittance" ++ wlsetSuffix texIndex) ;;
  glBindFramebuffer None.

Definition computeDirectGroundIrradiance (texIndex : Z) : M unit :=
  program <- compileShaderProgram (txt "compute-direct-irradiance.frag")
               (txt "direct ground irradiance computation shader program") false ;;
  cerr (txt "Computing direct ground irradiance... ") ;;
  glBindFramebuffer (Some FBO_IRRADIANCE) ;;
  glFramebufferTexture 0 TEX_DELTA_IRRADIANCE ;;
  glFramebufferTexture 1 TEX_IRRADIANCE ;;
  checkFramebufferStatus (txt "framebuffer for irradiance texture") ;;
  setDrawBuffers [0%nat; 1%nat] ;;
  bind_ program ;;
  setUniformTexture TEX_TRANSMITTANCE 0 (txt "transmittanceTexture") ;;
  setUniformValue (txt "solarIrradianceAtTOA") ;;
  glViewport (irradianceTexW cfg) (irradianceTexH cfg) ;;
  renderQuad ;;
  glFinish ;;
  cerr (txt "done
") ;;
  saveIrradiance 1 texIndex ;;
  glBindFramebuffer None.

Definition computeSingleScattering (texIndex : Z) (scatterer : Scatterer.t) : M unit :=
  glBindFramebuffer (Some FBO_DELTA_SCATTERING) ;;
  glFramebufferTexture 0 TEX_DELTA_SCATTERING ;;
  checkFramebufferStatus (txt "framebuffer for first scattering") ;;
  glViewport (scatTexWidth cfg) (scatTexHeight cfg) ;;
  densities <- withGlobals (fun shaderSrc constantsHeader densitiesHeader =>
                 makeScattererDensityFunctionsSrc shaderSrc (scatterers cfg) (absorbers cfg)
                   (DENSITIES_SHADER_FILENAME cfg) constantsHeader densitiesHeader
                   (wavelengthsOf texIndex)) ;;
  let src := densities
    ++ txt "float scattererDensity(float alt) { return scattererNumberDensity_"
    ++ Scatterer.name scatterer ++ txt "(alt); }
" ++ txt "vec4 scatteringCrossSection() { return "
    ++ toString cfg (Scatterer.crossSection scatterer (wavelengthsOf texIndex)) ++ txt "; }
" in
  eraseShader (DENSITIES_SHADER_FILENAME cfg) ;;
  writeVirtualSourceFile (DENSITIES_SHADER_FILENAME cfg) src ;;
  program <- compileShaderProgram (txt "compute-single-scattering.frag")
               (txt "single scattering computation shader program") true ;;
  bind_ program ;;
  setUniformValue (txt "solarIrradianceAtTOA") ;;
  setUniformValue (txt "altitudeMin") ;;
  setUniformValue (txt "altitudeMax") ;;
  setUniformTexture TEX_TRANSMITTANCE 0 (txt "transmittanceTexture") ;;
  render3DTexLayers program (txt "Computing single scattering layers") ;;
  glBindFramebuffer None.

Definition diag (x y z w : Q) : mat4 :=
  Mat4 (Vec4 x 0 0 0) (Vec4 0 y 0 0) (Vec4 0 0 z 0) (Vec4 0 0 0 w).

(** The matrix [radianceToLuminance] that [accumulateMultipleScattering]
    builds when the result is not saved as radiance.  [wlCount] is an
    [int]; [back()] and [front()] are the last and first wavelength set. *)
Definition radianceToLuminance (texIndex : Z) : mat4 :=
  let wlCount := int32 (4 * Z.of_nat (length (allWavelengths cfg))) in
  let weights :=
    if wlCount =? 4 then diag (1#2) 1 1 (1#2)
    else if texIndex =? 0 then diag (1#2) 1 1 1
    else if texIndex + 1 =? Z.quot wlCount 4 then diag 1 1 1 (1#2)
    else diag 1 1 1 1 in
  let dlambda :=
    mdiv (mscale weights
            (Qabs (vidx (List.last (allWavelengths cfg) zeroVec) 3
                   - vidx (List.hd zeroVec (allWavelengths cfg)) 0)))
         (inject_Z wlCount - 1) in
  let maxLuminousEfficacy := diag (683002#1000) (683002#1000) (683002#1000) (170013#100) in
  mmul (mmul maxLuminousEfficacy
          (Mat4 (wavelengthToXYZW cfg (vidx (wavelengthsOf texIndex) 0))
                (wavelengthToXYZW cfg (vidx (wavelengthsOf texIndex) 1))
                (wavelengthToXYZW cfg (vidx (wavelengthsOf texIndex) 2))
                (wavelengthToXYZW cfg (vidx (wavelengthsOf texIndex) 3))))
       dlambda.

(** The sources main.cpp specialises by replacing tokens.  It reads them
    with [getShaderSrc(name, IgnoreCache{})]; this overload is declared in
    shaders.hpp, which is not among the sources, and is taken to read the
    file of the shader directory as [getShaderSrc(name)] of
    src/shaders.cpp does. *)
Definition scatteringDensitySource (groundOnly : text) (scatteringOrder : Z) : M text :=
  src <- liftResult (getShaderSrc (disk cfg) (COMPUTE_SCATTERING_DENSITY_FILENAME cfg)) ;;
  ret (replaceWord (unicodeWord cfg) (txt "SCATTERING_ORDER") (number scatteringOrder)
         (replaceWord (unicodeWord cfg) (txt "RADIATION_IS_FROM_GROUND_ONLY") groundOnly src)).

Definition indirectIrradianceSource (scatteringOrder : Z) : M text :=
  src <- liftResult (getShaderSrc (disk cfg) (COMPUTE_INDIRECT_IRRADIANCE_FILENAME cfg)) ;;
  ret (replaceWord (unicodeWord cfg) (txt "SCATTERING_ORDER") (number (scatteringOrder - 1))
         src).

Definition phaseFunctionsSrc : M text :=
  w <- getWorld ;;
  liftResult (makePhaseFunctionsSrc cfg (constantsHeader w) (densitiesHeader w)).

Definition currentPhaseFunctionOf (scatterer : Scatterer.t) : text :=
  txt "vec4 currentPhaseFunction(float dotViewSun) { return phaseFunction_"
    ++ Scatterer.name scatterer ++ txt "(dotViewSun); }
".

Definition computeIndirectIrradianceOrder1 (texIndex : Z) (scattererIndex : nat) : M unit :=
  let scatteringOrder := 2 in
  glViewport (irradianceTexW cfg) (irradianceTexH cfg) ;;
  glBindFramebuffer (Some FBO_IRRADIANCE) ;;
  (if Nat.eqb scattererIndex 0
   then glDisablei GL_BLEND 0
   else glEnablei GL_BLEND 0) ;;
  glEnablei GL_BLEND 1 ;;
  match nth_error (scatterers cfg) scattererIndex with
  | None => ret tt
  | Some scatterer =>
      eraseShader (PHASE_FUNCTIONS_SHADER_FILENAME cfg) ;;
      phaseFunctions <- phaseFunctionsSrc ;;
      writeVirtualSourceFile (PHASE_FUNCTIONS_SHADER_FILENAME cfg)
        (phaseFunctions ++ currentPhaseFunctionOf scatterer) ;;
      eraseShader (COMPUTE_INDIRECT_IRRADIANCE_FILENAME cfg) ;;
      src <- indirectIrradianceSource scatteringOrder ;;
      writeVirtualSourceFile (COMPUTE_INDIRECT_IRRADIANCE_FILENAME cfg) src ;;
      program <- compileShaderProgram (COMPUTE_INDIRECT_IRRADIANCE_FILENAME cfg)
                   (txt "indirect irradiance computation shader program") false ;;
      bind_ program ;;
      setUniformTexture TEX_DELTA_SCATTERING 0 (txt "firstScatteringTexture") ;;
      setUniformValue (txt "altitudeMin") ;;
      setUniformValue (txt "altitudeMax") ;;
      cerr (txt "Computing indirect irradiance... ") ;;
      renderQuad ;;
      glFinish ;;
      cerr (txt "done
") ;;
      glDisable GL_BLEND ;;
      saveIrradiance scatteringOrder texIndex ;;
      glBindFramebuffer None
  end.

Definition computeScatteringDensityOrder2 (texIndex : Z) : M unit :=
  let scatteringOrder := 2 in
  eraseShader (DENSITIES_SHADER_FILENAME cfg) ;;
  densities <- withGlobals (fun shaderSrc constantsHeader densitiesHeader =>
                 makeScattererDensityFunctionsSrc shaderSrc (scatterers cfg) (absorbers cfg)
                   (DENSITIES_SHADER_FILENAME cfg) constantsHeader densitiesHeader
                   (wavelengthsOf texIndex)) ;;
  writeVirtualSourceFile (DENSITIES_SHADER_FILENAME cfg) densities ;;
  phaseFunctions <- phaseFunctionsSrc ;;
  eraseShader (PHASE_FUNCTIONS_SHADER_FILENAME cfg) ;;
  writeVirtualSourceFile (PHASE_FUNCTIONS_SHADER_FILENAME cfg)
    (phaseFunctions
       ++ txt "vec4 currentPhaseFunction(float dotViewSun) { return vec4(3.4028235e38); }
") ;;
  eraseShader (COMPUTE_SCATTERING_DENSITY_FILENAME cfg) ;;
  src <- scatteringDensitySource (txt "true") scatteringOrder ;;
  writeVirtualSourceFile (COMPUTE_SCATTERING_DENSITY_FILENAME cfg) src ;;
  program <- compileShaderProgram (COMPUTE_SCATTERING_DENSITY_FILENAME cfg)
               (txt "scattering density computation shader program") true ;;
  glViewport (scatTexWidth cfg) (scatTexHeight cfg) ;;
  bind_ program ;;
  setUniformValue (txt "altitudeMin") ;;
  setUniformValue (txt "altitudeMax") ;;
  glBindFramebuffer (Some FBO_MULTIPLE_SCATTERING) ;;
  glFramebufferTexture 0 TEX_DELTA_SCATTERING_DENSITY ;;
  checkFramebufferStatus (txt "framebuffer for scattering density") ;;
  setUniformTexture TEX_TRANSMITTANCE 0 (txt "transmittanceTexture") ;;
  setUniformTexture TEX_DELTA_IRRADIANCE 1 (txt "irradianceTexture") ;;
  render3DTexLayers program
    (txt "Computing scattering density layers for radiation from the ground") ;;
  when (dbgSaveScatDensityOrder2FromGround cfg)
    (saveTexture TEX_DELTA_SCATTERING_DENSITY
       (txt "order 2 scattering density from ground texture")
       (textureOutputDir cfg ++ txt "/scattering-density2-from-ground" ++ wlsetSuffix texIndex)) ;;
  glBlendFunc GL_ONE GL_ONE ;;
  forEach (seq 0 (length (scatterers cfg))) (fun scattererIndex =>
    match nth_error (scatterers cfg) scattererIndex with
    | None => ret tt
    | Some scatterer =>
        cerr (txt "Processing scatterer " ++ [dq] ++ Scatterer.name scatterer ++ [dq]
                ++ txt ":
") ;;
        computeSingleScattering texIndex scatterer ;;
        glBindFramebuffer (Some FBO_MULTIPLE_SCATTERING) ;;
        phaseFunctions <- phaseFunctionsSrc ;;
        eraseShader (PHASE_FUNCTIONS_SHADER_FILENAME cfg) ;;
        writeVirtualSourceFile (PHASE_FUNCTIONS_SHADER_FILENAME cfg)
          (phaseFunctions ++ currentPhaseFunctionOf scatterer) ;;
        eraseShader (COMPUTE_SCATTERING_DENSITY_FILENAME cfg) ;;
        src <- scatteringDensitySource (txt "false") scatteringOrder ;;
        writeVirtualSourceFile (COMPUTE_SCATTERING_DENSITY_FILENAME cfg) src ;;
        program <- compileShaderProgram (COMPUTE_SCATTERING_DENSITY_FILENAME cfg)
                     (txt "scattering density computation shader program") true ;;
        bind_ program ;;
        setUniformTexture TEX_DELTA_SCATTERING 1 (txt "firstScatteringTexture") ;;
        setUniformValue (txt "altitudeMin") ;;
        setUniformValue (txt "altitudeMax") ;;
        glEnable GL_BLEND ;;
        render3DTexLayers program (txt "Computing scattering density layers") ;;
        computeIndirectIrradianceOrder1 texIndex scattererIndex
    end) ;;
  glDisable GL_BLEND ;;
  saveScatteringDensity scatteringOrder texIndex ;;
  glBindFramebuffer None.

(** [assert(scatteringOrder>2)] holds at the only call site. *)
Definition computeScatteringDensity (scatteringOrder texIndex : Z) : M unit :=
  glBindFramebuffer (Some FBO_MULTIPLE_SCATTERING) ;;
  glFramebufferTexture 0 TEX_DELTA_SCATTERING_DENSITY ;;
  eraseShader (COMPUTE_SCATTERING_DENSITY_FILENAME cfg) ;;
  src <- scatteringDensitySource (txt "false") scatteringOrder ;;
  writeVirtualSourceFile (COMPUTE_SCATTERING_DENSITY_FILENAME cfg) src ;;
  program <- compileShaderProgram (COMPUTE_SCATTERING_DENSITY_FILENAME cfg)
               (txt "scattering density computation shader program") true ;;
  bind_ program ;;
  setUniformTexture TEX_TRANSMITTANCE 0 (txt "transmittanceTexture") ;;
  setUniformTexture TEX_DELTA_IRRADIANCE 1 (txt "irradianceTexture") ;;
  setUniformTexture TEX_DELTA_SCATTERING 2 (txt "multipleScatteringTexture") ;;
  setUniformValue (txt "altitudeMin") ;;
  setUniformValue (txt "altitudeMax") ;;
  render3DTexLayers program (txt "Computing scattering density layers") ;;
  saveScatteringDensity scatteringOrder texIndex ;;
  glBindFramebuffer None.

Definition computeIndirectIrradiance (scatteringOrder texIndex : Z) : M unit :=
  glViewport (irradianceTexW cfg) (irradianceTexH cfg) ;;
  glBindFramebuffer (Some FBO_IRRADIANCE) ;;
  glDisablei GL_BLEND 0 ;;
  glEnablei GL_BLEND 1 ;;
  eraseShader (COMPUTE_INDIRECT_IRRADIANCE_FILENAME cfg) ;;
  src <- indirectIrradianceSource scatteringOrder ;;
  writeVirtualSourceFile (COMPUTE_INDIRECT_IRRADIANCE_FILENAME cfg) src ;;
  program <- compileShaderProgram (COMPUTE_INDIRECT_IRRADIANCE_FILENAME cfg)
               (txt "indirect irradiance computation shader program") false ;;
  bind_ program ;;
  setUniformTexture TEX_DELTA_SCATTERING 0 (txt "multipleScatteringTexture") ;;
  setUniformValue (txt "altitudeMin") ;;
  setUniformValue (txt "altitudeMax") ;;
  cerr (txt "Computing indirect irradiance... ") ;;
  renderQuad ;;
  glFinish ;;
  cerr (txt "done
") ;;
  glDisable GL_BLEND ;;
  saveIrradiance scatteringOrder texIndex ;;
  glBindFramebuffer None.

Definition accumulateMultipleScattering (scatteringOrder texIndex : Z) : M unit :=
  glActiveTexture 0 ;;
  (if (scatteringOrder >? 2) || ((texIndex >? 0) && negb (saveResultAsRadiance cfg))
   then glEnable GL_BLEND
   else glDisable GL_BLEND) ;;
  glBindFramebuffer (Some FBO_MULTIPLE_SCATTERING) ;;
  glFramebufferTexture 0 TEX_MULTIPLE_SCATTERING ;;
  checkFramebufferStatus (txt "framebuffer for accumulation of multiple scattering data") ;;
  program <- compileShaderProgram (txt "copy-scattering-texture.frag")
               (txt "scattering texture copy-blend shader program") true ;;
  bind_ program ;;
  when (negb (saveResultAsRadiance cfg))
    (setUniformMatrix (txt "radianceToLuminance")
       (transposed (QMatrix4x4 (valuePtr (radianceToLuminance texIndex))))) ;;
  setUniformTexture TEX_DELTA_SCATTERING 0 (txt "tex") ;;
  render3DTexLayers program (txt "Blending multiple scattering layers into accumulator texture") ;;
  glDisable GL_BLEND ;;
  glBindFramebuffer None ;;
  when (dbgSaveAccumScattering cfg)
    (saveTexture TEX_MULTIPLE_SCATTERING (txt "multiple scattering accumulator texture")
       (textureOutputDir cfg ++ txt "/multiple-scattering-to-order" ++ number scatteringOrder
          ++ wlsetSuffix texIndex)) ;;
  when ((scatteringOrder =? scatteringOrdersToCompute cfg)
        && ((texIndex + 1 =? Z.of_nat (length (allWavelengths cfg)))
            || saveResultAsRadiance cfg))
    (let filename :=
       if saveResultAsRadiance cfg
       then textureOutputDir cfg ++ txt "/multiple-scattering" ++ wlsetSuffix texIndex
       else textureOutputDir cfg ++ txt "/multiple-scattering-xyzw.f32" in
     saveTexture TEX_MULTIPLE_SCATTERING (txt "multiple scattering accumulator texture")
       filename).

Definition computeMultipleScatteringFromDensity (scatteringOrder texIndex : Z) : M unit :=
  glBindFramebuffer (Some FBO_MULTIPLE_SCATTERING) ;;
  glFramebufferTexture 0 TEX_DELTA_SCATTERING ;;
  checkFramebufferStatus (txt "framebuffer for delta multiple scattering") ;;
  glViewport (scatTexWidth cfg) (scatTexHeight cfg) ;;
  program <- compileShaderProgram (txt "compute-multiple-scattering.frag")
               (txt "multiple scattering computation shader program") true ;;
  bind_ program ;;
  setUniformValue (txt "altitudeMin") ;;
  setUniformValue (txt "altitudeMax") ;;
  setUniformTexture TEX_TRANSMITTANCE 0 (txt "transmittanceTexture") ;;
  setUniformTexture TEX_DELTA_SCATTERING_DENSITY 1 (txt "scatteringDensityTexture") ;;
  render3DTexLayers program (txt "Computing multiple scattering layers") ;;
  when (dbgSaveDeltaScattering cfg)
    (saveTexture TEX_DELTA_SCATTERING (txt "delta scattering texture")
       (textureOutputDir cfg ++ txt "/delta-scattering-order" ++ number scatteringOrder
          ++ wlsetSuffix texIndex)) ;;
  glBindFramebuffer None ;;
  accumulateMultipleScattering scatteringOrder texIndex.

(** The orders [3 .. scatteringOrdersToCompute] of the [for] loop. *)
Definition higherOrders : list Z :=
  map (fun i => 3 + Z.of_nat i) (seq 0 (Z.to_nat (scatteringOrdersToCompute cfg - 2))).

Definition computeMultipleScattering (texIndex : Z) : M unit :=
  cerr (txt "Working on scattering orders 1 and 2:
") ;;
  computeScatteringDensityOrder2 texIndex ;;
  computeMultipleScatteringFromDensity 2 texIndex ;;
  forEach higherOrders (fun scatteringOrder =>
    cerr (txt "Working on scattering order " ++ number scatteringOrder ++ txt ":
") ;;
    computeScatteringDensity scatteringOrder texIndex ;;
    computeIndirectIrradiance scatteringOrder texIndex ;;
    computeMultipleScatteringFromDensity scatteringOrder texIndex).

(** [initConstHeader(allWavelengths[texIndex])]: the overload called by
    main.cpp is not among the sources; its text is a parameter. *)
Definition initConstHeader (wavelengths : vec4) : M unit :=
  setConstantsHeader (constantsHeaderFor cfg wavelengths).

(** The body of the loop over the wavelength sets in [main]. *)
Definition processWavelengthSet (texIndex : Z) : M unit :=
  cerr (txt "Working on wavelengths (set " ++ number (texIndex + 1) ++ txt " of "
          ++ number (Z.of_nat (length (allWavelengths cfg))) ++ txt "):
") ;;
  clearShaders ;;
  initConstHeader (wavelengthsOf texIndex) ;;
  source <- withGlobals (fun shaderSrc constantsHeader densitiesHeader =>
              makeTransmittanceComputeFunctionsSrc shaderSrc (scatterers cfg) (absorbers cfg)
                (toString cfg) (COMPUTE_TRANSMITTANCE_SHADER_FILENAME cfg)
                constantsHeader densitiesHeader (wavelengthsOf texIndex)) ;;
  writeVirtualSourceFile (COMPUTE_TRANSMITTANCE_SHADER_FILENAME cfg) source ;;
  phaseFunctions <- phaseFunctionsSrc ;;
  writeVirtualSourceFile (PHASE_FUNCTIONS_SHADER_FILENAME cfg) phaseFunctions ;;
  w <- getWorld ;;
  totalScatteringCoef <- liftResult (makeTotalScatteringCoefSrc cfg (constantsHeader w)
                                       (densitiesHeader w)) ;;
  writeVirtualSourceFile (TOTAL_SCATTERING_COEFFICIENT_SHADER_FILENAME cfg)
    totalScatteringCoef ;;
  cerr (txt "Computing parts of scattering order 1:
") ;;
  computeTransmittance texIndex ;;
  computeDirectGroundIrradiance texIndex ;;
  computeMultipleScattering texIndex.

(** The computation of [main] after [init()]. *)
Definition generate : M unit :=
  forEach (map Z.of_nat (seq 0 (length (allWavelengths cfg)))) processWavelengthSet.

(** The exit status of [main]: [MustQuit] is caught and turned into 1. *)
Definition exitStatus (w : World) : Z :=
  match outcome generate w with
  | Ok _ => 0
  | Throw _ => 1
  end.

End Generator.

(** ** Vocabulary of the properties *)

(** The states in which the draw calls of a run were issued. *)
Definition drawsOf (evs : list Event) : list GLState :=
  omap (fun ev => match ev with Draw g => Some g | _ => None end) evs.

(** The files a run wrote: texture and path, in order. *)
Definition savesOf (evs : list Event) : list (Texture * text) :=
  omap (fun ev => match ev with SaveTexture t _ path => Some (t, path) | _ => None end) evs.

(** The matrix uniforms a run set: name and rows, in order. *)
Definition matrixUniformsOf (evs : list Event) : list (text * list (list Q)) :=
  omap (fun ev => match ev with UniformMatrix name rows => Some (name, rows) | _ => None end)
    evs.

(** What the run printed on [std::cerr]. *)
Definition stderrOf (evs : list Event) : list text :=
  omap (fun ev => match ev with Stderr m => Some m | _ => None end) evs.

(** The texture a draw writes through draw buffer [i]. *)
Definition renderTarget (g : GLState) (i : nat) : option Texture :=
  match framebufferBinding g with
  | Some fbo => colorAttachments g fbo i
  | None => None
  end.

(** Events of compilation and linking: messages and shaders handed out. *)
Definition isCompileEvent (ev : Event) : Prop :=
  match ev with
  | Stderr _ | Compile _ _ _ | ShaderUsed _ _ => True
  | _ => False
  end.

(** Events of rendering the layers of a 3D texture in state [g]. *)
Definition isRenderEvent (g : GLState) (ev : Event) : Prop :=
  match ev with
  | Draw g' => g' = g
  | Stderr _ | Uniform _ | Finish => True
  | _ => False
  end.

(** *** Shaders and rewritten virtual sources

    A shader like [shader] is compiled from the file [filename] among
    [evs]. *)
Definition compiledIn (filename : text) (shader : Shader) (evs : list Event) : Prop :=
  In (Compile (shaderType shader) filename (sourceCode shader)) evs.

(** Whenever a shader is handed out for a file whose virtual source was
    written before, the shader was compiled after the write. *)
Definition noStaleShader (evs : list Event) : Prop :=
  forall pre filename source mid shader post,
    evs = pre ++ VirtualWrite filename source :: mid ++ ShaderUsed filename shader :: post ->
    compiledIn filename shader mid.

(** For the files whose virtual source was written so far: what was
    compiled from the file since the last write. *)
Abbreviation Since := (gmap text (list (ShaderType * text))).

Definition sinceStep (st : Since) (ev : Event) : Since :=
  match ev with
  | VirtualWrite filename _ => <[filename := []]> st
  | Compile type description source =>
      match st !! description with
      | Some compiled => <[description := (type, source) :: compiled]> st
      | None => st
      end
  | _ => st
  end.

Definition sinceAfter (st : Since) (evs : list Event) : Since := fold_left sinceStep evs st.

Definition servedFresh (st : Since) (filename : text) (shader : Shader) : Prop :=
  match st !! filename with
  | Some compiled => In (shaderType shader, sourceCode shader) compiled
  | None => True
  end.

Fixpoint freshUses (st : Since) (evs : list Event) : Prop :=
  match evs with
  | [] => True
  | ev :: rest =>
      match ev with
      | ShaderUsed filename shader => servedFresh st filename shader
      | _ => True
      end /\ freshUses (sinceStep st ev) rest
  end.

(** *** A compilation that fails

    What [compileShader] prints when the compiler rejects [source]. *)
Definition compileReport (cfg : Setup) (type : ShaderType) (description source : text)
  : list Event :=
  [ Stderr (txt "Failed to compile " ++ description ++ txt ":
" ++ snd (glslCompile cfg type source) ++ [nl]);
    Stderr (txt "Source of the shader:
" ++ rule);
    Stderr (listingText (unicodeWord cfg) source);
    Stderr rule ].

(** Among [evs], a compilation the compiler rejects is followed by the
    report and nothing else, and the outcome [r] is the failure. *)
Definition failStops (cfg : Setup) {A} (r : result A) (evs : list Event) : Prop :=
  forall pre type description source post,
    evs = pre ++ Compile type description source :: post ->
    fst (glslCompile cfg type source) = false ->
    post = compileReport cfg type description source
    /\ r = Throw (ErrCompile description).

Definition fatal (cfg : Setup) {A} (m : M A) : Prop :=
  forall w, failStops cfg (outcome m w) (events m w).

(** A property of the states of all draw calls among some events. *)
Definition drawPred (P : GLState -> Prop) (ev : Event) : Prop :=
  match ev with Draw g => P g | _ => True end.

(** The three things [accumulateMultipleScattering] decides from its
    arguments and the setup: whether blending is on, the matrix uniform,
    and the files written at the end. *)
Definition accumulateBlend (cfg : Setup) (scatteringOrder texIndex : Z) : bool :=
  (scatteringOrder >? 2) || ((texIndex >? 0) && negb (saveResultAsRadiance cfg)).

Definition luminanceUniform (cfg : Setup) (texIndex : Z) : list Event :=
  if negb (saveResultAsRadiance cfg)
  then [UniformMatrix (txt "radianceToLuminance")
          (transposed (QMatrix4x4 (valuePtr (radianceToLuminance cfg texIndex))))]
  else [].

Definition accumulateSaves (cfg : Setup) (scatteringOrder texIndex : Z) : list Event :=
  (if dbgSaveAccumScattering cfg
   then [SaveTexture TEX_MULTIPLE_SCATTERING (txt "multiple scattering accumulator texture")
           (textureOutputDir cfg ++ txt "/multiple-scattering-to-order"
              ++ number scatteringOrder ++ wlsetSuffix texIndex)]
   else [])
  ++ (if (scatteringOrder =? scatteringOrdersToCompute cfg)
         && ((texIndex + 1 =? Z.of_nat (length (allWavelengths cfg)))
             || saveResultAsRadiance cfg)
      then [SaveTexture TEX_MULTIPLE_SCATTERING (txt "multiple scattering accumulator texture")
              (if saveResultAsRadiance cfg
               then textureOutputDir cfg ++ txt "/multiple-scattering" ++ wlsetSuffix texIndex
               else textureOutputDir cfg ++ txt "/multiple-scattering-xyzw.f32")]
      else []).

(** The number the listing gives the line after [line], which got [n]. *)
Definition nextNumber (unicodeWord : QChar -> bool) (n : Z) (line : text) : Z :=
  match lineChanger unicodeWord line with
  | Some digits => toInt digits
  | None => int32 (n + 1)
  end.

(** *** The radiance-to-luminance matrix as the specification words it

    Matrices as functions of row and column, with the textbook product. *)
Definition Mx : Type := nat -> nat -> Q.

Definition mxmul (A B : Mx) : Mx :=
  fun i j =>
    (A i 0%nat * B 0%nat j + A i 1%nat * B 1%nat j
     + A i 2%nat * B 2%nat j + A i 3%nat * B 3%nat j)%Q.

Definition mxdiag (d : vec4) : Mx := fun i j => if Nat.eqb i j then vidx d i else 0%Q.

(** The matrix whose column [j] is [c j]. *)
Definition mxcolumns (c : nat -> vec4) : Mx := fun i j => vidx (c j) i.

Definition mxscale (A : Mx) (s : Q) : Mx := fun i j => (A i j * s)%Q.

(** The entries of a glm matrix: row [i] of column [j]. *)
Definition mxOf (m : mat4) : Mx := fun i j => vidx (mcol m j) i.

(** The trapezoid weights of set [k] out of [N]. *)
Definition trapezoidWeights (N k : Z) : vec4 :=
  if N =? 1 then Vec4 (1#2) 1 1 (1#2)
  else if k =? 0 then Vec4 (1#2) 1 1 1
  else if k =? N - 1 then Vec4 1 1 1 (1#2)
  else Vec4 1 1 1 1.

Definition maxLuminousEfficacy : vec4 :=
  Vec4 (683002#1000) (683002#1000) (683002#1000) (170013#100).

Definition radianceToLuminance_spec (cfg : Setup) (k : Z) : Mx :=
  let N := Z.of_nat (length (allWavelengths cfg)) in
  let lambda := wavelengthsOf cfg k in
  let lambda_first := vx (List.hd zeroVec (allWavelengths cfg)) in
  let lambda_last := vw (List.last (allWavelengths cfg) zeroVec) in
  mxmul (mxmul (mxdiag maxLuminousEfficacy)
               (mxcolumns (fun j => wavelengthToXYZW cfg (vidx lambda j))))
        (mxscale (mxdiag (trapezoidWeights N k))
                 (Qabs (lambda_last - lambda_first) / (inject_Z (4 * N) - 1))).

(** *** Header inclusion as the specification words it

    A line is an include directive for [name] when it is exactly the word
    #include, a space, and [name] between double quotes, [name] ending in
    .h.glsl. *)
Definition isIncludeDirective (line name : text) : Prop :=
  line = includeOpening ++ name ++ [dq]
  /\ name <> [] /\ ~ In dq name /\ exists stem, name = stem ++ txt ".h.glsl".

(** The two generated headers come from memory, every other name from
    the lookup. *)
Definition resolveHeaderWith (shaderSrc : text -> result text)
    (constantsHeader densitiesHeader name : text) : result text :=
  if decide (name = txt "const.h.glsl") then Ok constantsHeader
  else if decide (name = txt "densities.h.glsl") then Ok densitiesHeader
  else shaderSrc name.

(** With the lookup of src/shaders.cpp: the shader directory on disk. *)
Definition resolveHeader (disk : Disk) : text -> text -> text -> result text :=
  resolveHeaderWith (getShaderSrc disk).

(** [Expanded resolve filename n h ls out]: [out] is the lines [ls],
    numbered from [n], with every include directive replaced by its header
    between two #line directives; [h] numbers the headers. *)
Inductive Expanded (resolve : text -> result text) (filename : text)
  : Z -> Z -> list text -> text -> Prop :=
| Expanded_end n h : Expanded resolve filename n h [] []
| Expanded_plain n h line rest out :
    (forall name, ~ isIncludeDirective line name) ->
    Expanded resolve filename (n + 1) h rest out ->
    Expanded resolve filename n h (line :: rest) (line ++ [nl] ++ out)
| Expanded_include n h line name header rest out :
    isIncludeDirective line name ->
    resolve name = Ok header ->
    Expanded resolve filename (n + 1) (h + 1) rest out ->
    Expanded resolve filename n h (line :: rest)
      ((txt "#line 1 " ++ number h ++ txt " // " ++ name ++ [nl])
         ++ header
         ++ (txt "#line " ++ number (n + 1) ++ txt " 0 // " ++ filename ++ [nl])
         ++ out).

(** *** The include graph of the companion sources

    [asksFor shaderSrc f g]: the source [f] can be read and has a line
    that includes the header whose companion source is [g]. *)
Definition asksFor (shaderSrc : text -> result text) (f g : text) : Prop :=
  exists src line,
    shaderSrc f = Ok src /\ In line (lines src) /\ companionOfLine line = Some g.

(** The includes the traversal goes into. *)
Definition follows (shaderSrc : text -> result text) (internalShaders : gset text)
    (f g : text) : Prop :=
  asksFor shaderSrc f g /\ followed internalShaders f g = true.

(** A path of [n] edges. *)
Inductive chain (R : text -> text -> Prop) : nat -> text -> text -> Prop :=
| chain_here f : chain R 0 f f
| chain_step n f g h : R f g -> chain R n g h -> chain R (S n) f h.

Definition unreadable (shaderSrc : text -> result text) (f : text) : Prop :=
  isOk (shaderSrc f) = false.

(** *** The transmittance source

    The optical-depth template of [makeTransmittanceComputeFunctionsSrc]
    cut at its two tokens. *)
Inductive Piece : Type :=
| Literal (t : text)
| AgentKind
| AgentSpecies.

Definition opticalDepthTemplatePieces : list Piece :=
  [ Literal (txt "
vec4 opticalDepthToAtmosphereBorder_");
    AgentSpecies;
    Literal (txt "(float altitude, float cosZenithAngle, vec4 crossSection)
{
    const float integrInterval=distanceToAtmosphereBorder(cosZenithAngle, altitude);

    const float R=earthRadius;
    const float r1=R+altitude;
    const float l=integrInterval;
    const float mu=cosZenithAngle;
    /* From law of cosines: " ++ lawOfCosines ++ txt " */
    const float endAltitude=-R+sqrt(sqr(r1)+sqr(l)+2*r1*l*mu);

    const float dl=integrInterval/(numTransmittanceIntegrationPoints-1);

    /* Using trapezoid rule on a uniform grid: f0/2+f1+f2+...+f(N-2)+f(N-1)/2. */
    float sum=(");
    AgentKind;
    Literal (txt "NumberDensity_");
    AgentSpecies;
    Literal (txt "(altitude)+
               ");
    AgentKind;
    Literal (txt "NumberDensity_");
    AgentSpecies;
    Literal (txt "(endAltitude))/2;
    for(int n=1;n<numTransmittanceIntegrationPoints-1;++n)
    {
        const float dist=n*dl;
        const float currAlt=-R+sqrt(sqr(r1)+sqr(dist)+2*r1*dist*mu);
        sum+=");
    AgentKind;
    Literal (txt "NumberDensity_");
    AgentSpecies;
    Literal (txt "(currAlt);
    }
    return sum*dl*crossSection;
}
") ].

Definition fillPiece (kind species : text) (p : Piece) : text :=
  match p with
  | Literal t => t
  | AgentKind => kind
  | AgentSpecies => species
  end.

(** The pieces with a species kind and name in place of the tokens. *)
Definition fill (kind species : text) (pieces : list Piece) : text :=
  concat (map (fillPiece kind species) pieces).

(** One term of the sum [depth]: the optical-depth function of a species
    applied with a cross-section written out as a literal. *)
Definition depthTerm (species literal : text) : text :=
  txt "        +opticalDepthToAtmosphereBorder_" ++ species
    ++ txt "(altitude,cosZenithAngle," ++ literal ++ txt ")
".

(** A name made of letters, digits and underscores. *)
Definition wordOnly (name : text) : Prop := forallb isWordChar name = true.

(** What the transmittance source ends with: one optical-depth function
    per species, scatterers first, and the function
    [computeTransmittanceToAtmosphereBorder] that sums one term per
    species and returns [exp(-depth)]. *)
Definition TransmittanceSource (scatterers : list Scatterer.t) (absorbers : list Absorber.t)
    (toString : vec4 -> text) (wavelengths : vec4) (out : text) : Prop :=
  exists before,
    out = before
      ++ concat (map (fun s => fill (txt "scatterer") (Scatterer.name s)
                                 opticalDepthTemplatePieces) scatterers)
      ++ concat (map (fun a => fill (txt "absorber") (Absorber.name a)
                                 opticalDepthTemplatePieces) absorbers)
      ++ computeFunctionOpening
      ++ concat (map (fun s => depthTerm (Scatterer.name s)
                                 (toString (Scatterer.crossSection s wavelengths)))
                   scatterers)
      ++ concat (map (fun a => depthTerm (Absorber.name a)
                                 (toString (Absorber.crossSection a wavelengths)))
                   absorbers)
      ++ computeFunctionClosing.

(** [clash s p]: [s] and [p] differ at a position both have;
    [clearOf p s]: this holds for [s] and for each of its suffixes, so no
    occurrence of [p] starts inside [s], whatever follows. *)
Fixpoint clash (s p : text) : bool :=
  match p, s with
  | a :: p', b :: s' => negb (N.eqb a b) || clash s' p'
  | _, _ => false
  end.

Fixpoint clearOf (p s : text) : bool :=
  match s with
  | [] => true
  | _ :: s' => clash s p && clearOf p s'
  end.

(** A line [withHeadersIncluded] copies: [readLine] returns it whole and
    it does not open an include directive. *)
Definition plainLine (l : text) : Prop :=
  ~ In nl l /\ chopCR (rev l) = rev l
  /\ startsWith (simplified l) includeOpening = false.

(** Complete plain lines, one after the other. *)
Inductive plainText : text -> Prop :=
| plainText_nil : plainText []
| plainText_line l rest : plainLine l -> plainText rest -> plainText (l ++ nl :: rest).

Definition endsNl (t : text) : Prop := exists p, t = p ++ [nl].
Definition endsLine (t : text) : Prop := t = [] \/ endsNl t.

Definition endsNlb (t : text) : bool :=
  match rev t with
  | c :: _ => N.eqb c nl
  | [] => false
  end.

(** Characters that cannot end a line or open a directive. *)
Definition inertChar (c : QChar) : bool :=
  negb (N.eqb c nl) && negb (N.eqb c cr) && negb (N.eqb c hash).

Definition inertText (t : text) : bool :=
  forallb (fun c => negb (N.eqb c cr) && negb (N.eqb c hash)) t.

(** *** The shader cache

    The events that concern the cache. *)
Definition isCacheEvent (ev : Event) : bool :=
  match ev with
  | Compile _ _ _ | ShaderUsed _ _ | VirtualWrite _ _ => true
  | _ => false
  end.

(** A computation that leaves [allShaders] as it is, compiles nothing,
    hands out no shader and writes no virtual source. *)
Definition neutral {A} (m : M A) : Prop :=
  forall w,
    allShaders (finalWorld m w) = allShaders w
    /\ forallb (fun ev => negb (isCacheEvent ev)) (events m w) = true.

(** Every cached shader is fresh, and the cache has no entry for the
    files in [absent]. *)
Definition cached (absent : text -> Prop) (st : Since) (w : World) : Prop :=
  (forall filename shader,
     allShaders w !! filename = Some shader -> servedFresh st filename shader)
  /\ forall f, absent f -> allShaders w !! f = None.

(** Started where [P] holds, [m] hands out fresh shaders only, and [Q]
    holds where it returns. *)
Definition cacheTriple {A : Type} (P : Since -> World -> Prop) (m : M A)
    (Q : Since -> World -> Prop) : Prop :=
  forall st w, P st w ->
    freshUses st (events m w)
    /\ (isOk (outcome m w) = true -> Q (sinceAfter st (events m w)) (finalWorld m w)).

(** Assertions about the cache only. *)
Definition stable (P : Since -> World -> Prop) : Prop :=
  forall st w w', allShaders w' = allShaders w -> P st w -> P st w'.

(** *** OpenGL state along the schedule *)

(** Blending, where it is on, adds source and target. *)
Definition additiveWhenBlending (g : GLState) : Prop :=
  (exists i, blendEnabled g i = true) -> blendFunc g = (GL_ONE, GL_ONE).

(** The irradiance framebuffer writes draw buffer 0 to the delta
    irradiance texture and draw buffer 1 to the irradiance texture. *)
Definition irradianceTargets (g : GLState) : Prop :=
  colorAttachments g FBO_IRRADIANCE 0%nat = Some TEX_DELTA_IRRADIANCE
  /\ colorAttachments g FBO_IRRADIANCE 1%nat = Some TEX_IRRADIANCE
  /\ drawBuffers g FBO_IRRADIANCE = [0%nat; 1%nat].

Definition goodDraw (g : GLState) : Prop :=
  additiveWhenBlending g
  /\ (framebufferBinding g = Some FBO_IRRADIANCE -> irradianceTargets g).

Inductive BlendPhase : Type :=
| OffOrAdditive
| Additive.

(** What is known of the OpenGL state at a point of the schedule. *)
Record Phase : Type := {
  blendOf : BlendPhase;
  boundOf : option (option Framebuffer);
  deltaAttached : bool;
  accumAttached : bool;
  buffersSet : bool
}.

Definition inBlend (b : BlendPhase) (g : GLState) : Prop :=
  match b with
  | OffOrAdditive => (forall i, blendEnabled g i = false) \/ blendFunc g = (GL_ONE, GL_ONE)
  | Additive => blendFunc g = (GL_ONE, GL_ONE)
  end.

Definition inPhase (p : Phase) (g : GLState) : Prop :=
  inBlend (blendOf p) g
  /\ (forall f, boundOf p = Some f -> framebufferBinding g = f)
  /\ (deltaAttached p = true ->
      colorAttachments g FBO_IRRADIANCE 0%nat = Some TEX_DELTA_IRRADIANCE)
  /\ (accumAttached p = true ->
      colorAttachments g FBO_IRRADIANCE 1%nat = Some TEX_IRRADIANCE)
  /\ (buffersSet p = true -> drawBuffers g FBO_IRRADIANCE = [0%nat; 1%nat]).

Definition glTriple {A} (p : Phase) (m : M A) (q : Phase) : Prop :=
  forall w, inPhase p (gl w) ->
    Forall (drawPred goodDraw) (events m w)
    /\ (isOk (outcome m w) = true -> inPhase q (gl (finalWorld m w))).

Definition irradianceReady (p : Phase) : bool :=
  deltaAttached p && accumAttached p && buffersSet p.

Definition drawable (p : Phase) : bool :=
  match boundOf p with
  | Some None => true
  | Some (Some fbo) => if decide (fbo = FBO_IRRADIANCE) then irradianceReady p else true
  | None => irradianceReady p
  end.

Definition blendLe (b c : BlendPhase) : bool :=
  match b, c with
  | OffOrAdditive, Additive => false
  | _, _ => true
  end.

(** [phaseLe p q]: what [q] knows, [p] knows. *)
Definition phaseLe (p q : Phase) : bool :=
  blendLe (blendOf p) (blendOf q)
  && match boundOf q with
     | None => true
     | Some f => bool_decide (boundOf p = Some f)
     end
  && implb (deltaAttached q) (deltaAttached p)
  && implb (accumAttached q) (accumAttached p)
  && implb (buffersSet q) (buffersSet p).

Definition onBind (fbo : option Framebuffer) (p : Phase) : Phase :=
  {| blendOf := blendOf p; boundOf := Some fbo; deltaAttached := deltaAttached p;
     accumAttached := accumAttached p; buffersSet := buffersSet p |}.

Definition onAttach (i : nat) (texture : Texture) (p : Phase) : Phase :=
  match boundOf p with
  | Some None => p
  | Some (Some fbo) =>
      if decide (fbo = FBO_IRRADIANCE) then
        {| blendOf := blendOf p; boundOf := boundOf p;
           deltaAttached := if decide (i = 0%nat)
                            then bool_decide (texture = TEX_DELTA_IRRADIANCE)
                            else deltaAttached p;
           accumAttached := if decide (i = 1%nat)
                            then bool_decide (texture = TEX_IRRADIANCE)
                            else accumAttached p;
           buffersSet := buffersSet p |}
      else p
  | None =>
      {| blendOf := blendOf p; boundOf := None; deltaAttached := false;
         accumAttached := false; buffersSet := buffersSet p |}
  end.

Definition onDrawBuffers (bufs : list nat) (p : Phase) : Phase :=
  match boundOf p with
  | Some None => p
  | Some (Some fbo) =>
      if decide (fbo = FBO_IRRADIANCE) then
        {| blendOf := blendOf p; boundOf := boundOf p; deltaAttached := deltaAttached p;
           accumAttached := accumAttached p;
           buffersSet := bool_decide (bufs = [0%nat; 1%nat]) |}
      else p
  | None =>
      {| blendOf := blendOf p; boundOf := None; deltaAttached := deltaAttached p;
         accumAttached := accumAttached p; buffersSet := false |}
  end.

Definition onBlendFunc (p : Phase) : Phase :=
  {| blendOf := Additive; boundOf := boundOf p; deltaAttached := deltaAttached p;
     accumAttached := accumAttached p; buffersSet := buffersSet p |}.

(** The phases at the seams of the schedule: at the start of a
    wavelength set, after the direct ground irradiance, and after the
    blend function is set. *)
Definition atSetStart : Phase :=
  {| blendOf := OffOrAdditive; boundOf := None; deltaAttached := false;
     accumAttached := false; buffersSet := false |}.

Definition irradianceAttached : Phase :=
  {| blendOf := OffOrAdditive; boundOf := None; deltaAttached := true;
     accumAttached := true; buffersSet := true |}.

Definition blendingAdditively : Phase :=
  {| blendOf := Additive; boundOf := None; deltaAttached := true;
     accumAttached := true; buffersSet := true |}.

(** *** The final file

    How often a run writes a file. *)
Definition savedAs (path : text) (ev : Event) : bool :=
  match ev with
  | SaveTexture _ _ p => bool_decide (p = path)
  | _ => false
  end.

Definition timesSaved (path : text) (evs : list Event) : nat :=
  length (List.filter (savedAs path) evs).

(** [m] writes the file [path] at most [n] times, and [n] times when it
    returns. *)
Definition writes (path : text) {A} (m : M A) (n : nat) : Prop :=
  forall w,
    (timesSaved path (events m w) <= n)%nat
    /\ (isOk (outcome m w) = true -> timesSaved path (events m w) = n).

Definition finalFile (cfg : Setup) (k0 : Z) : text :=
  if saveResultAsRadiance cfg
  then textureOutputDir cfg ++ txt "/multiple-scattering" ++ wlsetSuffix k0
  else textureOutputDir cfg ++ txt "/multiple-scattering-xyzw.f32".

(** Whether the wavelength set [k] is the one that writes [finalFile cfg k0]. *)
Definition finalSet (cfg : Setup) (k0 k : Z) : bool :=
  if saveResultAsRadiance cfg then k =? k0
  else k + 1 =? Z.of_nat (length (allWavelengths cfg)).

Definition indicator (b : bool) : nat := if b then 1%nat else 0%nat.

(** The set that writes [finalFile cfg k0] is one of the sets. *)
Definition finalSetExists (cfg : Setup) (k0 : Z) : bool :=
  if saveResultAsRadiance cfg
  then (0 <=? k0) && (k0 <? Z.of_nat (length (allWavelengths cfg)))
  else 1 <=? Z.of_nat (length (allWavelengths cfg)).


(** *** What the include pass copies, rejects and lists *)

(** The lines, each ended by a line feed. *)
Definition unlines (ls : list text) : text := concat (map (fun l => l ++ [nl]) ls).

(** [t] with a line feed added when it does not end in one. *)
Definition completed (t : text) : text :=
  match t with
  | [] => []
  | _ => if endsNlb t then t else t ++ [nl]
  end.

(** The test of the loop of [withHeadersIncluded]: once white space is
    simplified, the line starts like an include directive. *)
Definition opensInclude (line : text) : bool :=
  startsWith (simplified line) includeOpening.

(** A line that makes [withHeadersIncluded] throw: it starts like an
    include directive and is not exactly one, or names a file without the
    suffix .h.glsl, or names a header that is not generated and cannot be
    read. *)
Definition faulty (shaderSrc : text -> result text) (line : text) : Prop :=
  opensInclude line = true
  /\ (includePattern line = None
      \/ exists name, includePattern line = Some name
           /\ (endsWith name headerSuffix = false
               \/ (name <> CONSTANTS_HEADER_FILENAME /\ name <> DENSITIES_HEADER_FILENAME
                   /\ isOk (shaderSrc name) = false))).

(** A line the listing shows as it is and numbers on: it is no #line
    directive and does not end in a carriage return. *)
Definition copiedAsIs (unicodeWord : QChar -> bool) (line : text) : Prop :=
  lineChanger unicodeWord line = None /\ chopCR (rev line) = rev line.

(** The number a digit string stands for, read after the value [acc]. *)
Definition digitsValue (acc : Z) (digits : text) : Z :=
  fold_left (fun acc c => 10 * acc + digitValue c) digits acc.

(** The files of a program, in the order [compileShaderProgram] adds
    their shaders. *)
Definition programFiles (mainSrcFileName : text) (names : gset text) (useGeomShader : bool)
  : list text :=
  inOrder ({[ mainSrcFileName ]} ∪ names) ++ [txt "shader.vert"]
    ++ (if useGeomShader then [txt "shader.geom"] else []).

(** The events that reach the GPU. *)
Definition isGpuEvent (ev : Event) : bool :=
  match ev with
  | Draw _ | Finish => true
  | _ => false
  end.

(** *** The draws of a run: program, framebuffer, texture and viewport *)

(** The three viewports src/generator/main.cpp sets, and the one it sets
    for the passes that draw into each framebuffer object. *)
Inductive ViewKind : Type :=
| ViewTransmittance
| ViewIrradiance
| ViewScattering.

#[global] Instance ViewKind_eq_dec : EqDecision ViewKind.
Proof. solve_decision. Defined.

Definition viewSize (cfg : Setup) (k : ViewKind) : Z * Z :=
  match k with
  | ViewTransmittance => (transmittanceTexW cfg, transmittanceTexH cfg)
  | ViewIrradiance => (irradianceTexW cfg, irradianceTexH cfg)
  | ViewScattering => (scatTexWidth cfg, scatTexHeight cfg)
  end.

Definition viewOf (fbo : Framebuffer) : ViewKind :=
  match fbo with
  | FBO_TRANSMITTANCE => ViewTransmittance
  | FBO_IRRADIANCE => ViewIrradiance
  | FBO_DELTA_SCATTERING | FBO_MULTIPLE_SCATTERING => ViewScattering
  end.

(** A draw into a framebuffer object, with the viewport of its passes. *)
Definition fittingDraw (cfg : Setup) (g : GLState) : Prop :=
  exists fbo, framebufferBinding g = Some fbo /\ viewport g = viewSize cfg (viewOf fbo).

(** The seven shader programs of src/generator/main.cpp, by the
    description [compileShaderProgram] is given, with the framebuffer
    object each one draws into and the texture it computes. *)
Inductive ProgramKind : Type :=
| ProgTransmittance
| ProgDirectIrradiance
| ProgSingleScattering
| ProgScatteringDensity
| ProgIndirectIrradiance
| ProgMultipleScattering
| ProgCopy.

#[global] Instance ProgramKind_eq_dec : EqDecision ProgramKind.
Proof. solve_decision. Defined.

Definition descriptionOf (k : ProgramKind) : text :=
  match k with
  | ProgTransmittance => txt "transmittance computation shader program"
  | ProgDirectIrradiance => txt "direct ground irradiance computation shader program"
  | ProgSingleScattering => txt "single scattering computation shader program"
  | ProgScatteringDensity => txt "scattering density computation shader program"
  | ProgIndirectIrradiance => txt "indirect irradiance computation shader program"
  | ProgMultipleScattering => txt "multiple scattering computation shader program"
  | ProgCopy => txt "scattering texture copy-blend shader program"
  end.

Definition framebufferOf (k : ProgramKind) : Framebuffer :=
  match k with
  | ProgTransmittance => FBO_TRANSMITTANCE
  | ProgDirectIrradiance | ProgIndirectIrradiance => FBO_IRRADIANCE
  | ProgSingleScattering => FBO_DELTA_SCATTERING
  | ProgScatteringDensity | ProgMultipleScattering | ProgCopy => FBO_MULTIPLE_SCATTERING
  end.

Definition textureOf (k : ProgramKind) : Texture :=
  match k with
  | ProgTransmittance => TEX_TRANSMITTANCE
  | ProgDirectIrradiance | ProgIndirectIrradiance => TEX_DELTA_IRRADIANCE
  | ProgSingleScattering | ProgMultipleScattering => TEX_DELTA_SCATTERING
  | ProgScatteringDensity => TEX_DELTA_SCATTERING_DENSITY
  | ProgCopy => TEX_MULTIPLE_SCATTERING
  end.

(** A draw made by one of the programs, bound to its framebuffer object,
    with its texture at colour attachment 0. *)
Definition ownTarget (g : GLState) : Prop :=
  exists k, currentProgram g = Some (descriptionOf k)
    /\ framebufferBinding g = Some (framebufferOf k)
    /\ colorAttachments g (framebufferOf k) 0%nat = Some (textureOf k).

Definition properDraw (cfg : Setup) (g : GLState) : Prop :=
  fittingDraw cfg g /\ ownTarget g.

(** The default framebuffer is bound and blending is off for every draw
    buffer. *)
Definition restoredGL (g : GLState) : Prop :=
  framebufferBinding g = None /\ forall i, blendEnabled g i = false.

(** What is known of the state at a point of the schedule: the bound
    framebuffer, the viewport, whether blending is off everywhere, the
    program in use, and the texture at colour attachment 0 of each
    framebuffer object. *)
Record Known : Type := {
  targetOf : option (option Framebuffer);
  viewKnown : option ViewKind;
  blendOff : bool;
  programOf : option ProgramKind;
  attachedTo : Framebuffer -> option Texture
}.

Definition knows (cfg : Setup) (p : Known) (g : GLState) : Prop :=
  (forall f, targetOf p = Some f -> framebufferBinding g = f)
  /\ (forall k, viewKnown p = Some k -> viewport g = viewSize cfg k)
  /\ (blendOff p = true -> forall i, blendEnabled g i = false)
  /\ (forall k, programOf p = Some k -> currentProgram g = Some (descriptionOf k))
  /\ (forall fbo t, attachedTo p fbo = Some t -> colorAttachments g fbo 0%nat = Some t).

(** Started in a state [p] describes, [m] makes proper draws only, and
    returns in a state [q] describes. *)
Definition viewTriple (cfg : Setup) {A} (p : Known) (m : M A) (q : Known) : Prop :=
  forall w, knows cfg p (gl w) ->
    Forall (drawPred (properDraw cfg)) (events m w)
    /\ (isOk (outcome m w) = true -> knows cfg q (gl (finalWorld m w))).

(** Whether a draw in a state [p] describes is proper. *)
Definition proper (p : Known) : bool :=
  match targetOf p, viewKnown p, programOf p with
  | Some (Some fbo), Some v, Some k =>
      bool_decide (v = viewOf fbo) && bool_decide (fbo = framebufferOf k)
      && bool_decide (attachedTo p fbo = Some (textureOf k))
  | _, _, _ => false
  end.

Definition optLe {T} `{EqDecision T} (a b : option T) : bool :=
  match b with
  | None => true
  | Some x => bool_decide (a = Some x)
  end.

(** [knownLe p q]: what [q] knows, [p] knows. *)
Definition knownLe (p q : Known) : bool :=
  optLe (targetOf p) (targetOf q)
  && optLe (viewKnown p) (viewKnown q)
  && implb (blendOff q) (blendOff p)
  && optLe (programOf p) (programOf q)
  && forallb (fun fbo => optLe (attachedTo p fbo) (attachedTo q fbo))
       [FBO_TRANSMITTANCE; FBO_IRRADIANCE; FBO_DELTA_SCATTERING; FBO_MULTIPLE_SCATTERING].

Definition withTarget (fbo : option Framebuffer) (p : Known) : Known :=
  {| targetOf := Some fbo; viewKnown := viewKnown p; blendOff := blendOff p;
     programOf := programOf p; attachedTo := attachedTo p |}.

Definition withView (k : ViewKind) (p : Known) : Known :=
  {| targetOf := targetOf p; viewKnown := Some k; blendOff := blendOff p;
     programOf := programOf p; attachedTo := attachedTo p |}.

Definition withBlend (off : bool) (p : Known) : Known :=
  {| targetOf := targetOf p; viewKnown := viewKnown p; blendOff := off;
     programOf := programOf p; attachedTo := attachedTo p |}.

Definition withProgram (k : ProgramKind) (p : Known) : Known :=
  {| targetOf := targetOf p; viewKnown := viewKnown p; blendOff := blendOff p;
     programOf := Some k; attachedTo := attachedTo p |}.

(** After [glFramebufferTexture] for colour attachment [i]: attachment 0
    of the bound framebuffer object changes when [i] is 0; with the
    default framebuffer bound the call changes nothing; when the binding
    is not known, no attachment 0 is known afterwards. *)
Definition withAttachment (i : nat) (texture : Texture) (p : Known) : Known :=
  match i with
  | O =>
      match targetOf p with
      | Some (Some fbo) =>
          {| targetOf := targetOf p; viewKnown := viewKnown p; blendOff := blendOff p;
             programOf := programOf p;
             attachedTo := fun f => if decide (f = fbo) then Some texture
                                    else attachedTo p f |}
      | Some None => p
      | None =>
          {| targetOf := targetOf p; viewKnown := viewKnown p; blendOff := blendOff p;
             programOf := programOf p; attachedTo := fun _ => None |}
      end
  | S _ => p
  end.

Definition nothingKnown : Known :=
  {| targetOf := None; viewKnown := None; blendOff := false; programOf := None;
     attachedTo := fun _ => None |}.

(** The attachments the later passes rely on. *)
Definition irradianceOnly (fbo : Framebuffer) : option Texture :=
  match fbo with
  | FBO_IRRADIANCE => Some TEX_DELTA_IRRADIANCE
  | _ => None
  end.

Definition withDensity (fbo : Framebuffer) : option Texture :=
  match fbo with
  | FBO_IRRADIANCE => Some TEX_DELTA_IRRADIANCE
  | FBO_MULTIPLE_SCATTERING => Some TEX_DELTA_SCATTERING_DENSITY
  | _ => None
  end.

(** After [computeDirectGroundIrradiance]: the delta irradiance texture
    is at attachment 0 of the irradiance framebuffer. *)
Definition irradianceKept : Known :=
  {| targetOf := None; viewKnown := None; blendOff := false; programOf := None;
     attachedTo := irradianceOnly |}.

(** The same with the viewport of the scattering textures set. *)
Definition scatteringView : Known :=
  {| targetOf := None; viewKnown := Some ViewScattering; blendOff := false;
     programOf := None; attachedTo := irradianceOnly |}.

(** In the loop over the scatterers of [computeScatteringDensityOrder2]. *)
Definition densityAttached : Known :=
  {| targetOf := None; viewKnown := None; blendOff := false; programOf := None;
     attachedTo := withDensity |}.

(** Where a pass returns: the default framebuffer bound. *)
Definition passDone (k : option ViewKind) (off : bool) (attached : Framebuffer -> option Texture)
  : Known :=
  {| targetOf := Some None; viewKnown := k; blendOff := off; programOf := None;
     attachedTo := attached |}.

(** Where [accumulateMultipleScattering] returns. *)
Definition afterAccumulate : Known := passDone (Some ViewScattering) true irradianceOnly.

(** *** The densities header *)

(** The declarations [makeDensitiesFunctions] assigns to
    [densitiesHeader] while it is empty. *)
Definition densitiesDeclarations (cfg : Setup) : text :=
  snd (makeDensitiesFunctions (scatterers cfg) (absorbers cfg) []).

(** [m] leaves a densities header that is set as it is. *)
Definition keepsHeader {A} (m : M A) : Prop :=
  forall w, densitiesHeader w <> [] ->
    densitiesHeader (finalWorld m w) = densitiesHeader w.

(** ** A small installation to run the model on *)

Module Example.

Definition includeLine (header : text) : text :=
  includeOpening ++ header ++ [dq] ++ [nl].

(** A lookup in which every header includes itself. *)
Definition selfIncluding (name : text) : result text := Ok (includeLine name).

Definition files : list (text * text) :=
  [ (txt "/data/compute-transmittance.frag", txt "void main(){}
");
    (txt "/data/compute-direct-irradiance.frag",
     txt "#version 330
" ++ includeLine (txt "const.h.glsl") ++ includeLine (txt "common-functions.h.glsl")
     ++ txt "void main(){}
");
    (txt "/data/common-functions.h.glsl", txt "float f();
");
    (txt "/data/common-functions.frag",
     txt "#version 330
" ++ includeLine (txt "common-functions.h.glsl") ++ txt "float f(){return 1;}
");
    (txt "/data/compute-single-scattering.frag", txt "void main(){}
");
    (txt "/data/compute-scattering-density.frag",
     txt "void main(){ int o=SCATTERING_ORDER; bool g=RADIATION_IS_FROM_GROUND_ONLY; }
");
    (txt "/data/compute-indirect-irradiance.frag", txt "void main(){ int o=SCATTERING_ORDER; }
");
    (txt "/data/copy-scattering-texture.frag", txt "void main(){}
");
    (txt "/data/compute-multiple-scattering.frag", txt "void main(){}
");
    (txt "/data/shader.vert", txt "void main(){}
");
    (txt "/data/shader.geom", txt "void main(){}
");
    (txt "/data/self.frag", includeLine (txt "self.h.glsl") ++ txt "void main(){}
");
    (txt "/data/orphan.frag", includeLine (txt "missing.h.glsl") ++ txt "void main(){}
");
    (txt "/data/nested.h.glsl", includeLine (txt "common-functions.h.glsl"));
    (txt "/data/loop.h.glsl", includeLine (txt "loop.h.glsl"));
    (txt "/data/a.frag", includeLine (txt "b.h.glsl"));
    (txt "/data/b.frag", includeLine (txt "a.h.glsl"));
    (txt "/data/broken.frag", txt "void main(){ oops }
") ].

Definition lookupFile (path : text) : option text :=
  match filter (fun entry => bool_decide (fst entry = path)) files with
  | (_, contents) :: _ => Some contents
  | [] => None
  end.

Definition exampleDisk : Disk := {|
  appBinDirIsInstall := true;
  appBinDirIsBuild := false;
  DATA_ROOT_DIR := txt "/data/";
  SOURCE_DIR := txt "/src/";
  fileContents := lookupFile
|}.

Definition rayleigh : Scatterer.t :=
  Scatterer.Make (txt "rayleigh") (txt "    return exp(-altitude/8000);
") (fun wavelengths => vscale wavelengths (1#1000)).

Definition mie : Scatterer.t :=
  Scatterer.Make (txt "mie") (txt "    return exp(-altitude/1200);
") (fun wavelengths => Vec4 1 1 1 1).

Definition ozone : Absorber.t :=
  Absorber.Make (txt "ozone") (txt "    return 1;
") (fun wavelengths => Vec4 0 0 0 0).

(** A vector literal that does not depend on the vector, and the
    transmittance source of the example atmosphere. *)
Definition unitLiteral (v : vec4) : text := txt "vec4(1,1,1,1)".

Definition constantsText : text := txt "const float earthRadius=6371000;
".

Definition transmittanceSource : text :=
  Eval vm_compute in
    match fst (makeTransmittanceComputeFunctionsSrc (getShaderSrc exampleDisk)
                 [rayleigh; mie] [ozone] unitLiteral (txt "compute-transmittance.frag")
                 constantsText [] (Vec4 380 400 420 440)) with
    | Ok out => out
    | Throw _ => []
    end.

(** The letters of the Latin-1 supplement, for the Unicode tables. *)
Definition latinLetter (c : QChar) : bool :=
  ((192 <=? c) && (c <=? 255) && negb (c =? 215) && negb (c =? 247))%N.

(** A compiler that rejects exactly the sources containing the word oops. *)
Fixpoint mentionsOops (s : text) : bool :=
  match s with
  | [] => false
  | _ :: s' => startsWith s (txt "oops") || mentionsOops s'
  end.

Definition exampleSetupOn (d : Disk) (asRadiance : bool) (orders : Z) : Setup := {|
  disk := d;
  internalShaders := ∅;
  glslCompile := fun _ source =>
    if mentionsOops source then (false, txt "0:1: syntax error") else (true, []);
  glslLink := fun _ => true;
  framebufferComplete := fun _ => true;
  scatterers := [rayleigh; mie];
  absorbers := [ozone];
  allWavelengths := [Vec4 380 400 420 440; Vec4 460 480 500 520];
  scatteringOrdersToCompute := orders;
  saveResultAsRadiance := asRadiance;
  textureOutputDir := txt "out";
  dbgSaveGroundIrradiance := false;
  dbgSaveScatDensity := false;
  dbgSaveScatDensityOrder2FromGround := false;
  dbgSaveAccumScattering := true;
  dbgSaveDeltaScattering := false;
  scatTexWidth := 4;
  scatTexHeight := 4;
  scatTexDepth := 2;
  irradianceTexW := 4;
  irradianceTexH := 4;
  transmittanceTexW := 4;
  transmittanceTexH := 4;
  toString := fun v => txt "vec4(" ++ number (Qnum (vx v)) ++ txt ",0,0,0)";
  wavelengthToXYZW := fun lambda => Vec4 (lambda / 1000) (1 - lambda / 1000) (1#3) (1#7);
  unicodeWord := latinLetter;
  constantsHeaderFor := fun _ => txt "const float earthRadius=6371000;
";
  makePhaseFunctionsSrc := fun _ _ => Ok (txt "vec4 phaseFunction_rayleigh(float d){return vec4(1);}
");
  makeTotalScatteringCoefSrc := fun _ _ => Ok (txt "vec4 total(){return vec4(1);}
");
  DENSITIES_SHADER_FILENAME := txt "densities.frag";
  PHASE_FUNCTIONS_SHADER_FILENAME := txt "phase-functions.frag";
  COMPUTE_TRANSMITTANCE_SHADER_FILENAME := txt "compute-transmittance.frag";
  COMPUTE_SCATTERING_DENSITY_FILENAME := txt "compute-scattering-density.frag";
  COMPUTE_INDIRECT_IRRADIANCE_FILENAME := txt "compute-indirect-irradiance.frag";
  TOTAL_SCATTERING_COEFFICIENT_SHADER_FILENAME := txt "total-scattering-coefficient.frag"
|}.

Definition exampleSetup : bool -> Z -> Setup := exampleSetupOn exampleDisk.

(** The same installation with a copy shader that does not compile. *)
Definition brokenDisk : Disk := {|
  appBinDirIsInstall := true;
  appBinDirIsBuild := false;
  DATA_ROOT_DIR := txt "/data/";
  SOURCE_DIR := txt "/src/";
  fileContents := fun path =>
    if decide (path = txt "/data/copy-scattering-texture.frag")
    then Some (txt "#version 330
" ++ includeLine (txt "common-functions.h.glsl") ++ txt "void main(){ oops }
")
    else lookupFile path
|}.

Definition brokenSetup : Setup := exampleSetupOn brokenDisk false 2.

(** The copy shader of the broken installation, and its source with the
    header included. *)
Definition brokenSource : text :=
  txt "#version 330
" ++ includeLine (txt "common-functions.h.glsl") ++ txt "void main(){ oops }
".

Definition brokenSourceIncluded : text :=
  txt "#version 330
#line 1 1 // common-functions.h.glsl
float f();
#line 3 0 // copy-scattering-texture.frag
void main(){ oops }
".

(** The OpenGL defaults, and the world before [main] starts its loop. *)
Definition initialGL : GLState := {|
  framebufferBinding := None;
  colorAttachments := fun _ _ => None;
  drawBuffers := fun _ => [0%nat];
  blendEnabled := fun _ => false;
  blendFunc := (GL_ONE, GL_ZERO);
  viewport := (0, 0);
  currentProgram := None
|}.

Definition initialWorld : World := {|
  constantsHeader := [];
  densitiesHeader := [];
  virtualSourceFiles := ∅;
  allShaders := ∅;
  gl := initialGL
|}.

(** A world in which blending is on for every draw buffer. *)
Definition blendingWorld : World := {|
  constantsHeader := [];
  densitiesHeader := [];
  virtualSourceFiles := ∅;
  allShaders := ∅;
  gl := {| framebufferBinding := None;
           colorAttachments := fun _ _ => None;
           drawBuffers := fun _ => [0%nat];
           blendEnabled := fun _ => true;
           blendFunc := (GL_ONE, GL_ONE);
           viewport := (0, 0);
           currentProgram := None |}
|}.

End Example.

(** * Properties *)

(** ** Reasoning about the monad *)

Section Logic.

Context {A : Type}.

(** [wp m Q X h w]: run from world [w] after the events [h], [m] either
    returns [a] with [Q a] of the events and world reached, or throws
    with [X] of them. *)
Definition wp (m : M A) (Q : A -> list Event -> World -> Prop)
    (X : list Event -> World -> Prop) (h : list Event) (w : World) : Prop :=
  match m w with
  | (Ok a, w', evs) => Q a (h ++ evs) w'
  | (Throw _, w', evs) => X (h ++ evs) w'
  end.

Lemma wp_ret (a : A) Q X h w : Q a h w -> wp (ret a) Q X h w.
Proof. unfold wp, ret. now rewrite app_nil_r. Qed.

Lemma wp_throw e Q X h w : X h w -> wp (throw e) Q X h w.
Proof. unfold wp, throw. now rewrite app_nil_r. Qed.

Lemma wp_liftResult (r : result A) Q X h w :
  match r with Ok a => Q a h w | Throw _ => X h w end -> wp (liftResult r) Q X h w.
Proof. destruct r; [apply wp_ret | apply wp_throw]. Qed.

Lemma wp_run (m : M A) Q X h w :
  (forall r w' evs, m w = (r, w', evs) ->
     match r with Ok a => Q a (h ++ evs) w' | Throw _ => X (h ++ evs) w' end) ->
  wp m Q X h w.
Proof.
  intros H. unfold wp. destruct (m w) as [[r w'] evs] eqn:E.
  specialize (H _ _ _ eq_refl). destruct r; exact H.
Qed.

Lemma wp_elim (m : M A) Q X w :
  wp m Q X [] w ->
  match outcome m w with
  | Ok a => Q a (events m w) (finalWorld m w)
  | Throw _ => X (events m w) (finalWorld m w)
  end.
Proof.
  unfold wp, outcome, events, finalWorld.
  destruct (m w) as [[r w'] evs]. simpl. destruct r; auto.
Qed.

Lemma wp_mono (m : M A) (Q Q' : A -> list Event -> World -> Prop)
    (X X' : list Event -> World -> Prop) h w :
  wp m Q X h w ->
  (forall a h' w', Q a h' w' -> Q' a h' w') ->
  (forall h' w', X h' w' -> X' h' w') ->
  wp m Q' X' h w.
Proof.
  unfold wp. destruct (m w) as [[r w'] evs]. destruct r; auto.
Qed.

End Logic.

Lemma wp_bind {A B} (m : M A) (k : A -> M B) Q X h w :
  wp m (fun a h' w' => wp (k a) Q X h' w') X h w -> wp (bind m k) Q X h w.
Proof.
  unfold wp, bind. destruct (m w) as [[r w1] evs1]. destruct r as [a|e]; [|auto].
  destruct (k a w1) as [[r2 w2] evs2]. rewrite app_assoc. destruct r2; auto.
Qed.

Lemma wp_emit ev (Q : unit -> list Event -> World -> Prop) X h w :
  Q tt (h ++ [ev]) w -> wp (emit ev) Q X h w.
Proof. unfold wp, emit. auto. Qed.

Lemma wp_getWorld (Q : World -> list Event -> World -> Prop) X h w :
  Q w h w -> wp getWorld Q X h w.
Proof. unfold wp, getWorld. now rewrite app_nil_r. Qed.

Lemma wp_setWorld f (Q : unit -> list Event -> World -> Prop) X h w :
  Q tt h (f w) -> wp (setWorld f) Q X h w.
Proof. unfold wp, setWorld. now rewrite app_nil_r. Qed.

Lemma wp_when (b : bool) m (Q : unit -> list Event -> World -> Prop) X h w :
  (if b then wp m Q X h w else Q tt h w) -> wp (when b m) Q X h w.
Proof. destruct b; simpl; [auto | apply wp_ret]. Qed.

(** A loop keeps an invariant that every iteration keeps. *)
Lemma wp_forEach {T} (xs : list T) (body : T -> M unit)
    (I : list Event -> World -> Prop) (X : list Event -> World -> Prop) :
  (forall x h w, In x xs -> I h w -> wp (body x) (fun _ => I) X h w) ->
  forall h w, I h w -> wp (forEach xs body) (fun _ => I) X h w.
Proof.
  induction xs as [|x xs IH]; intros Hbody h w HI; simpl.
  - now apply wp_ret.
  - apply wp_bind. eapply wp_mono.
    + apply Hbody; [now left | exact HI].
    + intros u h' w' HI'. apply IH; [|exact HI'].
      intros y h'' w'' Hy. apply Hbody. now right.
    + auto.
Qed.

Lemma wp_events {A} (m : M A) (P : list Event -> Prop) w :
  wp m (fun _ h _ => P h) (fun h _ => P h) [] w -> P (events m w).
Proof.
  intros H. apply wp_elim in H. destruct (outcome m w); exact H.
Qed.

Lemma run_outcome {A} (m : M A) w r w' evs :
  m w = (r, w', evs) -> outcome m w = r /\ finalWorld m w = w' /\ events m w = evs.
Proof. unfold outcome, finalWorld, events. intros ->. auto. Qed.

Lemma wp_renderQuad (Q : unit -> list Event -> World -> Prop) X h w :
  Q tt (h ++ [Draw (gl w)]) w -> wp renderQuad Q X h w.
Proof. intros H. unfold renderQuad. apply wp_bind, wp_getWorld, wp_emit, H. Qed.

Lemma wp_when_emit (b : bool) ev (Q : unit -> list Event -> World -> Prop) X h w :
  Q tt (h ++ (if b then [ev] else [])) w -> wp (when b (emit ev)) Q X h w.
Proof.
  destruct b; simpl; [apply wp_emit|]. rewrite app_nil_r. apply wp_ret.
Qed.

Lemma wp_if_setWorld (b : bool) f g (Q : unit -> list Event -> World -> Prop) X h w :
  Q tt h ((if b then f else g) w) -> wp (if b then setWorld f else setWorld g) Q X h w.
Proof. destruct b; apply wp_setWorld. Qed.

(** Primitive steps are unfolded to [setWorld], [emit], [getWorld], [ret]
    and [throw], then taken with the rules above. *)
Ltac wp_prim :=
  lazymatch goal with
  | |- wp (ret _) _ _ _ _ => apply wp_ret
  | |- wp renderQuad _ _ _ _ => apply wp_renderQuad
  | |- wp (throw _) _ _ _ _ => apply wp_throw
  | |- wp (emit _) _ _ _ _ => apply wp_emit
  | |- wp getWorld _ _ _ _ => apply wp_getWorld
  | |- wp (setWorld _) _ _ _ _ => apply wp_setWorld
  | |- wp (liftResult _) _ _ _ _ => apply wp_liftResult
  | |- wp (when _ (emit _)) _ _ _ _ => apply wp_when_emit
  | |- wp (when _ _) _ _ _ _ => apply wp_when
  | |- wp (if _ then setWorld _ else setWorld _) _ _ _ _ => apply wp_if_setWorld
  end.

Ltac wp_unfold :=
  unfold glBindFramebuffer, glFramebufferTexture, setDrawBuffers, glEnable, glDisable,
    glEnablei, glDisablei, setBlend, glBlendFunc, glViewport, bindProgram, bind_, glFinish,
    glActiveTexture, setUniformValue, setUniformMatrix, setUniformTexture, saveTexture,
    cerr, setGL, setAllShaders, setConstantsHeader, setDensitiesHeader, eraseShader,
    clearShaders, initConstHeader.

Ltac wp_simpl :=
  cbn [gl constantsHeader densitiesHeader virtualSourceFiles allShaders
       framebufferBinding colorAttachments drawBuffers blendEnabled blendFunc
       viewport currentProgram].

Ltac wp_step :=
  wp_unfold;
  lazymatch goal with
  | |- wp (bind _ _) _ _ _ _ => apply wp_bind; wp_step
  | |- _ => wp_prim; wp_simpl
  end.

(** A call whose effect is known from a lemma about its run. *)
Ltac wp_call r w' evs H :=
  lazymatch goal with
  | |- wp (bind _ _) _ _ _ _ => apply wp_bind
  | |- _ => idtac
  end;
  apply wp_run; intros r w' evs H.

Lemma run_bind {A B} (m : M A) (k : A -> M B) w :
  bind m k w =
  match m w with
  | (Ok a, w1, evs1) => match k a w1 with (r, w2, evs2) => (r, w2, evs1 ++ evs2) end
  | (Throw e, w1, evs1) => (Throw e, w1, evs1)
  end.
Proof. reflexivity. Qed.

(** ** Compilation and linking leave everything but the cache alone *)

Definition sameButCache (w w' : World) : Prop :=
  gl w' = gl w /\ virtualSourceFiles w' = virtualSourceFiles w
  /\ constantsHeader w' = constantsHeader w /\ densitiesHeader w' = densitiesHeader w.

Definition quietPost (w0 : World) (h : list Event) (w : World) : Prop :=
  sameButCache w0 w /\ Forall isCompileEvent h.

Definition quiet {A} (m : M A) : Prop :=
  forall w0 h w, quietPost w0 h w -> wp m (fun _ => quietPost w0) (quietPost w0) h w.

Lemma quiet_bind {A B} (m : M A) (k : A -> M B) :
  quiet m -> (forall a, quiet (k a)) -> quiet (bind m k).
Proof.
  intros Hm Hk w0 h w H. apply wp_bind. eapply wp_mono.
  - apply Hm. exact H.
  - intros a h' w' H'. apply Hk. exact H'.
  - auto.
Qed.

Lemma quiet_ret {A} (a : A) : quiet (ret a).
Proof. intros w0 h w H. now apply wp_ret. Qed.

Lemma quiet_throw {A} e : quiet (@throw A e).
Proof. intros w0 h w H. now apply wp_throw. Qed.

Lemma quiet_liftResult {A} (r : result A) : quiet (liftResult r).
Proof. destruct r; [apply quiet_ret | apply quiet_throw]. Qed.

Lemma quiet_getWorld : quiet getWorld.
Proof. intros w0 h w H. now apply wp_getWorld. Qed.

Lemma quiet_emit ev : isCompileEvent ev -> quiet (emit ev).
Proof.
  intros Hev w0 h w [H1 H2]. apply wp_emit. split; [exact H1|].
  apply Forall_app. split; [exact H2 | now constructor].
Qed.

Lemma quiet_cerr message : quiet (cerr message).
Proof. apply quiet_emit. exact I. Qed.

Lemma quiet_setAllShaders f : quiet (setAllShaders f).
Proof.
  intros w0 h w [H1 H2]. unfold setAllShaders. apply wp_setWorld.
  split; [|exact H2]. exact H1.
Qed.

Lemma quiet_when b m : quiet m -> quiet (when b m).
Proof. destruct b; simpl; [auto | intros _; apply quiet_ret]. Qed.

Ltac quiet_tac :=
  repeat
    lazymatch goal with
    | |- quiet (bind _ _) => apply quiet_bind; [|intros ?]
    | |- quiet (ret _) => apply quiet_ret
    | |- quiet (throw _) => apply quiet_throw
    | |- quiet (liftResult _) => apply quiet_liftResult
    | |- quiet getWorld => apply quiet_getWorld
    | |- quiet (cerr _) => apply quiet_cerr
    | |- quiet (setAllShaders _) => apply quiet_setAllShaders
    | |- quiet (when _ _) => apply quiet_when
    | |- quiet (emit _) => apply quiet_emit; exact I
    end.

Section CompileFrame.

Variable cfg : Setup.

Lemma quiet_compileShader type source description :
  quiet (compileShader cfg type source description).
Proof.
  unfold compileShader. quiet_tac.
  destruct (glslCompile cfg type _) as [compiled log].
  destruct compiled; simpl; quiet_tac.
Qed.

Lemma quiet_compileShaderFile type filename :
  quiet (compileShaderFile cfg type filename).
Proof. unfold compileShaderFile. quiet_tac. apply quiet_compileShader. Qed.

Lemma quiet_getOrCompileShader type filename :
  quiet (getOrCompileShader cfg type filename).
Proof.
  unfold getOrCompileShader. quiet_tac.
  destruct (allShaders _ !! filename); quiet_tac.
  apply quiet_compileShaderFile.
Qed.

Lemma quiet_getOrCompileShaders type filenames :
  quiet (getOrCompileShaders cfg type filenames).
Proof.
  induction filenames as [|f fs IH]; simpl; quiet_tac.
  - apply quiet_getOrCompileShader.
  - exact IH.
Qed.

Lemma quiet_compileShaderProgram mainSrcFileName description useGeomShader :
  quiet (compileShaderProgram cfg mainSrcFileName description useGeomShader).
Proof.
  unfold compileShaderProgram. quiet_tac.
  - apply quiet_getOrCompileShaders.
  - apply quiet_getOrCompileShader.
  - destruct useGeomShader; quiet_tac. apply quiet_getOrCompileShader.
  - destruct (glslLink cfg _); simpl; quiet_tac.
Qed.

Lemma quiet_run {A} (m : M A) w r w' evs :
  quiet m -> m w = (r, w', evs) -> sameButCache w w' /\ Forall isCompileEvent evs.
Proof.
  intros Hq Hrun. specialize (Hq w [] w).
  assert (H0 : quietPost w [] w) by (repeat split; constructor).
  specialize (Hq H0). unfold wp in Hq. rewrite Hrun in Hq. simpl in Hq.
  destruct r; exact Hq.
Qed.

(** Rendering the layers never throws, leaves the world as it is, and
    draws in the state it was started in. *)
Lemma render3DTexLayers_run program what w r w' evs :
  render3DTexLayers cfg program what w = (r, w', evs) ->
  r = Ok tt /\ w' = w /\ Forall (isRenderEvent (gl w)) evs.
Proof.
  intros Hrun.
  assert (H : wp (render3DTexLayers cfg program what)
                (fun _ h' w' => w' = w /\ Forall (isRenderEvent (gl w)) h')
                (fun _ _ => False) [] w).
  { unfold render3DTexLayers. wp_step. apply wp_bind.
    eapply wp_mono.
    - apply (wp_forEach _ _ (fun h' w' => w' = w /\ Forall (isRenderEvent (gl w)) h')
               (fun _ _ => False)).
      + intros layer h0 w0 _ [-> Hh].
        do 5 wp_step. split; [reflexivity|].
        repeat (apply Forall_app; split); try exact Hh; repeat constructor.
      + split; [reflexivity|]. repeat constructor.
    - intros u h' w0 [-> Hh]. wp_step. split; [reflexivity|].
      apply Forall_app; split; [exact Hh | repeat constructor].
    - auto. }
  unfold wp in H. rewrite Hrun in H. destruct r as [[]|e]; [|contradiction].
  destruct H as [-> H]. auto.
Qed.

Lemma layers_drawsOf (w : World) (body : nat -> M unit) (layers : list nat) :
  (forall layer, exists a b,
     body layer w = (Ok tt, w, [Stderr a; Uniform (txt "layer"); Draw (gl w); Finish;
                                Stderr b])) ->
  exists evs,
    forEach layers body w = (Ok tt, w, evs)
    /\ drawsOf evs = repeat (gl w) (length layers).
Proof.
  intros Hbody.
  induction layers as [|layer layers (evs & Hrun & Hdraws)]; cbn [forEach].
  - exists []. split; reflexivity.
  - destruct (Hbody layer) as (a & b & Hl). eexists. split.
    + rewrite run_bind, Hl, Hrun. reflexivity.
    + cbn [length repeat]. rewrite <- Hdraws. reflexivity.
Qed.

(** It draws once per layer of the scattering texture. *)
Lemma render3DTexLayers_drawsOf program what w :
  drawsOf (events (render3DTexLayers cfg program what) w)
  = repeat (gl w) (scatTexDepth cfg).
Proof.
  unfold events, render3DTexLayers.
  rewrite run_bind.
  change (cerr (what ++ txt "... ") w) with (Ok tt, w, [Stderr (what ++ txt "... ")]).
  cbv iota beta. rewrite run_bind.
  match goal with
  | |- context [forEach ?layers ?body w] =>
      destruct (layers_drawsOf w body layers) as (evs & Hrun & Hdraws);
        [intros layer; eexists; eexists; reflexivity | rewrite Hrun]
  end.
  rewrite length_seq in Hdraws. cbv [cerr emit]. cbn [fst snd].
  unfold drawsOf in *. rewrite !omap_app, Hdraws. cbn. apply app_nil_r.
Qed.

End CompileFrame.

(** ** The accumulate pass *)

Lemma glEnable_if (b : bool) :
  (if b then glEnable GL_BLEND else glDisable GL_BLEND) = setBlend (fun _ _ => b).
Proof. destruct b; reflexivity. Qed.

Lemma glDisablei_if (b : bool) i :
  (if b then glDisablei GL_BLEND i else glEnablei GL_BLEND i)
  = setBlend (fun e j => if decide (j = i) then negb b else e j).
Proof. destruct b; reflexivity. Qed.

Lemma Forall_drawsOf P evs : Forall (drawPred P) evs -> Forall P (drawsOf evs).
Proof.
  induction 1 as [|ev evs H _ IH]; [constructor|].
  unfold drawsOf. destruct ev; simpl; auto.
Qed.

Lemma compile_drawPred P evs : Forall isCompileEvent evs -> Forall (drawPred P) evs.
Proof.
  intros H. eapply Forall_impl; [exact H|].
  intros [] H'; simpl in *; try contradiction; auto.
Qed.

Lemma render_drawPred (P : GLState -> Prop) g evs :
  P g -> Forall (isRenderEvent g) evs -> Forall (drawPred P) evs.
Proof.
  intros Hg H. eapply Forall_impl; [exact H|].
  intros [] H'; simpl in *; subst; try contradiction; auto.
Qed.

Lemma compile_savesOf evs : Forall isCompileEvent evs -> savesOf evs = [].
Proof.
  induction 1 as [|ev evs H _ IH]; [reflexivity|].
  destruct ev; simpl in *; try contradiction; exact IH.
Qed.

Lemma render_savesOf g evs : Forall (isRenderEvent g) evs -> savesOf evs = [].
Proof.
  induction 1 as [|ev evs H _ IH]; [reflexivity|].
  destruct ev; simpl in *; try contradiction; exact IH.
Qed.

Lemma savesOf_app evs1 evs2 : savesOf (evs1 ++ evs2) = savesOf evs1 ++ savesOf evs2.
Proof. apply omap_app. Qed.

Lemma drawsOf_app evs1 evs2 : drawsOf (evs1 ++ evs2) = drawsOf evs1 ++ drawsOf evs2.
Proof. apply omap_app. Qed.

Lemma compile_drawsOf evs : Forall isCompileEvent evs -> drawsOf evs = [].
Proof.
  induction 1 as [|ev evs H _ IH]; [reflexivity|].
  destruct ev; simpl in *; try contradiction; exact IH.
Qed.

Lemma matrixUniformsOf_app evs1 evs2 :
  matrixUniformsOf (evs1 ++ evs2) = matrixUniformsOf evs1 ++ matrixUniformsOf evs2.
Proof. apply omap_app. Qed.

Lemma compile_matrixUniformsOf evs : Forall isCompileEvent evs -> matrixUniformsOf evs = [].
Proof.
  induction 1 as [|ev evs H _ IH]; [reflexivity|].
  destruct ev; simpl in *; try contradiction; exact IH.
Qed.

Lemma render_matrixUniformsOf g evs :
  Forall (isRenderEvent g) evs -> matrixUniformsOf evs = [].
Proof.
  induction 1 as [|ev evs H _ IH]; [reflexivity|].
  destruct ev; simpl in *; try contradiction; exact IH.
Qed.

Section Accumulate.

Variable cfg : Setup.

(** The run of [accumulateMultipleScattering] in normal form: it throws
    before drawing anything, or compiles, sets its uniforms, draws the
    layers in one state [g] and writes its files. *)
Lemma accumulateMultipleScattering_run scatteringOrder texIndex w r w' evs :
  accumulateMultipleScattering cfg scatteringOrder texIndex w = (r, w', evs) ->
  match r with
  | Throw _ => Forall isCompileEvent evs
  | Ok _ =>
      exists evsC evsR g,
        evs = evsC ++ luminanceUniform cfg texIndex ++ [Uniform (txt "tex")] ++ evsR
                ++ accumulateSaves cfg scatteringOrder texIndex
        /\ Forall isCompileEvent evsC
        /\ Forall (isRenderEvent g) evsR
        /\ blendEnabled g = (fun _ => accumulateBlend cfg scatteringOrder texIndex)
        /\ renderTarget g 0 = Some TEX_MULTIPLE_SCATTERING
        /\ blendFunc g = blendFunc (gl w)
        /\ drawsOf evsR = repeat g (scatTexDepth cfg)
  end.
Proof.
  intros Hrun.
  assert (H : wp (accumulateMultipleScattering cfg scatteringOrder texIndex)
    (fun _ h _ => exists evsC evsR g,
        h = evsC ++ luminanceUniform cfg texIndex ++ [Uniform (txt "tex")] ++ evsR
                ++ accumulateSaves cfg scatteringOrder texIndex
        /\ Forall isCompileEvent evsC
        /\ Forall (isRenderEvent g) evsR
        /\ blendEnabled g = (fun _ => accumulateBlend cfg scatteringOrder texIndex)
        /\ renderTarget g 0 = Some TEX_MULTIPLE_SCATTERING
        /\ blendFunc g = blendFunc (gl w)
        /\ drawsOf evsR = repeat g (scatTexDepth cfg))
    (fun h _ => Forall isCompileEvent h) [] w).
  { unfold accumulateMultipleScattering.
    fold (accumulateBlend cfg scatteringOrder texIndex).
    rewrite glEnable_if.
    do 4 wp_step. unfold checkFramebufferStatus. wp_step.
    destruct (framebufferComplete cfg _); [|wp_step; wp_step; repeat constructor].
    wp_step.
    wp_call r1 w2 evs2 Hrun2.
    apply quiet_run in Hrun2; [|apply quiet_compileShaderProgram].
    destruct Hrun2 as [Hsame Hev]. destruct Hsame as (Hgl & _). wp_simpl.
    destruct r1 as [program|e]; [|exact Hev].
    do 3 wp_step.
    wp_call r3 w3 evs3 Hrun3.
    match type of Hrun3 with
    | render3DTexLayers _ ?p ?what ?w0 = _ =>
        pose proof (render3DTexLayers_drawsOf cfg p what w0) as Hdraws
    end.
    unfold events in Hdraws. rewrite Hrun3 in Hdraws. cbn [snd] in Hdraws.
    apply render3DTexLayers_run in Hrun3. destruct Hrun3 as (-> & -> & Hev3).
    wp_simpl. do 4 wp_step.
    exists evs2, evs3. eexists. split; [|split; [exact Hev|split; [exact Hev3|]]].
    - unfold luminanceUniform, accumulateSaves. rewrite <- !app_assoc. reflexivity.
    - split; [|split; [|split; [|exact Hdraws]]];
        wp_simpl; rewrite Hgl; wp_simpl; unfold renderTarget; wp_simpl; auto. }
  unfold wp in H. rewrite Hrun in H. destruct r; exact H.
Qed.

Lemma drawsOf_luminanceUniform texIndex : drawsOf (luminanceUniform cfg texIndex) = [].
Proof. unfold luminanceUniform. destruct (negb _); reflexivity. Qed.

Lemma drawsOf_accumulateSaves scatteringOrder texIndex :
  drawsOf (accumulateSaves cfg scatteringOrder texIndex) = [].
Proof.
  unfold accumulateSaves. destruct (dbgSaveAccumScattering cfg);
    match goal with |- context [if ?c then [SaveTexture _ _ _] else []] => destruct c end;
    reflexivity.
Qed.

Lemma matrixUniformsOf_accumulateSaves scatteringOrder texIndex :
  matrixUniformsOf (accumulateSaves cfg scatteringOrder texIndex) = [].
Proof.
  unfold accumulateSaves. destruct (dbgSaveAccumScattering cfg);
    match goal with |- context [if ?c then [SaveTexture _ _ _] else []] => destruct c end;
    reflexivity.
Qed.

(** A pass that returns has drawn every layer, all in one state. *)
Lemma accumulateMultipleScattering_layers scatteringOrder texIndex w :
  outcome (accumulateMultipleScattering cfg scatteringOrder texIndex) w = Ok tt ->
  exists g,
    drawsOf (events (accumulateMultipleScattering cfg scatteringOrder texIndex) w)
    = repeat g (scatTexDepth cfg)
    /\ blendEnabled g = (fun _ => accumulateBlend cfg scatteringOrder texIndex)
    /\ renderTarget g 0 = Some TEX_MULTIPLE_SCATTERING
    /\ blendFunc g = blendFunc (gl w).
Proof.
  intros Hok.
  destruct (accumulateMultipleScattering cfg scatteringOrder texIndex w) as [[r w'] evs] eqn:Hrun.
  pose proof (accumulateMultipleScattering_run _ _ _ _ _ _ Hrun) as H.
  apply run_outcome in Hrun. destruct Hrun as (Hr & _ & Hevs).
  rewrite Hok in Hr. subst r. rewrite Hevs.
  destruct H as (evsC & evsR & g & -> & HC & HR & Hb & Ht & Hf & Hd).
  exists g. split; [|auto].
  rewrite !drawsOf_app, (compile_drawsOf _ HC), drawsOf_luminanceUniform, Hd,
    drawsOf_accumulateSaves.
  cbn. apply app_nil_r.
Qed.

End Accumulate.

(** ** Blend function and render targets along the schedule *)

Lemma inBlend_draw b g : inBlend b g -> additiveWhenBlending g.
Proof.
  destruct b; simpl; [|intros H _; exact H].
  intros [H|H] [i Hi]; [|exact H]. rewrite H in Hi. discriminate.
Qed.

Lemma drawable_goodDraw p g : drawable p = true -> inPhase p g -> goodDraw g.
Proof.
  intros Hd (Hb & Ht & H0 & H1 & H2). split; [apply (inBlend_draw _ _ Hb)|].
  intros Hirr. unfold drawable, irradianceReady in Hd.
  assert (Hready : deltaAttached p && accumAttached p && buffersSet p = true).
  { destruct (boundOf p) as [[fbo|]|] eqn:E.
    - specialize (Ht _ eq_refl). rewrite Ht in Hirr. injection Hirr as ->.
      destruct (decide _); [exact Hd | congruence].
    - specialize (Ht _ eq_refl). congruence.
    - exact Hd. }
  apply andb_prop in Hready as [Hready Hs]. apply andb_prop in Hready as [Hd0 Hd1].
  repeat split; auto.
Qed.

Lemma phaseLe_sound p q g : phaseLe p q = true -> inPhase p g -> inPhase q g.
Proof.
  unfold phaseLe. intros H (Hb & Ht & H0 & H1 & H2).
  repeat (apply andb_prop in H as [H ?]).
  repeat split.
  - destruct (blendOf p), (blendOf q); simpl in *; auto; discriminate.
  - intros f Hf. rewrite Hf in *. apply Ht.
    match goal with Hd : bool_decide _ = true |- _ => apply bool_decide_eq_true in Hd; exact Hd end.
  - intros Hq. apply H0. destruct (deltaAttached q), (deltaAttached p); auto.
  - intros Hq. apply H1. destruct (accumAttached q), (accumAttached p); auto.
  - intros Hq. apply H2. destruct (buffersSet q), (buffersSet p); auto.
Qed.

Lemma gt_bind {A B} p q r (m : M A) (k : A -> M B) :
  glTriple p m q -> (forall a, glTriple q (k a) r) -> glTriple p (bind m k) r.
Proof.
  intros Hm Hk w Hp. specialize (Hm w Hp).
  unfold finalWorld, events, outcome, bind in *.
  destruct (m w) as [[[a|e] w1] evs1]; simpl in *.
  - destruct Hm as [D1 Q1]. specialize (Hk a w1 (Q1 eq_refl)).
    unfold finalWorld, events, outcome in Hk.
    destruct (k a w1) as [[r' w2] evs2]; simpl in *.
    destruct Hk as [D2 R2]. split; [apply Forall_app; auto | exact R2].
  - destruct Hm as [D1 _]. split; [exact D1 | discriminate].
Qed.

Lemma gt_weaken {A} p p' q q' (m : M A) :
  phaseLe p' p = true -> phaseLe q q' = true -> glTriple p m q -> glTriple p' m q'.
Proof.
  intros Hp Hq H w Hw. destruct (H w (phaseLe_sound _ _ _ Hp Hw)) as [D Q].
  split; [exact D|]. intros Hok. apply (phaseLe_sound _ _ _ Hq), Q, Hok.
Qed.

Lemma phaseLe_refl p : phaseLe p p = true.
Proof.
  destruct p as [[] [[[]|]|] [] [] []]; reflexivity.
Qed.

Lemma gt_ret {A} p (a : A) : glTriple p (ret a) p.
Proof. intros w Hp. split; [constructor | intros _; exact Hp]. Qed.

Lemma gt_throw {A} p q e : glTriple p (@throw A e) q.
Proof. intros w Hp. split; [constructor | discriminate]. Qed.

Lemma gt_liftResult {A} p (r : result A) : glTriple p (liftResult r) p.
Proof. destruct r; [apply gt_ret | apply gt_throw]. Qed.

Lemma gt_getWorld p : glTriple p getWorld p.
Proof. intros w Hp. split; [constructor | intros _; exact Hp]. Qed.

Lemma gt_emit p ev : match ev with Draw _ => False | _ => True end -> glTriple p (emit ev) p.
Proof.
  intros Hev w Hp. split; [|intros _; exact Hp].
  constructor; [|constructor]. destruct ev; simpl; auto. contradiction.
Qed.

Lemma gt_renderQuad p : drawable p = true -> glTriple p renderQuad p.
Proof.
  intros Hd w Hp. split; [|intros _; exact Hp].
  constructor; [|constructor]. simpl. apply (drawable_goodDraw p); assumption.
Qed.

Lemma gt_setWorld p f : (forall w, gl (f w) = gl w) -> glTriple p (setWorld f) p.
Proof.
  intros H w Hp. split; [constructor|]. intros _.
  unfold finalWorld, setWorld. simpl. rewrite H. exact Hp.
Qed.

Lemma gt_setGL p q f :
  (forall g, inPhase p g -> inPhase q (f g)) -> glTriple p (setGL f) q.
Proof.
  intros H w Hp. split; [constructor|]. intros _. apply H, Hp.
Qed.

Lemma gt_when p b (m : M unit) : glTriple p m p -> glTriple p (when b m) p.
Proof. destruct b; simpl; [auto | intros _; apply gt_ret]. Qed.

Lemma gt_forEach {A} p (xs : list A) body :
  (forall x, glTriple p (body x) p) -> glTriple p (forEach xs body) p.
Proof.
  intros H. induction xs as [|x xs IH]; simpl; [apply gt_ret|].
  eapply gt_bind; [apply H | intros _; exact IH].
Qed.

Lemma gt_quiet {A} p (m : M A) : quiet m -> glTriple p m p.
Proof.
  intros Hq w Hp.
  destruct (m w) as [[r w'] evs] eqn:Hrun.
  destruct (quiet_run m w r w' evs Hq Hrun) as [(Hgl & _) Hev].
  unfold events, finalWorld, outcome. rewrite Hrun. simpl.
  split; [apply compile_drawPred, Hev | intros _; rewrite Hgl; exact Hp].
Qed.

(** The OpenGL calls. *)

Lemma gt_same p f :
  (forall g, blendEnabled (f g) = blendEnabled g /\ blendFunc (f g) = blendFunc g
             /\ framebufferBinding (f g) = framebufferBinding g
             /\ colorAttachments (f g) = colorAttachments g
             /\ drawBuffers (f g) = drawBuffers g) ->
  glTriple p (setGL f) p.
Proof.
  intros H. apply gt_setGL. intros g (Hb & Ht & H0 & H1 & H2).
  destruct (H g) as (E1 & E2 & E3 & E4 & E5). unfold inPhase.
  rewrite E3, E4, E5. repeat split; auto.
  destruct (blendOf p); simpl in *; rewrite ?E1, ?E2; exact Hb.
Qed.

Lemma gt_glViewport p width height : glTriple p (glViewport width height) p.
Proof. apply gt_same. intros g. repeat split. Qed.

Lemma gt_bindProgram p description : glTriple p (bindProgram description) p.
Proof. apply gt_same. intros g. repeat split. Qed.

Ltac phase_split := split; [|split; [|split; [|split]]].

Lemma inBlend_frame b g g' :
  blendEnabled g' = blendEnabled g -> blendFunc g' = blendFunc g ->
  inBlend b g -> inBlend b g'.
Proof. intros E1 E2. destruct b; simpl; rewrite ?E1, ?E2; auto. Qed.

Lemma gt_glBindFramebuffer p fbo : glTriple p (glBindFramebuffer fbo) (onBind fbo p).
Proof.
  apply gt_setGL. intros g (Hb & Ht & H0 & H1 & H2).
  phase_split; cbn;
    [apply (inBlend_frame _ g); auto | intros f [= <-]; reflexivity
    | exact H0 | exact H1 | exact H2].
Qed.

Lemma gt_glBlendFunc p : glTriple p (glBlendFunc GL_ONE GL_ONE) (onBlendFunc p).
Proof.
  apply gt_setGL. intros g (Hb & Ht & H0 & H1 & H2).
  phase_split; cbn; [reflexivity | exact Ht | exact H0 | exact H1 | exact H2].
Qed.

Lemma gt_glDisable p cap : glTriple p (glDisable cap) p.
Proof.
  apply gt_setGL. intros g (Hb & Ht & H0 & H1 & H2).
  phase_split; cbn; [| exact Ht | exact H0 | exact H1 | exact H2].
  destruct (blendOf p); simpl in *; [left; reflexivity | exact Hb].
Qed.

Lemma gt_glDisablei p cap i : glTriple p (glDisablei cap i) p.
Proof.
  apply gt_setGL. intros g (Hb & Ht & H0 & H1 & H2).
  phase_split; cbn; [| exact Ht | exact H0 | exact H1 | exact H2].
  destruct (blendOf p); simpl in *; [|exact Hb].
  destruct Hb as [Hb|Hb]; [left | right; exact Hb].
  intros j. destruct (decide (j = i)); [reflexivity | apply Hb].
Qed.

Lemma gt_glEnable p cap : blendOf p = Additive -> glTriple p (glEnable cap) p.
Proof.
  intros Ha. apply gt_setGL. intros g (Hb & Ht & H0 & H1 & H2).
  phase_split; cbn; [| exact Ht | exact H0 | exact H1 | exact H2].
  rewrite Ha in *. exact Hb.
Qed.

Lemma gt_glEnablei p cap i : blendOf p = Additive -> glTriple p (glEnablei cap i) p.
Proof.
  intros Ha. apply gt_setGL. intros g (Hb & Ht & H0 & H1 & H2).
  phase_split; cbn; [| exact Ht | exact H0 | exact H1 | exact H2].
  rewrite Ha in *. exact Hb.
Qed.

Lemma gt_glFramebufferTexture p i texture :
  glTriple p (glFramebufferTexture i texture) (onAttach i texture p).
Proof.
  apply gt_setGL. intros g (Hb & Ht & H0 & H1 & H2). unfold onAttach.
  destruct (boundOf p) as [[fbo|]|] eqn:E.
  - rewrite (Ht _ eq_refl). destruct (decide (fbo = FBO_IRRADIANCE)) as [->|Hne].
    + phase_split; cbn.
      * apply (inBlend_frame _ g); auto.
      * intros f Hf. rewrite ?E in Hf. injection Hf as <-. reflexivity.
      * destruct (decide (i = 0%nat)) as [->|Hi].
        -- intros Hd. apply bool_decide_eq_true in Hd. subst texture.
           rewrite !decide_True by reflexivity. reflexivity.
        -- intros Hd. rewrite decide_True by reflexivity.
           rewrite decide_False by exact (not_eq_sym Hi). auto.
      * destruct (decide (i = 1%nat)) as [->|Hi].
        -- intros Hd. apply bool_decide_eq_true in Hd. subst texture.
           rewrite !decide_True by reflexivity. reflexivity.
        -- intros Hd. rewrite decide_True by reflexivity.
           rewrite decide_False by exact (not_eq_sym Hi). auto.
      * exact H2.
    + phase_split; cbn.
      * apply (inBlend_frame _ g); auto.
      * intros f Hf. rewrite ?E in Hf. injection Hf as <-. reflexivity.
      * intros Hd. rewrite decide_False by exact (not_eq_sym Hne). auto.
      * intros Hd. rewrite decide_False by exact (not_eq_sym Hne). auto.
      * exact H2.
  - rewrite (Ht _ eq_refl).
    phase_split; [exact Hb | rewrite E; exact Ht | exact H0 | exact H1 | exact H2].
  - destruct (framebufferBinding g);
      (phase_split; cbn;
       [apply (inBlend_frame _ g); auto | discriminate | discriminate | discriminate
       | exact H2]).
Qed.

Lemma gt_setDrawBuffers p bufs : glTriple p (setDrawBuffers bufs) (onDrawBuffers bufs p).
Proof.
  apply gt_setGL. intros g (Hb & Ht & H0 & H1 & H2). unfold onDrawBuffers.
  destruct (boundOf p) as [[fbo|]|] eqn:E.
  - rewrite (Ht _ eq_refl). destruct (decide (fbo = FBO_IRRADIANCE)) as [->|Hne].
    + phase_split; cbn.
      * apply (inBlend_frame _ g); auto.
      * intros f Hf. rewrite ?E in Hf. injection Hf as <-. reflexivity.
      * exact H0.
      * exact H1.
      * intros Hd. apply bool_decide_eq_true in Hd. subst bufs.
        rewrite decide_True by reflexivity. reflexivity.
    + phase_split; cbn.
      * apply (inBlend_frame _ g); auto.
      * intros f Hf. rewrite ?E in Hf. injection Hf as <-. reflexivity.
      * exact H0.
      * exact H1.
      * intros Hd. rewrite decide_False by exact (not_eq_sym Hne). auto.
  - rewrite (Ht _ eq_refl).
    phase_split; [exact Hb | rewrite E; exact Ht | exact H0 | exact H1 | exact H2].
  - destruct (framebufferBinding g);
      (phase_split; cbn;
       [apply (inBlend_frame _ g); auto | discriminate | exact H0 | exact H1
       | discriminate]).
Qed.

Lemma gt_post {A} p q q' (m : M A) :
  glTriple p m q -> phaseLe q q' = true -> glTriple p m q'.
Proof. intros H Hq. eapply gt_weaken; [apply phaseLe_refl | exact Hq | exact H]. Qed.

Lemma gt_pre {A} p p' q (m : M A) :
  glTriple p' m q -> phaseLe p p' = true -> glTriple p m q.
Proof. intros H Hp. eapply gt_weaken; [exact Hp | apply phaseLe_refl | exact H]. Qed.

Create HintDb glsame.
Create HintDb glphase.

Ltac gt_unfold :=
  unfold bind_, glFinish, glActiveTexture, setUniformValue, setUniformMatrix,
    setUniformTexture, saveTexture, cerr, initConstHeader, eraseShader, clearShaders,
    writeVirtualSourceFile;
  unfold setAllShaders, setConstantsHeader, setDensitiesHeader.

Ltac gt_cond := first [reflexivity | assumption | apply phaseLe_refl].

(** One step that is not a sequence, from a known phase to the phase it
    leaves. *)
Ltac gt_rule :=
  lazymatch goal with
  | |- glTriple _ (ret _) _ => apply gt_ret
  | |- glTriple _ (throw _) _ => apply gt_throw
  | |- glTriple _ (liftResult _) _ => apply gt_liftResult
  | |- glTriple _ getWorld _ => apply gt_getWorld
  | |- glTriple _ renderQuad _ => apply gt_renderQuad; gt_cond
  | |- glTriple _ (emit _) _ => apply gt_emit; exact I
  | |- glTriple _ (setWorld _) _ => apply gt_setWorld; intros ?; reflexivity
  | |- glTriple _ (glViewport _ _) _ => apply gt_glViewport
  | |- glTriple _ (bindProgram _) _ => apply gt_bindProgram
  | |- glTriple _ (glBindFramebuffer _) _ => apply gt_glBindFramebuffer
  | |- glTriple _ (glFramebufferTexture _ _) _ => apply gt_glFramebufferTexture
  | |- glTriple _ (setDrawBuffers _) _ => apply gt_setDrawBuffers
  | |- glTriple _ (glBlendFunc GL_ONE GL_ONE) _ => apply gt_glBlendFunc
  | |- glTriple _ (glDisable _) _ => apply gt_glDisable
  | |- glTriple _ (glDisablei _ _) _ => apply gt_glDisablei
  | |- glTriple _ (glEnable _) _ => apply gt_glEnable; gt_cond
  | |- glTriple _ (glEnablei _ _) _ => apply gt_glEnablei; gt_cond
  | |- _ =>
      first [ solve [auto with glsame]
            | eapply gt_pre; [solve [auto with glphase] | reflexivity] ]
  end.

Ltac gt_leaf :=
  lazymatch goal with
  | |- glTriple _ _ ?q =>
      tryif is_evar q then gt_rule else (eapply gt_post; [gt_rule | gt_cond])
  end.

Ltac gt_step :=
  gt_unfold;
  lazymatch goal with
  | |- glTriple _ (bind _ _) _ => eapply gt_bind; [gt_step | intros ?; gt_step]
  | |- glTriple _ (when _ _) _ =>
      lazymatch goal with
      | |- glTriple _ _ ?q =>
          tryif is_evar q then (apply gt_when; gt_step)
          else (eapply gt_post; [apply gt_when; gt_step | gt_cond])
      end
  | |- glTriple _ (forEach _ _) _ =>
      first [ apply gt_forEach; intros ?; gt_step
            | eapply gt_post;
              [ first [ apply gt_forEach; intros ?; gt_step
                      | eapply gt_pre;
                        [apply (gt_forEach blendingAdditively); intros ?; gt_step
                        | reflexivity] ]
              | gt_cond ] ]
  | |- glTriple _ (if ?c then _ else _) _ => destruct c; gt_step
  | |- glTriple _ (let (_, _) := ?x in _) _ => destruct x; gt_step
  | |- glTriple _ (match ?x with Some _ => _ | None => _ end) _ => destruct x; gt_step
  | |- _ => gt_leaf
  end.

Section GLPhases.
Variable cfg : Setup.

Lemma gt_compileShaderProgram p mainSrcFileName description useGeomShader :
  glTriple p (compileShaderProgram cfg mainSrcFileName description useGeomShader) p.
Proof. apply gt_quiet, quiet_compileShaderProgram. Qed.

Lemma gt_withGlobals p generator : glTriple p (withGlobals cfg generator) p.
Proof. unfold withGlobals. gt_step. Qed.

Lemma gt_checkFramebufferStatus p what : glTriple p (checkFramebufferStatus cfg what) p.
Proof. unfold checkFramebufferStatus. gt_step. Qed.

Lemma gt_saveIrradiance p o k : glTriple p (saveIrradiance cfg o k) p.
Proof. unfold saveIrradiance. gt_step. Qed.

Lemma gt_saveScatteringDensity p o k : glTriple p (saveScatteringDensity cfg o k) p.
Proof. unfold saveScatteringDensity. gt_step. Qed.

Lemma gt_scatteringDensitySource p g o : glTriple p (scatteringDensitySource cfg g o) p.
Proof. unfold scatteringDensitySource. gt_step. Qed.

Lemma gt_indirectIrradianceSource p o : glTriple p (indirectIrradianceSource cfg o) p.
Proof. unfold indirectIrradianceSource. gt_step. Qed.

Lemma gt_phaseFunctionsSrc p : glTriple p (phaseFunctionsSrc cfg) p.
Proof. unfold phaseFunctionsSrc. gt_step. Qed.

#[local] Hint Resolve gt_compileShaderProgram gt_withGlobals gt_checkFramebufferStatus
  gt_saveIrradiance gt_saveScatteringDensity gt_scatteringDensitySource
  gt_indirectIrradianceSource gt_phaseFunctionsSrc : glsame.

Lemma gt_render3DTexLayers p program what :
  drawable p = true -> glTriple p (render3DTexLayers cfg program what) p.
Proof. intros Hd. unfold render3DTexLayers. gt_step. Qed.

#[local] Hint Extern 1 (glTriple _ (render3DTexLayers _ _ _) _) =>
  apply gt_render3DTexLayers; reflexivity : glsame.

Lemma gt_computeTransmittance k :
  glTriple atSetStart (computeTransmittance cfg k) atSetStart.
Proof. unfold computeTransmittance. gt_step. Qed.

Lemma gt_computeDirectGroundIrradiance k :
  glTriple atSetStart (computeDirectGroundIrradiance cfg k) irradianceAttached.
Proof. unfold computeDirectGroundIrradiance. gt_step. Qed.

Lemma gt_computeSingleScattering k scatterer :
  glTriple blendingAdditively (computeSingleScattering cfg k scatterer) blendingAdditively.
Proof. unfold computeSingleScattering. gt_step. Qed.

Lemma gt_computeIndirectIrradianceOrder1 k i :
  glTriple blendingAdditively (computeIndirectIrradianceOrder1 cfg k i) blendingAdditively.
Proof. unfold computeIndirectIrradianceOrder1. gt_step. Qed.

#[local] Hint Resolve gt_computeSingleScattering gt_computeIndirectIrradianceOrder1
  : glphase.

Lemma gt_computeScatteringDensityOrder2 k :
  glTriple irradianceAttached (computeScatteringDensityOrder2 cfg k) blendingAdditively.
Proof. unfold computeScatteringDensityOrder2. gt_step. Qed.

Lemma gt_computeScatteringDensity o k :
  glTriple blendingAdditively (computeScatteringDensity cfg o k) blendingAdditively.
Proof. unfold computeScatteringDensity. gt_step. Qed.

Lemma gt_computeIndirectIrradiance o k :
  glTriple blendingAdditively (computeIndirectIrradiance cfg o k) blendingAdditively.
Proof. unfold computeIndirectIrradiance. gt_step. Qed.

Lemma gt_accumulateMultipleScattering o k :
  glTriple blendingAdditively (accumulateMultipleScattering cfg o k) blendingAdditively.
Proof. unfold accumulateMultipleScattering. gt_step. Qed.

#[local] Hint Resolve gt_accumulateMultipleScattering : glphase.

Lemma gt_computeMultipleScatteringFromDensity o k :
  glTriple blendingAdditively (computeMultipleScatteringFromDensity cfg o k)
    blendingAdditively.
Proof. unfold computeMultipleScatteringFromDensity. gt_step. Qed.

#[local] Hint Resolve gt_computeScatteringDensityOrder2 gt_computeScatteringDensity
  gt_computeIndirectIrradiance gt_computeMultipleScatteringFromDensity : glphase.

Lemma gt_computeMultipleScattering k :
  glTriple irradianceAttached (computeMultipleScattering cfg k) blendingAdditively.
Proof. unfold computeMultipleScattering. gt_step. Qed.

#[local] Hint Resolve gt_computeTransmittance gt_computeDirectGroundIrradiance
  gt_computeMultipleScattering : glphase.

Lemma gt_processWavelengthSet k :
  glTriple atSetStart (processWavelengthSet cfg k) atSetStart.
Proof. unfold processWavelengthSet. gt_step. Qed.

Lemma gt_generate : glTriple atSetStart (generate cfg) atSetStart.
Proof. unfold generate. apply gt_forEach. intros k. apply gt_processWavelengthSet. Qed.

Lemma draws_of_order2 k w :
  inBlend OffOrAdditive (gl w) -> irradianceTargets (gl w) ->
  Forall goodDraw (drawsOf (events (computeScatteringDensityOrder2 cfg k) w)).
Proof.
  intros Hb (H0 & H1 & H2). apply Forall_drawsOf. apply (gt_computeScatteringDensityOrder2 k w).
  phase_split; cbn; [exact Hb | discriminate | auto | auto | auto].
Qed.

(** Started with blending off, or with the additive blend function, a
    run of the generator blends additively wherever it blends, and draws
    into the irradiance framebuffer only with the delta irradiance and
    irradiance textures attached as draw buffers 0 and 1. *)
Lemma draws_of_a_run w :
  inBlend OffOrAdditive (gl w) ->
  Forall goodDraw (drawsOf (events (generate cfg) w)).
Proof.
  intros H. apply Forall_drawsOf. apply (gt_generate w).
  phase_split; cbn; [exact H | discriminate | discriminate | discriminate | discriminate].
Qed.

End GLPhases.

Section AccumulateProperties.

Variable cfg : Setup.

(** C3 (amended).  Every accumulate pass (order [o >= 2], wavelength set
    [k >= 0], either output mode) that returns has drawn every layer of
    the scattering texture, all in one OpenGL state.  All its draws go
    into the multiple-scattering accumulator with the blend function the
    pass was entered with, and blending is enabled unless the order is 2
    and the accumulator starts afresh: the set is the first one, or the
    result is saved as radiance (one accumulator per set).  The blending
    is additive: in a run started with blending off, whatever is drawn
    with blending enabled is drawn with the blend function
    (GL_ONE, GL_ONE). *)
Theorem accumulate_blending scatteringOrder texIndex w :
  2 <= scatteringOrder -> 0 <= texIndex ->
  Forall (fun g =>
            blendEnabled g 0
              = negb ((scatteringOrder =? 2) && ((texIndex =? 0) || saveResultAsRadiance cfg))
            /\ renderTarget g 0 = Some TEX_MULTIPLE_SCATTERING
            /\ blendFunc g = blendFunc (gl w))
         (drawsOf (events (accumulateMultipleScattering cfg scatteringOrder texIndex) w))
  /\ (outcome (accumulateMultipleScattering cfg scatteringOrder texIndex) w = Ok tt ->
      exists g,
        drawsOf (events (accumulateMultipleScattering cfg scatteringOrder texIndex) w)
        = repeat g (scatTexDepth cfg)
        /\ blendEnabled g
           = (fun _ => negb ((scatteringOrder =? 2)
                             && ((texIndex =? 0) || saveResultAsRadiance cfg))))
  /\ (forall w0, inBlend OffOrAdditive (gl w0) ->
                 Forall goodDraw (drawsOf (events (generate cfg) w0))).
Proof.
  intros Ho Hk.
  assert (Hblend : accumulateBlend cfg scatteringOrder texIndex
                   = negb ((scatteringOrder =? 2)
                           && ((texIndex =? 0) || saveResultAsRadiance cfg))).
  { unfold accumulateBlend.
    destruct (saveResultAsRadiance cfg), (Z.gtb_spec scatteringOrder 2),
      (Z.eqb_spec scatteringOrder 2), (Z.gtb_spec texIndex 0), (Z.eqb_spec texIndex 0);
      simpl; auto; lia. }
  split; [|split; [|intros w0 H0; apply draws_of_a_run, H0]].
  - apply Forall_drawsOf.
    destruct (accumulateMultipleScattering cfg scatteringOrder texIndex w)
      as [[r w'] evs] eqn:Hrun.
    pose proof (accumulateMultipleScattering_run _ _ _ _ _ _ _ Hrun) as H.
    apply run_outcome in Hrun. destruct Hrun as (_ & _ & ->).
    destruct r as [u|e]; [|apply compile_drawPred; exact H].
    destruct H as (evsC & evsR & g & -> & HC & HR & Hb & Ht & Hf & _).
    repeat (apply Forall_app; split).
    + apply compile_drawPred; exact HC.
    + unfold luminanceUniform. destruct (saveResultAsRadiance cfg); repeat constructor.
    + repeat constructor.
    + apply render_drawPred with g; [|exact HR].
      rewrite Hb, Hblend. auto.
    + destruct (dbgSaveAccumScattering cfg); repeat constructor.
    + match goal with |- context [if ?c then [SaveTexture _ _ _] else []] => destruct c end;
        repeat constructor.
  - intros Hok.
    destruct (accumulateMultipleScattering_layers cfg _ _ _ Hok) as (g & Hd & Hb & _).
    exists g. rewrite Hb, Hblend. auto.
Qed.


End AccumulateProperties.

(** An accumulate pass of order 3 into the second set, started with the
    OpenGL defaults: it returns, having drawn the two layers. *)
Lemma accumulate_blending_witness :
  2 <= 3 /\ 0 <= 1 /\
  outcome (accumulateMultipleScattering (Example.exampleSetup false 3) 3 1)
    Example.initialWorld = Ok tt /\
  Forall (fun g =>
            blendEnabled g 0
              = negb ((3 =? 2) && ((1 =? 0)
                                   || saveResultAsRadiance (Example.exampleSetup false 3)))
            /\ renderTarget g 0 = Some TEX_MULTIPLE_SCATTERING
            /\ blendFunc g = blendFunc (gl Example.initialWorld))
         (drawsOf (events (accumulateMultipleScattering (Example.exampleSetup false 3) 3 1)
                     Example.initialWorld))
  /\ (outcome (accumulateMultipleScattering (Example.exampleSetup false 3) 3 1)
        Example.initialWorld = Ok tt ->
      exists g,
        drawsOf (events (accumulateMultipleScattering (Example.exampleSetup false 3) 3 1)
                   Example.initialWorld)
        = repeat g (scatTexDepth (Example.exampleSetup false 3))
        /\ blendEnabled g
           = (fun _ => negb ((3 =? 2)
                             && ((1 =? 0)
                                 || saveResultAsRadiance (Example.exampleSetup false 3)))))
  /\ (forall w0, inBlend OffOrAdditive (gl w0) ->
                 Forall goodDraw
                   (drawsOf (events (generate (Example.exampleSetup false 3)) w0))).
Proof.
  split; [lia|]. split; [lia|]. split; [vm_compute; reflexivity|].
  apply (accumulate_blending (Example.exampleSetup false 3) 3 1 Example.initialWorld); lia.
Defined.


(** C3 as stated fails: saving radiance, the order-2 pass of the second
    wavelength set draws both layers with blending disabled, although it
    is not the first write of a luminance run. *)
Lemma accumulate_blending_counterexample :
  map (fun g => blendEnabled g 0)
    (drawsOf (events (accumulateMultipleScattering (Example.exampleSetup true 2) 2 1)
                Example.blendingWorld))
  = [false; false].
Proof. vm_compute. reflexivity. Qed.

(** The passes of the theorems above do draw and save on the example
    installation. *)
Example accumulate_pass_runs :
  outcome (accumulateMultipleScattering (Example.exampleSetup false 3) 3 1)
    Example.initialWorld = Ok tt
  /\ map (fun g => blendEnabled g 0)
       (drawsOf (events (accumulateMultipleScattering (Example.exampleSetup false 3) 3 1)
                   Example.initialWorld)) = [true; true]
  /\ map snd (savesOf (events (accumulateMultipleScattering (Example.exampleSetup false 3) 3 1)
                         Example.initialWorld))
     = [txt "out/multiple-scattering-to-order3-wlset1.f32";
        txt "out/multiple-scattering-xyzw.f32"].
Proof. vm_compute. repeat split. Qed.

Example indirect_irradiance_pass_runs :
  map (fun g => (blendEnabled g 0, blendEnabled g 1))
    (drawsOf (events (computeIndirectIrradianceOrder1 (Example.exampleSetup false 3) 0 0)
                Example.blendingWorld)) = [(false, true)]
  /\ map (fun g => (blendEnabled g 0, blendEnabled g 1))
       (drawsOf (events (computeIndirectIrradianceOrder1 (Example.exampleSetup false 3) 0 1)
                   Example.initialWorld)) = [(true, true)].
Proof. vm_compute. repeat split. Qed.

(** A whole run on the example installation, two wavelength sets and
    three orders: the files it writes when the result is luminance, and
    when it is radiance. *)
Example whole_run_files :
  outcome (generate (Example.exampleSetup false 3)) Example.initialWorld = Ok tt
  /\ map snd (savesOf (events (generate (Example.exampleSetup false 3)) Example.initialWorld))
     = [txt "out/transmittance-wlset0.f32";
        txt "out/multiple-scattering-to-order2-wlset0.f32";
        txt "out/multiple-scattering-to-order3-wlset0.f32";
        txt "out/transmittance-wlset1.f32";
        txt "out/multiple-scattering-to-order2-wlset1.f32";
        txt "out/multiple-scattering-to-order3-wlset1.f32";
        txt "out/multiple-scattering-xyzw.f32"]
  /\ map snd (savesOf (events (generate (Example.exampleSetup true 3)) Example.initialWorld))
     = [txt "out/transmittance-wlset0.f32";
        txt "out/multiple-scattering-to-order2-wlset0.f32";
        txt "out/multiple-scattering-to-order3-wlset0.f32";
        txt "out/multiple-scattering-wlset0.f32";
        txt "out/transmittance-wlset1.f32";
        txt "out/multiple-scattering-to-order2-wlset1.f32";
        txt "out/multiple-scattering-to-order3-wlset1.f32";
        txt "out/multiple-scattering-wlset1.f32"].
Proof. vm_compute. repeat split. Qed.

(** ** The radiance-to-luminance matrix *)

Lemma int32_small z : -2147483648 <= z <= 2147483647 -> int32 z = z.
Proof. intros H. unfold int32. rewrite Z.mod_small; lia. Qed.

(** The matrix [radianceToLuminance] computes for wavelength set [k] out
    of [N] is, entry by entry, the product of the three factors. *)
Lemma radianceToLuminance_matches_spec cfg k i j :
  0 <= k < Z.of_nat (length (allWavelengths cfg)) ->
  4 * Z.of_nat (length (allWavelengths cfg)) <= 2147483647 ->
  (i < 4)%nat -> (j < 4)%nat ->
  (mxOf (radianceToLuminance cfg k) i j == radianceToLuminance_spec cfg k i j)%Q.
Proof.
  intros Hk HN Hi Hj.
  unfold radianceToLuminance, radianceToLuminance_spec.
  set (N := Z.of_nat (length (allWavelengths cfg))) in *.
  rewrite int32_small by lia.
  replace (Z.quot (4 * N) 4) with N by (rewrite Z.mul_comm, Z.quot_mul; lia).
  replace (4 * N =? 4) with (N =? 1)
    by (destruct (Z.eqb_spec N 1), (Z.eqb_spec (4 * N) 4); auto; lia).
  replace (k + 1 =? N) with (k =? N - 1)
    by (destruct (Z.eqb_spec (k + 1) N), (Z.eqb_spec k (N - 1)); auto; lia).
  match goal with
  | |- context [mscale ?W _] =>
      assert (HW : exists a b c d, W = diag a b c d /\ trapezoidWeights N k = Vec4 a b c d)
  end.
  { unfold trapezoidWeights.
    destruct (N =? 1), (k =? 0), (k =? N - 1); do 4 eexists; split; reflexivity. }
  destruct HW as (a & b & c & d & -> & ->).
  set (s := Qabs _). set (dl := (inject_Z (4 * N) - 1)%Q).
  destruct i as [|[|[|[|i]]]]; try lia; destruct j as [|[|[|[|j]]]]; try lia.
  all: cbv [mxOf mxmul mxdiag mxcolumns mxscale maxLuminousEfficacy diag mmul mapply
    mdiv mscale vadd vscale vdiv mcol vidx col0 col1 col2 col3 vx vy vz vw Nat.eqb].
  all: unfold Qdiv; ring.
Qed.

(** The uniform passed to the shader is the same matrix: reading glm's
    column-major numbers as rows and transposing gives row [i], column
    [j] of it. *)
Lemma uniform_matrix_entry m i j :
  (i < 4)%nat -> (j < 4)%nat ->
  nth j (qrow (transposed (QMatrix4x4 (valuePtr m))) i) 0%Q = mxOf m i j.
Proof.
  intros Hi Hj.
  destruct i as [|[|[|[|i]]]]; try lia; destruct j as [|[|[|[|j]]]]; try lia; reflexivity.
Qed.

(** C1.  An accumulate pass for wavelength set [k] out of [N] that
    returns sets no matrix uniform when the result is saved as radiance.
    In luminance mode it sets exactly one, named radianceToLuminance,
    before it draws anything, and then draws the layers; the matrix is,
    entry by entry, the product of
    diag(683.002, 683.002, 683.002, 1700.13), the matrix whose columns
    are [wavelengthToXYZW] of the four wavelengths of the set, and the
    diagonal matrix of the trapezoid weights scaled by
    |lambda_last - lambda_first| / (4N - 1). *)
Theorem radianceToLuminance_correct cfg scatteringOrder k w :
  0 <= k < Z.of_nat (length (allWavelengths cfg)) ->
  4 * Z.of_nat (length (allWavelengths cfg)) <= 2147483647 ->
  outcome (accumulateMultipleScattering cfg scatteringOrder k) w = Ok tt ->
  if saveResultAsRadiance cfg
  then matrixUniformsOf (events (accumulateMultipleScattering cfg scatteringOrder k) w) = []
  else exists before rows after,
         events (accumulateMultipleScattering cfg scatteringOrder k) w
         = before ++ UniformMatrix (txt "radianceToLuminance") rows :: after
         /\ matrixUniformsOf before = [] /\ drawsOf before = []
         /\ matrixUniformsOf after = []
         /\ length (drawsOf after) = scatTexDepth cfg
         /\ forall i j, (i < 4)%nat -> (j < 4)%nat ->
              (nth j (qrow rows i) 0 == radianceToLuminance_spec cfg k i j)%Q.
Proof.
  intros Hk HN Hok.
  destruct (accumulateMultipleScattering cfg scatteringOrder k w) as [[r w'] evs] eqn:Hrun.
  pose proof (accumulateMultipleScattering_run _ _ _ _ _ _ _ Hrun) as H.
  apply run_outcome in Hrun. destruct Hrun as (Hr & _ & Hevs).
  rewrite Hok in Hr. subst r. rewrite Hevs.
  destruct H as (evsC & evsR & g & -> & HC & HR & _ & _ & _ & Hd).
  unfold luminanceUniform.
  destruct (saveResultAsRadiance cfg); cbn [negb].
  - rewrite !matrixUniformsOf_app, (compile_matrixUniformsOf _ HC),
      (render_matrixUniformsOf _ _ HR), matrixUniformsOf_accumulateSaves.
    reflexivity.
  - exists evsC. eexists. eexists. split; [reflexivity|].
    split; [apply compile_matrixUniformsOf, HC|].
    split; [apply compile_drawsOf, HC|].
    split; [|split].
    + rewrite !matrixUniformsOf_app, (render_matrixUniformsOf _ _ HR),
        matrixUniformsOf_accumulateSaves.
      reflexivity.
    + rewrite !drawsOf_app, Hd, drawsOf_accumulateSaves. cbn [drawsOf omap app].
      rewrite app_nil_r. apply repeat_length.
    + intros i j Hi Hj. rewrite uniform_matrix_entry by assumption.
      apply radianceToLuminance_matches_spec; assumption.
Qed.

(** The accumulate pass of order 3 for the second of two sets, the result
    saved as luminance. *)
Lemma radianceToLuminance_correct_witness :
  0 <= 1 < Z.of_nat (length (allWavelengths (Example.exampleSetup false 3)))
  /\ 4 * Z.of_nat (length (allWavelengths (Example.exampleSetup false 3))) <= 2147483647
  /\ outcome (accumulateMultipleScattering (Example.exampleSetup false 3) 3 1)
       Example.initialWorld = Ok tt
  /\ exists before rows after,
       events (accumulateMultipleScattering (Example.exampleSetup false 3) 3 1)
         Example.initialWorld
       = before ++ UniformMatrix (txt "radianceToLuminance") rows :: after
       /\ matrixUniformsOf before = [] /\ drawsOf before = []
       /\ matrixUniformsOf after = []
       /\ length (drawsOf after) = scatTexDepth (Example.exampleSetup false 3)
       /\ forall i j, (i < 4)%nat -> (j < 4)%nat ->
            (nth j (qrow rows i) 0
             == radianceToLuminance_spec (Example.exampleSetup false 3) 1 i j)%Q.
Proof.
  assert (H : outcome (accumulateMultipleScattering (Example.exampleSetup false 3) 3 1)
                Example.initialWorld = Ok tt) by (vm_compute; reflexivity).
  split; [simpl; lia|]. split; [simpl; lia|]. split; [exact H|].
  apply (radianceToLuminance_correct (Example.exampleSetup false 3) 3 1 Example.initialWorld);
    [simpl; lia | simpl; lia | exact H].
Defined.

(** Saving radiance, the same pass sets no matrix; saving luminance, the
    one it sets has 683.002 * 0.48 * 0.5 * (520 - 380) / 7 in row 1 (Y)
    of column 3. *)
Example accumulate_pass_matrix :
  matrixUniformsOf (events (accumulateMultipleScattering (Example.exampleSetup true 3) 3 1)
                      Example.initialWorld) = []
  /\ map (fun u => (fst u, Qred (nth 3 (qrow (snd u) 1) 0%Q)))
       (matrixUniformsOf
          (events (accumulateMultipleScattering (Example.exampleSetup false 3) 3 1)
             Example.initialWorld))
     = [(txt "radianceToLuminance", (2049006 # 625)%Q)].
Proof. vm_compute. split; reflexivity. Qed.

(** Row 1 (Y) of column 3 for the second of two sets:
    683.002 * 0.48 * 0.5 * (520 - 380) / 7. *)
Example radianceToLuminance_entry :
  (mxOf (radianceToLuminance (Example.exampleSetup false 3) 1) 1%nat 3%nat
   == 2049006 # 625)%Q.
Proof. vm_compute. reflexivity. Qed.

(** ** The listing of a shader that does not compile *)

Section ListingNumbers.
Variable unicodeWord : QChar -> bool.

Lemma sourceListing_lines ls n : map snd (sourceListing unicodeWord ls n) = ls.
Proof.
  revert n. induction ls as [|l ls IH]; intros n; simpl; [reflexivity|].
  f_equal. destruct (lineChanger unicodeWord l); apply IH.
Qed.

Lemma takeDigits_digits s : forallb isDigit (fst (takeDigits s)) = true.
Proof.
  induction s as [|c s IH]; simpl; [reflexivity|].
  destruct (isDigit c) eqn:Hc; [|reflexivity].
  destruct (takeDigits s) as [d r]. simpl in *. now rewrite Hc, IH.
Qed.

(** What the pattern captures is a string of digits. *)
Lemma lineChanger_digits line digits :
  lineChanger unicodeWord line = Some digits -> forallb isDigit digits = true.
Proof.
  unfold lineChanger.
  destruct (skipSpaces line) as [|c afterHash]; [discriminate|].
  destruct (N.eqb c hash); [|discriminate].
  destruct (startsWith _ _); [|discriminate].
  destruct (skipn 4 _) as [|b s] eqn:Hs; [discriminate|].
  destruct (isSpace b); [|discriminate].
  pose proof (takeDigits_digits (skipSpaces (b :: s))) as Hd.
  destruct (takeDigits (skipSpaces (b :: s))) as [d rest]. cbn [fst] in Hd.
  destruct d as [|d0 d]; [discriminate|].
  destruct rest as [|x rest]; [now intros [= <-]|].
  destruct (isWord unicodeWord x); [discriminate | now intros [= <-]].
Qed.

Lemma digits_nonneg digits : forall acc,
  forallb isDigit digits = true -> 0 <= acc -> 0 <= digitsValue acc digits.
Proof.
  induction digits as [|c ds IH]; intros acc Hd Hacc; simpl; [exact Hacc|].
  simpl in Hd. apply andb_prop in Hd as [Hc Hd]. apply IH; [exact Hd|].
  unfold isDigit, digitValue in *. apply andb_prop in Hc as [Hc _].
  apply N.leb_le in Hc. lia.
Qed.

Lemma toInt_range digits :
  forallb isDigit digits = true -> 0 <= toInt digits <= 2147483647.
Proof.
  intros Hd. unfold toInt. fold (digitsValue 0 digits).
  pose proof (digits_nonneg digits 0 Hd (Z.le_refl 0)) as H.
  destruct (Z.leb_spec (digitsValue 0 digits) 2147483647); lia.
Qed.

(** After a #line directive the counter is one less than the number it
    names, and the increment of the loop brings it to that number. *)
Lemma directive_number digits :
  forallb isDigit digits = true ->
  int32 (int32 (toInt digits - 1) + 1) = toInt digits.
Proof.
  intros Hd. apply toInt_range in Hd.
  rewrite (int32_small (toInt digits - 1)) by lia.
  replace (toInt digits - 1 + 1) with (toInt digits) by lia.
  apply int32_small. lia.
Qed.

Lemma sourceListing_cons line rest n :
  sourceListing unicodeWord (line :: rest) n
  = (n, line) :: sourceListing unicodeWord rest (nextNumber unicodeWord n line).
Proof.
  simpl. f_equal. unfold nextNumber.
  destruct (lineChanger unicodeWord line) as [digits|] eqn:E; [|reflexivity].
  now rewrite (directive_number digits (lineChanger_digits _ _ E)).
Qed.

Lemma sourceListing_step ls n i a b :
  sourceListing unicodeWord ls n !! i = Some a ->
  sourceListing unicodeWord ls n !! S i = Some b ->
  fst b = nextNumber unicodeWord (fst a) (snd a).
Proof.
  revert n i. induction ls as [|l ls IH]; intros n i; [discriminate|].
  rewrite sourceListing_cons. destruct i as [|i]; simpl.
  - intros [= <-]. destruct ls as [|l' ls]; [discriminate|].
    rewrite sourceListing_cons. now intros [= <-].
  - apply IH.
Qed.

Lemma sourceListing_first ls n a :
  sourceListing unicodeWord ls n !! 0%nat = Some a -> fst a = n.
Proof. destruct ls; simpl; [discriminate|]. now intros [= <-]. Qed.

End ListingNumbers.

(** *** A rejected compilation ends the run *)

Lemma fatal_bind cfg {A B} (m : M A) (k : A -> M B) :
  fatal cfg m -> (forall a, fatal cfg (k a)) -> fatal cfg (bind m k).
Proof.
  intros Hm Hk w pre ty d src post E Hfail.
  specialize (Hm w). unfold fatal, outcome, events, bind in *.
  destruct (m w) as [[[a|e] w1] evs1]; simpl in *.
  2:{ destruct (Hm _ _ _ _ _ E Hfail) as [H1 H2]. split; [exact H1|].
      injection H2 as ->. reflexivity. }
  specialize (Hk a w1). destruct (k a w1) as [[r2 w2] evs2]; simpl in *.
  apply app_eq_app in E. destruct E as [l [[E1 E2]|[E1 E2]]].
  - destruct l as [|x l]; simpl in E2.
    + apply (Hk [] _ _ _ _ (eq_sym E2) Hfail).
    + injection E2 as <- ->.
      destruct (Hm _ _ _ _ _ E1 Hfail) as [_ Hr]. discriminate.
  - apply (Hk _ _ _ _ _ E2 Hfail).
Qed.

Lemma failStops_silent cfg {A} (r : result A) evs :
  Forall (fun ev => match ev with Compile _ _ _ => False | _ => True end) evs ->
  failStops cfg r evs.
Proof.
  intros H pre ty d src post ->. exfalso.
  apply Forall_app in H as [_ H]. inversion H as [|? ? Hc]. exact Hc.
Qed.

Lemma fatal_ret cfg {A} (a : A) : fatal cfg (ret a).
Proof. intros w. apply failStops_silent. constructor. Qed.

Lemma fatal_throw cfg {A} e : fatal cfg (@throw A e).
Proof. intros w. apply failStops_silent. constructor. Qed.

Lemma fatal_liftResult cfg {A} (r : result A) : fatal cfg (liftResult r).
Proof. destruct r; [apply fatal_ret | apply fatal_throw]. Qed.

Lemma fatal_getWorld cfg : fatal cfg getWorld.
Proof. intros w. apply failStops_silent. constructor. Qed.

Lemma fatal_setWorld cfg f : fatal cfg (setWorld f).
Proof. intros w. apply failStops_silent. constructor. Qed.

Lemma fatal_emit cfg ev :
  match ev with Compile _ _ _ => False | _ => True end -> fatal cfg (emit ev).
Proof. intros H w. apply failStops_silent. repeat constructor. exact H. Qed.

Lemma fatal_when cfg b (m : M unit) : fatal cfg m -> fatal cfg (when b m).
Proof. destruct b; simpl; [auto | intros _; apply fatal_ret]. Qed.

Lemma fatal_forEach cfg {A} (xs : list A) body :
  (forall x, fatal cfg (body x)) -> fatal cfg (forEach xs body).
Proof.
  intros H. induction xs as [|x xs IH]; simpl; [apply fatal_ret|].
  apply fatal_bind; auto.
Qed.

Create HintDb fatal.

Ltac fatal_unfold :=
  unfold bind_;
  unfold glBindFramebuffer, glFramebufferTexture, setDrawBuffers, glEnable, glDisable,
    glEnablei, glDisablei, setBlend, glBlendFunc, glViewport, bindProgram, glFinish,
    glActiveTexture, setUniformValue, setUniformMatrix, setUniformTexture, saveTexture,
    cerr, initConstHeader, renderQuad, eraseShader, clearShaders, writeVirtualSourceFile;
  unfold setGL, setAllShaders, setConstantsHeader, setDensitiesHeader.

Ltac fatal_tac :=
  fatal_unfold;
  repeat
    lazymatch goal with
    | |- fatal _ (bind _ _) => apply fatal_bind; [|intros ?]
    | |- fatal _ (ret _) => apply fatal_ret
    | |- fatal _ (throw _) => apply fatal_throw
    | |- fatal _ (liftResult _) => apply fatal_liftResult
    | |- fatal _ getWorld => apply fatal_getWorld
    | |- fatal _ (setWorld _) => apply fatal_setWorld
    | |- fatal _ (when _ _) => apply fatal_when
    | |- fatal _ (forEach _ _) => apply fatal_forEach; intros ?
    | |- fatal _ (emit _) => apply fatal_emit; exact I
    | |- fatal _ (if ?c then _ else _) => destruct c
    | |- fatal _ (match ?x with Some _ => _ | None => _ end) => destruct x
    | |- fatal _ (let (_, _) := ?p in _) => destruct p
    | |- fatal _ (let '(_, _) := ?p in _) => destruct p
    | |- _ => solve [auto with fatal]
    end.

Section CompileFailure.

Variable cfg : Setup.

(** The run of [compileShader]: it calls the compiler once, unless the
    headers cannot be included; when the compiler rejects the source it
    prints the report and throws. *)
Lemma compileShader_run type source description w :
  compileShader cfg type source description w =
  match withHeadersIncluded (getShaderSrc (disk cfg)) (constantsHeader w) (densitiesHeader w)
          source description with
  | Throw e => (Throw e, w, [])
  | Ok source' =>
      if fst (glslCompile cfg type source') then
        (Ok {| shaderType := type; givenSource := source; sourceCode := source' |}, w,
         Compile type description source'
           :: (if negb (Nat.eqb (length (snd (glslCompile cfg type source'))) 0)
               then [Stderr (txt "Warnings while compiling " ++ description ++ txt ":
" ++ snd (glslCompile cfg type source') ++ [nl])]
               else []))
      else
        (Throw (ErrCompile description), w,
         Compile type description source' :: compileReport cfg type description source')
  end.
Proof.
  unfold compileShader. rewrite run_bind. cbn [getWorld]. rewrite run_bind.
  destruct (withHeadersIncluded _ _ _ source description) as [source'|e];
    cbn [liftResult ret throw]; [|reflexivity].
  rewrite run_bind. cbn [emit]. unfold compileReport.
  destruct (glslCompile cfg type source') as [compiled log]. cbn [fst snd].
  destruct compiled; cbn [negb]; [|reflexivity].
  destruct (negb (Nat.eqb (length log) 0)); reflexivity.
Qed.

Lemma after_compile ev tail pre type description source post :
  Forall (fun ev => match ev with Compile _ _ _ => False | _ => True end) tail ->
  ev :: tail = pre ++ Compile type description source :: post ->
  ev = Compile type description source /\ post = tail.
Proof.
  intros Htail E. destruct pre as [|x pre]; simpl in E.
  - now injection E as -> ->.
  - exfalso. injection E as _ ->. apply Forall_app in Htail as [_ H].
    inversion H as [|? ? Hc]. exact Hc.
Qed.

Lemma fatal_compileShader type source description :
  fatal cfg (compileShader cfg type source description).
Proof.
  intros w pre ty d src post. unfold outcome, events. rewrite compileShader_run.
  destruct (withHeadersIncluded _ _ _ source description) as [source'|e]; cbn [fst snd].
  { destruct (fst (glslCompile cfg type source')) eqn:Hc; cbn [fst snd]; intros E Hfail.
    - apply after_compile in E as [[= <- <- <-] _].
      + congruence.
      + destruct (negb _); repeat constructor.
    - apply after_compile in E as [[= <- <- <-] ->]; [auto|].
      unfold compileReport. repeat constructor. }
  intros E. destruct pre; discriminate E.
Qed.

#[local] Hint Resolve fatal_compileShader : fatal.

Lemma fatal_compileShaderFile type filename :
  fatal cfg (compileShaderFile cfg type filename).
Proof. unfold compileShaderFile. fatal_tac. Qed.

#[local] Hint Resolve fatal_compileShaderFile : fatal.

Lemma fatal_getOrCompileShader type filename :
  fatal cfg (getOrCompileShader cfg type filename).
Proof. unfold getOrCompileShader. fatal_tac. Qed.

#[local] Hint Resolve fatal_getOrCompileShader : fatal.

Lemma fatal_getOrCompileShaders type filenames :
  fatal cfg (getOrCompileShaders cfg type filenames).
Proof. induction filenames as [|f fs IH]; simpl; fatal_tac. Qed.

#[local] Hint Resolve fatal_getOrCompileShaders : fatal.

Lemma fatal_compileShaderProgram mainSrcFileName description useGeomShader :
  fatal cfg (compileShaderProgram cfg mainSrcFileName description useGeomShader).
Proof. unfold compileShaderProgram. fatal_tac. Qed.

Lemma fatal_withGlobals generator : fatal cfg (withGlobals cfg generator).
Proof. unfold withGlobals. fatal_tac. Qed.

Lemma fatal_checkFramebufferStatus what : fatal cfg (checkFramebufferStatus cfg what).
Proof. unfold checkFramebufferStatus. fatal_tac. Qed.

Lemma fatal_saveIrradiance o k : fatal cfg (saveIrradiance cfg o k).
Proof. unfold saveIrradiance. fatal_tac. Qed.

Lemma fatal_saveScatteringDensity o k : fatal cfg (saveScatteringDensity cfg o k).
Proof. unfold saveScatteringDensity. fatal_tac. Qed.

Lemma fatal_render3DTexLayers program what : fatal cfg (render3DTexLayers cfg program what).
Proof. unfold render3DTexLayers. fatal_tac. Qed.

Lemma fatal_scatteringDensitySource g o : fatal cfg (scatteringDensitySource cfg g o).
Proof. unfold scatteringDensitySource. fatal_tac. Qed.

Lemma fatal_indirectIrradianceSource o : fatal cfg (indirectIrradianceSource cfg o).
Proof. unfold indirectIrradianceSource. fatal_tac. Qed.

Lemma fatal_phaseFunctionsSrc : fatal cfg (phaseFunctionsSrc cfg).
Proof. unfold phaseFunctionsSrc. fatal_tac. Qed.

#[local] Hint Resolve fatal_compileShaderProgram fatal_withGlobals
  fatal_checkFramebufferStatus fatal_saveIrradiance fatal_saveScatteringDensity
  fatal_render3DTexLayers fatal_scatteringDensitySource fatal_indirectIrradianceSource
  fatal_phaseFunctionsSrc : fatal.

Lemma fatal_computeTransmittance k : fatal cfg (computeTransmittance cfg k).
Proof. unfold computeTransmittance. fatal_tac. Qed.

Lemma fatal_computeDirectGroundIrradiance k :
  fatal cfg (computeDirectGroundIrradiance cfg k).
Proof. unfold computeDirectGroundIrradiance. fatal_tac. Qed.

Lemma fatal_computeSingleScattering k scatterer :
  fatal cfg (computeSingleScattering cfg k scatterer).
Proof. unfold computeSingleScattering. fatal_tac. Qed.

Lemma fatal_computeIndirectIrradianceOrder1 k i :
  fatal cfg (computeIndirectIrradianceOrder1 cfg k i).
Proof. unfold computeIndirectIrradianceOrder1. fatal_tac. Qed.

#[local] Hint Resolve fatal_computeSingleScattering fatal_computeIndirectIrradianceOrder1
  : fatal.

Lemma fatal_computeScatteringDensityOrder2 k :
  fatal cfg (computeScatteringDensityOrder2 cfg k).
Proof. unfold computeScatteringDensityOrder2. fatal_tac. Qed.

Lemma fatal_computeScatteringDensity o k : fatal cfg (computeScatteringDensity cfg o k).
Proof. unfold computeScatteringDensity. fatal_tac. Qed.

Lemma fatal_computeIndirectIrradiance o k : fatal cfg (computeIndirectIrradiance cfg o k).
Proof. unfold computeIndirectIrradiance. fatal_tac. Qed.

Lemma fatal_accumulateMultipleScattering o k :
  fatal cfg (accumulateMultipleScattering cfg o k).
Proof. unfold accumulateMultipleScattering. fatal_tac. Qed.

#[local] Hint Resolve fatal_accumulateMultipleScattering : fatal.

Lemma fatal_computeMultipleScatteringFromDensity o k :
  fatal cfg (computeMultipleScatteringFromDensity cfg o k).
Proof. unfold computeMultipleScatteringFromDensity. fatal_tac. Qed.

#[local] Hint Resolve fatal_computeScatteringDensityOrder2 fatal_computeScatteringDensity
  fatal_computeIndirectIrradiance fatal_computeMultipleScatteringFromDensity : fatal.

Lemma fatal_computeMultipleScattering k : fatal cfg (computeMultipleScattering cfg k).
Proof. unfold computeMultipleScattering. fatal_tac. Qed.

#[local] Hint Resolve fatal_computeTransmittance fatal_computeDirectGroundIrradiance
  fatal_computeMultipleScattering : fatal.

Lemma fatal_processWavelengthSet k : fatal cfg (processWavelengthSet cfg k).
Proof. unfold processWavelengthSet. fatal_tac. Qed.

Lemma fatal_generate : fatal cfg (generate cfg).
Proof. unfold generate. apply fatal_forEach. intros k. apply fatal_processWavelengthSet. Qed.

(** C9.  Wherever in a run of the generator the GPU compiler rejects an
    assembled source, the run ends there: what follows the call of the
    compiler is the report and nothing else, the run has thrown, and
    [main] exits with status 1.  The report is the compiler log and then
    the whole assembled source line by line, each line with a number: the
    first line gets 1, the line after a #line directive gets the number
    the directive names, any other line one more than the line before,
    counted as an [int]. *)
Theorem compile_failure_listing w pre type description source post :
  events (generate cfg) w = pre ++ Compile type description source :: post ->
  fst (glslCompile cfg type source) = false ->
  (post = [ Stderr (txt "Failed to compile " ++ description ++ txt ":
" ++ snd (glslCompile cfg type source) ++ [nl]);
            Stderr (txt "Source of the shader:
" ++ rule);
            Stderr (listingText (unicodeWord cfg) source);
            Stderr rule ]
   /\ outcome (generate cfg) w = Throw (ErrCompile description)
   /\ exitStatus cfg w = 1)
  /\ listingText (unicodeWord cfg) source
     = concat (map (fun entry => setw (ceilLog10 (countChar nl source)) (number (fst entry))
                                   ++ [sp] ++ snd entry ++ [nl])
                   (sourceListing (unicodeWord cfg) (lines source) 1))
  /\ map snd (sourceListing (unicodeWord cfg) (lines source) 1) = lines source
  /\ (forall a, sourceListing (unicodeWord cfg) (lines source) 1 !! 0%nat = Some a -> fst a = 1)
  /\ (forall i a b,
        sourceListing (unicodeWord cfg) (lines source) 1 !! i = Some a ->
        sourceListing (unicodeWord cfg) (lines source) 1 !! S i = Some b ->
        fst b = match lineChanger (unicodeWord cfg) (snd a) with
                | Some digits => toInt digits
                | None => int32 (fst a + 1)
                end).
Proof.
  intros E Hfail. split; [|split; [|split; [|split]]].
  - destruct (fatal_generate w _ _ _ _ _ E Hfail) as [Hpost Hout].
    split; [exact Hpost|]. split; [exact Hout|].
    unfold exitStatus. now rewrite Hout.
  - unfold listingText. f_equal. apply map_ext. intros [n line]. reflexivity.
  - apply sourceListing_lines.
  - apply sourceListing_first.
  - intros i a b Ha Hb. apply (sourceListing_step _ _ _ _ _ _ Ha Hb).
Qed.

End CompileFailure.

(** On the broken installation the copy shader is compiled in the first
    accumulate pass, after 180 events of the run. *)
Lemma compile_failure_listing_witness :
  events (generate Example.brokenSetup) Example.initialWorld
  = firstn 180 (events (generate Example.brokenSetup) Example.initialWorld)
      ++ Compile Fragment (txt "copy-scattering-texture.frag") Example.brokenSourceIncluded
      :: [ Stderr (txt "Failed to compile copy-scattering-texture.frag:
0:1: syntax error
");
           Stderr (txt "Source of the shader:
" ++ rule);
           Stderr (txt "1 #version 330
2 #line 1 1 // common-functions.h.glsl
1 float f();
2 #line 3 0 // copy-scattering-texture.frag
3 void main(){ oops }
");
           Stderr rule ]
  /\ fst (glslCompile Example.brokenSetup Fragment Example.brokenSourceIncluded) = false
  /\ outcome (generate Example.brokenSetup) Example.initialWorld
     = Throw (ErrCompile (txt "copy-scattering-texture.frag"))
  /\ exitStatus Example.brokenSetup Example.initialWorld = 1.
Proof.
  assert (H1 : events (generate Example.brokenSetup) Example.initialWorld
    = firstn 180 (events (generate Example.brokenSetup) Example.initialWorld)
      ++ Compile Fragment (txt "copy-scattering-texture.frag") Example.brokenSourceIncluded
      :: [ Stderr (txt "Failed to compile copy-scattering-texture.frag:
0:1: syntax error
");
           Stderr (txt "Source of the shader:
" ++ rule);
           Stderr (txt "1 #version 330
2 #line 1 1 // common-functions.h.glsl
1 float f();
2 #line 3 0 // copy-scattering-texture.frag
3 void main(){ oops }
");
           Stderr rule ]).
  { rewrite <- (firstn_skipn 180
                  (events (generate Example.brokenSetup) Example.initialWorld)) at 1.
    apply (f_equal (app _)). vm_compute. reflexivity. }
  assert (H2 : fst (glslCompile Example.brokenSetup Fragment Example.brokenSourceIncluded)
               = false) by (vm_compute; reflexivity).
  split; [exact H1|]. split; [exact H2|].
  destruct (compile_failure_listing Example.brokenSetup Example.initialWorld _ _ _ _ _ H1 H2)
    as [(_ & Hout & Hexit) _].
  split; [exact Hout | exact Hexit].
Defined.

(** On the broken installation the run prints the listing and exits
    with status 1. *)
Example broken_run_exits_1 :
  exitStatus Example.brokenSetup Example.initialWorld = 1
  /\ existsb (fun message =>
                bool_decide (message = listingText Example.latinLetter
                                         Example.brokenSourceIncluded))
       (stderrOf (events (generate Example.brokenSetup) Example.initialWorld)) = true.
Proof. split; vm_compute; reflexivity. Qed.

(** ** Header inclusion *)
Lemma startsWith_app s p : startsWith s p = true -> s = p ++ skipn (length p) s.
Proof.
  revert s. induction p as [|a p IH]; intros s H; simpl in *; [reflexivity|].
  destruct s as [|b s]; [discriminate|].
  apply andb_prop in H as [Hab H]. apply N.eqb_eq in Hab. subst b.
  simpl. f_equal. apply IH, H.
Qed.

Lemma startsWith_prefix p s : startsWith (p ++ s) p = true.
Proof.
  induction p as [|a p IH]; simpl; [reflexivity|].
  rewrite N.eqb_refl. exact IH.
Qed.

Lemma endsWith_app s p : endsWith s p = true -> exists stem, s = stem ++ p.
Proof.
  unfold endsWith. intros H. apply startsWith_app in H.
  exists (rev (skipn (length (rev p)) (rev s))).
  rewrite <- (rev_involutive s) at 1. rewrite H at 1. rewrite rev_app_distr, rev_involutive.
  reflexivity.
Qed.

Lemma endsWith_suffix stem p : endsWith (stem ++ p) p = true.
Proof. unfold endsWith. rewrite rev_app_distr. apply startsWith_prefix. Qed.

(** [lines] gives what [readLine] returns call after call, and every call
    shortens the stream. *)
Lemma lines_from_readLine cur s :
  (cur <> [] \/ s <> []) ->
  lines_from cur s = fst (readLine_from cur s) :: lines (snd (readLine_from cur s))
  /\ (length (snd (readLine_from cur s)) <= length s)%nat
  /\ (s <> [] -> length (snd (readLine_from cur s)) < length s)%nat.
Proof.
  revert cur. induction s as [|c s IH]; intros cur H; simpl.
  - destruct H as [H|H]; [|congruence]. destruct cur; [congruence|].
    repeat split; auto. intros; congruence.
  - destruct (N.eqb c nl).
    + simpl. repeat split; auto; lia.
    + destruct (IH (c :: cur)) as (E & L1 & L2); [left; discriminate|].
      rewrite E. repeat split; auto; lia.
Qed.

Lemma readLine_lines s :
  match readLine s with
  | None => lines s = []
  | Some (line, rest) => lines s = line :: lines rest /\ (length rest < length s)%nat
  end.
Proof.
  unfold readLine. destruct s as [|c s]; [reflexivity|].
  destruct (lines_from_readLine [] (c :: s)) as (E & _ & L); [right; discriminate|].
  destruct (readLine_from [] (c :: s)) as [line rest]. simpl in *.
  split; [exact E | apply L; discriminate].
Qed.

Section IncludeLoop.
Variable shaderSrc : text -> result text.
Variables constantsHeader densitiesHeader : text.

Lemma withHeadersIncluded_loop_lines fuel filename stream st :
  (length stream < fuel)%nat ->
  withHeadersIncluded_loop shaderSrc constantsHeader densitiesHeader fuel filename stream st
  = Some (includeLines shaderSrc constantsHeader densitiesHeader filename (lines stream) st).
Proof.
  revert stream st. induction fuel as [|fuel IH]; intros stream st Hlen; [lia|].
  simpl. pose proof (readLine_lines stream) as H.
  destruct (readLine stream) as [[line rest]|].
  - destruct H as [-> Hrest]. simpl.
    destruct (includeStep _ _ _ _ _ _) as [st'|e]; [|reflexivity].
    apply IH. lia.
  - rewrite H. reflexivity.
Qed.
End IncludeLoop.

Lemma existsb_eqb_In c (s : text) : existsb (N.eqb c) s = false -> ~ In c s.
Proof.
  intros H Hin. assert (existsb (N.eqb c) s = true); [|congruence].
  apply existsb_exists. exists c. split; [exact Hin | apply N.eqb_refl].
Qed.

Lemma includePattern_Some line name :
  includePattern line = Some name ->
  line = includeOpening ++ name ++ [dq] /\ name <> [] /\ ~ In dq name.
Proof.
  unfold includePattern.
  destruct (startsWith line includeOpening) eqn:Hs; [|discriminate].
  apply startsWith_app in Hs.
  destruct (rev (skipn _ line)) as [|q rname] eqn:Hrev; [discriminate|].
  destruct (N.eqb q dq) eqn:Hq; [|discriminate]. apply N.eqb_eq in Hq. subst q.
  destruct (existsb (N.eqb dq) rname) eqn:He; [discriminate|].
  destruct (Nat.eqb (length rname) 0) eqn:Hl; [discriminate|]. simpl.
  intros [= <-].
  assert (Hrest : skipn (length includeOpening) line = rev rname ++ [dq]).
  { rewrite <- (rev_involutive (skipn _ line)), Hrev. reflexivity. }
  split; [|split].
  - rewrite Hs at 1. rewrite Hrest. reflexivity.
  - intros Hnil. apply (f_equal (@length _)) in Hnil. rewrite length_rev in Hnil.
    apply Nat.eqb_neq in Hl. simpl in Hnil. congruence.
  - intros Hin. apply (existsb_eqb_In _ _ He). apply in_rev. exact Hin.
Qed.

Lemma simplified_opening rest :
  startsWith (simplified (includeOpening ++ rest)) includeOpening = true.
Proof. reflexivity. Qed.

Section IncludeSteps.
Variable shaderSrc : text -> result text.
Variables constantsHeader densitiesHeader : text.
Variable filename : text.

Lemma includeStep_Ok st line st' :
  includeStep shaderSrc constantsHeader densitiesHeader filename st line = Ok st' ->
  ((forall name, ~ isIncludeDirective line name)
   /\ st' = {| lineNumber := lineNumber st + 1; headerNumber := headerNumber st;
               newSrc := newSrc st ++ line ++ [nl] |})
  \/ (exists name header,
        isIncludeDirective line name
        /\ resolveHeaderWith shaderSrc constantsHeader densitiesHeader name = Ok header
        /\ st' = {| lineNumber := lineNumber st + 1; headerNumber := headerNumber st + 1;
                    newSrc := newSrc st
                      ++ (txt "#line 1 " ++ number (headerNumber st) ++ txt " // "
                            ++ name ++ [nl])
                      ++ header
                      ++ (txt "#line " ++ number (lineNumber st + 1) ++ txt " 0 // "
                            ++ filename ++ [nl]) |}).
Proof.
  unfold includeStep.
  destruct (startsWith (simplified line) _) eqn:Hs; simpl.
  - destruct (includePattern line) as [name|] eqn:Hp; [|discriminate].
    destruct (endsWith name headerSuffix) eqn:He; simpl; [|discriminate].
    apply includePattern_Some in Hp. destruct Hp as (Hl & Hn & Hq).
    apply endsWith_app in He.
    intros H. right. exists name.
    assert (HR : resolveHeaderWith shaderSrc constantsHeader densitiesHeader name
                 = (if decide (name = CONSTANTS_HEADER_FILENAME) then Ok constantsHeader
                    else if decide (name = DENSITIES_HEADER_FILENAME) then Ok densitiesHeader
                    else shaderSrc name)) by reflexivity.
    rewrite <- HR in H.
    destruct (resolveHeaderWith shaderSrc constantsHeader densitiesHeader name)
      as [header|e]; [|discriminate].
    exists header. injection H as <-. repeat split; auto.
  - intros [= <-]. left. split; [|reflexivity].
    intros name (Hl & _). subst line. rewrite simplified_opening in Hs. discriminate.
Qed.

Lemma includeLines_Expanded ls st out :
  includeLines shaderSrc constantsHeader densitiesHeader filename ls st = Ok out ->
  exists out', out = newSrc st ++ out'
    /\ Expanded (resolveHeaderWith shaderSrc constantsHeader densitiesHeader) filename
         (lineNumber st) (headerNumber st) ls out'.
Proof.
  revert st out. induction ls as [|line rest IH]; intros st out; simpl.
  - intros [= <-]. exists []. rewrite app_nil_r. split; [reflexivity | constructor].
  - destruct (includeStep _ _ _ _ _ _) as [st'|e] eqn:Hstep; [|discriminate].
    intros H. apply IH in H. destruct H as (out' & -> & Hexp).
    apply includeStep_Ok in Hstep.
    destruct Hstep as [[Hplain ->] | (name & header & Hdir & Hres & ->)];
      cbn [lineNumber headerNumber newSrc] in *.
    + exists (line ++ [nl] ++ out'). rewrite <- !app_assoc. split; [reflexivity|].
      now constructor.
    + exists ((txt "#line 1 " ++ number (headerNumber st) ++ txt " // " ++ name ++ [nl])
                ++ header
                ++ (txt "#line " ++ number (lineNumber st + 1) ++ txt " 0 // "
                      ++ filename ++ [nl])
                ++ out').
      split; [|eapply Expanded_include; eauto].
      rewrite <- !app_assoc. reflexivity.
Qed.

(** The lookup is asked for the names the line itself includes, and for
    nothing else. *)
Lemma includeStep_ext shaderSrc' st line :
  (forall name, isIncludeDirective line name -> shaderSrc' name = shaderSrc name) ->
  includeStep shaderSrc' constantsHeader densitiesHeader filename st line
  = includeStep shaderSrc constantsHeader densitiesHeader filename st line.
Proof.
  intros H. unfold includeStep.
  destruct (negb (startsWith (simplified line) includeOpening)); [reflexivity|].
  destruct (includePattern line) as [name|] eqn:Hp; [|reflexivity].
  destruct (endsWith name headerSuffix) eqn:He; cbn [negb]; [|reflexivity].
  rewrite (H name); [reflexivity|].
  apply includePattern_Some in Hp. destruct Hp as (Hl & Hn & Hq).
  apply endsWith_app in He. repeat split; auto.
Qed.

Lemma includeLines_ext shaderSrc' ls st :
  (forall line name, In line ls -> isIncludeDirective line name ->
                     shaderSrc' name = shaderSrc name) ->
  includeLines shaderSrc' constantsHeader densitiesHeader filename ls st
  = includeLines shaderSrc constantsHeader densitiesHeader filename ls st.
Proof.
  revert st. induction ls as [|line rest IH]; intros st H; simpl; [reflexivity|].
  rewrite includeStep_ext by (intros name; apply H; now left).
  destruct (includeStep _ _ _ _ _ _) as [st'|e]; [|reflexivity].
  apply IH. intros l name Hin. apply H. now right.
Qed.

End IncludeSteps.

Section IncludeExpansion.
Variable disk : Disk.
Variables constantsHeader densitiesHeader : text.
Variable filename : text.

(** C5.  When [withHeadersIncluded] returns, its result is the source
    line by line: a line that is exactly an include directive for a name
    ending in .h.glsl is replaced by a #line directive (line 1 of the
    header), the header's text, and a #line directive that restores the
    number of the next line of the including file; any other line is
    copied.  The header is [constantsHeader] for const.h.glsl,
    [densitiesHeader] for densities.h.glsl, and the file of the shader
    directory on disk for every other name. *)
Theorem headers_included src out :
  withHeadersIncluded (getShaderSrc disk) constantsHeader densitiesHeader src filename = Ok out ->
  Expanded (resolveHeader disk constantsHeader densitiesHeader) filename 1 1 (lines src) out.
Proof.
  unfold withHeadersIncluded. intros H. apply includeLines_Expanded in H.
  destruct H as (out' & -> & H). exact H.
Qed.
End IncludeExpansion.

Lemma lines_from_no_nl cur s rest :
  ~ In nl s -> lines_from cur (s ++ nl :: rest) = rev (chopCR (rev s ++ cur)) :: lines rest.
Proof.
  revert cur. induction s as [|c s IH]; intros cur Hnl; simpl.
  - reflexivity.
  - destruct (N.eqb c nl) eqn:Hc.
    + apply N.eqb_eq in Hc. subst c. exfalso. apply Hnl. now left.
    + rewrite IH by (intros H; apply Hnl; now right).
      rewrite <- app_assoc. reflexivity.
Qed.

Lemma includePattern_directive name :
  name <> [] -> ~ In dq name ->
  includePattern (includeOpening ++ name ++ [dq]) = Some name.
Proof.
  intros Hn Hq. unfold includePattern.
  rewrite (startsWith_prefix includeOpening (name ++ [dq])).
  replace (skipn (length includeOpening) (includeOpening ++ name ++ [dq]))
    with (name ++ [dq]) by reflexivity.
  rewrite rev_app_distr. simpl rev at 1. cbn [app].
  rewrite N.eqb_refl.
  assert (He : existsb (N.eqb dq) (rev name) = false).
  { destruct (existsb (N.eqb dq) (rev name)) eqn:E; [|reflexivity].
    apply existsb_exists in E. destruct E as (c & Hin & Hc).
    apply N.eqb_eq in Hc. subst c. exfalso. apply Hq. apply in_rev. exact Hin. }
  rewrite He.
  assert (Hl : Nat.eqb (length (rev name)) 0 = false).
  { apply Nat.eqb_neq. rewrite length_rev. destruct name; [congruence|discriminate]. }
  rewrite Hl. simpl. rewrite rev_involutive. reflexivity.
Qed.

Section IncludeOneLevel.
Variable shaderSrc : text -> result text.
Variables constantsHeader densitiesHeader : text.

(** A line that is no include attempt, or a directive whose header can be
    had, never stops the loop. *)
Lemma includeStep_total filename st line :
  (startsWith (simplified line) includeOpening = true ->
   exists name header,
     isIncludeDirective line name
     /\ resolveHeaderWith shaderSrc constantsHeader densitiesHeader name = Ok header) ->
  exists st', includeStep shaderSrc constantsHeader densitiesHeader filename st line = Ok st'.
Proof.
  intros H. unfold includeStep.
  destruct (startsWith (simplified line) includeOpening) eqn:Hs; cbn [negb];
    [|eexists; reflexivity].
  destruct (H eq_refl) as (name & header & (Hl & Hn & Hq & stem & Hstem) & Hres).
  subst line. rewrite (includePattern_directive name Hn Hq).
  assert (He : endsWith name headerSuffix = true)
    by (rewrite Hstem; apply endsWith_suffix).
  rewrite He. cbn [negb].
  change (if decide (name = CONSTANTS_HEADER_FILENAME) then Ok constantsHeader
          else if decide (name = DENSITIES_HEADER_FILENAME) then Ok densitiesHeader
               else shaderSrc name)
    with (resolveHeaderWith shaderSrc constantsHeader densitiesHeader name).
  rewrite Hres. eexists; reflexivity.
Qed.

Lemma includeLines_total filename ls st :
  Forall (fun line =>
            startsWith (simplified line) includeOpening = true ->
            exists name header,
              isIncludeDirective line name
              /\ resolveHeaderWith shaderSrc constantsHeader densitiesHeader name = Ok header)
         ls ->
  exists out, includeLines shaderSrc constantsHeader densitiesHeader filename ls st = Ok out.
Proof.
  intros H. revert st. induction H as [|line rest Hline _ IH]; intros st; simpl.
  - eexists; reflexivity.
  - destruct (includeStep_total filename st line Hline) as (st' & ->). apply IH.
Qed.

(** C10.  For every source and whatever the headers contain:
    the loop of [withHeadersIncluded], run as written with [readLine],
    ends within one iteration per character of its input (plus one);
    what it returns is the source with each of its own include
    directives replaced by the header as the lookup gives it, include
    directives inside the header too, between two #line directives, and
    every other line copied; it returns whenever each include attempt
    among the lines of the source is a directive whose header can be had,
    however deep the headers include one another: nothing counts a depth;
    and the lookup matters only at the names the lines of the source
    themselves include. *)
Theorem single_level_expansion src filename :
  withHeadersIncluded_loop shaderSrc constantsHeader densitiesHeader
    (S (length src)) filename src includeStart
  = Some (withHeadersIncluded shaderSrc constantsHeader densitiesHeader src filename)
  /\ (forall out,
        withHeadersIncluded shaderSrc constantsHeader densitiesHeader src filename = Ok out ->
        Expanded (resolveHeaderWith shaderSrc constantsHeader densitiesHeader) filename
          1 1 (lines src) out)
  /\ (Forall (fun line =>
                startsWith (simplified line) includeOpening = true ->
                exists name header,
                  isIncludeDirective line name
                  /\ resolveHeaderWith shaderSrc constantsHeader densitiesHeader name
                     = Ok header)
             (lines src) ->
      exists out,
        withHeadersIncluded shaderSrc constantsHeader densitiesHeader src filename = Ok out)
  /\ (forall shaderSrc',
        (forall line name, In line (lines src) -> isIncludeDirective line name ->
                           shaderSrc' name = shaderSrc name) ->
        withHeadersIncluded shaderSrc' constantsHeader densitiesHeader src filename
        = withHeadersIncluded shaderSrc constantsHeader densitiesHeader src filename).
Proof.
  split; [|split; [|split]].
  - apply withHeadersIncluded_loop_lines. lia.
  - unfold withHeadersIncluded. intros out H. apply includeLines_Expanded in H.
    destruct H as (out' & -> & H). exact H.
  - apply includeLines_total.
  - intros shaderSrc' H. apply includeLines_ext. exact H.
Qed.
End IncludeOneLevel.

(** Every header including itself: the source that includes one of them
    gets its text once, the directive inside it untouched. *)
Example self_including_header :
  withHeadersIncluded Example.selfIncluding [] []
    (Example.includeLine (txt "a.h.glsl") ++ txt "void main(){}
") (txt "a.frag")
  = Ok (txt "#line 1 1 // a.h.glsl
" ++ Example.includeLine (txt "a.h.glsl") ++ txt "#line 2 0 // a.frag
void main(){}
")
  /\ withHeadersIncluded_loop Example.selfIncluding [] [] 33 (txt "a.frag")
       (Example.includeLine (txt "a.h.glsl") ++ txt "void main(){}
") includeStart
     = Some (withHeadersIncluded Example.selfIncluding [] []
               (Example.includeLine (txt "a.h.glsl") ++ txt "void main(){}
") (txt "a.frag")).
Proof. vm_compute. split; reflexivity. Qed.

Lemma headers_included_witness :
  withHeadersIncluded (getShaderSrc Example.exampleDisk) [] []
    Example.brokenSource (txt "copy-scattering-texture.frag")
  = Ok Example.brokenSourceIncluded
  /\ Expanded (resolveHeader Example.exampleDisk [] []) (txt "copy-scattering-texture.frag")
       1 1 (lines Example.brokenSource) Example.brokenSourceIncluded.
Proof.
  assert (H : withHeadersIncluded (getShaderSrc Example.exampleDisk) [] []
                Example.brokenSource (txt "copy-scattering-texture.frag")
              = Ok Example.brokenSourceIncluded) by (vm_compute; reflexivity).
  split; [exact H|].
  exact (headers_included Example.exampleDisk [] [] (txt "copy-scattering-texture.frag")
           Example.brokenSource Example.brokenSourceIncluded H).
Defined.

(** A header that includes another header, and one that includes itself:
    the directives inside them reach the output unexpanded. *)
Example nested_include_is_copied :
  withHeadersIncluded (getShaderSrc Example.exampleDisk) [] []
    (Example.includeLine (txt "nested.h.glsl")) (txt "main.frag")
  = Ok (txt "#line 1 1 // nested.h.glsl
" ++ Example.includeLine (txt "common-functions.h.glsl") ++ txt "#line 2 0 // main.frag
")
  /\ withHeadersIncluded (getShaderSrc Example.exampleDisk) [] []
       (Example.includeLine (txt "loop.h.glsl")) (txt "main.frag")
     = Ok (txt "#line 1 1 // loop.h.glsl
" ++ Example.includeLine (txt "loop.h.glsl") ++ txt "#line 2 0 // main.frag
").
Proof. split; vm_compute; reflexivity. Qed.

(** ** The traversal that finds the sources to link with *)

Section LinkTraversal.
Variable shaderSrc : text -> result text.
Variable internalShaders : gset text.

Lemma linkScan_spec (recur : text -> option (result (gset text))) filename ls acc :
  (forall g, exists r, recur g = Some r) ->
  exists r, linkScan internalShaders recur filename ls acc = Some r
    /\ (isOk r = false <->
        exists line g r', In line ls /\ companionOfLine line = Some g
          /\ followed internalShaders filename g = true
          /\ recur g = Some r' /\ isOk r' = false).
Proof.
  intros Htot. revert acc. induction ls as [|line ls IH]; intros acc; simpl.
  - eexists. split; [reflexivity|]. simpl. split; [discriminate|].
    intros (l & g & r' & [] & _).
  - destruct (companionOfLine line) as [g|] eqn:Hc.
    + destruct (followed internalShaders filename g) eqn:Hf.
      * destruct (Htot g) as [rg Hrg]. rewrite Hrg.
        destruct rg as [extra|e].
        -- destruct (IH (extra ∪ ({[g]} ∪ acc))) as (r & Hr & Hiff).
           exists r. split; [exact Hr|]. rewrite Hiff. split.
           ++ intros (l & g' & r' & Hin & H). exists l, g', r'. split; [now right | exact H].
           ++ intros (l & g' & r' & [<-|Hin] & Hc' & Hf' & Hr' & Hfail).
              ** rewrite Hc in Hc'. injection Hc' as <-. rewrite Hrg in Hr'.
                 injection Hr' as <-. discriminate.
              ** exists l, g', r'. auto.
        -- eexists. split; [reflexivity|]. simpl. split; [|reflexivity].
           intros _. exists line, g, (Throw e). repeat split; auto.
      * destruct (IH ({[g]} ∪ acc)) as (r & Hr & Hiff).
        exists r. split; [exact Hr|]. rewrite Hiff. split.
        -- intros (l & g' & r' & Hin & H). exists l, g', r'. split; [now right | exact H].
        -- intros (l & g' & r' & [<-|Hin] & Hc' & Hf' & Hr' & Hfail).
           ++ rewrite Hc in Hc'. injection Hc' as <-. congruence.
           ++ exists l, g', r'. auto.
    + destruct (IH acc) as (r & Hr & Hiff).
      exists r. split; [exact Hr|]. rewrite Hiff. split.
      * intros (l & g' & r' & Hin & H). exists l, g', r'. split; [now right | exact H].
      * intros (l & g' & r' & [<-|Hin] & Hc' & Hf' & Hr' & Hfail).
        -- congruence.
        -- exists l, g', r'. auto.
Qed.

Lemma link_fuel_spec fuel : forall filename d,
  0 <= d -> 51 - d < Z.of_nat fuel ->
  exists r, getShaderFileNamesToLinkWith_fuel shaderSrc internalShaders fuel filename d = Some r
    /\ (isOk r = false <->
        exists n g, chain (follows shaderSrc internalShaders) n filename g
          /\ (maxRecursionDepth < d + Z.of_nat n \/ unreadable shaderSrc g)).
Proof.
  induction fuel as [|fuel IH]; intros filename d Hd Hfuel.
  - simpl. destruct (Z.gtb_spec d maxRecursionDepth) as [Hgt|Hle]; unfold maxRecursionDepth in *; [|lia].
    eexists. split; [reflexivity|]. simpl. split; [|reflexivity].
    intros _. exists 0%nat, filename. split; [constructor|]. left. lia.
  - simpl. destruct (Z.gtb_spec d maxRecursionDepth) as [Hgt|Hle].
    + eexists. split; [reflexivity|]. simpl. split; [|reflexivity].
      intros _. exists 0%nat, filename. split; [constructor|]. left. lia.
    + destruct (shaderSrc filename) as [src|e] eqn:Hsrc.
      * destruct (linkScan_spec
                    (fun f => getShaderFileNamesToLinkWith_fuel shaderSrc internalShaders fuel f (d + 1))
                    filename (lines src) ∅) as (r & Hr & Hiff).
        { intros g. destruct (IH g (d + 1)) as (rg & Hrg & _); [lia|lia|]. eauto. }
        exists r. split; [exact Hr|]. rewrite Hiff. split.
        -- intros (line & g & r' & Hin & Hc & Hf & Hr' & Hfail).
           destruct (IH g (d + 1)) as (rg & Hrg & Hg); [lia|lia|].
           rewrite Hrg in Hr'. injection Hr' as <-. apply Hg in Hfail.
           destruct Hfail as (n & h & Hch & Hbad).
           exists (S n), h. split.
           ++ econstructor; [|exact Hch]. split; [|exact Hf]. exists src, line. auto.
           ++ destruct Hbad as [Hbad|Hbad]; [left; lia | right; exact Hbad].
        -- intros (n & h & Hch & Hbad).
           destruct Hch as [f|n f g h [(src' & line & Hs' & Hin & Hc) Hf] Hch].
           ++ exfalso. destruct Hbad as [Hbad|Hbad]; [lia|].
              unfold unreadable in Hbad. rewrite Hsrc in Hbad. discriminate.
           ++ rewrite Hsrc in Hs'. injection Hs' as <-.
              destruct (IH g (d + 1)) as (rg & Hrg & Hg); [lia|lia|].
              exists line, g, rg. repeat split; auto.
              apply Hg. exists n, h. split; [exact Hch|].
              destruct Hbad as [Hbad|Hbad]; [left; lia | right; exact Hbad].
      * eexists. split; [reflexivity|]. simpl. split; [|reflexivity].
        intros _. exists 0%nat, filename. split; [constructor|]. right.
        unfold unreadable. rewrite Hsrc. reflexivity.
Qed.

Lemma chain_app R n m f g h : chain R n f g -> chain R m g h -> chain R (n + m) f h.
Proof.
  induction 1 as [f|n f g' g Hfg _ IH]; intros Hm; simpl; [exact Hm|].
  econstructor; [exact Hfg | apply IH, Hm].
Qed.

Lemma chain_cycle R n f k : chain R (S n) f f -> chain R (k * S n) f f.
Proof.
  intros Hc. induction k as [|k IH]; simpl; [constructor|].
  change (S (n + k * S n)) with (S n + k * S n)%nat. eapply chain_app; eauto.
Qed.

(** C6 (amended).  The traversal ends for every include graph, within the
    52 nested calls the depth check allows.  It throws exactly when some
    chain of followed includes is more than 50 long or leads to a source
    that cannot be read; an include is followed when its companion is
    not an internal shader and is not the including file itself.  So a
    cycle of followed includes always throws, while a source that
    includes its own header does not. *)
Theorem link_traversal filename :
  (exists r,
     getShaderFileNamesToLinkWith_fuel shaderSrc internalShaders linkFuel filename 0 = Some r)
  /\ (isOk (getShaderFileNamesToLinkWith shaderSrc internalShaders filename) = false <->
      exists n g, chain (follows shaderSrc internalShaders) n filename g
        /\ ((50 < n)%nat \/ unreadable shaderSrc g))
  /\ ((exists n, chain (follows shaderSrc internalShaders) (S n) filename filename) ->
      isOk (getShaderFileNamesToLinkWith shaderSrc internalShaders filename) = false).
Proof.
  assert (Hmain :
    (exists r,
       getShaderFileNamesToLinkWith_fuel shaderSrc internalShaders linkFuel filename 0 = Some r)
    /\ (isOk (getShaderFileNamesToLinkWith shaderSrc internalShaders filename) = false <->
        exists n g, chain (follows shaderSrc internalShaders) n filename g
          /\ ((50 < n)%nat \/ unreadable shaderSrc g))); cycle 1.
  { destruct Hmain as [H1 H2]. split; [exact H1|]. split; [exact H2|].
    intros [n Hc]. apply H2. exists (51 * S n)%nat, filename.
    split; [apply chain_cycle, Hc | left; lia]. }
  destruct (link_fuel_spec linkFuel filename 0) as (r & Hr & Hiff); [lia|unfold linkFuel; lia|].
  split; [eauto|].
  unfold getShaderFileNamesToLinkWith. rewrite Hr, Hiff.
  split; intros (n & g & Hch & Hbad); exists n, g; (split; [exact Hch|]);
    (destruct Hbad as [Hbad|Hbad]; [left; unfold maxRecursionDepth in *; lia | right; exact Hbad]).
Qed.
End LinkTraversal.

(** C6 as stated fails twice on the example installation: self.frag
    includes its own header, a cycle of the include graph, and the
    traversal returns; orphan.frag includes a header whose companion
    source does not exist, and the traversal throws at depth 1. *)
Lemma link_traversal_counterexample :
  asksFor (getShaderSrc Example.exampleDisk) (txt "self.frag") (txt "self.frag")
  /\ getShaderFileNamesToLinkWith (getShaderSrc Example.exampleDisk) ∅ (txt "self.frag")
     = Ok {[ txt "self.frag" ]}
  /\ getShaderFileNamesToLinkWith (getShaderSrc Example.exampleDisk) ∅ (txt "orphan.frag")
     = Throw (ErrOpenShader (txt "missing.frag")).
Proof.
  split; [|split; vm_compute; reflexivity].
  exists (Example.includeLine (txt "self.h.glsl") ++ txt "void main(){}
"), (includeOpening ++ txt "self.h.glsl" ++ [dq]).
  split; [vm_compute; reflexivity|]. split; [|vm_compute; reflexivity].
  vm_compute. left. reflexivity.
Qed.

(** Two sources that include each other's headers: the depth check
    stops the traversal. *)
Example mutual_include_throws :
  getShaderFileNamesToLinkWith (getShaderSrc Example.exampleDisk) ∅ (txt "a.frag")
  = Throw ErrRecursionDepth.
Proof. vm_compute. reflexivity. Qed.

(** ** The transmittance source *)

Lemma clash_startsWith s p rest : clash s p = true -> startsWith (s ++ rest) p = false.
Proof.
  revert s. induction p as [|a p IH]; intros s H; [destruct s; discriminate|].
  destruct s as [|b s]; [discriminate|]. simpl in *.
  destruct (N.eqb a b); simpl in *; [apply IH, H | reflexivity].
Qed.

Lemma replace_from_clear p after s rest :
  clearOf p s = true ->
  replace_from p after 0 (s ++ rest) = s ++ replace_from p after 0 rest.
Proof.
  induction s as [|c s IH]; intros H; [reflexivity|].
  cbn [clearOf] in H. apply andb_prop in H as [Hc Hs].
  change ((c :: s) ++ rest) with (c :: (s ++ rest)). cbn [replace_from].
  change (c :: s ++ rest) with ((c :: s) ++ rest).
  rewrite (clash_startsWith _ _ rest Hc). cbn [app]. f_equal. apply IH, Hs.
Qed.

Lemma replace_from_skip p after q rest :
  replace_from p after (length q) (q ++ rest) = replace_from p after 0 rest.
Proof. induction q as [|c q IH]; [reflexivity|]. simpl. exact IH. Qed.

Lemma replace_from_hit p after rest :
  p <> [] ->
  replace_from p after 0 (p ++ rest) = after ++ replace_from p after 0 rest.
Proof.
  destruct p as [|a p]; [congruence|]. intros _.
  change ((a :: p) ++ rest) with (a :: (p ++ rest)). cbn [replace_from].
  change (a :: p ++ rest) with ((a :: p) ++ rest).
  rewrite startsWith_prefix. cbn [length Nat.pred]. rewrite replace_from_skip. reflexivity.
Qed.

Lemma startsWith_blocked name x rest p :
  wordOnly name -> existsb (N.eqb x) p = false ->
  existsb (fun c => negb (isWordChar c)) p = true ->
  startsWith (name ++ x :: rest) p = false.
Proof.
  unfold wordOnly. revert p. induction name as [|c name IH]; intros p Hn Hx Hp.
  - destruct p as [|a p]; [discriminate|]. simpl in *.
    apply orb_false_elim in Hx as [Hx _]. rewrite N.eqb_sym, Hx. reflexivity.
  - destruct p as [|a p]; [discriminate|]. simpl in *.
    apply andb_prop in Hn as [Hc Hn]. apply orb_false_elim in Hx as [_ Hx].
    destruct (N.eqb a c) eqn:Hac; [|reflexivity]. simpl.
    apply N.eqb_eq in Hac. subst a. rewrite Hc in Hp. simpl in Hp.
    apply IH; assumption.
Qed.

Lemma replace_from_word p after name x rest :
  wordOnly name -> existsb (N.eqb x) p = false ->
  existsb (fun c => negb (isWordChar c)) p = true ->
  replace_from p after 0 (name ++ x :: rest) = name ++ replace_from p after 0 (x :: rest).
Proof.
  intros Hn Hx Hp. induction name as [|c name IH]; [reflexivity|].
  change ((c :: name) ++ x :: rest) with (c :: (name ++ x :: rest)). cbn [replace_from].
  change (c :: name ++ x :: rest) with ((c :: name) ++ x :: rest).
  rewrite (startsWith_blocked _ _ _ _ Hn Hx Hp). cbn [app]. f_equal.
  apply IH. unfold wordOnly in *. simpl in Hn. apply andb_prop in Hn. tauto.
Qed.

(** A name followed by a literal chunk that no occurrence of [p] can
    start in or reach into. *)
Lemma replace_from_word_chunk p after name chunk rest :
  wordOnly name ->
  match chunk with x :: _ => negb (existsb (N.eqb x) p) | [] => false end = true ->
  existsb (fun c => negb (isWordChar c)) p = true ->
  clearOf p chunk = true ->
  replace_from p after 0 (name ++ chunk ++ rest)
  = name ++ chunk ++ replace_from p after 0 rest.
Proof.
  intros Hn Hx Hp Hc. destruct chunk as [|x chunk]; [discriminate|].
  apply negb_true_iff in Hx.
  change ((x :: chunk) ++ rest) with (x :: (chunk ++ rest)).
  rewrite (replace_from_word _ _ _ _ _ Hn Hx Hp).
  change (x :: (chunk ++ rest)) with ((x :: chunk) ++ rest).
  rewrite (replace_from_clear _ _ _ _ Hc). reflexivity.
Qed.

Lemma template_pieces :
  fill (txt "agent##") (txt "##agentSpecies") opticalDepthTemplatePieces
  = opticalDepthFunctionTemplate.
Proof. vm_compute. reflexivity. Qed.

Lemma replace_species name :
  replace (txt "##agentSpecies") name opticalDepthFunctionTemplate
  = fill (txt "agent##") name opticalDepthTemplatePieces.
Proof. vm_compute. reflexivity. Qed.

Lemma replace_kind kind name :
  wordOnly name ->
  replace (txt "agent##") kind (fill (txt "agent##") name opticalDepthTemplatePieces)
  = fill kind name opticalDepthTemplatePieces.
Proof.
  intros Hn. unfold fill, opticalDepthTemplatePieces.
  cbn [map concat fillPiece].
  change (replace (txt "agent##") kind) with (replace_from (txt "agent##") kind 0).
  rewrite replace_from_clear by reflexivity.
  rewrite (replace_from_word_chunk _ _ name) by (assumption || reflexivity).
  rewrite replace_from_hit by discriminate.
  rewrite replace_from_clear by reflexivity.
  rewrite (replace_from_word_chunk _ _ name) by (assumption || reflexivity).
  rewrite replace_from_hit by discriminate.
  rewrite replace_from_clear by reflexivity.
  rewrite (replace_from_word_chunk _ _ name) by (assumption || reflexivity).
  rewrite replace_from_hit by discriminate.
  rewrite replace_from_clear by reflexivity.
  rewrite (replace_from_word_chunk _ _ name) by (assumption || reflexivity).
  reflexivity.
Qed.

(** The two replacements of the loop body yield the template with the
    species and kind filled in. *)
Lemma template_instance kind name :
  wordOnly name ->
  replace (txt "agent##") kind
    (replace (txt "##agentSpecies") name opticalDepthFunctionTemplate)
  = fill kind name opticalDepthTemplatePieces.
Proof. intros Hn. rewrite replace_species. apply replace_kind, Hn. Qed.

Lemma endsNl_app a b : endsNl b -> endsNl (a ++ b).
Proof. intros [p ->]. exists (a ++ p). now rewrite app_assoc. Qed.

Lemma endsLine_app a b : endsLine a -> endsLine b -> endsLine (a ++ b).
Proof.
  intros Ha [->|Hb]; [now rewrite app_nil_r | right; apply endsNl_app, Hb].
Qed.

Lemma endsLine_concat ts : Forall endsLine ts -> endsLine (concat ts).
Proof.
  induction 1; simpl; [now left | now apply endsLine_app].
Qed.

Lemma plainText_endsLine t : plainText t -> endsLine t.
Proof.
  induction 1 as [|l rest Hl Hrest IH]; [now left|]. right.
  destruct IH as [->|IH]; [now exists l|].
  apply endsNl_app. change (nl :: rest) with ([nl] ++ rest). now apply endsNl_app.
Qed.

Lemma plainText_app a b : plainText a -> plainText b -> plainText (a ++ b).
Proof.
  induction 1 as [|l rest Hl Hrest IH]; intros Hb; [exact Hb|].
  rewrite <- app_assoc. cbn [app]. constructor; auto.
Qed.

Lemma plainText_concat ts : Forall plainText ts -> plainText (concat ts).
Proof.
  induction 1; simpl; [constructor | now apply plainText_app].
Qed.

Lemma lines_from_app cur p t :
  lines_from cur (p ++ nl :: t) = lines_from cur (p ++ [nl]) ++ lines t.
Proof.
  revert cur. induction p as [|c p IH]; intros cur; simpl.
  - reflexivity.
  - destruct (N.eqb c nl); [|apply IH].
    cbn [app]. f_equal. apply (IH []).
Qed.

Lemma lines_app pre t : endsLine pre -> lines (pre ++ t) = lines pre ++ lines t.
Proof.
  intros [->|[p ->]]; [reflexivity|].
  rewrite <- app_assoc. apply lines_from_app.
Qed.

Lemma simplified_from_chars pending s c :
  In c (simplified_from pending s) -> c = sp \/ In c s.
Proof.
  revert pending. induction s as [|d s IH]; intros pending; simpl; [tauto|].
  destruct (isSpace d).
  - intros H. apply IH in H. tauto.
  - intros H. apply in_app_or in H as [H|H].
    + destruct pending; simpl in H; intuition (subst; auto).
    + destruct H as [H|H]; [auto|]. apply IH in H. tauto.
Qed.

Lemma skipSpaces_chars s c : In c (skipSpaces s) -> In c s.
Proof.
  induction s as [|d s IH]; simpl; [tauto|].
  destruct (isSpace d); simpl; tauto.
Qed.

Lemma plainLine_inert l : forallb inertChar l = true -> plainLine l.
Proof.
  intros H. rewrite forallb_forall in H. repeat split.
  - intros Hin. apply H in Hin. discriminate.
  - destruct (rev l) as [|c r] eqn:E; [reflexivity|]. simpl.
    assert (Hc : In c l) by (apply in_rev; rewrite E; now left).
    apply H in Hc. unfold inertChar in Hc.
    destruct (N.eqb c cr); [|reflexivity]. rewrite andb_false_r in Hc. discriminate.
  - destruct (startsWith _ _) eqn:E; [|reflexivity].
    apply startsWith_app in E.
    assert (Hh : In hash (simplified l)) by (rewrite E; now left).
    apply simplified_from_chars in Hh as [Hh|Hh]; [discriminate|].
    apply skipSpaces_chars, H in Hh. discriminate.
Qed.

(** Text without carriage return or hash that ends at a line end. *)
Lemma plainText_inert_from t : forall l,
  forallb inertChar l = true ->
  forallb (fun c => negb (N.eqb c cr) && negb (N.eqb c hash)) t = true ->
  (endsNl t \/ (t = [] /\ l = [])) ->
  plainText (l ++ t).
Proof.
  induction t as [|c t IH]; intros l Hl Ht He.
  - destruct He as [[p He]|[_ ->]]; [destruct p; discriminate | constructor].
  - simpl in Ht. apply andb_prop in Ht as [Hc Ht].
    destruct He as [[p He]|[He _]]; [|discriminate].
    destruct (N.eqb c nl) eqn:Hnl.
    + apply N.eqb_eq in Hnl. subst c. constructor; [apply plainLine_inert, Hl|].
      apply (IH []); [reflexivity | exact Ht |].
      destruct p as [|d p]; simpl in He; inversion He; [right; auto | left; now eexists].
    + replace (l ++ c :: t) with ((l ++ [c]) ++ t) by (rewrite <- app_assoc; reflexivity).
      apply IH.
      * rewrite forallb_app, Hl. simpl. unfold inertChar.
        apply andb_prop in Hc as [Hc1 Hc2]. rewrite Hnl, Hc1, Hc2. reflexivity.
      * exact Ht.
      * left. destruct p as [|d p]; simpl in He; inversion He; subst.
        -- rewrite N.eqb_refl in Hnl. discriminate.
        -- now eexists.
Qed.

Lemma endsNlb_endsNl t : endsNlb t = true -> endsNl t.
Proof.
  unfold endsNlb. destruct (rev t) as [|c r] eqn:E; [discriminate|].
  intros H. apply N.eqb_eq in H. subst c. exists (rev r).
  rewrite <- (rev_involutive t), E. reflexivity.
Qed.

Lemma plainText_inert t : inertText t = true -> endsNl t -> plainText t.
Proof.
  intros Hq He. apply (plainText_inert_from t []); [reflexivity | exact Hq | now left].
Qed.

Lemma wordChar_inert c : isWordChar c = true -> inertChar c = true.
Proof.
  intros H. unfold inertChar.
  assert (c <> nl /\ c <> cr /\ c <> hash) as (H1 & H2 & H3).
  { repeat split; intros ->; vm_compute in H; discriminate. }
  apply N.eqb_neq in H1, H2, H3. rewrite H1, H2, H3. reflexivity.
Qed.

Lemma wordOnly_inertText name : wordOnly name -> inertText name = true.
Proof.
  unfold wordOnly, inertText. rewrite !forallb_forall. intros H c Hc.
  apply H, wordChar_inert in Hc. unfold inertChar in Hc.
  apply andb_prop in Hc as [Hc Hh]. apply andb_prop in Hc as [_ Hc]. now rewrite Hc, Hh.
Qed.

Lemma inertText_app a b : inertText (a ++ b) = inertText a && inertText b.
Proof. apply forallb_app. Qed.

Lemma plainText_fill kind name :
  wordOnly kind -> wordOnly name -> plainText (fill kind name opticalDepthTemplatePieces).
Proof.
  intros Hk Hn. apply wordOnly_inertText in Hk, Hn.
  unfold fill, opticalDepthTemplatePieces. cbn [map concat fillPiece].
  rewrite app_nil_r. apply plainText_inert.
  - rewrite !inertText_app, Hk, Hn. reflexivity.
  - repeat apply endsNl_app. apply endsNlb_endsNl. reflexivity.
Qed.

Lemma chopCR_last front c : N.eqb c cr = false -> chopCR (rev (front ++ [c])) = rev (front ++ [c]).
Proof. intros H. rewrite rev_app_distr. simpl. now rewrite H. Qed.

Lemma notIn_nl t : existsb (N.eqb nl) t = false -> ~ In nl t.
Proof.
  intros H Hin. assert (existsb (N.eqb nl) t = true); [|congruence].
  apply existsb_exists. exists nl. split; [exact Hin | apply N.eqb_refl].
Qed.

Lemma wordOnly_no_nl name : wordOnly name -> ~ In nl name.
Proof.
  unfold wordOnly. rewrite forallb_forall. intros H Hin. apply H in Hin. discriminate.
Qed.

Lemma plainText_depthTerm species literal :
  wordOnly species -> ~ In nl literal -> plainText (depthTerm species literal).
Proof.
  intros Hs Hl. unfold depthTerm.
  set (l := txt "        +opticalDepthToAtmosphereBorder_" ++ species
              ++ txt "(altitude,cosZenithAngle," ++ literal ++ txt ")").
  replace (_ ++ _) with (l ++ nl :: []).
  2:{ unfold l. rewrite <- !app_assoc. reflexivity. }
  constructor; [|constructor]. split; [|split].
  - unfold l. rewrite !in_app_iff. intros [H|[H|[H|[H|H]]]].
    + revert H. now apply notIn_nl.
    + revert H. now apply wordOnly_no_nl.
    + revert H. now apply notIn_nl.
    + auto.
    + revert H. now apply notIn_nl.
  - unfold l. rewrite !app_assoc. apply chopCR_last. reflexivity.
  - reflexivity.
Qed.

Section IncludePlain.

Variable shaderSrc : text -> result text.

Variables constantsHeader densitiesHeader filename : text.

Lemma includeLines_plainText t :
  plainText t ->
  forall st, includeLines shaderSrc constantsHeader densitiesHeader filename (lines t) st
             = Ok (newSrc st ++ t).
Proof.
  induction 1 as [|l rest [Hnl [Hcr Hinc]] Hrest IH]; intros st.
  - simpl. now rewrite app_nil_r.
  - unfold lines. rewrite lines_from_no_nl by exact Hnl.
    rewrite app_nil_r, Hcr, rev_involutive. cbn [includeLines].
    unfold includeStep. rewrite Hinc. cbn [negb]. fold (lines rest).
    rewrite IH. cbn [newSrc]. rewrite <- !app_assoc. reflexivity.
Qed.

Lemma includeLines_app ls1 ls2 st out :
  includeLines shaderSrc constantsHeader densitiesHeader filename (ls1 ++ ls2) st = Ok out ->
  exists st',
    includeLines shaderSrc constantsHeader densitiesHeader filename ls2 st' = Ok out.
Proof.
  revert st. induction ls1 as [|l ls1 IH]; intros st; simpl.
  - intros H. now exists st.
  - destruct (includeStep _ _ _ _ _ _) as [st'|e]; [apply IH | discriminate].
Qed.

(** Text that ends at a line end and is followed by plain text: the plain
    text is the end of the output, unchanged. *)
Lemma withHeadersIncluded_plain_suffix pre t out :
  endsLine pre -> plainText t ->
  withHeadersIncluded shaderSrc constantsHeader densitiesHeader (pre ++ t) filename = Ok out ->
  exists before, out = before ++ t.
Proof.
  intros Hpre Ht. unfold withHeadersIncluded. rewrite (lines_app _ _ Hpre).
  intros H. apply includeLines_app in H as [st' H].
  rewrite (includeLines_plainText _ Ht) in H. injection H as <-. now eexists.
Qed.

End IncludePlain.

Section TransmittanceSource.

Variable shaderSrc : text -> result text.

Variable scatterers : list Scatterer.t.

Variable absorbers : list Absorber.t.

Variable toString : vec4 -> text.

Variable COMPUTE_TRANSMITTANCE_SHADER_FILENAME : text.

Hypothesis scatterer_names : Forall (fun s => wordOnly (Scatterer.name s)) scatterers.

Hypothesis absorber_names : Forall (fun a => wordOnly (Absorber.name a)) absorbers.

Hypothesis toString_one_line : forall v, ~ In nl (toString v).

Lemma endsLine_densities dh :
  endsLine (transmittanceHead ++ fst (makeDensitiesFunctions scatterers absorbers dh)).
Proof.
  apply endsLine_app; [right; apply endsNlb_endsNl; reflexivity|].
  unfold makeDensitiesFunctions. cbn [fst].
  apply endsLine_app; apply endsLine_concat; apply List.Forall_forall; intros t Ht;
    apply in_map_iff in Ht as (x & <- & _); right;
    repeat apply endsNl_app; apply endsNlb_endsNl; reflexivity.
Qed.

Lemma opticalDepthFunctions_fill :
  opticalDepthFunctions scatterers absorbers
  = concat (map (fun s => fill (txt "scatterer") (Scatterer.name s) opticalDepthTemplatePieces)
              scatterers)
    ++ concat (map (fun a => fill (txt "absorber") (Absorber.name a) opticalDepthTemplatePieces)
                 absorbers).
Proof.
  unfold opticalDepthFunctions. f_equal; f_equal.
  - apply map_ext_in. intros s Hs. apply template_instance.
    now apply (proj1 (List.Forall_forall _ _) scatterer_names).
  - apply map_ext_in. intros a Ha. apply template_instance.
    now apply (proj1 (List.Forall_forall _ _) absorber_names).
Qed.

Lemma plainText_functions wavelengths :
  plainText (opticalDepthFunctions scatterers absorbers
             ++ computeFunction scatterers absorbers toString wavelengths).
Proof.
  rewrite opticalDepthFunctions_fill. unfold computeFunction.
  repeat apply plainText_app.
  - apply plainText_concat, List.Forall_forall. intros t Ht.
    apply in_map_iff in Ht as (s & <- & Hs). apply plainText_fill; [reflexivity|].
    now apply (proj1 (List.Forall_forall _ _) scatterer_names).
  - apply plainText_concat, List.Forall_forall. intros t Ht.
    apply in_map_iff in Ht as (a & <- & Ha). apply plainText_fill; [reflexivity|].
    now apply (proj1 (List.Forall_forall _ _) absorber_names).
  - apply plainText_inert; [reflexivity | apply endsNlb_endsNl; reflexivity].
  - apply plainText_concat, List.Forall_forall. intros t Ht.
    apply in_map_iff in Ht as (s & <- & Hs).
    apply (plainText_depthTerm (Scatterer.name s)); [|apply toString_one_line].
    now apply (proj1 (List.Forall_forall _ _) scatterer_names).
  - apply plainText_concat, List.Forall_forall. intros t Ht.
    apply in_map_iff in Ht as (a & <- & Ha).
    apply (plainText_depthTerm (Absorber.name a)); [|apply toString_one_line].
    now apply (proj1 (List.Forall_forall _ _) absorber_names).
  - apply plainText_inert; [reflexivity | apply endsNlb_endsNl; reflexivity].
Qed.

(** C2.  With species names made of word characters and vectors written
    on one line, the transmittance source, whenever its headers can be
    included, ends with the optical-depth template filled in once per
    species (kind scatterer for all the scatterers, in declaration order,
    then kind absorber for all the absorbers), followed by
    [computeTransmittanceToAtmosphereBorder], whose [depth] is the sum of
    one term per species in the same order, each the species' function
    applied with its cross-section at [wavelengths] as a literal, and
    which returns [exp(-depth)].  The pieces are the template of the
    source cut at its tokens. *)
Theorem transmittance_source constantsHeader densitiesHeader wavelengths out :
  fst (makeTransmittanceComputeFunctionsSrc shaderSrc scatterers absorbers toString
         COMPUTE_TRANSMITTANCE_SHADER_FILENAME constantsHeader densitiesHeader wavelengths)
  = Ok out ->
  fill (txt "agent##") (txt "##agentSpecies") opticalDepthTemplatePieces
  = opticalDepthFunctionTemplate
  /\ TransmittanceSource scatterers absorbers toString wavelengths out.
Proof.
  intros H. split; [apply template_pieces|].
  unfold makeTransmittanceComputeFunctionsSrc in H.
  pose proof (endsLine_densities densitiesHeader) as Hpre.
  destruct (makeDensitiesFunctions scatterers absorbers densitiesHeader) as [densities dh'].
  cbn [fst] in H, Hpre. rewrite app_assoc in H.
  apply (withHeadersIncluded_plain_suffix _ _ _ _ _ _ _ Hpre (plainText_functions wavelengths))
    in H as [before ->].
  exists before. f_equal. rewrite opticalDepthFunctions_fill. rewrite <- !app_assoc.
  reflexivity.
Qed.

End TransmittanceSource.

Lemma transmittance_source_witness :
  fst (makeTransmittanceComputeFunctionsSrc (getShaderSrc Example.exampleDisk)
         [Example.rayleigh; Example.mie] [Example.ozone] Example.unitLiteral
         (txt "compute-transmittance.frag") Example.constantsText [] (Vec4 380 400 420 440))
  = Ok Example.transmittanceSource
  /\ fill (txt "agent##") (txt "##agentSpecies") opticalDepthTemplatePieces
     = opticalDepthFunctionTemplate
  /\ TransmittanceSource [Example.rayleigh; Example.mie] [Example.ozone] Example.unitLiteral
       (Vec4 380 400 420 440) Example.transmittanceSource.
Proof.
  assert (H : fst (makeTransmittanceComputeFunctionsSrc (getShaderSrc Example.exampleDisk)
                     [Example.rayleigh; Example.mie] [Example.ozone] Example.unitLiteral
                     (txt "compute-transmittance.frag") Example.constantsText []
                     (Vec4 380 400 420 440))
                = Ok Example.transmittanceSource) by (vm_compute; reflexivity).
  split; [exact H|].
  refine (transmittance_source (getShaderSrc Example.exampleDisk)
            [Example.rayleigh; Example.mie] [Example.ozone] Example.unitLiteral
            (txt "compute-transmittance.frag") _ _ _
            Example.constantsText [] (Vec4 380 400 420 440) Example.transmittanceSource H).
  - repeat constructor.
  - repeat constructor.
  - intros v. apply notIn_nl. reflexivity.
Defined.

(** ** The shader cache is never stale *)

Lemma sinceAfter_app st evs1 evs2 :
  sinceAfter st (evs1 ++ evs2) = sinceAfter (sinceAfter st evs1) evs2.
Proof. apply fold_left_app. Qed.

Lemma freshUses_app evs1 : forall st evs2,
  freshUses st (evs1 ++ evs2)
  <-> freshUses st evs1 /\ freshUses (sinceAfter st evs1) evs2.
Proof.
  induction evs1 as [|ev evs1 IH]; intros st evs2; simpl; [tauto|].
  rewrite IH. tauto.
Qed.

Lemma neutral_events evs : forall st,
  forallb (fun ev => negb (isCacheEvent ev)) evs = true ->
  freshUses st evs /\ sinceAfter st evs = st.
Proof.
  induction evs as [|ev evs IH]; intros st H; simpl; [auto|].
  simpl in H. apply andb_prop in H as [Hev H].
  destruct ev; simpl in *; try discriminate; destruct (IH st H); auto.
Qed.

(** What was compiled from a file since its last write only grows until
    the file is written again. *)
Lemma servedFresh_step st ev filename shader :
  match ev with VirtualWrite f _ => f <> filename | _ => True end ->
  servedFresh st filename shader -> servedFresh (sinceStep st ev) filename shader.
Proof.
  unfold servedFresh. destruct ev; cbn [sinceStep]; auto.
  - intros _. destruct (st !! description) as [compiled|] eqn:Hd; [|auto].
    destruct (decide (description = filename)) as [->|Hne].
    + rewrite Hd, lookup_insert_eq. now right.
    + now rewrite lookup_insert_ne.
  - intros Hne. now rewrite lookup_insert_ne.
Qed.

Lemma servedFresh_after evs : forall st filename shader,
  Forall (fun ev => match ev with VirtualWrite _ _ => False | _ => True end) evs ->
  servedFresh st filename shader -> servedFresh (sinceAfter st evs) filename shader.
Proof.
  induction evs as [|ev evs IH]; intros st filename shader Hev H; simpl; [exact H|].
  inversion Hev as [|? ? Hhd Htl]; subst. apply IH; [exact Htl|].
  apply servedFresh_step; [|exact H]. destruct ev; auto.
Qed.

Lemma sinceAfter_lookup filename mid : forall st compiled0,
  st !! filename = Some compiled0 ->
  exists compiled,
    sinceAfter st mid !! filename = Some compiled
    /\ forall type source, In (type, source) compiled ->
         In (type, source) compiled0 \/ In (Compile type filename source) mid.
Proof.
  induction mid as [|ev mid IH]; intros st compiled0 H; simpl.
  { exists compiled0. auto. }
  assert (Hsame : sinceStep st ev = st ->
    exists compiled,
      sinceAfter (sinceStep st ev) mid !! filename = Some compiled
      /\ forall type source, In (type, source) compiled ->
           In (type, source) compiled0 \/ (ev = Compile type filename source
                                           \/ In (Compile type filename source) mid)).
  { intros ->. destruct (IH st compiled0 H) as (c & Hc & Hin). exists c.
    split; [exact Hc|]. intros ty src Hx. destruct (Hin ty src Hx); auto. }
  destruct ev; try (apply Hsame; reflexivity); cbn [sinceStep].
  - destruct (st !! description) as [compiled1|] eqn:Hd.
    2:{ destruct (IH st compiled0 H) as (c & Hc & Hin). exists c.
        split; [exact Hc|]. intros ty src Hx. destruct (Hin ty src Hx); auto. }
    destruct (decide (description = filename)) as [->|Hne].
    + rewrite H in Hd. injection Hd as <-.
      destruct (IH (<[filename := (type, source) :: compiled0]> st)
                  ((type, source) :: compiled0)) as (c & Hc & Hin);
        [apply lookup_insert_eq|].
      exists c. split; [exact Hc|]. intros ty src Hx.
      destruct (Hin ty src Hx) as [[[= <- <-]|Hx']|Hx']; auto.
    + destruct (IH (<[description := (type, source) :: compiled1]> st) compiled0)
        as (c & Hc & Hin); [now rewrite lookup_insert_ne|].
      exists c. split; [exact Hc|]. intros ty src Hx. destruct (Hin ty src Hx); auto.
  - destruct (decide (filename0 = filename)) as [->|Hne].
    + destruct (IH (<[filename := []]> st) []) as (c & Hc & Hin); [apply lookup_insert_eq|].
      exists c. split; [exact Hc|]. intros ty src Hx.
      destruct (Hin ty src Hx) as [[]|Hx']; auto.
    + destruct (IH (<[filename0 := []]> st) compiled0) as (c & Hc & Hin);
        [now rewrite lookup_insert_ne|].
      exists c. split; [exact Hc|]. intros ty src Hx. destruct (Hin ty src Hx); auto.
Qed.

Lemma freshUses_noStale st evs : freshUses st evs -> noStaleShader evs.
Proof.
  intros H pre filename source mid shader post ->.
  apply freshUses_app in H as [_ H]. simpl in H. destruct H as [_ H].
  apply freshUses_app in H as [_ H]. simpl in H. destruct H as [H _].
  unfold servedFresh in H.
  destruct (sinceAfter_lookup filename mid (<[filename := []]> (sinceAfter st pre)) [])
    as (c & Hc & Hin); [apply lookup_insert_eq|].
  rewrite Hc in H. destruct (Hin _ _ H) as [[]|Hm]. exact Hm.
Qed.

Lemma neutral_bind {A B} (m : M A) (k : A -> M B) :
  neutral m -> (forall a, neutral (k a)) -> neutral (bind m k).
Proof.
  intros Hm Hk w. specialize (Hm w). unfold finalWorld, events, bind in *.
  destruct (m w) as [[[a|e] w1] evs1]; simpl in *; [|exact Hm].
  specialize (Hk a w1). unfold finalWorld, events in Hk.
  destruct (k a w1) as [[r w2] evs2]; simpl in *.
  destruct Hm as (C1 & E1), Hk as (C2 & E2).
  rewrite C2, C1, forallb_app, E1, E2. auto.
Qed.

Lemma neutral_ret {A} (a : A) : neutral (ret a).
Proof. intros w. repeat split. Qed.

Lemma neutral_throw {A} e : neutral (@throw A e).
Proof. intros w. repeat split. Qed.

Lemma neutral_liftResult {A} (r : result A) : neutral (liftResult r).
Proof. destruct r; [apply neutral_ret | apply neutral_throw]. Qed.

Lemma neutral_getWorld : neutral getWorld.
Proof. intros w. repeat split. Qed.

Lemma neutral_emit ev : isCacheEvent ev = false -> neutral (emit ev).
Proof. intros H w. repeat split. simpl. now rewrite H. Qed.

Lemma neutral_setGL f : neutral (setGL f).
Proof. intros w. repeat split. Qed.

Lemma neutral_setConstantsHeader h : neutral (setConstantsHeader h).
Proof. intros w. repeat split. Qed.

Lemma neutral_setDensitiesHeader h : neutral (setDensitiesHeader h).
Proof. intros w. repeat split. Qed.

Lemma neutral_when b (m : M unit) : neutral m -> neutral (when b m).
Proof. destruct b; simpl; [auto | intros _; apply neutral_ret]. Qed.

Lemma neutral_forEach {A} (xs : list A) body :
  (forall x, neutral (body x)) -> neutral (forEach xs body).
Proof.
  intros H. induction xs as [|x xs IH]; simpl; [apply neutral_ret|].
  apply neutral_bind; auto.
Qed.

Ltac neutral_unfold :=
  unfold bind_;
  unfold glBindFramebuffer, glFramebufferTexture, setDrawBuffers, glEnable, glDisable,
    glEnablei, glDisablei, setBlend, glBlendFunc, glViewport, bindProgram, glFinish,
    glActiveTexture, setUniformValue, setUniformMatrix, setUniformTexture, saveTexture,
    cerr, initConstHeader, renderQuad.

Ltac neutral_tac :=
  neutral_unfold;
  repeat
    lazymatch goal with
    | |- neutral (bind _ _) => apply neutral_bind; [|intros ?]
    | |- neutral (ret _) => apply neutral_ret
    | |- neutral (throw _) => apply neutral_throw
    | |- neutral (liftResult _) => apply neutral_liftResult
    | |- neutral getWorld => apply neutral_getWorld
    | |- neutral (setGL _) => apply neutral_setGL
    | |- neutral (setConstantsHeader _) => apply neutral_setConstantsHeader
    | |- neutral (setDensitiesHeader _) => apply neutral_setDensitiesHeader
    | |- neutral (when _ _) => apply neutral_when
    | |- neutral (forEach _ _) => apply neutral_forEach; intros ?
    | |- neutral (emit _) => apply neutral_emit; reflexivity
    | |- neutral (if ?c then _ else _) => destruct c
    | |- neutral (let (_, _) := ?p in _) => destruct p
    end.

Create HintDb neutral.
Create HintDb cache.

Section Cache.
Variable cfg : Setup.

Lemma neutral_withGlobals generator : neutral (withGlobals cfg generator).
Proof.
  unfold withGlobals. neutral_tac.
Qed.

Lemma neutral_checkFramebufferStatus what : neutral (checkFramebufferStatus cfg what).
Proof. unfold checkFramebufferStatus. neutral_tac. Qed.

Lemma neutral_saveIrradiance o k : neutral (saveIrradiance cfg o k).
Proof. unfold saveIrradiance. neutral_tac. Qed.

Lemma neutral_saveScatteringDensity o k : neutral (saveScatteringDensity cfg o k).
Proof. unfold saveScatteringDensity. neutral_tac. Qed.

Lemma neutral_render3DTexLayers program what : neutral (render3DTexLayers cfg program what).
Proof. unfold render3DTexLayers. neutral_tac. Qed.

Lemma neutral_scatteringDensitySource g o : neutral (scatteringDensitySource cfg g o).
Proof. unfold scatteringDensitySource. neutral_tac. Qed.

Lemma neutral_indirectIrradianceSource o : neutral (indirectIrradianceSource cfg o).
Proof. unfold indirectIrradianceSource. neutral_tac. Qed.

Lemma neutral_phaseFunctionsSrc : neutral (phaseFunctionsSrc cfg).
Proof. unfold phaseFunctionsSrc. neutral_tac. Qed.

Local Abbreviation triple := cacheTriple.
Local Abbreviation none := (fun _ : text => False).

Lemma stable_cached absent : stable (cached absent).
Proof.
  intros st w w' Hc [Hco Hab]. split.
  - intros f shader Hf. rewrite Hc in Hf. apply (Hco f shader Hf).
  - intros f Hf. rewrite Hc. auto.
Qed.

Lemma stable_True : stable (fun _ _ => True).
Proof. intros st w w' _ _. exact I. Qed.

Lemma triple_bind {A B} P Q R (m : M A) (k : A -> M B) :
  triple P m Q -> (forall a, triple Q (k a) R) -> triple P (bind m k) R.
Proof.
  intros Hm Hk st w HP. specialize (Hm st w HP).
  unfold finalWorld, events, outcome, bind in *.
  destruct (m w) as [[[a|e] w1] evs1]; simpl in *.
  - destruct Hm as (N1 & Q1). specialize (Hk a _ w1 (Q1 eq_refl)).
    unfold finalWorld, events, outcome in Hk.
    destruct (k a w1) as [[r w2] evs2]; simpl in *.
    destruct Hk as (N2 & R2).
    split; [apply freshUses_app; auto|].
    rewrite sinceAfter_app. exact R2.
  - destruct Hm as (N1 & _). split; [exact N1 | discriminate].
Qed.

Lemma triple_conseq {A : Type} (P P' Q Q' : Since -> World -> Prop) (m : M A) :
  (forall st w, P' st w -> P st w) -> (forall st w, Q st w -> Q' st w) ->
  triple P m Q -> triple P' m Q'.
Proof.
  intros HP HQ H st w Hw. destruct (H st w (HP st w Hw)) as (N & Hq). auto.
Qed.

Lemma cached_forget absent st w : cached absent st w -> cached none st w.
Proof. intros [H _]. split; [exact H | tauto]. Qed.

Lemma triple_neutral {A} P (m : M A) : neutral m -> stable P -> triple P m P.
Proof.
  intros Hn Hs st w HP. destruct (Hn w) as (C & E).
  destruct (neutral_events _ st E) as [N T].
  split; [exact N|]. intros _. rewrite T. apply (Hs st w); auto.
Qed.

(** A neutral step in front of the rest. *)
Lemma triple_step {A B} P R (m : M A) (k : A -> M B) :
  neutral m -> stable P -> (forall a, triple P (k a) R) -> triple P (bind m k) R.
Proof. intros Hn Hs Hk. eapply triple_bind; [apply triple_neutral; eauto | exact Hk]. Qed.

(** A neutral step at the end. *)
Lemma triple_last {A} absent (m : M A) :
  neutral m -> triple (cached absent) m (cached none).
Proof.
  intros Hn. eapply triple_conseq; [| |apply (triple_neutral _ _ Hn (stable_cached absent))].
  - auto.
  - apply cached_forget.
Qed.

Lemma triple_eraseShader absent filename :
  triple (cached absent) (eraseShader filename)
    (cached (fun f => absent f \/ f = filename)).
Proof.
  intros st w [Hco Hab]. cbv [finalWorld events outcome eraseShader setAllShaders setWorld fst snd].
  cbn [allShaders sinceAfter fold_left freshUses]. split; [exact I|]. intros _. split.
  - intros f shader Hf. cbn [allShaders] in Hf.
    apply lookup_delete_Some in Hf as [_ Hf]. apply (Hco f shader Hf).
  - intros f [Hf| ->]; cbn [allShaders]; [|apply lookup_delete_eq].
    apply lookup_delete_None. right. auto.
Qed.

(** A virtual source is written while the cache has no entry for it. *)
Lemma triple_writeVirtualSourceFile (absent : text -> Prop) filename source :
  absent filename ->
  triple (cached absent) (writeVirtualSourceFile filename source) (cached absent).
Proof.
  intros Ha st w [Hco Hab].
  cbv [finalWorld events outcome writeVirtualSourceFile setWorld emit bind fst snd app].
  cbn [allShaders sinceAfter fold_left freshUses]. split; [auto|]. intros _. split; [|exact Hab].
  intros f shader Hf. cbn [allShaders] in Hf.
  assert (Hne : filename <> f).
  { intros ->. rewrite (Hab f Ha) in Hf. discriminate. }
  apply servedFresh_step; [exact Hne | apply (Hco f shader Hf)].
Qed.

Lemma triple_clearShaders P :
  triple P clearShaders (cached (fun _ => True)).
Proof.
  intros st w _. cbv [finalWorld events outcome clearShaders setAllShaders setWorld fst snd].
  cbn [allShaders sinceAfter fold_left freshUses]. split; [exact I|]. intros _. split.
  - intros f shader Hf. cbn [allShaders] in Hf. rewrite lookup_empty in Hf. discriminate.
  - intros f _. cbn [allShaders]. apply lookup_empty.
Qed.

Lemma triple_forEach {A} P (xs : list A) body :
  stable P -> (forall x, triple P (body x) P) -> triple P (forEach xs body) P.
Proof.
  intros Hs H. induction xs as [|x xs IH]; simpl.
  - apply triple_neutral; [apply neutral_ret | exact Hs].
  - eapply triple_bind; [apply H | intros _; exact IH].
Qed.

(** The run of [getOrCompileShader]: a cached shader is handed out as it
    is; otherwise the file is compiled, the shader stored and handed out. *)
Lemma getOrCompileShader_unfold type filename w :
  getOrCompileShader cfg type filename w =
  match allShaders w !! filename with
  | Some shader => (Ok shader, w, [ShaderUsed filename shader])
  | None =>
      match getShaderSrc (disk cfg) filename with
      | Throw e => (Throw e, w, [])
      | Ok src =>
          match compileShader cfg type src filename w with
          | (Ok shader, w1, evs) =>
              (Ok shader,
               {| constantsHeader := constantsHeader w1; densitiesHeader := densitiesHeader w1;
                  virtualSourceFiles := virtualSourceFiles w1;
                  allShaders := <[filename := shader]> (allShaders w1); gl := gl w1 |},
               evs ++ [ShaderUsed filename shader])
          | (Throw e, w1, evs) => (Throw e, w1, evs)
          end
      end
  end.
Proof.
  unfold getOrCompileShader. rewrite run_bind. cbn [getWorld].
  destruct (allShaders w !! filename) as [shader|]; [reflexivity|].
  rewrite run_bind. unfold compileShaderFile at 1. rewrite run_bind. rewrite run_bind.
  destruct (getShaderSrc (disk cfg) filename) as [src|e]; cbn [liftResult ret throw];
    [|reflexivity].
  destruct (compileShader cfg type src filename w) as [[[shader|e] w1] evs];
    [|reflexivity].
  cbn. rewrite app_nil_r. reflexivity.
Qed.

Lemma triple_getOrCompileShader absent type filename :
  triple (cached absent) (getOrCompileShader cfg type filename) (cached none).
Proof.
  intros st w [Hco _]. unfold events, finalWorld, outcome.
  rewrite getOrCompileShader_unfold.
  destruct (allShaders w !! filename) as [shader|] eqn:Hf; cbn [fst snd].
  { cbn [freshUses sinceAfter fold_left sinceStep]. split; [split; [|exact I]|].
    - apply (Hco filename shader Hf).
    - intros _. split; [exact Hco | tauto]. }
  destruct (getShaderSrc (disk cfg) filename) as [src|e]; cbn [fst snd];
    [|split; [exact I | discriminate]].
  rewrite compileShader_run.
  destruct (withHeadersIncluded _ _ _ src filename) as [source'|e]; cbn [fst snd];
    [|split; [exact I | discriminate]].
  destruct (fst (glslCompile cfg type source')); cbn [fst snd].
  2:{ split; [|discriminate]. unfold compileReport. cbn [freshUses]. tauto. }
  set (shader := {| shaderType := type; givenSource := src; sourceCode := source' |}).
  set (warnings := if negb _ then _ else _).
  assert (Hw : forallb (fun ev => negb (isCacheEvent ev)) warnings = true)
    by (unfold warnings; destruct (negb _); reflexivity).
  destruct (neutral_events warnings (sinceStep st (Compile type filename source')) Hw)
    as [Nw Tw].
  assert (Hfresh : servedFresh (sinceStep st (Compile type filename source')) filename shader).
  { unfold servedFresh. cbn [sinceStep].
    destruct (st !! filename) as [compiled|] eqn:Hst.
    - rewrite lookup_insert_eq. now left.
    - now rewrite Hst. }
  change (Compile type filename source' :: warnings)
    with ([Compile type filename source'] ++ warnings).
  rewrite <- app_assoc. split.
  - apply freshUses_app. split; [cbn [freshUses]; tauto|].
    change (sinceAfter st [Compile type filename source'])
      with (sinceStep st (Compile type filename source')).
    apply freshUses_app. split; [exact Nw|]. rewrite Tw. cbn [freshUses]. tauto.
  - intros _. rewrite !sinceAfter_app.
    change (sinceAfter st [Compile type filename source'])
      with (sinceStep st (Compile type filename source')).
    rewrite Tw.
    change (sinceAfter ?s [ShaderUsed filename shader]) with s.
    split; [|tauto].
    intros f shader' Hf'. cbn [allShaders] in Hf'.
    destruct (decide (f = filename)) as [->|Hne].
    + rewrite lookup_insert_eq in Hf'. injection Hf' as <-. exact Hfresh.
    + rewrite lookup_insert_ne in Hf' by auto.
      apply servedFresh_step; [exact I | apply (Hco f shader' Hf')].
Qed.

Lemma triple_getOrCompileShaders absent type filenames :
  triple (cached absent) (getOrCompileShaders cfg type filenames) (cached none).
Proof.
  revert absent. induction filenames as [|f fs IH]; intros absent; simpl.
  - apply triple_last, neutral_ret.
  - eapply triple_bind; [apply triple_getOrCompileShader|]. intros shader.
    eapply triple_bind; [apply IH|]. intros shaders.
    apply triple_last, neutral_ret.
Qed.

Lemma triple_compileShaderProgram absent mainSrcFileName description useGeomShader :
  triple (cached absent)
    (compileShaderProgram cfg mainSrcFileName description useGeomShader)
    (cached none).
Proof.
  unfold compileShaderProgram.
  apply triple_step; [apply neutral_liftResult | apply stable_cached |]. intros names.
  eapply triple_bind; [apply triple_getOrCompileShaders|]. intros fragments.
  eapply triple_bind; [apply triple_getOrCompileShader|]. intros vertex.
  eapply triple_bind.
  - destruct useGeomShader.
    + eapply triple_bind; [apply triple_getOrCompileShader|]. intros shader.
      apply triple_last, neutral_ret.
    + apply triple_last, neutral_ret.
  - intros geometry. apply triple_last. neutral_tac.
Qed.

Lemma triple_forEach_cached {A} absent (xs : list A) body :
  (forall x, triple (cached none) (body x) (cached none)) ->
  triple (cached absent) (forEach xs body) (cached none).
Proof.
  intros H. eapply triple_conseq; [apply cached_forget | |].
  2: apply triple_forEach; [apply stable_cached | exact H].
  auto.
Qed.

#[local] Hint Resolve neutral_withGlobals
  neutral_checkFramebufferStatus neutral_saveIrradiance neutral_saveScatteringDensity
  neutral_render3DTexLayers neutral_scatteringDensitySource neutral_indirectIrradianceSource
  neutral_phaseFunctionsSrc : neutral.
#[local] Hint Resolve triple_eraseShader triple_compileShaderProgram : cache.

Ltac neutral_solve := solve [neutral_tac; auto with neutral].

Ltac cache_tac :=
  repeat
    lazymatch goal with
    | |- cacheTriple _ (bind (writeVirtualSourceFile _ _) _) _ =>
        eapply triple_bind;
        [apply triple_writeVirtualSourceFile; cbv beta; first [exact I | auto] | intros _]
    | |- cacheTriple _ (bind (forEach _ _) _) _ =>
        eapply triple_bind; [apply triple_forEach_cached; intros ? | intros _]
    | |- cacheTriple _ (bind _ _) _ =>
        first [ apply triple_step; [neutral_solve | apply stable_cached | intros ?]
              | eapply triple_bind; [solve [auto with cache] | intros ?] ]
    | |- cacheTriple _ (forEach _ _) _ => apply triple_forEach_cached; intros ?
    | |- cacheTriple _ (match ?x with Some _ => _ | None => _ end) _ => destruct x
    | |- cacheTriple _ _ _ =>
        first [ apply triple_last; neutral_solve | solve [auto with cache] ]
    end.

Lemma triple_computeTransmittance absent texIndex :
  triple (cached absent) (computeTransmittance cfg texIndex) (cached none).
Proof. unfold computeTransmittance. cache_tac. Qed.

Lemma triple_computeDirectGroundIrradiance absent texIndex :
  triple (cached absent) (computeDirectGroundIrradiance cfg texIndex) (cached none).
Proof. unfold computeDirectGroundIrradiance. cache_tac. Qed.

Lemma triple_computeSingleScattering absent texIndex scatterer :
  triple (cached absent) (computeSingleScattering cfg texIndex scatterer)
    (cached none).
Proof. unfold computeSingleScattering. cache_tac. Qed.

Lemma triple_computeIndirectIrradianceOrder1 absent texIndex scattererIndex :
  triple (cached absent) (computeIndirectIrradianceOrder1 cfg texIndex scattererIndex)
    (cached none).
Proof. unfold computeIndirectIrradianceOrder1. cache_tac. Qed.

#[local] Hint Resolve triple_computeSingleScattering triple_computeIndirectIrradianceOrder1
  : cache.

Lemma triple_computeScatteringDensityOrder2 absent texIndex :
  triple (cached absent) (computeScatteringDensityOrder2 cfg texIndex) (cached none).
Proof. unfold computeScatteringDensityOrder2. cache_tac. Qed.

Lemma triple_computeScatteringDensity absent scatteringOrder texIndex :
  triple (cached absent) (computeScatteringDensity cfg scatteringOrder texIndex)
    (cached none).
Proof. unfold computeScatteringDensity. cache_tac. Qed.

Lemma triple_computeIndirectIrradiance absent scatteringOrder texIndex :
  triple (cached absent) (computeIndirectIrradiance cfg scatteringOrder texIndex)
    (cached none).
Proof. unfold computeIndirectIrradiance. cache_tac. Qed.

Lemma triple_accumulateMultipleScattering absent scatteringOrder texIndex :
  triple (cached absent) (accumulateMultipleScattering cfg scatteringOrder texIndex)
    (cached none).
Proof. unfold accumulateMultipleScattering. cache_tac. Qed.

#[local] Hint Resolve triple_accumulateMultipleScattering : cache.

Lemma triple_computeMultipleScatteringFromDensity absent scatteringOrder texIndex :
  triple (cached absent)
    (computeMultipleScatteringFromDensity cfg scatteringOrder texIndex) (cached none).
Proof. unfold computeMultipleScatteringFromDensity. cache_tac. Qed.

#[local] Hint Resolve triple_computeScatteringDensityOrder2 triple_computeScatteringDensity
  triple_computeIndirectIrradiance triple_computeMultipleScatteringFromDensity : cache.

Lemma triple_computeMultipleScattering absent texIndex :
  triple (cached absent) (computeMultipleScattering cfg texIndex) (cached none).
Proof. unfold computeMultipleScattering. cache_tac. Qed.

#[local] Hint Resolve triple_computeTransmittance triple_computeDirectGroundIrradiance
  triple_computeMultipleScattering : cache.

Lemma triple_processWavelengthSet texIndex :
  triple (fun _ _ => True) (processWavelengthSet cfg texIndex) (fun _ _ => True).
Proof.
  unfold processWavelengthSet.
  apply triple_step; [neutral_solve | apply stable_True | intros _].
  eapply triple_bind; [apply triple_clearShaders | intros _].
  eapply triple_conseq; [ | |]; [intros st w H; exact H | | ]; cycle 1.
  - cache_tac.
  - auto.
Qed.

Lemma triple_generate : triple (fun _ _ => True) (generate cfg) (fun _ _ => True).
Proof.
  unfold generate. apply triple_forEach; [apply stable_True|].
  intros texIndex. apply triple_processWavelengthSet.
Qed.


End Cache.

(** The run on the example installation rewrites virtual sources 36
    times, compiles 30 shaders and is handed 82. *)
Example whole_run_cache_events :
  length (List.filter (fun ev => match ev with VirtualWrite _ _ => true | _ => false end)
            (events (generate (Example.exampleSetup false 3)) Example.initialWorld)) = 36%nat
  /\ length (List.filter (fun ev => match ev with Compile _ _ _ => true | _ => false end)
               (events (generate (Example.exampleSetup false 3)) Example.initialWorld))
     = 30%nat
  /\ length (List.filter (fun ev => match ev with ShaderUsed _ _ => true | _ => false end)
               (events (generate (Example.exampleSetup false 3)) Example.initialWorld))
     = 82%nat.
Proof. vm_compute. repeat split. Qed.

(** Without the eviction the second request is served from the cache:
    the shader handed out after the second write was compiled before it. *)
Example stale_without_eviction :
  ~ noStaleShader
      (events (writeVirtualSourceFile (txt "shader.vert") (txt "void a(){}
") ;;
               getOrCompileShader (Example.exampleSetup false 2) Vertex (txt "shader.vert") ;;
               writeVirtualSourceFile (txt "shader.vert") (txt "void b(){}
") ;;
               getOrCompileShader (Example.exampleSetup false 2) Vertex (txt "shader.vert") ;;
               ret tt)
         Example.initialWorld).
Proof.
  intros H.
  specialize (H [VirtualWrite (txt "shader.vert") (txt "void a(){}
");
                 Compile Vertex (txt "shader.vert") (txt "void main(){}
");
                 ShaderUsed (txt "shader.vert")
                   {| shaderType := Vertex; givenSource := txt "void main(){}
"; sourceCode := txt "void main(){}
" |}]
                (txt "shader.vert") (txt "void b(){}
") []
                {| shaderType := Vertex; givenSource := txt "void main(){}
"; sourceCode := txt "void main(){}
" |} [] eq_refl).
  destruct H.
Qed.

(** ** The final file of a run *)

Lemma txt_inj a b : txt a = txt b -> a = b.
Proof.
  unfold txt. intros H.
  apply (f_equal (map ascii_of_N)) in H. rewrite !map_map in H.
  rewrite !(map_ext _ (fun a => a) ascii_N_embedding), !map_id in H.
  apply (f_equal string_of_list_ascii) in H.
  now rewrite !string_of_list_ascii_of_string in H.
Qed.

Lemma number_inj a b : number a = number b -> a = b.
Proof.
  unfold number. intros H. apply txt_inj in H.
  apply (f_equal list_ascii_of_string), (f_equal string_of_list_ascii) in H.
  rewrite !string_of_list_ascii_of_string in H.
  apply DecimalZ.to_int_inj.
  assert (Hn : forall z, Z.to_int z <> Decimal.Pos Decimal.Nil
                         /\ Z.to_int z <> Decimal.Neg Decimal.Nil).
  { intros z. split; intros Hz; pose proof (f_equal Z.of_int Hz) as Hz';
      rewrite DecimalZ.of_to in Hz'; simpl in Hz'; subst z; discriminate Hz. }
  apply (f_equal DecimalString.NilZero.int_of_string) in H.
  rewrite !DecimalString.NilZero.isi in H by apply Hn.
  now injection H.
Qed.

Lemma timesSaved_app path evs1 evs2 :
  timesSaved path (evs1 ++ evs2) = (timesSaved path evs1 + timesSaved path evs2)%nat.
Proof. unfold timesSaved. rewrite List.filter_app, length_app. reflexivity. Qed.

Lemma timesSaved_compile path evs : Forall isCompileEvent evs -> timesSaved path evs = 0%nat.
Proof.
  induction 1 as [|ev evs Hev _ IH]; [reflexivity|].
  unfold timesSaved in *. destruct ev; simpl in *; try contradiction; exact IH.
Qed.

Lemma timesSaved_render path g evs :
  Forall (isRenderEvent g) evs -> timesSaved path evs = 0%nat.
Proof.
  induction 1 as [|ev evs Hev _ IH]; [reflexivity|].
  unfold timesSaved in *. destruct ev; simpl in *; try contradiction; exact IH.
Qed.

Lemma w_bind path {A B} (m : M A) (k : A -> M B) a b :
  writes path m a -> (forall x, writes path (k x) b) -> writes path (bind m k) (a + b).
Proof.
  intros Hm Hk w. specialize (Hm w). unfold events, outcome, bind in *.
  destruct (m w) as [[[x|e] w1] evs1]; simpl in *.
  - specialize (Hk x w1). unfold events, outcome in Hk.
    destruct (k x w1) as [[r w2] evs2]; simpl in *.
    rewrite timesSaved_app. destruct Hm as [Hm1 Hm2], Hk as [Hk1 Hk2].
    specialize (Hm2 eq_refl). split; [lia|]. intros Hok. rewrite (Hk2 Hok). lia.
  - destruct Hm as [Hm1 _]. split; [lia | discriminate].
Qed.

Lemma w_eq path {A} (m : M A) n n' : writes path m n -> n = n' -> writes path m n'.
Proof. now intros H <-. Qed.

Lemma w_ret path {A} (a : A) : writes path (ret a) 0.
Proof. intros w. split; [apply Nat.le_refl | reflexivity]. Qed.

Lemma w_throw path {A} e n : writes path (@throw A e) n.
Proof. intros w. split; [apply Nat.le_0_l | discriminate]. Qed.

Lemma w_liftResult path {A} (r : result A) : writes path (liftResult r) 0.
Proof. destruct r; [apply w_ret | apply w_throw]. Qed.

Lemma w_getWorld path : writes path getWorld 0.
Proof. intros w. split; [apply Nat.le_refl | reflexivity]. Qed.

Lemma w_setWorld path f : writes path (setWorld f) 0.
Proof. intros w. split; [apply Nat.le_refl | reflexivity]. Qed.

Lemma w_emit path ev : writes path (emit ev) (indicator (savedAs path ev)).
Proof.
  intros w. unfold events, emit, timesSaved. simpl.
  destruct (savedAs path ev); simpl; split; auto.
Qed.

Lemma w_emit0 path ev : savedAs path ev = false -> writes path (emit ev) 0.
Proof. intros H. eapply w_eq; [apply w_emit | now rewrite H]. Qed.

Lemma w_when0 path b (m : M unit) : writes path m 0 -> writes path (when b m) 0.
Proof. destruct b; simpl; [auto | intros _; apply w_ret]. Qed.

Lemma w_forEach path {A} (xs : list A) body (f : A -> nat) :
  (forall x, writes path (body x) (f x)) ->
  writes path (forEach xs body) (list_sum (map f xs)).
Proof.
  intros H. induction xs as [|x xs IH]; simpl; [apply w_ret|].
  apply w_bind; [apply H | intros _; exact IH].
Qed.

Lemma w_forEach0 path {A} (xs : list A) body :
  (forall x, writes path (body x) 0) -> writes path (forEach xs body) 0.
Proof.
  intros H. eapply w_eq; [apply (w_forEach path xs body (fun _ => 0%nat) H)|].
  induction xs; simpl; auto.
Qed.

Lemma w_quiet path {A} (m : M A) : quiet m -> writes path m 0.
Proof.
  intros Hq w. destruct (m w) as [[r w'] evs] eqn:Hrun.
  destruct (quiet_run m w r w' evs Hq Hrun) as [_ Hev].
  unfold events. rewrite Hrun. simpl. rewrite (timesSaved_compile _ _ Hev). auto.
Qed.

(** A file whose name parts from both final names is not the final file. *)
Lemma savedAs_other cfg k0 texture what s rest :
  clash s (txt "/multiple-scattering-w") = true ->
  clash s (txt "/multiple-scattering-x") = true ->
  savedAs (finalFile cfg k0)
    (SaveTexture texture what (textureOutputDir cfg ++ s ++ rest)) = false.
Proof.
  intros Hw Hx. simpl. apply bool_decide_eq_false. unfold finalFile. intros H.
  destruct (saveResultAsRadiance cfg); apply app_inv_head in H.
  - assert (E : startsWith (s ++ rest) (txt "/multiple-scattering-w") = true).
    { rewrite H. unfold wlsetSuffix. reflexivity. }
    rewrite (clash_startsWith _ _ _ Hw) in E. discriminate.
  - assert (E : startsWith (s ++ rest) (txt "/multiple-scattering-x") = true).
    { rewrite H. reflexivity. }
    rewrite (clash_startsWith _ _ _ Hx) in E. discriminate.
Qed.

Create HintDb writes0.

Ltac w0_unfold :=
  unfold bind_;
  unfold glBindFramebuffer, glFramebufferTexture, setDrawBuffers, glEnable, glDisable,
    glEnablei, glDisablei, glBlendFunc, glViewport, bindProgram, glFinish,
    glActiveTexture, setUniformValue, setUniformMatrix, setUniformTexture, saveTexture,
    cerr, initConstHeader, renderQuad, eraseShader, clearShaders, writeVirtualSourceFile;
  unfold setBlend, setGL, setAllShaders, setConstantsHeader, setDensitiesHeader.

Ltac w0_tac :=
  w0_unfold;
  repeat
    lazymatch goal with
    | |- writes ?p (bind ?m ?k) 0%nat => apply (w_bind p m k 0%nat 0%nat); [|intros ?]
    | |- writes _ (ret _) _ => apply w_ret
    | |- writes _ (throw _) _ => apply w_throw
    | |- writes _ (liftResult _) _ => apply w_liftResult
    | |- writes _ getWorld _ => apply w_getWorld
    | |- writes _ (setWorld _) _ => apply w_setWorld
    | |- writes _ (when _ _) 0%nat => apply w_when0
    | |- writes _ (forEach _ _) 0%nat => apply w_forEach0; intros ?
    | |- writes _ (emit (SaveTexture _ _ _)) 0%nat =>
        apply w_emit0; unfold wlsetSuffix; rewrite <- ?app_assoc;
        apply savedAs_other; reflexivity
    | |- writes _ (emit _) 0%nat => apply w_emit0; reflexivity
    | |- writes _ (if ?c then _ else _) _ => destruct c
    | |- writes _ (let (_, _) := ?x in _) _ => destruct x
    | |- writes _ (match ?x with Some _ => _ | None => _ end) _ => destruct x
    end;
  auto with writes0.

(** The steps in front of the one that may write the file. *)
Ltac w0_prefix :=
  repeat
    lazymatch goal with
    | |- writes ?p (bind _ _) _ => apply (w_bind p _ _ 0%nat); [solve [w0_tac] | intros ?]
    end.

Section FinalFile.
Variable cfg : Setup.
Variable k0 : Z.

Local Abbreviation path := (finalFile cfg k0).

Lemma w_compileShaderProgram f d g : writes path (compileShaderProgram cfg f d g) 0.
Proof. apply w_quiet, quiet_compileShaderProgram. Qed.

#[local] Hint Resolve w_compileShaderProgram : writes0.

Lemma w_withGlobals generator : writes path (withGlobals cfg generator) 0.
Proof. unfold withGlobals. w0_tac. Qed.

Lemma w_checkFramebufferStatus what : writes path (checkFramebufferStatus cfg what) 0.
Proof. unfold checkFramebufferStatus. w0_tac. Qed.

Lemma w_saveIrradiance o k : writes path (saveIrradiance cfg o k) 0.
Proof. unfold saveIrradiance. w0_tac. Qed.

Lemma w_saveScatteringDensity o k : writes path (saveScatteringDensity cfg o k) 0.
Proof. unfold saveScatteringDensity. w0_tac. Qed.

Lemma w_render3DTexLayers program what : writes path (render3DTexLayers cfg program what) 0.
Proof. unfold render3DTexLayers. w0_tac. Qed.

Lemma w_scatteringDensitySource g o : writes path (scatteringDensitySource cfg g o) 0.
Proof. unfold scatteringDensitySource. w0_tac. Qed.

Lemma w_indirectIrradianceSource o : writes path (indirectIrradianceSource cfg o) 0.
Proof. unfold indirectIrradianceSource. w0_tac. Qed.

Lemma w_phaseFunctionsSrc : writes path (phaseFunctionsSrc cfg) 0.
Proof. unfold phaseFunctionsSrc. w0_tac. Qed.

#[local] Hint Resolve w_withGlobals w_checkFramebufferStatus w_saveIrradiance
  w_saveScatteringDensity w_render3DTexLayers w_scatteringDensitySource
  w_indirectIrradianceSource w_phaseFunctionsSrc : writes0.

Lemma w_computeTransmittance k : writes path (computeTransmittance cfg k) 0.
Proof. unfold computeTransmittance. w0_tac. Qed.

Lemma w_computeDirectGroundIrradiance k :
  writes path (computeDirectGroundIrradiance cfg k) 0.
Proof. unfold computeDirectGroundIrradiance. w0_tac. Qed.

Lemma w_computeSingleScattering k s : writes path (computeSingleScattering cfg k s) 0.
Proof. unfold computeSingleScattering. w0_tac. Qed.

Lemma w_computeIndirectIrradianceOrder1 k i :
  writes path (computeIndirectIrradianceOrder1 cfg k i) 0.
Proof. unfold computeIndirectIrradianceOrder1. w0_tac. Qed.

#[local] Hint Resolve w_computeSingleScattering w_computeIndirectIrradianceOrder1 : writes0.

Lemma w_computeScatteringDensityOrder2 k :
  writes path (computeScatteringDensityOrder2 cfg k) 0.
Proof. unfold computeScatteringDensityOrder2. w0_tac. Qed.

Lemma w_computeScatteringDensity o k : writes path (computeScatteringDensity cfg o k) 0.
Proof. unfold computeScatteringDensity. w0_tac. Qed.

Lemma w_computeIndirectIrradiance o k : writes path (computeIndirectIrradiance cfg o k) 0.
Proof. unfold computeIndirectIrradiance. w0_tac. Qed.

#[local] Hint Resolve w_computeTransmittance w_computeDirectGroundIrradiance
  w_computeScatteringDensityOrder2 w_computeScatteringDensity w_computeIndirectIrradiance
  : writes0.

Lemma savedAs_final k :
  savedAs path
    (SaveTexture TEX_MULTIPLE_SCATTERING (txt "multiple scattering accumulator texture")
       (if saveResultAsRadiance cfg
        then textureOutputDir cfg ++ txt "/multiple-scattering" ++ wlsetSuffix k
        else textureOutputDir cfg ++ txt "/multiple-scattering-xyzw.f32"))
  = (if saveResultAsRadiance cfg then k =? k0 else true).
Proof.
  unfold finalFile, savedAs. destruct (saveResultAsRadiance cfg).
  - destruct (Z.eqb_spec k k0) as [->|Hne].
    + apply bool_decide_eq_true. reflexivity.
    + apply bool_decide_eq_false. intros H. apply Hne.
      apply app_inv_head in H. apply app_inv_head in H. unfold wlsetSuffix in H.
      apply app_inv_head in H. apply app_inv_tail in H. apply number_inj, H.
  - apply bool_decide_eq_true. reflexivity.
Qed.

Lemma timesSaved_accumulateSaves o k :
  timesSaved path (accumulateSaves cfg o k)
  = indicator ((o =? scatteringOrdersToCompute cfg) && finalSet cfg k0 k).
Proof.
  unfold accumulateSaves. rewrite timesSaved_app.
  assert (Hd : timesSaved path
                 (if dbgSaveAccumScattering cfg
                  then [SaveTexture TEX_MULTIPLE_SCATTERING
                          (txt "multiple scattering accumulator texture")
                          (textureOutputDir cfg ++ txt "/multiple-scattering-to-order"
                             ++ number o ++ wlsetSuffix k)]
                  else []) = 0%nat).
  { destruct (dbgSaveAccumScattering cfg); [|reflexivity].
    unfold timesSaved. cbn [List.filter].
    rewrite savedAs_other by reflexivity. reflexivity. }
  rewrite Hd. cbn [Nat.add]. unfold finalSet.
  destruct (o =? scatteringOrdersToCompute cfg); [|reflexivity]. cbn [andb].
  destruct ((k + 1 =? Z.of_nat (length (allWavelengths cfg))) || saveResultAsRadiance cfg)
    eqn:Hc.
  - unfold timesSaved. cbn [List.filter]. rewrite savedAs_final.
    destruct (saveResultAsRadiance cfg).
    + destruct (k =? k0); reflexivity.
    + rewrite orb_false_r in Hc. rewrite Hc. reflexivity.
  - apply orb_false_elim in Hc as [Hc Hr]. rewrite Hr, Hc. reflexivity.
Qed.

Lemma w_accumulateMultipleScattering o k :
  writes path (accumulateMultipleScattering cfg o k)
    (indicator ((o =? scatteringOrdersToCompute cfg) && finalSet cfg k0 k)).
Proof.
  intros w. destruct (accumulateMultipleScattering cfg o k w) as [[r w'] evs] eqn:Hrun.
  pose proof (accumulateMultipleScattering_run _ _ _ _ _ _ _ Hrun) as H.
  unfold events, outcome. rewrite Hrun. simpl.
  destruct r as [u|e].
  - destruct H as (evsC & evsR & g & -> & HC & HR & _).
    rewrite !timesSaved_app, (timesSaved_compile _ _ HC), (timesSaved_render _ _ _ HR),
      timesSaved_accumulateSaves.
    assert (Hu : timesSaved path (luminanceUniform cfg k) = 0%nat).
    { unfold luminanceUniform. destruct (negb _); reflexivity. }
    rewrite Hu. simpl. split; [lia | reflexivity].
  - rewrite (timesSaved_compile _ _ H). split; [lia | discriminate].
Qed.

Lemma w_computeMultipleScatteringFromDensity o k :
  writes path (computeMultipleScatteringFromDensity cfg o k)
    (indicator ((o =? scatteringOrdersToCompute cfg) && finalSet cfg k0 k)).
Proof.
  unfold computeMultipleScatteringFromDensity. w0_prefix.
  apply w_accumulateMultipleScattering.
Qed.

Lemma sum_orders c b n :
  list_sum (map (fun o => indicator ((o =? c) && b))
              (map (fun i => 3 + Z.of_nat i) (seq 0 n)))
  = indicator (b && (3 <=? c) && (c <? 3 + Z.of_nat n)).
Proof.
  induction n as [|n IH].
  - cbn [seq map list_sum].
    destruct b, (Z.leb_spec 3 c), (Z.ltb_spec c (3 + Z.of_nat 0)); simpl; auto; lia.
  - rewrite seq_S, !map_app, list_sum_app, IH. cbn [map list_sum Nat.add seq].
    destruct b; simpl; [|rewrite Nat.add_0_r; destruct (_ =? _); reflexivity].
    rewrite Nat.add_0_r.
    destruct (Z.eqb_spec (3 + Z.of_nat n) c), (Z.leb_spec 3 c),
      (Z.ltb_spec c (3 + Z.of_nat n)), (Z.ltb_spec c (3 + Z.of_nat (S n)));
      simpl; auto; lia.
Qed.

Lemma sum_sets c b n :
  list_sum (map (fun k => indicator ((k =? c) && b)) (map Z.of_nat (seq 0 n)))
  = indicator (b && (0 <=? c) && (c <? Z.of_nat n)).
Proof.
  induction n as [|n IH].
  - cbn [seq map list_sum].
    destruct b, (Z.leb_spec 0 c), (Z.ltb_spec c (Z.of_nat 0)); simpl; auto; lia.
  - rewrite seq_S, !map_app, list_sum_app, IH. cbn [map list_sum Nat.add seq].
    destruct b; simpl; [|rewrite Nat.add_0_r; destruct (_ =? _); reflexivity].
    rewrite Nat.add_0_r.
    destruct (Z.eqb_spec (Z.of_nat n) c), (Z.leb_spec 0 c),
      (Z.ltb_spec c (Z.of_nat n)), (Z.ltb_spec c (Z.of_nat (S n)));
      simpl; auto; lia.
Qed.

Lemma w_computeMultipleScattering k :
  writes path (computeMultipleScattering cfg k)
    (indicator (finalSet cfg k0 k && (2 <=? scatteringOrdersToCompute cfg))).
Proof.
  unfold computeMultipleScattering.
  eapply w_eq.
  - apply (w_bind path _ _ 0%nat); [solve [w0_tac] | intros _].
    apply (w_bind path _ _ 0%nat); [solve [w0_tac] | intros _].
    apply w_bind; [apply w_computeMultipleScatteringFromDensity | intros _].
    apply (w_forEach path (higherOrders cfg) _
             (fun o => indicator ((o =? scatteringOrdersToCompute cfg) && finalSet cfg k0 k))).
    intros o.
    apply (w_bind path _ _ 0%nat); [solve [w0_tac] | intros _].
    apply (w_bind path _ _ 0%nat); [solve [w0_tac] | intros _].
    apply (w_bind path _ _ 0%nat); [solve [w0_tac] | intros _].
    apply w_computeMultipleScatteringFromDensity.
  - cbn [Nat.add]. unfold higherOrders. rewrite sum_orders.
    destruct (finalSet cfg k0 k); cbn [andb];
      [|rewrite andb_false_r; reflexivity].
    rewrite andb_true_r.
    destruct (Z.eqb_spec 2 (scatteringOrdersToCompute cfg)),
      (Z.leb_spec 3 (scatteringOrdersToCompute cfg)),
      (Z.ltb_spec (scatteringOrdersToCompute cfg)
         (3 + Z.of_nat (Z.to_nat (scatteringOrdersToCompute cfg - 2)))),
      (Z.leb_spec 2 (scatteringOrdersToCompute cfg)); cbn [andb indicator Nat.add];
      try reflexivity; lia.
Qed.

Lemma w_processWavelengthSet k :
  writes path (processWavelengthSet cfg k)
    (indicator (finalSet cfg k0 k && (2 <=? scatteringOrdersToCompute cfg))).
Proof.
  unfold processWavelengthSet. w0_prefix.
  apply w_computeMultipleScattering.
Qed.

Lemma w_generate :
  writes path (generate cfg)
    (indicator ((2 <=? scatteringOrdersToCompute cfg) && finalSetExists cfg k0)).
Proof.
  unfold generate. eapply w_eq; [apply w_forEach; intros k; apply w_processWavelengthSet|].
  unfold finalSet, finalSetExists. destruct (saveResultAsRadiance cfg).
  - rewrite sum_sets. f_equal. rewrite andb_assoc. reflexivity.
  - rewrite (map_ext _ (fun k => indicator
               ((k =? Z.of_nat (length (allWavelengths cfg)) - 1)
                && (2 <=? scatteringOrdersToCompute cfg)))).
    2:{ intros k. f_equal. f_equal.
        destruct (Z.eqb_spec (k + 1) (Z.of_nat (length (allWavelengths cfg)))),
          (Z.eqb_spec k (Z.of_nat (length (allWavelengths cfg)) - 1)); auto; lia. }
    rewrite sum_sets. f_equal.
    destruct (2 <=? scatteringOrdersToCompute cfg); simpl; [|reflexivity].
    destruct (Z.leb_spec 0 (Z.of_nat (length (allWavelengths cfg)) - 1)),
      (Z.ltb_spec (Z.of_nat (length (allWavelengths cfg)) - 1)
         (Z.of_nat (length (allWavelengths cfg)))),
      (Z.leb_spec 1 (Z.of_nat (length (allWavelengths cfg)))); simpl; auto; lia.
Qed.

(** A run writes the final file at most once, and once when it returns,
    two orders at least are computed and the set of the file exists. *)
Lemma final_file_once w :
  (timesSaved path (events (generate cfg) w) <= 1)%nat
  /\ (isOk (outcome (generate cfg) w) = true ->
      2 <= scatteringOrdersToCompute cfg ->
      finalSetExists cfg k0 = true ->
      timesSaved path (events (generate cfg) w) = 1%nat).
Proof.
  destruct (w_generate w) as [Hle Heq]. split.
  - destruct ((2 <=? scatteringOrdersToCompute cfg) && finalSetExists cfg k0); simpl in Hle; lia.
  - intros Hok Ho Hs. rewrite (Heq Hok), Hs.
    destruct (Z.leb_spec 2 (scatteringOrdersToCompute cfg)); [reflexivity | lia].
Qed.

End FinalFile.

Section FinalFileProperties.
Variable cfg : Setup.

(** C7.  The files an accumulate pass writes: none when it throws;
    otherwise the debug dump when it is asked for, and then the final file
    exactly when the order is [scatteringOrdersToCompute] and, saving
    radiance, for every set under the name with the set index, saving
    luminance, only for the last set under the xyzw name.  Over a whole
    run each final file (the one of set [k0] saving radiance, the xyzw
    file saving luminance) is written at most once, and exactly once
    when the run returns, computes two orders at least and has that
    set. *)
Theorem final_accumulator_file scatteringOrder texIndex w :
  savesOf (events (accumulateMultipleScattering cfg scatteringOrder texIndex) w) =
  match outcome (accumulateMultipleScattering cfg scatteringOrder texIndex) w with
  | Throw _ => []
  | Ok _ =>
      (if dbgSaveAccumScattering cfg
       then [(TEX_MULTIPLE_SCATTERING,
              textureOutputDir cfg ++ txt "/multiple-scattering-to-order"
                ++ number scatteringOrder ++ txt "-wlset" ++ number texIndex ++ txt ".f32")]
       else [])
      ++ (if scatteringOrder =? scatteringOrdersToCompute cfg
          then
            if saveResultAsRadiance cfg
            then [(TEX_MULTIPLE_SCATTERING,
                   textureOutputDir cfg ++ txt "/multiple-scattering-wlset"
                     ++ number texIndex ++ txt ".f32")]
            else if texIndex + 1 =? Z.of_nat (length (allWavelengths cfg))
                 then [(TEX_MULTIPLE_SCATTERING,
                        textureOutputDir cfg ++ txt "/multiple-scattering-xyzw.f32")]
                 else []
          else [])
  end
  /\ (forall k0 w0,
        (timesSaved (finalFile cfg k0) (events (generate cfg) w0) <= 1)%nat
        /\ (isOk (outcome (generate cfg) w0) = true ->
            2 <= scatteringOrdersToCompute cfg ->
            finalSetExists cfg k0 = true ->
            timesSaved (finalFile cfg k0) (events (generate cfg) w0) = 1%nat)).
Proof.
  split; [|intros k0 w0; apply final_file_once].
  destruct (accumulateMultipleScattering cfg scatteringOrder texIndex w) as [[r w'] evs] eqn:Hrun.
  pose proof (accumulateMultipleScattering_run _ _ _ _ _ _ _ Hrun) as H.
  apply run_outcome in Hrun. destruct Hrun as (-> & _ & ->).
  destruct r as [u|e]; [|apply compile_savesOf; exact H].
  destruct H as (evsC & evsR & g & -> & HC & HR & _).
  rewrite !savesOf_app, (compile_savesOf _ HC), (render_savesOf _ _ HR).
  unfold luminanceUniform, accumulateSaves, wlsetSuffix.
  destruct (negb (saveResultAsRadiance cfg)); simpl;
  rewrite savesOf_app;
  destruct (dbgSaveAccumScattering cfg), (scatteringOrder =? scatteringOrdersToCompute cfg),
    (saveResultAsRadiance cfg), (texIndex + 1 =? Z.of_nat (length (allWavelengths cfg)));
  simpl; try reflexivity.
Qed.

End FinalFileProperties.

(** * Further properties of src/shaders.cpp *)

(** ** What the traversal returns *)

Section LinkResult.
Variable shaderSrc : text -> result text.
Variable internalShaders : gset text.

Lemma linkScan_result (recur : text -> option (result (gset text))) filename ls :
  forall acc names,
  linkScan internalShaders recur filename ls acc = Some (Ok names) ->
  (forall line g, In line ls -> companionOfLine line = Some g ->
     followed internalShaders filename g = true ->
     exists extra, recur g = Some (Ok extra))
  /\ (forall x, x ∈ names <->
        x ∈ acc \/
        exists line g, In line ls /\ companionOfLine line = Some g
          /\ (x = g \/ (followed internalShaders filename g = true
                        /\ exists extra, recur g = Some (Ok extra) /\ x ∈ extra))).
Proof.
  induction ls as [|line ls IH]; intros acc names; simpl.
  - intros [= <-]. split; [intros ? ? []|].
    intros x. split; [auto|]. intros [H|(l & g & [] & _)]. exact H.
  - destruct (companionOfLine line) as [g|] eqn:Hc.
    + destruct (followed internalShaders filename g) eqn:Hf.
      * destruct (recur g) as [[extra|e]|] eqn:Hr; try discriminate.
        intros Hs. destruct (IH _ _ Hs) as [Hall Hin]. split.
        -- intros l g' [<-|Hl] Hc' Hf'; [|eauto].
           rewrite Hc in Hc'. injection Hc' as <-. eauto.
        -- intros x. rewrite Hin, !elem_of_union, elem_of_singleton. split.
           ++ intros [[Hx|[Hx|Hx]]|(l & g' & Hl & Hc' & Hx)].
              ** right. exists line, g. split; [now left|]. split; [exact Hc|].
                 right. split; [exact Hf|]. eauto.
              ** right. exists line, g. split; [now left|]. auto.
              ** now left.
              ** right. exists l, g'. auto.
           ++ intros [Hx|(l & g' & [<-|Hl] & Hc' & Hx)].
              ** auto.
              ** rewrite Hc in Hc'. injection Hc' as <-. left.
                 destruct Hx as [->|(_ & extra' & Hr' & Hx)]; [auto|].
                 rewrite Hr in Hr'. injection Hr' as <-. auto.
              ** right. exists l, g'. auto.
      * intros Hs. destruct (IH _ _ Hs) as [Hall Hin]. split.
        -- intros l g' [<-|Hl] Hc' Hf'; [|eauto].
           rewrite Hc in Hc'. injection Hc' as <-. congruence.
        -- intros x. rewrite Hin, !elem_of_union, elem_of_singleton. split.
           ++ intros [[Hx|Hx]|(l & g' & Hl & Hc' & Hx)].
              ** right. exists line, g. split; [now left|]. auto.
              ** now left.
              ** right. exists l, g'. auto.
           ++ intros [Hx|(l & g' & [<-|Hl] & Hc' & Hx)].
              ** auto.
              ** rewrite Hc in Hc'. injection Hc' as <-. left.
                 destruct Hx as [->|(Hf' & _)]; [auto|congruence].
              ** right. exists l, g'. auto.
    + intros Hs. destruct (IH _ _ Hs) as [Hall Hin]. split.
      * intros l g' [<-|Hl] Hc' Hf'; [congruence|eauto].
      * intros x. rewrite Hin. split.
        -- intros [Hx|(l & g' & Hl & Hc' & Hx)]; [now left|].
           right. exists l, g'. auto.
        -- intros [Hx|(l & g' & [<-|Hl] & Hc' & Hx)]; [now left|congruence|].
           right. exists l, g'. auto.
Qed.

Lemma link_fuel_result fuel : forall filename d names,
  getShaderFileNamesToLinkWith_fuel shaderSrc internalShaders fuel filename d = Some (Ok names) ->
  forall x, x ∈ names <->
    exists n f, chain (follows shaderSrc internalShaders) n filename f
      /\ asksFor shaderSrc f x.
Proof.
  induction fuel as [|fuel IH]; intros filename d names; simpl.
  - destruct (d >? maxRecursionDepth); discriminate.
  - destruct (d >? maxRecursionDepth); [discriminate|].
    destruct (shaderSrc filename) as [src|e] eqn:Hsrc; [|discriminate].
    intros Hs. apply linkScan_result in Hs. destruct Hs as [Hall Hin].
    intros x. rewrite Hin. split.
    + intros [Hx|(line & g & Hl & Hc & Hx)]; [now apply elem_of_empty in Hx|].
      destruct Hx as [->|(Hf & extra & Hr & Hx)].
      * exists 0%nat, filename. split; [constructor|]. exists src, line. auto.
      * apply (IH _ _ _ Hr) in Hx. destruct Hx as (n & f & Hch & Hask).
        exists (S n), f. split; [|exact Hask].
        econstructor; [|exact Hch]. split; [|exact Hf]. exists src, line. auto.
    + intros (n & f & Hch & Hask). right.
      destruct Hch as [f|n f g h [(src' & line & Hs' & Hl & Hc) Hf] Hch].
      * destruct Hask as (src' & line & Hs' & Hl & Hc).
        rewrite Hsrc in Hs'. injection Hs' as <-. exists line, x. auto.
      * rewrite Hsrc in Hs'. injection Hs' as <-.
        destruct (Hall line g Hl Hc Hf) as [extra Hr].
        exists line, g. split; [exact Hl|]. split; [exact Hc|]. right.
        split; [exact Hf|]. exists extra. split; [exact Hr|].
        apply (IH _ _ _ Hr). eauto.
Qed.

(** X1.  When [getShaderFileNamesToLinkWith] returns, the set it returns
    holds exactly the companion sources asked for by the main source or
    by a source reached from it through followed includes.  The main
    source itself is in the set only when one of these asks for it. *)
Theorem link_result filename names :
  getShaderFileNamesToLinkWith shaderSrc internalShaders filename = Ok names ->
  forall g, g ∈ names <->
    exists n f, chain (follows shaderSrc internalShaders) n filename f
      /\ asksFor shaderSrc f g.
Proof.
  unfold getShaderFileNamesToLinkWith.
  destruct (getShaderFileNamesToLinkWith_fuel shaderSrc internalShaders linkFuel filename 0)
    as [[names'|e]|] eqn:Hf; try discriminate.
  intros [= <-]. exact (link_fuel_result _ _ _ _ Hf).
Qed.
End LinkResult.

(** On the example installation the direct-irradiance shader includes
    the constants header, which has no companion, and the common
    functions, whose companion includes its own header only. *)
Lemma link_result_witness :
  getShaderFileNamesToLinkWith (getShaderSrc Example.exampleDisk) ∅
    (txt "compute-direct-irradiance.frag") = Ok {[ txt "common-functions.frag" ]}
  /\ forall g, g ∈ ({[ txt "common-functions.frag" ]} : gset text) <->
       exists n f, chain (follows (getShaderSrc Example.exampleDisk) ∅) n
                     (txt "compute-direct-irradiance.frag") f
         /\ asksFor (getShaderSrc Example.exampleDisk) f g.
Proof.
  assert (H : getShaderFileNamesToLinkWith (getShaderSrc Example.exampleDisk) ∅
                (txt "compute-direct-irradiance.frag") = Ok {[ txt "common-functions.frag" ]})
    by (vm_compute; reflexivity).
  split; [exact H|].
  exact (link_result (getShaderSrc Example.exampleDisk) ∅
           (txt "compute-direct-irradiance.frag") _ H).
Defined.

(** ** The two scanners of include lines *)

Lemma firstn_stem (stem suffix : text) :
  firstn (length (stem ++ suffix) - length suffix) (stem ++ suffix) = stem.
Proof.
  rewrite length_app, Nat.add_sub. rewrite firstn_app, Nat.sub_diag, firstn_all. simpl.
  now rewrite app_nil_r.
Qed.

(** X2.  The traversal takes a line for a request of a companion source
    exactly when the line is an include directive, as
    [withHeadersIncluded] accepts it, of a header other than const.h.glsl
    whose name is longer than the suffix .h.glsl; the companion is the
    name with .frag in place of the suffix.  An include of the header
    named just .h.glsl is expanded but has no companion. *)
Theorem companion_of_include line g :
  companionOfLine line = Some g <->
  exists stem,
    stem <> [] /\ isIncludeDirective line (stem ++ headerSuffix)
    /\ stem ++ headerSuffix <> CONSTANTS_HEADER_FILENAME
    /\ g = stem ++ txt ".frag".
Proof.
  unfold companionOfLine, includePatternBase. split.
  - destruct (includePattern line) as [inner|] eqn:Hp; [|discriminate].
    destruct (endsWith inner headerSuffix) eqn:Hs; [|discriminate].
    destruct (Nat.ltb_spec (length headerSuffix) (length inner)) as [Hl|Hl]; [|discriminate].
    simpl. apply endsWith_app in Hs. destruct Hs as [stem ->].
    rewrite firstn_stem.
    destruct (decide (stem ++ headerSuffix = CONSTANTS_HEADER_FILENAME)) as [|Hc]; [discriminate|].
    intros [= <-]. exists stem.
    apply includePattern_Some in Hp. destruct Hp as (Hline & Hne & Hdq).
    split. { intros ->. simpl in Hl. lia. }
    split; [|auto]. split; [exact Hline|]. split; [exact Hne|]. split; [exact Hdq|].
    exists stem. reflexivity.
  - intros (stem & Hstem & (Hline & Hne & Hdq & _) & Hc & ->).
    rewrite Hline, (includePattern_directive _ Hne Hdq), endsWith_suffix.
    destruct (Nat.ltb_spec (length headerSuffix) (length (stem ++ headerSuffix))) as [Hl|Hl].
    + simpl. rewrite firstn_stem.
      destruct (decide (stem ++ headerSuffix = CONSTANTS_HEADER_FILENAME)); [contradiction|].
      reflexivity.
    + rewrite length_app in Hl. destruct stem; [contradiction|simpl in Hl; lia].
Qed.

(** ** Sources without include lines, and the errors of the include pass *)

Lemma endsNlb_app_nl p s : s <> [] -> endsNlb (p ++ nl :: s) = endsNlb s.
Proof.
  intros Hs. unfold endsNlb. change (nl :: s) with ([nl] ++ s).
  rewrite !rev_app_distr. destruct (rev s) as [|c r] eqn:Hr; [|reflexivity].
  apply (f_equal (@rev QChar)) in Hr. rewrite rev_involutive in Hr. contradiction.
Qed.

Lemma completed_app_nl p s : completed (p ++ nl :: s) = p ++ nl :: completed s.
Proof.
  unfold completed at 1. destruct (p ++ nl :: s) eqn:E; [destruct p; discriminate|].
  rewrite <- E. destruct s as [|c s].
  - unfold endsNlb. rewrite rev_app_distr. simpl. reflexivity.
  - rewrite endsNlb_app_nl by discriminate. unfold completed.
    destruct (endsNlb (c :: s)); [reflexivity|].
    rewrite <- app_assoc. reflexivity.
Qed.

Lemma chopCR_no_cr s : ~ In cr s -> chopCR s = s.
Proof.
  destruct s as [|c s]; [reflexivity|]. simpl. intros H.
  destruct (N.eqb_spec c cr) as [->|_]; [|reflexivity]. exfalso. apply H. now left.
Qed.

Lemma endsNlb_no_nl cur c : c <> nl -> endsNlb (rev (c :: cur)) = false.
Proof.
  intros H. unfold endsNlb. rewrite rev_involutive.
  destruct (N.eqb_spec c nl); [contradiction|reflexivity].
Qed.

(** Reading the lines and ending each with a line feed gives the text
    back, completed by a final line feed. *)
Lemma unlines_lines_from s : forall cur,
  ~ In cr cur -> ~ In cr s -> (match cur with c :: _ => c <> nl | [] => True end) ->
  unlines (lines_from cur s) = completed (rev cur ++ s).
Proof.
  induction s as [|c s IH]; intros cur Hcur Hs Hlast; simpl.
  - rewrite app_nil_r. destruct cur as [|c cur]; [reflexivity|].
    rewrite chopCR_no_cr by exact Hcur. unfold unlines. cbn [map concat]. rewrite app_nil_r.
    unfold completed. destruct (rev (c :: cur)) eqn:E.
    { apply (f_equal (@length QChar)) in E. rewrite length_rev in E. discriminate. }
    rewrite <- E, endsNlb_no_nl by exact Hlast. reflexivity.
  - destruct (N.eqb_spec c nl) as [->|Hc].
    + rewrite chopCR_no_cr by exact Hcur.
      unfold unlines. cbn [map concat]. fold (unlines (lines_from [] s)).
      rewrite (IH []); [|auto|intros H; apply Hs; now right|exact I].
      cbn [rev app]. rewrite completed_app_nl, <- app_assoc. reflexivity.
    + rewrite (IH (c :: cur)).
      * simpl rev. rewrite <- app_assoc. reflexivity.
      * intros [->|H]; [apply Hs; now left|contradiction].
      * intros H; apply Hs; now right.
      * exact Hc.
Qed.

Section IncludeEdges.
Variable shaderSrc : text -> result text.
Variables constantsHeader densitiesHeader filename : text.

Local Abbreviation step := (includeStep shaderSrc constantsHeader densitiesHeader filename).
Local Abbreviation run := (includeLines shaderSrc constantsHeader densitiesHeader filename).

Lemma includeLines_copy ls : forall st,
  forallb (fun line => negb (opensInclude line)) ls = true ->
  run ls st = Ok (newSrc st ++ unlines ls).
Proof.
  induction ls as [|line ls IH]; intros st; simpl.
  - intros _. unfold unlines. simpl. now rewrite app_nil_r.
  - intros H. apply andb_prop in H. destruct H as [Hl Hls].
    unfold includeStep. unfold opensInclude in Hl. rewrite Hl.
    rewrite (IH _ Hls). simpl. unfold unlines. simpl. now rewrite <- !app_assoc.
Qed.

(** X3.  A source none of whose lines starts like an include directive
    is returned line by line, every line ended by a line feed, whatever
    the headers and the disk hold.  Without carriage returns that is the
    source itself, with a line feed added when the last line has none. *)
Theorem plain_source_copied src :
  forallb (fun line => negb (opensInclude line)) (lines src) = true ->
  withHeadersIncluded shaderSrc constantsHeader densitiesHeader src filename
    = Ok (unlines (lines src))
  /\ (~ In cr src -> unlines (lines src) = completed src).
Proof.
  intros H. split.
  - unfold withHeadersIncluded. rewrite (includeLines_copy _ _ H). reflexivity.
  - intros Hcr. unfold lines. now rewrite unlines_lines_from.
Qed.

Lemma includeStep_cases st line st' :
  step st line = Ok st' ->
  (opensInclude line = false
   /\ st' = {| lineNumber := lineNumber st + 1; headerNumber := headerNumber st;
               newSrc := newSrc st ++ line ++ [nl] |})
  \/ (exists name header,
        opensInclude line = true /\ includePattern line = Some name
        /\ endsWith name headerSuffix = true
        /\ resolveHeaderWith shaderSrc constantsHeader densitiesHeader name = Ok header
        /\ st' = {| lineNumber := lineNumber st + 1; headerNumber := headerNumber st + 1;
                    newSrc := newSrc st
                      ++ (txt "#line 1 " ++ number (headerNumber st) ++ txt " // "
                            ++ name ++ [nl])
                      ++ header
                      ++ (txt "#line " ++ number (lineNumber st + 1) ++ txt " 0 // "
                            ++ filename ++ [nl]) |}).
Proof.
  unfold includeStep, opensInclude, resolveHeaderWith.
  destruct (startsWith (simplified line) includeOpening); cbn [negb].
  2:{ intros [= <-]. left. split; reflexivity. }
  destruct (includePattern line) as [name|]; [|discriminate].
  destruct (endsWith name headerSuffix) eqn:Hs; cbn [negb]; [|discriminate].
  change (txt "const.h.glsl") with CONSTANTS_HEADER_FILENAME.
  change (txt "densities.h.glsl") with DENSITIES_HEADER_FILENAME.
  destruct (if decide (name = CONSTANTS_HEADER_FILENAME) then _ else _) as [header|] eqn:Hr;
    [|discriminate].
  intros [= <-]. right. exists name, header.
  split; [reflexivity|]. split; [reflexivity|]. split; [exact Hs|]. split; [exact Hr|].
  reflexivity.
Qed.

Lemma includeStep_lineNumber st line st' :
  step st line = Ok st' -> lineNumber st' = lineNumber st + 1.
Proof.
  intros H. apply includeStep_cases in H.
  destruct H as [[_ ->]|(? & ? & _ & _ & _ & _ & ->)]; reflexivity.
Qed.

Lemma includeStep_Throw st line e :
  step st line = Throw e ->
  opensInclude line = true
  /\ ((includePattern line = None /\ e = ErrIncludeSyntax filename (lineNumber st))
      \/ (exists name, includePattern line = Some name
            /\ endsWith name headerSuffix = false
            /\ e = ErrIncludeSuffix filename (lineNumber st))
      \/ (exists name, includePattern line = Some name
            /\ endsWith name headerSuffix = true
            /\ name <> CONSTANTS_HEADER_FILENAME /\ name <> DENSITIES_HEADER_FILENAME
            /\ shaderSrc name = Throw e)).
Proof.
  unfold includeStep, opensInclude.
  destruct (startsWith (simplified line) includeOpening); simpl; [|discriminate].
  intros H. split; [reflexivity|].
  destruct (includePattern line) as [name|]; [|left; split; [reflexivity|congruence]].
  right. destruct (endsWith name headerSuffix) eqn:Hs; simpl in H.
  - right. exists name. split; [reflexivity|]. split; [exact Hs|].
    destruct (decide (name = CONSTANTS_HEADER_FILENAME)); [discriminate|].
    destruct (decide (name = DENSITIES_HEADER_FILENAME)); [discriminate|].
    destruct (shaderSrc name) eqn:Hn; [discriminate|]. split; [auto|]. split; [auto|].
    congruence.
  - left. exists name. split; [reflexivity|]. split; [exact Hs|congruence].
Qed.

Lemma includeStep_faulty st line :
  isOk (step st line) = false <-> faulty shaderSrc line.
Proof.
  unfold faulty, includeStep, opensInclude.
  destruct (startsWith (simplified line) includeOpening); simpl.
  2:{ split; [discriminate|]. intros [? _]. discriminate. }
  destruct (includePattern line) as [name|]; simpl.
  2:{ split; [|reflexivity]. intros _. split; [reflexivity|]. now left. }
  destruct (endsWith name headerSuffix) eqn:Hs; simpl.
  2:{ split; [|reflexivity]. intros _. split; [reflexivity|]. right. exists name. auto. }
  destruct (decide (name = CONSTANTS_HEADER_FILENAME)) as [Hc|Hc]; simpl.
  { split; [discriminate|].
    intros [_ [H|(n' & [= <-] & [H|(H & _)])]]; [discriminate|congruence|contradiction]. }
  destruct (decide (name = DENSITIES_HEADER_FILENAME)) as [Hd|Hd]; simpl.
  { split; [discriminate|].
    intros [_ [H|(n' & [= <-] & [H|(_ & H & _)])]]; [discriminate|congruence|contradiction]. }
  destruct (shaderSrc name) eqn:Hn; simpl.
  - split; [discriminate|].
    intros [_ [H|(n' & [= <-] & [H|(_ & _ & H)])]]; [discriminate|congruence|].
    rewrite Hn in H. discriminate.
  - split; [|reflexivity]. intros _. split; [reflexivity|]. right. exists name.
    split; [reflexivity|]. right. rewrite Hn. auto.
Qed.

Lemma includeLines_Throw ls : forall st e,
  run ls st = Throw e ->
  exists n line st',
    ls !! n = Some line
    /\ (forall m l, (m < n)%nat -> ls !! m = Some l -> ~ faulty shaderSrc l)
    /\ lineNumber st' = lineNumber st + Z.of_nat n
    /\ step st' line = Throw e.
Proof.
  induction ls as [|line ls IH]; intros st e; simpl; [discriminate|].
  destruct (step st line) as [st1|e1] eqn:Hstep.
  - intros H. destruct (IH _ _ H) as (n & l & st' & Hn & Hbefore & Hnum & Hs).
    exists (S n), l, st'. split; [exact Hn|]. split; [|split; [|exact Hs]].
    + intros m l' Hm Hl'. destruct m as [|m].
      * simpl in Hl'. injection Hl' as <-. intros Hf.
        apply (includeStep_faulty st) in Hf. rewrite Hstep in Hf. discriminate.
      * apply (Hbefore m); [lia|exact Hl'].
    + rewrite Hnum, (includeStep_lineNumber _ _ _ Hstep). lia.
  - intros [= <-]. exists 0%nat, line, st. split; [reflexivity|].
    split; [intros m l Hm; lia|]. split; [lia|exact Hstep].
Qed.

Lemma includeLines_fails ls : forall st,
  isOk (run ls st) = false <-> exists line, In line ls /\ faulty shaderSrc line.
Proof.
  induction ls as [|line ls IH]; intros st; simpl.
  - split; [discriminate|]. intros (l & [] & _).
  - destruct (step st line) as [st1|e1] eqn:Hstep.
    + rewrite IH. split.
      * intros (l & Hl & Hf). exists l. split; [now right|exact Hf].
      * intros (l & [<-|Hl] & Hf).
        -- apply (includeStep_faulty st) in Hf. rewrite Hstep in Hf. discriminate.
        -- exists l. auto.
    + split; [|reflexivity]. intros _. exists line. split; [now left|].
      apply (includeStep_faulty st). rewrite Hstep. reflexivity.
Qed.

(** X4.  [withHeadersIncluded] throws exactly when some line of the
    source starts like an include directive once its white space is
    simplified, and is not exactly the directive, or names a file without
    the suffix .h.glsl, or names a header other than the two generated
    ones that the lookup cannot give.  The lines of the headers are not
    looked at. *)
Theorem include_failure src :
  isOk (withHeadersIncluded shaderSrc constantsHeader densitiesHeader src filename) = false
  <-> exists line, In line (lines src) /\ faulty shaderSrc line.
Proof. apply includeLines_fails. Qed.

(** X5.  When [withHeadersIncluded] throws, the error is that of the
    first faulty line: a syntax or suffix error carries the file name
    given and the number of that line in the source, counted from 1 and
    not moved by the headers included before it; a header that cannot be
    read gives the error of the lookup. *)
Theorem include_error_location src e :
  withHeadersIncluded shaderSrc constantsHeader densitiesHeader src filename = Throw e ->
  exists n line,
    lines src !! n = Some line
    /\ (forall m l, (m < n)%nat -> lines src !! m = Some l -> ~ faulty shaderSrc l)
    /\ opensInclude line = true
    /\ ((includePattern line = None
         /\ e = ErrIncludeSyntax filename (Z.of_nat n + 1))
        \/ (exists name, includePattern line = Some name
              /\ endsWith name headerSuffix = false
              /\ e = ErrIncludeSuffix filename (Z.of_nat n + 1))
        \/ (exists name, includePattern line = Some name
              /\ endsWith name headerSuffix = true
              /\ name <> CONSTANTS_HEADER_FILENAME /\ name <> DENSITIES_HEADER_FILENAME
              /\ shaderSrc name = Throw e)).
Proof.
  intros H. apply includeLines_Throw in H.
  destruct H as (n & line & st' & Hn & Hbefore & Hnum & Hs).
  exists n, line. split; [exact Hn|]. split; [exact Hbefore|].
  apply includeStep_Throw in Hs. destruct Hs as [Ho Hs]. split; [exact Ho|].
  simpl in Hnum. replace (Z.of_nat n + 1) with (lineNumber st') by lia. exact Hs.
Qed.
End IncludeEdges.

(** A vertex shader of one line without a final line feed. *)
Lemma plain_source_copied_witness :
  forallb (fun line => negb (opensInclude line)) (lines (txt "void main(){}")) = true
  /\ withHeadersIncluded (getShaderSrc Example.exampleDisk) [] [] (txt "void main(){}")
       (txt "shader.vert")
     = Ok (unlines (lines (txt "void main(){}")))
  /\ (~ In cr (txt "void main(){}") ->
      unlines (lines (txt "void main(){}")) = completed (txt "void main(){}")).
Proof.
  split; [reflexivity|].
  exact (plain_source_copied (getShaderSrc Example.exampleDisk) [] [] (txt "shader.vert")
           (txt "void main(){}") eq_refl).
Defined.

(** A source whose second line includes a file that is no header. *)
Definition notAHeaderSource : text :=
  txt "#version 330
" ++ Example.includeLine (txt "common-functions.frag").

Lemma include_error_location_witness :
  withHeadersIncluded (getShaderSrc Example.exampleDisk) [] [] notAHeaderSource
    (txt "bad.frag")
    = Throw (ErrIncludeSuffix (txt "bad.frag") 2)
  /\ exists n line,
       lines notAHeaderSource !! n = Some line
       /\ (forall m l, (m < n)%nat -> lines notAHeaderSource !! m = Some l ->
             ~ faulty (getShaderSrc Example.exampleDisk) l)
       /\ opensInclude line = true
       /\ ((includePattern line = None
            /\ ErrIncludeSuffix (txt "bad.frag") 2
               = ErrIncludeSyntax (txt "bad.frag") (Z.of_nat n + 1))
           \/ (exists name, includePattern line = Some name
                 /\ endsWith name headerSuffix = false
                 /\ ErrIncludeSuffix (txt "bad.frag") 2
                    = ErrIncludeSuffix (txt "bad.frag") (Z.of_nat n + 1))
           \/ (exists name, includePattern line = Some name
                 /\ endsWith name headerSuffix = true
                 /\ name <> CONSTANTS_HEADER_FILENAME /\ name <> DENSITIES_HEADER_FILENAME
                 /\ getShaderSrc Example.exampleDisk name
                    = Throw (ErrIncludeSuffix (txt "bad.frag") 2))).
Proof.
  assert (H : withHeadersIncluded (getShaderSrc Example.exampleDisk) [] [] notAHeaderSource
                (txt "bad.frag")
              = Throw (ErrIncludeSuffix (txt "bad.frag") 2)) by (vm_compute; reflexivity).
  split; [exact H|].
  exact (include_error_location (getShaderSrc Example.exampleDisk) [] [] (txt "bad.frag")
           notAHeaderSource _ H).
Defined.

(** ** Line numbers through the include pass and the listing *)

Lemma uint_digits d : forallb isDigit (txt (DecimalString.NilEmpty.string_of_uint d)) = true.
Proof. induction d; simpl; auto. Qed.

Lemma txt_String a s : txt (String a s) = N_of_ascii a :: txt s.
Proof. reflexivity. Qed.

Lemma uint_value_acc d : forall acc,
  digitsValue (Z.pos acc) (txt (DecimalString.NilEmpty.string_of_uint d))
  = Z.pos (Pos.of_uint_acc d acc).
Proof.
  induction d; intros acc; cbn [DecimalString.NilEmpty.string_of_uint Pos.of_uint_acc];
    [reflexivity|..];
  rewrite txt_String; cbn [digitsValue fold_left];
  match goal with
  | |- fold_left ?f ?l ?a = _ =>
      change (fold_left f l a) with (digitsValue a l)
  end;
  rewrite <- IHd; f_equal; unfold digitValue, code; cbn; lia.
Qed.

Lemma uint_value d :
  digitsValue 0 (txt (DecimalString.NilEmpty.string_of_uint d)) = Z.of_N (Pos.of_uint d).
Proof.
  induction d; cbn [DecimalString.NilEmpty.string_of_uint Pos.of_uint]; [reflexivity|..];
  rewrite txt_String; cbn [digitsValue fold_left];
  match goal with
  | |- fold_left ?f ?l ?a = _ =>
      change (fold_left f l a) with (digitsValue a l)
  end; [exact IHd|..];
  cbn [Z.of_N]; rewrite <- uint_value_acc; f_equal.
Qed.

Lemma number_nonneg z : 0 <= z ->
  number z <> [] /\ forallb isDigit (number z) = true /\ digitsValue 0 (number z) = z.
Proof.
  intros Hz. unfold number. destruct z as [|p|p]; [repeat split; discriminate|..|lia].
  cbn [Z.to_int DecimalString.NilZero.string_of_int DecimalString.NilZero.string_of_uint].
  pose proof (DecimalPos.Unsigned.to_uint_nonnil p) as Hnil.
  replace (DecimalString.NilZero.string_of_uint (Pos.to_uint p))
    with (DecimalString.NilEmpty.string_of_uint (Pos.to_uint p))
    by (destruct (Pos.to_uint p); [contradiction|reflexivity..]).
  split; [|split; [apply uint_digits|]].
  - destruct (Pos.to_uint p); [contradiction|discriminate..].
  - rewrite uint_value, DecimalPos.Unsigned.of_to. reflexivity.
Qed.

(** [QString::toInt] reads back what [QString::number] prints. *)
Lemma toInt_number z : 0 <= z <= 2147483647 -> toInt (number z) = z.
Proof.
  intros Hz. unfold toInt. fold (digitsValue 0 (number z)).
  destruct (number_nonneg z) as (_ & _ & ->); [lia|].
  destruct (Z.leb_spec z 2147483647); [reflexivity|lia].
Qed.

Lemma number_chars z c : In c (number z) -> isDigit c = true \/ c = 45%N.
Proof.
  assert (Hu : forall d, In c (txt (DecimalString.NilZero.string_of_uint d)) -> isDigit c = true).
  { intros d H.
    assert (Hall : forallb isDigit (txt (DecimalString.NilZero.string_of_uint d)) = true).
    { destruct d; [reflexivity|apply uint_digits..]. }
    rewrite forallb_forall in Hall. apply Hall, H. }
  unfold number. destruct z as [|p|p]; simpl.
  - intros [<-|[]]. now left.
  - intros H. left. apply (Hu _ H).
  - intros [<-|H]; [now right|]. left. apply (Hu _ H).
Qed.

Lemma number_nl_free z : ~ In nl (number z).
Proof. intros H. apply number_chars in H. destruct H as [H|H]; [|subst]; discriminate. Qed.

Lemma takeDigits_app ds rest :
  forallb isDigit ds = true ->
  match rest with c :: _ => isDigit c = false | [] => True end ->
  takeDigits (ds ++ rest) = (ds, rest).
Proof.
  intros Hds Hrest. induction ds as [|c ds IH]; simpl.
  - destruct rest as [|c rest]; [reflexivity|]. simpl. now rewrite Hrest.
  - simpl in Hds. apply andb_prop in Hds. destruct Hds as [Hc Hds].
    rewrite Hc, (IH Hds). reflexivity.
Qed.

Lemma digit_no_space c : isDigit c = true -> isSpace c = false.
Proof.
  unfold isDigit, isSpace, code. intros H. apply andb_prop in H as [H1 H2].
  apply N.leb_le in H1, H2.
  rewrite !orb_false_iff, !andb_false_iff, !N.eqb_neq, !N.leb_gt.
  repeat match goal with |- _ /\ _ => split end; try lia; try (right; lia); left; lia.
Qed.

Section ListingDirectives.
Variable unicodeWord : QChar -> bool.

Lemma lineChanger_directive z rest : 0 <= z ->
  lineChanger unicodeWord (txt "#line " ++ number z ++ sp :: rest) = Some (number z).
Proof.
  intros Hz. destruct (number_nonneg z Hz) as (Hne & Hd & _).
  unfold lineChanger.
  change (skipSpaces (txt "#line " ++ number z ++ sp :: rest))
    with (hash :: (txt "line" ++ sp :: number z ++ sp :: rest)).
  cbv beta iota. change (N.eqb hash hash) with true. cbv iota.
  change (skipSpaces (txt "line" ++ sp :: number z ++ sp :: rest))
    with (txt "line" ++ sp :: number z ++ sp :: rest).
  cbv zeta. rewrite startsWith_prefix.
  change (skipn 4 (txt "line" ++ sp :: number z ++ sp :: rest))
    with (sp :: number z ++ sp :: rest).
  cbv beta iota. change (isSpace sp) with true. cbv iota.
  change (skipSpaces (sp :: number z ++ sp :: rest))
    with (skipSpaces (number z ++ sp :: rest)).
  destruct (number z) as [|c ds] eqn:E; [contradiction|].
  assert (Hc : isSpace c = false).
  { simpl in Hd. apply andb_prop in Hd. destruct Hd as [Hc _].
    apply digit_no_space, Hc. }
  cbn [skipSpaces app]. rewrite Hc.
  change (c :: ds ++ sp :: rest) with ((c :: ds) ++ sp :: rest).
  rewrite takeDigits_app; [reflexivity|exact Hd|reflexivity].
Qed.

(** X6.  The listing reads a #line directive as [withHeadersIncluded]
    writes it: from the word #line, a space, a line number between 0 and
    the largest [int] in decimal, a space and anything after it, the
    pattern of the listing captures the digits and [toInt] gives the
    number back. *)
Theorem line_directive_read_back z rest :
  0 <= z <= 2147483647 ->
  exists digits,
    lineChanger unicodeWord (txt "#line " ++ number z ++ sp :: rest) = Some digits
    /\ toInt digits = z.
Proof.
  intros Hz. exists (number z). split; [apply lineChanger_directive; lia|].
  apply toInt_number, Hz.
Qed.

Lemma sourceListing_app a : forall b n,
  sourceListing unicodeWord (a ++ b) n
  = sourceListing unicodeWord a n
      ++ sourceListing unicodeWord b (fold_left (nextNumber unicodeWord) a n).
Proof.
  induction a as [|line a IH]; intros b n; [reflexivity|].
  rewrite <- app_comm_cons, !sourceListing_cons, IH. reflexivity.
Qed.

End ListingDirectives.

Lemma line_directive_read_back_witness :
  0 <= 3 <= 2147483647
  /\ exists digits,
       lineChanger Example.latinLetter
         (txt "#line " ++ number 3 ++ sp :: txt "0 // copy-scattering-texture.frag")
       = Some digits
       /\ toInt digits = 3.
Proof.
  split; [lia|].
  apply (line_directive_read_back Example.latinLetter 3
           (txt "0 // copy-scattering-texture.frag")). lia.
Defined.

Lemma chopCR_In c s : In c (chopCR s) -> In c s.
Proof.
  destruct s as [|d s]; [auto|]. simpl. destruct (N.eqb d cr); [now right|auto].
Qed.

Lemma lines_from_nl_free s : forall cur l,
  ~ In nl cur -> In l (lines_from cur s) -> ~ In nl l.
Proof.
  induction s as [|c s IH]; intros cur l Hcur; simpl.
  - destruct cur; [intros []|]. intros [<-|[]] H. apply in_rev, chopCR_In in H. auto.
  - destruct (N.eqb_spec c nl) as [->|Hc].
    + intros [<-|H].
      * intros H. apply in_rev, chopCR_In in H. auto.
      * apply (IH [] l); auto.
    + apply IH. intros [->|H]; auto.
Qed.

Lemma lines_line line rest :
  ~ In nl line -> chopCR (rev line) = rev line -> lines (line ++ nl :: rest) = line :: lines rest.
Proof.
  intros Hnl Hcr. unfold lines at 1. rewrite lines_from_no_nl by exact Hnl.
  now rewrite app_nil_r, Hcr, rev_involutive.
Qed.

Lemma chopCR_tail pre f :
  f <> [] -> ~ In cr f -> chopCR (rev (pre ++ f)) = rev (pre ++ f).
Proof.
  intros Hne Hcr. destruct (exists_last Hne) as (f' & c & ->).
  rewrite app_assoc. apply chopCR_last.
  destruct (N.eqb_spec c cr) as [->|]; [|reflexivity].
  exfalso. apply Hcr, in_or_app. right. now left.
Qed.

Lemma notIn_cr t : existsb (N.eqb cr) t = false -> ~ In cr t.
Proof.
  intros H Hin. assert (existsb (N.eqb cr) t = true); [|congruence].
  apply existsb_exists. exists cr. split; [exact Hin | apply N.eqb_refl].
Qed.

Section Listing.
Variable unicodeWord : QChar -> bool.
Variable shaderSrc : text -> result text.
Variables constantsHeader densitiesHeader filename : text.

Local Abbreviation run := (includeLines shaderSrc constantsHeader densitiesHeader filename).
Local Abbreviation listing := (sourceListing unicodeWord).

Hypothesis filename_nl : ~ In nl filename.
Hypothesis filename_cr : ~ In cr filename.

Lemma restoring_directive n rest :
  0 <= n <= 2147483647 ->
  let d := txt "#line " ++ number n ++ txt " 0 // " ++ filename in
  lines (d ++ nl :: rest) = d :: lines rest /\ forall m, nextNumber unicodeWord m d = n.
Proof.
  intros Hn d. split.
  - apply lines_line.
    + unfold d. rewrite !in_app_iff. intros [H|[H|[H|H]]].
      * revert H. apply notIn_nl. reflexivity.
      * revert H. apply number_nl_free.
      * revert H. apply notIn_nl. reflexivity.
      * auto.
    + unfold d. rewrite !app_assoc.
      assert (filename = [] \/ filename <> []) as [E|E]
        by (destruct filename; [left|right]; congruence).
      * rewrite E, app_nil_r. change (txt " 0 // ") with (txt " 0 //" ++ [sp]).
        rewrite !app_assoc. apply chopCR_last. reflexivity.
      * apply chopCR_tail; [exact E|exact filename_cr].
  - intros m. unfold nextNumber, d.
    change (txt " 0 // " ++ filename) with (sp :: txt "0 // " ++ filename).
    rewrite lineChanger_directive by lia. apply toInt_number, Hn.
Qed.

Lemma header_directive h name rest :
  ~ In nl name -> endsWith name headerSuffix = true ->
  let d := txt "#line 1 " ++ number h ++ txt " // " ++ name in
  lines (d ++ nl :: rest) = d :: lines rest.
Proof.
  intros Hnl Hs d. apply lines_line.
  - unfold d. rewrite !in_app_iff. intros [H|[H|[H|H]]].
    + revert H. apply notIn_nl. reflexivity.
    + revert H. apply number_nl_free.
    + revert H. apply notIn_nl. reflexivity.
    + auto.
  - unfold d. apply endsWith_app in Hs. destruct Hs as [stem ->].
    rewrite !app_assoc. apply chopCR_tail; [discriminate|].
    apply notIn_cr. reflexivity.
Qed.

Lemma includeLines_listing ls : forall st out,
  run ls st = Ok out ->
  0 <= lineNumber st -> lineNumber st + Z.of_nat (length ls) <= 2147483647 ->
  (forall line, In line ls -> ~ In nl line) ->
  (forall line, In line ls -> opensInclude line = false -> copiedAsIs unicodeWord line) ->
  (forall line name header, In line ls -> includePattern line = Some name ->
     resolveHeaderWith shaderSrc constantsHeader densitiesHeader name = Ok header ->
     endsLine header) ->
  exists tail, out = newSrc st ++ tail
    /\ forall k line, ls !! k = Some line -> opensInclude line = false ->
         In (lineNumber st + Z.of_nat k, line) (listing (lines tail) (lineNumber st)).
Proof.
  induction ls as [|line ls IH]; intros st out; cbn [includeLines].
  - intros [= <-] _ _ _ _ _. exists []. split; [now rewrite app_nil_r|]. intros k l [=].
  - destruct (includeStep shaderSrc constantsHeader densitiesHeader filename st line)
      as [st1|e1] eqn:Hstep; [|discriminate].
    intros Hrun Hn Hmax Hnl Hplain Hhead. cbn [length] in Hmax.
    pose proof (includeStep_lineNumber _ _ _ _ _ _ _ Hstep) as Hnum.
    destruct (IH st1 out Hrun) as (tail & -> & Hlist);
      [lia|lia|intros; apply Hnl; now right|intros; apply Hplain; auto; now right
      |intros l n h Hl; apply Hhead; now right|].
    rewrite Hnum in Hlist.
    apply includeStep_cases in Hstep.
    destruct Hstep as [[Ho ->]|(name & header & Ho & Hp & Hs & Hr & ->)]; cbn [newSrc].
    + exists (line ++ nl :: tail). split; [now rewrite <- !app_assoc|].
      destruct (Hplain line) as [Hlc Hcr]; [now left|exact Ho|].
      rewrite lines_line by (auto; apply Hnl; now left).
      rewrite sourceListing_cons. unfold nextNumber at 1. rewrite Hlc.
      rewrite int32_small by lia.
      intros k l Hk Hol. destruct k as [|k].
      * cbn in Hk. injection Hk as <-. left. f_equal. lia.
      * right. cbn in Hk.
        replace (lineNumber st + Z.of_nat (S k)) with (lineNumber st + 1 + Z.of_nat k) by lia.
        apply Hlist; auto.
    + eexists. split; [rewrite <- !app_assoc; reflexivity|].
      intros k l Hk Hol. destruct k as [|k]; [cbn in Hk; congruence|].
      cbn in Hk. specialize (Hlist k l Hk Hol).
      assert (Hname : ~ In nl name).
      { apply includePattern_Some in Hp. destruct Hp as (Hl & _). intros H.
        apply (Hnl line); [now left|]. rewrite Hl, !in_app_iff. auto. }
      change ([nl] ++ header ++ ?x) with (nl :: header ++ x).
      pose proof (header_directive (headerNumber st) name
                    (header ++ (txt "#line " ++ number (lineNumber st + 1) ++ txt " 0 // "
                                  ++ filename ++ [nl]) ++ tail) Hname Hs) as Hd1.
      cbv zeta in Hd1. rewrite <- ?app_assoc in Hd1. rewrite <- ?app_assoc.
      cbn [app] in Hd1 |- *. rewrite Hd1, sourceListing_cons. right.
      rewrite lines_app by (eapply Hhead; [now left|exact Hp|exact Hr]).
      rewrite sourceListing_app. apply in_or_app. right.
      destruct (restoring_directive (lineNumber st + 1) tail) as [Hd Hnext]; [lia|].
      cbv zeta in Hd, Hnext. rewrite <- ?app_assoc in Hd. cbn [app] in Hd.
      rewrite Hd, sourceListing_cons.
      right. rewrite <- ?app_assoc in Hnext. cbn [app] in Hnext. rewrite Hnext.
      replace (lineNumber st + Z.of_nat (S k)) with (lineNumber st + 1 + Z.of_nat k) by lia.
      exact Hlist.
Qed.

(** X7.  The #line directives do their work in the listing of a shader
    that does not compile: every line copied from the file is listed with
    the number it has in the file, however many headers were included
    before it and however long they are.  This needs a description
    without line feed and carriage return, fewer lines than the largest
    [int], copied lines that are no #line directives and do not end in a
    carriage return, and included headers that are empty or end in a
    line feed. *)
Theorem listing_keeps_line_numbers src out :
  withHeadersIncluded shaderSrc constantsHeader densitiesHeader src filename = Ok out ->
  Z.of_nat (length (lines src)) < 2147483647 ->
  (forall line, In line (lines src) -> opensInclude line = false ->
     copiedAsIs unicodeWord line) ->
  (forall line name header, In line (lines src) -> includePattern line = Some name ->
     resolveHeaderWith shaderSrc constantsHeader densitiesHeader name = Ok header ->
     endsLine header) ->
  forall k line, lines src !! k = Some line -> opensInclude line = false ->
    In (Z.of_nat k + 1, line) (sourceListing unicodeWord (lines out) 1).
Proof.
  intros Hrun Hlen Hplain Hhead k line Hk Ho.
  destruct (includeLines_listing _ _ _ Hrun) as (tail & -> & Hlist);
    [simpl; lia|simpl; lia| |exact Hplain|exact Hhead|].
  - intros l Hl. unfold lines in Hl. eapply lines_from_nl_free; [|exact Hl]. auto.
  - simpl in Hlist. rewrite Z.add_comm. exact (Hlist k line Hk Ho).
Qed.
End Listing.

(** The copy shader of the broken installation: its third line is
    listed as line 3, after the two lines of the header and the two
    directives. *)
Lemma listing_keeps_line_numbers_witness :
  In (3, txt "void main(){ oops }")
     (sourceListing Example.latinLetter (lines Example.brokenSourceIncluded) 1).
Proof.
  refine (listing_keeps_line_numbers Example.latinLetter
            (getShaderSrc Example.exampleDisk) [] []
            (txt "copy-scattering-texture.frag") _ _
            Example.brokenSource Example.brokenSourceIncluded _ _ _ _
            2%nat (txt "void main(){ oops }") _ _).
  - apply notIn_nl. reflexivity.
  - apply notIn_cr. reflexivity.
  - vm_compute. reflexivity.
  - reflexivity.
  - intros line Hin Ho.
    assert (Hl : In line [txt "#version 330";
                          includeOpening ++ txt "common-functions.h.glsl" ++ [dq];
                          txt "void main(){ oops }"]) by exact Hin.
    destruct Hl as [<-|[<-|[<-|[]]]]; [split; reflexivity|discriminate Ho|split; reflexivity].
  - intros line name header Hin Hp Hr.
    assert (Hl : In line [txt "#version 330";
                          includeOpening ++ txt "common-functions.h.glsl" ++ [dq];
                          txt "void main(){ oops }"]) by exact Hin.
    destruct Hl as [<-|[<-|[<-|[]]]]; [discriminate Hp| |discriminate Hp].
    injection Hp as <-. injection Hr as <-. right. exists (txt "float f();"). reflexivity.
  - reflexivity.
  - reflexivity.
Defined.

(** ** The source of the density functions *)

Lemma completed_endsLine t : endsLine t -> completed t = t.
Proof.
  intros [->|[p ->]]; [reflexivity|].
  unfold completed. destruct (p ++ [nl]) eqn:E; [reflexivity|]. rewrite <- E.
  unfold endsNlb. rewrite rev_app_distr. reflexivity.
Qed.

Section DensitiesSource.
Variable shaderSrc : text -> result text.
Variable scatterers : list Scatterer.t.
Variable absorbers : list Absorber.t.
Variable DENSITIES_SHADER_FILENAME : text.

Lemma endsLine_densityFunctions dh :
  endsLine (fst (makeDensitiesFunctions scatterers absorbers dh)).
Proof.
  unfold makeDensitiesFunctions. cbn [fst].
  apply endsLine_app; apply endsLine_concat; apply List.Forall_forall; intros t Ht;
    apply in_map_iff in Ht as (x & <- & _); right;
    repeat apply endsNl_app; apply endsNlb_endsNl; reflexivity.
Qed.

(** X8.  The source [makeScattererDensityFunctionsSrc] returns, when no
    line of the density functions starts like an include directive and
    they hold no carriage return: the two lines of the version header and
    an empty line, the constants header as it is between its two #line
    directives (the include is line 4, the file goes on at line 5), and
    the density functions as [makeDensitiesFunctions] wrote them.  The
    call cannot throw, reads no file, and does not use the wavelengths. *)
Theorem densities_source constantsHeader densitiesHeader wavelengths :
  forallb (fun line => negb (opensInclude line))
    (lines (fst (makeDensitiesFunctions scatterers absorbers densitiesHeader))) = true ->
  ~ In cr (fst (makeDensitiesFunctions scatterers absorbers densitiesHeader)) ->
  fst (makeScattererDensityFunctionsSrc shaderSrc scatterers absorbers
         DENSITIES_SHADER_FILENAME constantsHeader densitiesHeader wavelengths)
  = Ok (txt "#version 330
#extension GL_ARB_shading_language_420pack : require

#line 1 1 // const.h.glsl
" ++ constantsHeader
      ++ txt "#line 5 0 // (virtual)" ++ DENSITIES_SHADER_FILENAME ++ [nl]
      ++ fst (makeDensitiesFunctions scatterers absorbers densitiesHeader)).
Proof.
  intros Hplain Hcr.
  pose proof (endsLine_densityFunctions densitiesHeader) as Hend.
  unfold makeScattererDensityFunctionsSrc.
  destruct (makeDensitiesFunctions scatterers absorbers densitiesHeader) as [densities dh'].
  cbn [fst] in *. unfold withHeadersIncluded.
  rewrite lines_app by (right; apply endsNlb_endsNl; reflexivity).
  replace (lines densitiesHead)
    with [txt "#version 330"; txt "#extension GL_ARB_shading_language_420pack : require";
          []; includeOpening ++ txt "const.h.glsl" ++ [dq]] by reflexivity.
  cbn [app includeLines].
  unfold includeStep at 1.
  replace (startsWith (simplified (txt "#version 330")) includeOpening) with false
    by reflexivity.
  cbn [negb]. unfold includeStep at 1.
  replace (startsWith (simplified (txt "#extension GL_ARB_shading_language_420pack : require"))
             includeOpening) with false by reflexivity.
  cbn [negb]. unfold includeStep at 1.
  replace (startsWith (simplified []) includeOpening) with false by reflexivity.
  cbn [negb]. unfold includeStep at 1.
  replace (startsWith (simplified (includeOpening ++ txt "const.h.glsl" ++ [dq]))
             includeOpening) with true by reflexivity.
  replace (includePattern (includeOpening ++ txt "const.h.glsl" ++ [dq]))
    with (Some (txt "const.h.glsl")) by reflexivity.
  replace (endsWith (txt "const.h.glsl") headerSuffix) with true by reflexivity.
  cbn [negb]. rewrite decide_True by reflexivity.
  rewrite (includeLines_copy _ _ _ _ _ _ Hplain).
  unfold lines. rewrite unlines_lines_from by auto. cbn [rev app]. 
  rewrite (completed_endsLine _ Hend).
  cbn [newSrc lineNumber headerNumber includeStart]. f_equal.
  replace (number 1) with (txt "1") by reflexivity.
  replace (number (1 + 1 + 1 + 1 + 1)) with (txt "5") by reflexivity.
  rewrite <- ?app_assoc. reflexivity.
Qed.
End DensitiesSource.

Lemma densities_source_witness :
  fst (makeScattererDensityFunctionsSrc (getShaderSrc Example.exampleDisk)
         [Example.rayleigh; Example.mie] [Example.ozone] (txt "densities.frag")
         Example.constantsText [] (Vec4 380 400 420 440))
  = Ok (txt "#version 330
#extension GL_ARB_shading_language_420pack : require

#line 1 1 // const.h.glsl
" ++ Example.constantsText
      ++ txt "#line 5 0 // (virtual)" ++ txt "densities.frag" ++ [nl]
      ++ fst (makeDensitiesFunctions [Example.rayleigh; Example.mie] [Example.ozone] [])).
Proof.
  apply (densities_source (getShaderSrc Example.exampleDisk)
           [Example.rayleigh; Example.mie] [Example.ozone] (txt "densities.frag")
           Example.constantsText [] (Vec4 380 400 420 440)).
  - vm_compute. reflexivity.
  - apply notIn_cr. vm_compute. reflexivity.
Defined.

(** ** The shader cache of src/shaders.cpp *)

Section ShaderCache.
Variable cfg : Setup.

(** A run of [getOrCompileShader]: the cache gains at most the entry of
    the file asked for, and holds the shader returned. *)
Lemma getOrCompileShader_run type filename w r w' evs :
  getOrCompileShader cfg type filename w = (r, w', evs) ->
  allShaders w ⊆ allShaders w'
  /\ match r with
     | Ok shader =>
         allShaders w' !! filename = Some shader
         /\ allShaders w' = match allShaders w !! filename with
                            | Some _ => allShaders w
                            | None => <[filename := shader]> (allShaders w)
                            end
     | Throw _ => allShaders w' = allShaders w
     end.
Proof.
  rewrite (getOrCompileShader_unfold cfg).
  destruct (allShaders w !! filename) as [shader|] eqn:Hf.
  - intros [= <- <- <-]. split; [reflexivity|]. split; [exact Hf|reflexivity].
  - destruct (getShaderSrc (disk cfg) filename) as [src|e].
    2:{ intros [= <- <- <-]. split; reflexivity. }
    rewrite compileShader_run.
    destruct (withHeadersIncluded _ _ _ src filename) as [source'|e].
    2:{ intros [= <- <- <-]. split; reflexivity. }
    destruct (fst (glslCompile cfg type source')).
    + intros [= <- <- <-]. cbn [allShaders]. split.
      * apply insert_subseteq, Hf.
      * split; [apply lookup_insert_eq|reflexivity].
    + intros [= <- <- <-]. split; reflexivity.
Qed.

(** X9.  [getOrCompileShader] compiles a file once: when it returns a
    shader, the cache holds that shader under the file name, and a
    second request for the name, for whatever shader type, returns the
    same shader and leaves the world as it is without compiling or
    printing anything. *)
Theorem cached_shader_reused type type' filename w shader :
  outcome (getOrCompileShader cfg type filename) w = Ok shader ->
  let w' := finalWorld (getOrCompileShader cfg type filename) w in
  allShaders w' !! filename = Some shader
  /\ getOrCompileShader cfg type' filename w' = (Ok shader, w', [ShaderUsed filename shader]).
Proof.
  intros Hok w'.
  assert (Hc : allShaders w' !! filename = Some shader).
  { unfold w', outcome, finalWorld in *.
    destruct (getOrCompileShader cfg type filename w) as [[r w1] evs] eqn:Hrun.
    apply getOrCompileShader_run in Hrun. simpl in *. subst r. tauto. }
  split; [exact Hc|].
  cbv [getOrCompileShader bind getWorld ret emit]. rewrite Hc. reflexivity.
Qed.

Lemma getOrCompileShaders_run type filenames : forall w r w' evs,
  getOrCompileShaders cfg type filenames w = (r, w', evs) ->
  allShaders w ⊆ allShaders w'
  /\ match r with
     | Ok shaders => Forall2 (fun f s => allShaders w' !! f = Some s) filenames shaders
     | Throw _ => True
     end.
Proof.
  induction filenames as [|f fs IH]; intros w r w' evs; cbn [getOrCompileShaders].
  - intros [= <- <- <-]. split; [reflexivity|constructor].
  - rewrite run_bind.
    destruct (getOrCompileShader cfg type f w) as [[[s|e] w1] evs1] eqn:H1.
    2:{ intros [= <- <- <-]. apply getOrCompileShader_run in H1. tauto. }
    apply getOrCompileShader_run in H1. destruct H1 as (S1 & L1 & _).
    rewrite run_bind.
    destruct (getOrCompileShaders cfg type fs w1) as [[[ss|e] w2] evs2] eqn:H2.
    2:{ intros [= <- <- <-]. apply IH in H2. destruct H2 as [S2 _].
        split; [etransitivity; eassumption|exact I]. }
    apply IH in H2. destruct H2 as [S2 F2].
    cbn [ret]. intros [= <- <- <-]. split; [etransitivity; eassumption|].
    constructor; [|exact F2]. eapply lookup_weaken; eassumption.
Qed.

Lemma compileShaderProgram_run mainSrcFileName description useGeomShader w r w' evs :
  compileShaderProgram cfg mainSrcFileName description useGeomShader w = (r, w', evs) ->
  allShaders w ⊆ allShaders w'
  /\ match r with
     | Ok program =>
         exists names,
           getShaderFileNamesToLinkWith (getShaderSrc (disk cfg)) (internalShaders cfg)
             mainSrcFileName = Ok names
           /\ Forall2 (fun f s => allShaders w' !! f = Some s)
                (programFiles mainSrcFileName names useGeomShader) (programShaders program)
           /\ glslLink cfg (programShaders program) = true
           /\ programDescription program = description
     | Throw _ => True
     end.
Proof.
  unfold compileShaderProgram. rewrite run_bind.
  destruct (getShaderFileNamesToLinkWith (getShaderSrc (disk cfg)) (internalShaders cfg)
              mainSrcFileName) as [names|e] eqn:Hnames; cbn [liftResult ret throw].
  2:{ intros [= <- <- <-]. split; [reflexivity|exact I]. }
  rewrite run_bind.
  destruct (getOrCompileShaders cfg Fragment (inOrder ({[mainSrcFileName]} ∪ names)) w)
    as [[[fragments|e] w1] evs1] eqn:H1.
  2:{ intros [= <- <- <-]. apply getOrCompileShaders_run in H1. tauto. }
  apply getOrCompileShaders_run in H1. destruct H1 as [S1 F1].
  rewrite run_bind.
  destruct (getOrCompileShader cfg Vertex (txt "shader.vert") w1)
    as [[[vertex|e] w2] evs2] eqn:H2.
  2:{ intros [= <- <- <-]. apply getOrCompileShader_run in H2.
      split; [etransitivity; [exact S1|tauto]|exact I]. }
  apply getOrCompileShader_run in H2. destruct H2 as (S2 & L2 & _).
  rewrite run_bind.
  assert (Hgeom : forall r3 w3 evs3,
    (if useGeomShader
     then shader <- getOrCompileShader cfg Geometry (txt "shader.geom") ;; ret [shader]
     else ret []) w2 = (r3, w3, evs3) ->
    allShaders w2 ⊆ allShaders w3
    /\ match r3 with
       | Ok geometry =>
           Forall2 (fun f s => allShaders w3 !! f = Some s)
             (if useGeomShader then [txt "shader.geom"] else []) geometry
       | Throw _ => True
       end).
  { intros r3 w3 evs3. destruct useGeomShader.
    - rewrite run_bind.
      destruct (getOrCompileShader cfg Geometry (txt "shader.geom") w2)
        as [[[g|e] w3'] evs3'] eqn:H3; apply getOrCompileShader_run in H3;
        cbn [ret]; intros [= <- <- <-]; [|tauto].
      split; [tauto|]. constructor; [tauto|constructor].
    - intros [= <- <- <-]. split; [reflexivity|constructor]. }
  destruct ((if useGeomShader
             then shader <- getOrCompileShader cfg Geometry (txt "shader.geom") ;; ret [shader]
             else ret []) w2) as [[r3 w3] evs3] eqn:H3.
  specialize (Hgeom _ _ _ eq_refl). destruct Hgeom as [S3 F3].
  destruct r3 as [geometry|e].
  2:{ intros [= <- <- <-].
      split; [do 2 (etransitivity; [eassumption|]); exact S3|exact I]. }
  assert (Sall : allShaders w ⊆ allShaders w3)
    by (do 2 (etransitivity; [eassumption|]); exact S3).
  destruct (glslLink cfg (fragments ++ [vertex] ++ geometry)) eqn:Hlink; cbn [negb].
  - cbn [ret]. intros [= <- <- <-]. split; [exact Sall|].
    exists names. split; [reflexivity|]. cbn [programShaders programDescription].
    split; [|split; [exact Hlink|reflexivity]].
    unfold programFiles. apply Forall2_app; [|constructor].
    + eapply Forall2_impl; [exact F1|]. intros f s Hfs.
      eapply lookup_weaken; [exact Hfs|]. etransitivity; eassumption.
    + eapply lookup_weaken; eassumption.
    + exact F3.
  - rewrite run_bind. cbn [cerr emit throw]. intros [= <- <- <-]. split; [exact Sall|exact I].
Qed.

(** X10.  [compileShaderProgram] never evicts or replaces a cached
    shader, whether it returns or throws: a file that has a shader in the
    cache before the call has the same shader after it. *)
Theorem compile_keeps_cache mainSrcFileName description useGeomShader w filename shader :
  allShaders w !! filename = Some shader ->
  allShaders (finalWorld (compileShaderProgram cfg mainSrcFileName description useGeomShader) w)
    !! filename = Some shader.
Proof.
  intros H. unfold finalWorld.
  destruct (compileShaderProgram cfg mainSrcFileName description useGeomShader w)
    as [[r w'] evs] eqn:Hrun.
  apply compileShaderProgram_run in Hrun. destruct Hrun as [Hsub _].
  eapply lookup_weaken; eassumption.
Qed.

(** X11.  A program [compileShaderProgram] returns is made of the cached
    shaders of its files: the main source and the sources the traversal
    of the shader directory names, in increasing order of name, then
    shader.vert, then shader.geom when a geometry shader is asked for.
    Each shader of the program is the cache entry of its file after the
    call, the linker accepted the list, and the program carries the
    description given. *)
Theorem program_shaders mainSrcFileName description useGeomShader w program :
  outcome (compileShaderProgram cfg mainSrcFileName description useGeomShader) w = Ok program ->
  exists names,
    getShaderFileNamesToLinkWith (getShaderSrc (disk cfg)) (internalShaders cfg)
      mainSrcFileName = Ok names
    /\ Forall2 (fun f s =>
                  allShaders (finalWorld (compileShaderProgram cfg mainSrcFileName description
                                            useGeomShader) w) !! f = Some s)
         (programFiles mainSrcFileName names useGeomShader) (programShaders program)
    /\ glslLink cfg (programShaders program) = true
    /\ programDescription program = description.
Proof.
  unfold outcome, finalWorld.
  destruct (compileShaderProgram cfg mainSrcFileName description useGeomShader w)
    as [[r w'] evs] eqn:Hrun.
  apply compileShaderProgram_run in Hrun. destruct Hrun as [_ H].
  cbn [fst snd]. intros ->. exact H.
Qed.
End ShaderCache.

(** The vertex shader of the example installation, the world in which it
    is cached, and the program of the direct irradiance pass. *)
Definition exampleVertexShader : Shader :=
  {| shaderType := Vertex;
     givenSource := txt "void main(){}
";
     sourceCode := txt "void main(){}
" |}.

Definition vertexCachedWorld : World :=
  finalWorld (getOrCompileShader (Example.exampleSetup false 2) Vertex (txt "shader.vert"))
    Example.initialWorld.

Definition exampleProgram : Program :=
  Eval vm_compute in
    match outcome (compileShaderProgram (Example.exampleSetup false 2)
                     (txt "compute-direct-irradiance.frag")
                     (txt "direct ground irradiance computation shader program") false)
            Example.initialWorld with
    | Ok program => program
    | Throw _ => {| programDescription := []; programShaders := [] |}
    end.

Lemma cached_shader_reused_witness :
  outcome (getOrCompileShader (Example.exampleSetup false 2) Vertex (txt "shader.vert"))
    Example.initialWorld = Ok exampleVertexShader
  /\ allShaders vertexCachedWorld !! txt "shader.vert" = Some exampleVertexShader
  /\ getOrCompileShader (Example.exampleSetup false 2) Fragment (txt "shader.vert")
       vertexCachedWorld
     = (Ok exampleVertexShader, vertexCachedWorld,
        [ShaderUsed (txt "shader.vert") exampleVertexShader]).
Proof.
  assert (H : outcome (getOrCompileShader (Example.exampleSetup false 2) Vertex
                         (txt "shader.vert")) Example.initialWorld
              = Ok exampleVertexShader) by (vm_compute; reflexivity).
  split; [exact H|].
  exact (cached_shader_reused (Example.exampleSetup false 2) Vertex Fragment
           (txt "shader.vert") Example.initialWorld exampleVertexShader H).
Defined.

Lemma compile_keeps_cache_witness :
  allShaders vertexCachedWorld !! txt "shader.vert" = Some exampleVertexShader
  /\ allShaders
       (finalWorld (compileShaderProgram (Example.exampleSetup false 2)
                      (txt "compute-direct-irradiance.frag")
                      (txt "direct ground irradiance computation shader program") false)
          vertexCachedWorld)
     !! txt "shader.vert" = Some exampleVertexShader.
Proof.
  assert (H : allShaders vertexCachedWorld !! txt "shader.vert" = Some exampleVertexShader)
    by (vm_compute; reflexivity).
  split; [exact H|].
  exact (compile_keeps_cache (Example.exampleSetup false 2)
           (txt "compute-direct-irradiance.frag")
           (txt "direct ground irradiance computation shader program") false
           vertexCachedWorld (txt "shader.vert") exampleVertexShader H).
Defined.

Lemma program_shaders_witness :
  outcome (compileShaderProgram (Example.exampleSetup false 2)
             (txt "compute-direct-irradiance.frag")
             (txt "direct ground irradiance computation shader program") false)
    Example.initialWorld = Ok exampleProgram
  /\ exists names,
       getShaderFileNamesToLinkWith
         (getShaderSrc (disk (Example.exampleSetup false 2)))
         (internalShaders (Example.exampleSetup false 2))
         (txt "compute-direct-irradiance.frag") = Ok names
       /\ Forall2 (fun f s =>
                     allShaders
                       (finalWorld (compileShaderProgram (Example.exampleSetup false 2)
                                      (txt "compute-direct-irradiance.frag")
                                      (txt "direct ground irradiance computation shader program")
                                      false) Example.initialWorld) !! f = Some s)
            (programFiles (txt "compute-direct-irradiance.frag") names false)
            (programShaders exampleProgram)
       /\ glslLink (Example.exampleSetup false 2) (programShaders exampleProgram) = true
       /\ programDescription exampleProgram
          = txt "direct ground irradiance computation shader program".
Proof.
  assert (H : outcome (compileShaderProgram (Example.exampleSetup false 2)
                         (txt "compute-direct-irradiance.frag")
                         (txt "direct ground irradiance computation shader program") false)
                Example.initialWorld = Ok exampleProgram) by (vm_compute; reflexivity).
  split; [exact H|].
  exact (program_shaders (Example.exampleSetup false 2)
           (txt "compute-direct-irradiance.frag")
           (txt "direct ground irradiance computation shader program") false
           Example.initialWorld exampleProgram H).
Defined.

(** ** Rendering the layers of a 3D texture *)

Section Layers.
Variable cfg : Setup.

Lemma layers_loop (w : World) (body : nat -> M unit) (layers : list nat) :
  (forall layer, exists a b,
     body layer w = (Ok tt, w, [Stderr a; Uniform (txt "layer"); Draw (gl w); Finish;
                                Stderr b])) ->
  exists evs,
    forEach layers body w = (Ok tt, w, evs)
    /\ List.filter isGpuEvent evs
       = concat (repeat [Draw (gl w); Finish] (length layers)).
Proof.
  intros Hbody.
  induction layers as [|layer layers (evs & Hrun & Hgpu)]; cbn [forEach].
  - exists []. split; reflexivity.
  - destruct (Hbody layer) as (a & b & Hl). eexists. split.
    + rewrite run_bind, Hl, Hrun. reflexivity.
    + cbn [app List.filter isGpuEvent length repeat concat]. rewrite Hgpu. reflexivity.
Qed.

(** X12.  [render3DTexLayers] never throws and leaves the world as it
    is.  It draws one quad per layer of the scattering texture, each in
    the OpenGL state it was called in, and waits for the GPU with
    [glFinish] after every draw before it goes on. *)
Theorem render3DTexLayers_draws program whatIsBeingDone w :
  outcome (render3DTexLayers cfg program whatIsBeingDone) w = Ok tt
  /\ finalWorld (render3DTexLayers cfg program whatIsBeingDone) w = w
  /\ List.filter isGpuEvent (events (render3DTexLayers cfg program whatIsBeingDone) w)
     = concat (repeat [Draw (gl w); Finish] (scatTexDepth cfg)).
Proof.
  unfold outcome, finalWorld, events, render3DTexLayers.
  rewrite run_bind.
  change (cerr (whatIsBeingDone ++ txt "... ") w)
    with (Ok tt, w, [Stderr (whatIsBeingDone ++ txt "... ")]).
  cbv iota beta. rewrite run_bind.
  match goal with
  | |- context [forEach ?layers ?body w] =>
      destruct (layers_loop w body layers) as (evs & Hrun & Hgpu);
        [intros layer; eexists; eexists; reflexivity | rewrite Hrun]
  end.
  rewrite length_seq in Hgpu. cbv [cerr emit]. cbn [fst snd].
  split; [reflexivity|]. split; [reflexivity|].
  cbn [app List.filter isGpuEvent]. rewrite List.filter_app, Hgpu. cbn. apply app_nil_r.
Qed.
End Layers.

(** ** Program, framebuffer, texture, viewport and blending along the schedule *)

Lemma optLe_sound {T} `{EqDecision T} (a b : option T) x :
  optLe a b = true -> b = Some x -> a = Some x.
Proof. intros H ->. apply bool_decide_eq_true in H. exact H. Qed.

Lemma optLe_refl {T} `{EqDecision T} (a : option T) : optLe a a = true.
Proof. destruct a; [apply bool_decide_eq_true; reflexivity | reflexivity]. Qed.

Lemma knownLe_sound cfg p q g : knownLe p q = true -> knows cfg p g -> knows cfg q g.
Proof.
  unfold knownLe. intros H (Ht & Hv & Hb & Hp & Ha).
  apply andb_prop in H as [H Ha']. apply andb_prop in H as [H Hp'].
  apply andb_prop in H as [H Hb']. apply andb_prop in H as [Ht' Hv'].
  split; [|split; [|split; [|split]]].
  - intros f Hf. apply Ht. eapply optLe_sound; eassumption.
  - intros k Hk. apply Hv. eapply optLe_sound; eassumption.
  - intros Hq. apply Hb. destruct (blendOff q), (blendOff p); auto; discriminate.
  - intros k Hk. apply Hp. eapply optLe_sound; eassumption.
  - intros fbo t Hq. apply Ha. rewrite forallb_forall in Ha'.
    eapply optLe_sound; [apply Ha'|exact Hq]. destruct fbo; simpl; auto.
Qed.

Lemma knownLe_refl p : knownLe p p = true.
Proof.
  unfold knownLe. cbn [forallb]. rewrite !optLe_refl. destruct (blendOff p); reflexivity.
Qed.

Lemma proper_properDraw cfg p g : proper p = true -> knows cfg p g -> properDraw cfg g.
Proof.
  unfold proper. intros Hf (Ht & Hv & _ & Hp & Ha).
  destruct (targetOf p) as [[fbo|]|]; try discriminate.
  destruct (viewKnown p) as [v|]; try discriminate.
  destruct (programOf p) as [k|]; try discriminate.
  apply andb_prop in Hf as [Hf H3]. apply andb_prop in Hf as [H1 H2].
  apply bool_decide_eq_true in H1, H2, H3. subst v fbo.
  split.
  - exists (framebufferOf k). split; [apply Ht; reflexivity | apply Hv; reflexivity].
  - exists k. split; [apply Hp; reflexivity|]. split; [apply Ht; reflexivity|].
    apply Ha, H3.
Qed.

Section ViewRules.
Variable cfg : Setup.

Local Abbreviation triple := (viewTriple cfg).

Lemma vt_bind {A B} p q r (m : M A) (k : A -> M B) :
  triple p m q -> (forall a, triple q (k a) r) -> triple p (bind m k) r.
Proof.
  intros Hm Hk w Hp. specialize (Hm w Hp).
  unfold finalWorld, events, outcome, bind in *.
  destruct (m w) as [[[a|e] w1] evs1]; simpl in *.
  - destruct Hm as [D1 Q1]. specialize (Hk a w1 (Q1 eq_refl)).
    unfold finalWorld, events, outcome in Hk.
    destruct (k a w1) as [[r' w2] evs2]; simpl in *.
    destruct Hk as [D2 R2]. split; [apply Forall_app; auto | exact R2].
  - destruct Hm as [D1 _]. split; [exact D1 | discriminate].
Qed.

Lemma vt_weaken {A} p p' q q' (m : M A) :
  knownLe p' p = true -> knownLe q q' = true -> triple p m q -> triple p' m q'.
Proof.
  intros Hp Hq H w Hw. destruct (H w (knownLe_sound _ _ _ _ Hp Hw)) as [D Q].
  split; [exact D|]. intros Hok. apply (knownLe_sound _ _ _ _ Hq), Q, Hok.
Qed.

Lemma vt_post {A} p q q' (m : M A) :
  triple p m q -> knownLe q q' = true -> triple p m q'.
Proof. intros H Hq. eapply vt_weaken; [apply knownLe_refl | exact Hq | exact H]. Qed.

Lemma vt_pre {A} p p' q (m : M A) :
  triple p' m q -> knownLe p p' = true -> triple p m q.
Proof. intros H Hp. eapply vt_weaken; [exact Hp | apply knownLe_refl | exact H]. Qed.

Lemma vt_ret {A} p (a : A) : triple p (ret a) p.
Proof. intros w Hp. split; [constructor | intros _; exact Hp]. Qed.

Lemma vt_throw {A} p q e : triple p (@throw A e) q.
Proof. intros w Hp. split; [constructor | discriminate]. Qed.

Lemma vt_liftResult {A} p (r : result A) : triple p (liftResult r) p.
Proof. destruct r; [apply vt_ret | apply vt_throw]. Qed.

Lemma vt_getWorld p : triple p getWorld p.
Proof. intros w Hp. split; [constructor | intros _; exact Hp]. Qed.

Lemma vt_emit p ev : match ev with Draw _ => False | _ => True end -> triple p (emit ev) p.
Proof.
  intros Hev w Hp. split; [|intros _; exact Hp].
  constructor; [|constructor]. destruct ev; simpl; auto. contradiction.
Qed.

Lemma vt_renderQuad p : proper p = true -> triple p renderQuad p.
Proof.
  intros Hd w Hp. split; [|intros _; exact Hp].
  constructor; [|constructor]. simpl. apply (proper_properDraw cfg p); assumption.
Qed.

Lemma vt_setWorld p f : (forall w, gl (f w) = gl w) -> triple p (setWorld f) p.
Proof.
  intros H w Hp. split; [constructor|]. intros _.
  unfold finalWorld, setWorld. simpl. rewrite H. exact Hp.
Qed.

Lemma vt_setGL p q f :
  (forall g, knows cfg p g -> knows cfg q (f g)) -> triple p (setGL f) q.
Proof.
  intros H w Hp. split; [constructor|]. intros _. apply H, Hp.
Qed.

Lemma vt_when p b (m : M unit) : triple p m p -> triple p (when b m) p.
Proof. destruct b; simpl; [auto | intros _; apply vt_ret]. Qed.

Lemma vt_forEach {A} p (xs : list A) body :
  (forall x, triple p (body x) p) -> triple p (forEach xs body) p.
Proof.
  intros H. induction xs as [|x xs IH]; simpl; [apply vt_ret|].
  eapply vt_bind; [apply H | intros _; exact IH].
Qed.

Lemma vt_quiet {A} p (m : M A) : quiet m -> triple p m p.
Proof.
  intros Hq w Hp.
  destruct (m w) as [[r w'] evs] eqn:Hrun.
  destruct (quiet_run m w r w' evs Hq Hrun) as [(Hgl & _) Hev].
  unfold events, finalWorld, outcome. rewrite Hrun. simpl.
  split; [apply compile_drawPred, Hev | intros _; rewrite Hgl; exact Hp].
Qed.

(** A program [compileShaderProgram] returns carries the description it
    was given. *)
Lemma compileShaderProgram_description mainSrcFileName description useGeomShader w program :
  outcome (compileShaderProgram cfg mainSrcFileName description useGeomShader) w = Ok program ->
  programDescription program = description.
Proof.
  unfold compileShaderProgram, outcome, bind, getWorld, liftResult.
  destruct (getShaderFileNamesToLinkWith _ _ _); [|discriminate]. cbn [ret fst snd].
  destruct (getOrCompileShaders cfg Fragment _ w) as [[[fragments|e] w1] evs1];
    [|discriminate].
  destruct (getOrCompileShader cfg Vertex _ w1) as [[[vertex|e] w2] evs2]; [|discriminate].
  destruct useGeomShader.
  - destruct (getOrCompileShader cfg Geometry _ w2) as [[[geometry|e] w3] evs3];
      [|discriminate].
    cbn [ret fst snd]. destruct (glslLink cfg _); cbn; [|discriminate].
    now intros [= <-].
  - cbn [ret fst snd]. destruct (glslLink cfg _); cbn; [|discriminate].
    now intros [= <-].
Qed.

Lemma vt_compile {B} p r mainSrcFileName description useGeomShader (k : Program -> M B) :
  (forall program, programDescription program = description -> triple p (k program) r) ->
  triple p (bind (compileShaderProgram cfg mainSrcFileName description useGeomShader) k) r.
Proof.
  intros Hk w Hp.
  pose proof (vt_quiet p _ (quiet_compileShaderProgram cfg mainSrcFileName description
                              useGeomShader) w Hp) as [D Q].
  pose proof (compileShaderProgram_description mainSrcFileName description useGeomShader w)
    as Hd.
  unfold finalWorld, events, outcome, bind in *.
  destruct (compileShaderProgram cfg mainSrcFileName description useGeomShader w)
    as [[[program|e] w1] evs1]; simpl in *.
  - specialize (Hk program (Hd program eq_refl) w1 (Q eq_refl)).
    unfold finalWorld, events, outcome in Hk.
    destruct (k program w1) as [[r' w2] evs2]; simpl in *.
    destruct Hk as [D2 R2]. split; [apply Forall_app; auto | exact R2].
  - split; [exact D | discriminate].
Qed.

(** The OpenGL calls. *)

Lemma vt_same p f :
  (forall g, framebufferBinding (f g) = framebufferBinding g
             /\ viewport (f g) = viewport g /\ blendEnabled (f g) = blendEnabled g
             /\ currentProgram (f g) = currentProgram g
             /\ (forall fbo, colorAttachments (f g) fbo 0%nat = colorAttachments g fbo 0%nat)) ->
  triple p (setGL f) p.
Proof.
  intros H. apply vt_setGL. intros g (Ht & Hv & Hb & Hp & Ha).
  destruct (H g) as (E1 & E2 & E3 & E4 & E5). unfold knows.
  rewrite E1, E2, E3, E4. repeat split; auto. intros fbo t Hq. rewrite E5. auto.
Qed.

Lemma vt_glBlendFunc p s d : triple p (glBlendFunc s d) p.
Proof. apply vt_same. intros g. repeat split. Qed.

Lemma vt_setDrawBuffers p bufs : triple p (setDrawBuffers bufs) p.
Proof.
  apply vt_same. intros g. destruct (framebufferBinding g) eqn:E; cbn; rewrite ?E; auto.
Qed.

Lemma vt_bindProgram p k description :
  description = descriptionOf k -> triple p (bindProgram description) (withProgram k p).
Proof.
  intros ->. apply vt_setGL. intros g (Ht & Hv & Hb & Hp & Ha).
  split; [|split; [|split; [|split]]]; cbn;
    [exact Ht | exact Hv | exact Hb | intros k' [= <-]; reflexivity | exact Ha].
Qed.

Lemma vt_glFramebufferTexture p i texture :
  triple p (glFramebufferTexture i texture) (withAttachment i texture p).
Proof.
  apply vt_setGL. intros g (Ht & Hv & Hb & Hp & Ha). unfold withAttachment.
  assert (Hrest : forall f j, j <> i ->
    colorAttachments
      match framebufferBinding g with
      | Some fbo =>
          {| framebufferBinding := framebufferBinding g;
             colorAttachments := fun f j =>
               if decide (f = fbo) then
                 if decide (j = i) then Some texture else colorAttachments g f j
               else colorAttachments g f j;
             drawBuffers := drawBuffers g; blendEnabled := blendEnabled g;
             blendFunc := blendFunc g; viewport := viewport g;
             currentProgram := currentProgram g |}
      | None => g
      end f j = colorAttachments g f j).
  { intros f j Hj. destruct (framebufferBinding g); [|reflexivity]. cbn.
    destruct (decide _); [|reflexivity]. now rewrite decide_False. }
  assert (Hframe : forall g',
    g' = match framebufferBinding g with
         | Some fbo =>
             {| framebufferBinding := framebufferBinding g;
                colorAttachments := fun f j =>
                  if decide (f = fbo) then
                    if decide (j = i) then Some texture else colorAttachments g f j
                  else colorAttachments g f j;
                drawBuffers := drawBuffers g; blendEnabled := blendEnabled g;
                blendFunc := blendFunc g; viewport := viewport g;
                currentProgram := currentProgram g |}
         | None => g
         end ->
    framebufferBinding g' = framebufferBinding g /\ viewport g' = viewport g
    /\ blendEnabled g' = blendEnabled g /\ currentProgram g' = currentProgram g).
  { intros g' ->. destruct (framebufferBinding g) eqn:E; cbn; rewrite ?E; auto. }
  destruct (Hframe _ eq_refl) as (E1 & E2 & E3 & E4).
  destruct i as [|i].
  2:{ unfold knows. rewrite E1, E2, E3, E4. repeat split; auto.
      intros fbo t Hq. rewrite Hrest by discriminate. auto. }
  destruct (targetOf p) as [[fbo|]|] eqn:Et.
  - unfold knows. rewrite E1, E2, E3, E4. cbn. rewrite ?Et.
    split; [exact Ht|]. split; [exact Hv|]. split; [exact Hb|].
    split; [exact Hp|].
    intros f t. rewrite (Ht _ eq_refl). cbn.
    destruct (decide (f = fbo)); [now rewrite decide_True|auto].
  - unfold knows. rewrite E1, E2, E3, E4. rewrite ?Et.
    split; [exact Ht|]. split; [exact Hv|]. split; [exact Hb|]. split; [exact Hp|].
    intros f t Hq. rewrite (Ht _ eq_refl). auto.
  - unfold knows. rewrite E1, E2, E3, E4. cbn. rewrite ?Et.
    split; [discriminate|]. split; [exact Hv|]. split; [exact Hb|].
    split; [exact Hp|]. discriminate.
Qed.

Lemma vt_glBindFramebuffer p fbo : triple p (glBindFramebuffer fbo) (withTarget fbo p).
Proof.
  apply vt_setGL. intros g (Ht & Hv & Hb & Hp & Ha).
  split; [|split; [|split; [|split]]]; cbn;
    [intros f [= <-]; reflexivity | exact Hv | exact Hb | exact Hp | exact Ha].
Qed.

Lemma vt_glViewport p k width height :
  (width, height) = viewSize cfg k -> triple p (glViewport width height) (withView k p).
Proof.
  intros Hk. apply vt_setGL. intros g (Ht & Hv & Hb & Hp & Ha).
  split; [|split; [|split; [|split]]]; cbn;
    [exact Ht | intros k' [= <-]; exact Hk | exact Hb | exact Hp | exact Ha].
Qed.

Lemma vt_glDisable p cap : triple p (glDisable cap) (withBlend true p).
Proof.
  apply vt_setGL. intros g (Ht & Hv & Hb & Hp & Ha).
  split; [|split; [|split; [|split]]]; cbn;
    [exact Ht | exact Hv | reflexivity | exact Hp | exact Ha].
Qed.

Lemma vt_setBlend p f : triple p (setBlend f) (withBlend false p).
Proof.
  apply vt_setGL. intros g (Ht & Hv & Hb & Hp & Ha).
  split; [|split; [|split; [|split]]]; cbn;
    [exact Ht | exact Hv | discriminate | exact Hp | exact Ha].
Qed.

Lemma vt_glEnable p cap : triple p (glEnable cap) (withBlend false p).
Proof. apply vt_setBlend. Qed.

Lemma vt_glEnablei p cap i : triple p (glEnablei cap i) (withBlend false p).
Proof. apply vt_setBlend. Qed.

Lemma vt_glDisablei p cap i : triple p (glDisablei cap i) (withBlend false p).
Proof. apply vt_setBlend. Qed.

Lemma vt_blendIf p (c : bool) cap :
  triple p (if c then glEnable cap else glDisable cap) (withBlend false p).
Proof.
  destruct c; [apply vt_glEnable|].
  eapply vt_post; [apply vt_glDisable|].
  unfold knownLe. cbn [forallb withBlend targetOf viewKnown blendOff programOf attachedTo].
  rewrite !optLe_refl. reflexivity.
Qed.

End ViewRules.

Create HintDb viewsame.
Create HintDb viewpass.

Ltac vt_unfold :=
  unfold bind_, glFinish, glActiveTexture, setUniformValue, setUniformMatrix,
    setUniformTexture, saveTexture, cerr, initConstHeader, eraseShader, clearShaders,
    writeVirtualSourceFile;
  unfold setAllShaders, setConstantsHeader, setDensitiesHeader.

Ltac vt_cond := first [reflexivity | assumption | apply knownLe_refl].

Ltac vt_description := first [reflexivity | etransitivity; [eassumption | reflexivity]].

Ltac vt_rule :=
  lazymatch goal with
  | |- viewTriple _ _ (ret _) _ => apply vt_ret
  | |- viewTriple _ _ (throw _) _ => apply vt_throw
  | |- viewTriple _ _ (liftResult _) _ => apply vt_liftResult
  | |- viewTriple _ _ getWorld _ => apply vt_getWorld
  | |- viewTriple _ _ renderQuad _ => apply vt_renderQuad; vt_cond
  | |- viewTriple _ _ (emit _) _ => apply vt_emit; exact I
  | |- viewTriple _ _ (setWorld _) _ => apply vt_setWorld; intros ?; reflexivity
  | |- viewTriple _ _ (glViewport _ _) _ =>
      first [ apply (vt_glViewport _ _ ViewTransmittance); reflexivity
            | apply (vt_glViewport _ _ ViewIrradiance); reflexivity
            | apply (vt_glViewport _ _ ViewScattering); reflexivity ]
  | |- viewTriple _ _ (bindProgram _) _ =>
      first [ apply (vt_bindProgram _ _ ProgTransmittance); vt_description
            | apply (vt_bindProgram _ _ ProgDirectIrradiance); vt_description
            | apply (vt_bindProgram _ _ ProgSingleScattering); vt_description
            | apply (vt_bindProgram _ _ ProgScatteringDensity); vt_description
            | apply (vt_bindProgram _ _ ProgIndirectIrradiance); vt_description
            | apply (vt_bindProgram _ _ ProgMultipleScattering); vt_description
            | apply (vt_bindProgram _ _ ProgCopy); vt_description ]
  | |- viewTriple _ _ (glBindFramebuffer _) _ => apply vt_glBindFramebuffer
  | |- viewTriple _ _ (glFramebufferTexture _ _) _ => apply vt_glFramebufferTexture
  | |- viewTriple _ _ (setDrawBuffers _) _ => apply vt_setDrawBuffers
  | |- viewTriple _ _ (glBlendFunc _ _) _ => apply vt_glBlendFunc
  | |- viewTriple _ _ (glDisable _) _ => apply vt_glDisable
  | |- viewTriple _ _ (glDisablei _ _) _ => apply vt_glDisablei
  | |- viewTriple _ _ (glEnable _) _ => apply vt_glEnable
  | |- viewTriple _ _ (glEnablei _ _) _ => apply vt_glEnablei
  | |- viewTriple _ _ (if _ then glEnable _ else glDisable _) _ => apply vt_blendIf
  | |- _ =>
      first [ solve [auto with viewsame]
            | eapply vt_pre; [solve [auto with viewpass] | reflexivity] ]
  end.

Ltac vt_leaf :=
  lazymatch goal with
  | |- viewTriple _ _ _ ?q =>
      tryif is_evar q then vt_rule else (eapply vt_post; [vt_rule | vt_cond])
  end.

Ltac vt_step :=
  vt_unfold;
  lazymatch goal with
  | |- viewTriple _ _ (bind (compileShaderProgram _ _ _ _) _) _ =>
      apply vt_compile; intros ? ?; vt_step
  | |- viewTriple _ _ (bind _ _) _ => eapply vt_bind; [vt_step | intros ?; vt_step]
  | |- viewTriple _ _ (when _ _) _ =>
      lazymatch goal with
      | |- viewTriple _ _ _ ?q =>
          tryif is_evar q then (apply vt_when; vt_step)
          else (eapply vt_post; [apply vt_when; vt_step | vt_cond])
      end
  | |- viewTriple _ _ (forEach _ _) _ =>
      first [ apply vt_forEach; intros ?; vt_step
            | eapply vt_post;
              [ first [ apply vt_forEach; intros ?; vt_step
                      | eapply vt_pre;
                        [apply (vt_forEach _ afterAccumulate); intros ?; vt_step
                        | reflexivity]
                      | eapply vt_pre;
                        [apply (vt_forEach _ densityAttached); intros ?; vt_step
                        | reflexivity] ]
              | vt_cond ] ]
  | |- viewTriple _ _ (if _ then glEnable _ else glDisable _) _ => vt_leaf
  | |- viewTriple _ _ (if ?c then _ else _) _ => destruct c; vt_step
  | |- viewTriple _ _ (let (_, _) := ?x in _) _ => destruct x; vt_step
  | |- viewTriple _ _ (match ?x with Some _ => _ | None => _ end) _ => destruct x; vt_step
  | |- _ => vt_leaf
  end.

Section ViewSchedule.
Variable cfg : Setup.

Lemma vt_withGlobals p generator : viewTriple cfg p (withGlobals cfg generator) p.
Proof. unfold withGlobals. vt_step. Qed.

Lemma vt_checkFramebufferStatus p what : viewTriple cfg p (checkFramebufferStatus cfg what) p.
Proof. unfold checkFramebufferStatus. vt_step. Qed.

Lemma vt_saveIrradiance p o k : viewTriple cfg p (saveIrradiance cfg o k) p.
Proof. unfold saveIrradiance. vt_step. Qed.

Lemma vt_saveScatteringDensity p o k : viewTriple cfg p (saveScatteringDensity cfg o k) p.
Proof. unfold saveScatteringDensity. vt_step. Qed.

Lemma vt_scatteringDensitySource p g o : viewTriple cfg p (scatteringDensitySource cfg g o) p.
Proof. unfold scatteringDensitySource. vt_step. Qed.

Lemma vt_indirectIrradianceSource p o : viewTriple cfg p (indirectIrradianceSource cfg o) p.
Proof. unfold indirectIrradianceSource. vt_step. Qed.

Lemma vt_phaseFunctionsSrc p : viewTriple cfg p (phaseFunctionsSrc cfg) p.
Proof. unfold phaseFunctionsSrc. vt_step. Qed.

#[local] Hint Resolve vt_withGlobals vt_checkFramebufferStatus
  vt_saveIrradiance vt_saveScatteringDensity vt_scatteringDensitySource
  vt_indirectIrradianceSource vt_phaseFunctionsSrc : viewsame.

Lemma vt_render3DTexLayers p program what :
  proper p = true -> viewTriple cfg p (render3DTexLayers cfg program what) p.
Proof. intros Hd. unfold render3DTexLayers. vt_step. Qed.

#[local] Hint Extern 1 (viewTriple _ _ (render3DTexLayers _ _ _) _) =>
  apply vt_render3DTexLayers; reflexivity : viewsame.

Lemma vt_computeTransmittance p k :
  viewTriple cfg p (computeTransmittance cfg k) nothingKnown.
Proof. unfold computeTransmittance. vt_step. Qed.

Lemma vt_computeDirectGroundIrradiance p k :
  viewTriple cfg p (computeDirectGroundIrradiance cfg k) irradianceKept.
Proof. unfold computeDirectGroundIrradiance. vt_step. Qed.

(** In the loop over the scatterers of [computeScatteringDensityOrder2]
    the scattering density texture stays attached to the multiple
    scattering framebuffer, and the delta irradiance texture to the
    irradiance framebuffer. *)
Lemma vt_computeSingleScattering k scatterer :
  viewTriple cfg densityAttached (computeSingleScattering cfg k scatterer)
    (passDone (Some ViewScattering) false withDensity).
Proof. unfold computeSingleScattering. vt_step. Qed.

Lemma vt_computeIndirectIrradianceOrder1 k i :
  viewTriple cfg densityAttached (computeIndirectIrradianceOrder1 cfg k i) densityAttached.
Proof. unfold computeIndirectIrradianceOrder1. vt_step. Qed.

#[local] Hint Resolve vt_computeSingleScattering vt_computeIndirectIrradianceOrder1
  : viewpass.

Lemma vt_computeScatteringDensityOrder2 k :
  viewTriple cfg irradianceKept (computeScatteringDensityOrder2 cfg k)
    (passDone None true irradianceOnly).
Proof. unfold computeScatteringDensityOrder2. vt_step. Qed.

(** The two passes that set no viewport: they draw with the one the
    pass before them has set. *)
Lemma vt_computeScatteringDensity o k :
  viewTriple cfg scatteringView (computeScatteringDensity cfg o k)
    (passDone (Some ViewScattering) false irradianceOnly).
Proof. unfold computeScatteringDensity. vt_step. Qed.

Lemma vt_accumulateMultipleScattering o k :
  viewTriple cfg scatteringView (accumulateMultipleScattering cfg o k) afterAccumulate.
Proof. unfold accumulateMultipleScattering. vt_step. Qed.

#[local] Hint Resolve vt_accumulateMultipleScattering vt_computeScatteringDensity : viewpass.

(** The passes into the irradiance framebuffer after the first attach no
    texture: they draw into the ones [computeDirectGroundIrradiance]
    attached. *)
Lemma vt_computeIndirectIrradiance o k :
  viewTriple cfg irradianceKept (computeIndirectIrradiance cfg o k)
    (passDone (Some ViewIrradiance) true irradianceOnly).
Proof. unfold computeIndirectIrradiance. vt_step. Qed.

Lemma vt_computeMultipleScatteringFromDensity o k :
  viewTriple cfg irradianceKept (computeMultipleScatteringFromDensity cfg o k)
    afterAccumulate.
Proof. unfold computeMultipleScatteringFromDensity. vt_step. Qed.

#[local] Hint Resolve vt_computeScatteringDensityOrder2 vt_computeIndirectIrradiance
  vt_computeMultipleScatteringFromDensity : viewpass.

Lemma vt_computeMultipleScattering k :
  viewTriple cfg irradianceKept (computeMultipleScattering cfg k) afterAccumulate.
Proof. unfold computeMultipleScattering. vt_step. Qed.

#[local] Hint Resolve vt_computeTransmittance vt_computeDirectGroundIrradiance : viewsame.
#[local] Hint Resolve vt_computeMultipleScattering : viewpass.

Lemma vt_processWavelengthSet p k :
  viewTriple cfg p (processWavelengthSet cfg k) afterAccumulate.
Proof. unfold processWavelengthSet. vt_step. Qed.

Lemma vt_generate p :
  knownLe afterAccumulate p = true -> viewTriple cfg p (generate cfg) p.
Proof.
  intros Hp. unfold generate. apply vt_forEach. intros k.
  eapply vt_post; [apply vt_processWavelengthSet | exact Hp].
Qed.

Lemma draws_of_a_run_proper w :
  Forall (properDraw cfg) (drawsOf (events (generate cfg) w)).
Proof.
  apply Forall_drawsOf. apply (vt_generate nothingKnown eq_refl w).
  split; [|split; [|split; [|split]]]; cbn; discriminate.
Qed.

(** X13.  Every draw of a run, from whatever OpenGL state it starts and
    whether it ends or throws, goes into a framebuffer object, never the
    default framebuffer, with the viewport main.cpp sets for the passes
    of that framebuffer: the transmittance size, the irradiance size, or
    the size of the scattering textures.  This holds also for
    [computeScatteringDensity] and [accumulateMultipleScattering], which
    set no viewport and draw with the one left by the pass before. *)
Theorem draws_fit_their_target w :
  Forall (fittingDraw cfg) (drawsOf (events (generate cfg) w)).
Proof.
  eapply Forall_impl; [apply draws_of_a_run_proper|]. intros g [H _]. exact H.
Qed.

(** X14.  Every draw of a run is made by one of the seven programs of
    main.cpp, with the framebuffer object of its pass bound and the
    texture the pass computes at colour attachment 0: the transmittance,
    delta irradiance, delta scattering, scattering density or accumulator
    texture.  This holds from whatever state the run starts, also where
    a pass binds a framebuffer object without attaching anything and
    draws into what an earlier pass attached. *)
Theorem draws_own_target w :
  Forall ownTarget (drawsOf (events (generate cfg) w)).
Proof.
  eapply Forall_impl; [apply draws_of_a_run_proper|]. intros g [_ H]. exact H.
Qed.

(** X15.  A run that starts with the default framebuffer bound and
    blending off, and returns, leaves OpenGL so: every pass binds the
    default framebuffer again and every pass that turns blending on
    turns it off. *)
Theorem run_restores_gl w :
  restoredGL (gl w) ->
  isOk (outcome (generate cfg) w) = true ->
  restoredGL (gl (finalWorld (generate cfg) w)).
Proof.
  intros [Ht Hb] Hok.
  destruct (vt_generate (passDone None true (fun _ => None)) eq_refl w) as [_ Hq].
  { split; [|split; [|split; [|split]]]; cbn;
      [intros f [= <-]; exact Ht | discriminate | intros _; exact Hb | discriminate
      | discriminate]. }
  destruct (Hq Hok) as (Ht' & _ & Hb' & _).
  split; [apply Ht'; reflexivity | apply Hb'; reflexivity].
Qed.
End ViewSchedule.

Lemma run_restores_gl_witness :
  restoredGL (gl Example.initialWorld)
  /\ isOk (outcome (generate (Example.exampleSetup false 3)) Example.initialWorld) = true
  /\ restoredGL (gl (finalWorld (generate (Example.exampleSetup false 3))
                       Example.initialWorld)).
Proof.
  assert (H1 : restoredGL (gl Example.initialWorld)) by (split; reflexivity).
  assert (H2 : isOk (outcome (generate (Example.exampleSetup false 3)) Example.initialWorld)
               = true) by (vm_compute; reflexivity).
  split; [exact H1|]. split; [exact H2|].
  exact (run_restores_gl (Example.exampleSetup false 3) Example.initialWorld H1 H2).
Defined.

(** ** The densities header is written once *)

Lemma finalWorld_bind {A B} (m : M A) (k : A -> M B) w :
  finalWorld (bind m k) w
  = match outcome m w with
    | Ok a => finalWorld (k a) (finalWorld m w)
    | Throw _ => finalWorld m w
    end.
Proof.
  unfold finalWorld, outcome, bind. destruct (m w) as [[[a|e] w1] evs1]; [|reflexivity].
  simpl. destruct (k a w1) as [[r w2] evs2]. reflexivity.
Qed.

Lemma keeps_bind {A B} (m : M A) (k : A -> M B) :
  keepsHeader m -> (forall a, keepsHeader (k a)) -> keepsHeader (bind m k).
Proof.
  intros Hm Hk w Hw. rewrite finalWorld_bind. specialize (Hm w Hw).
  destruct (outcome m w) as [a|e]; [|exact Hm].
  rewrite (Hk a); [exact Hm | now rewrite Hm].
Qed.

Lemma keeps_ret {A} (a : A) : keepsHeader (ret a).
Proof. intros w _. reflexivity. Qed.

Lemma keeps_throw {A} e : keepsHeader (@throw A e).
Proof. intros w _. reflexivity. Qed.

Lemma keeps_liftResult {A} (r : result A) : keepsHeader (liftResult r).
Proof. destruct r; [apply keeps_ret | apply keeps_throw]. Qed.

Lemma keeps_getWorld : keepsHeader getWorld.
Proof. intros w _. reflexivity. Qed.

Lemma keeps_emit ev : keepsHeader (emit ev).
Proof. intros w _. reflexivity. Qed.

Lemma keeps_setWorld f :
  (forall w, densitiesHeader (f w) = densitiesHeader w) -> keepsHeader (setWorld f).
Proof. intros H w _. apply H. Qed.

Lemma keeps_when b (m : M unit) : keepsHeader m -> keepsHeader (when b m).
Proof. destruct b; simpl; [auto | intros _; apply keeps_ret]. Qed.

Lemma keeps_forEach {A} (xs : list A) body :
  (forall x, keepsHeader (body x)) -> keepsHeader (forEach xs body).
Proof.
  intros H. induction xs as [|x xs IH]; simpl; [apply keeps_ret|].
  apply keeps_bind; auto.
Qed.

Lemma keeps_quiet {A} (m : M A) : quiet m -> keepsHeader m.
Proof.
  intros Hq w _. unfold finalWorld.
  destruct (m w) as [[r w'] evs] eqn:Hrun.
  destruct (quiet_run m w r w' evs Hq Hrun) as [(_ & _ & _ & Hd) _]. exact Hd.
Qed.

Create HintDb keeps.

Ltac keeps_unfold :=
  unfold bind_;
  unfold glBindFramebuffer, glFramebufferTexture, setDrawBuffers, glEnable, glDisable,
    glEnablei, glDisablei, setBlend, glBlendFunc, glViewport, bindProgram, glFinish,
    glActiveTexture, setUniformValue, setUniformMatrix, setUniformTexture, saveTexture,
    cerr, initConstHeader, renderQuad, eraseShader, clearShaders, writeVirtualSourceFile;
  unfold setGL, setAllShaders, setConstantsHeader.

Ltac keeps_tac :=
  keeps_unfold;
  repeat
    lazymatch goal with
    | |- keepsHeader (bind _ _) => apply keeps_bind; [|intros ?]
    | |- keepsHeader (ret _) => apply keeps_ret
    | |- keepsHeader (throw _) => apply keeps_throw
    | |- keepsHeader (liftResult _) => apply keeps_liftResult
    | |- keepsHeader getWorld => apply keeps_getWorld
    | |- keepsHeader (setWorld _) => apply keeps_setWorld; intros ?; reflexivity
    | |- keepsHeader (when _ _) => apply keeps_when
    | |- keepsHeader (forEach _ _) => apply keeps_forEach; intros ?
    | |- keepsHeader (emit _) => apply keeps_emit
    | |- keepsHeader (if ?c then _ else _) => destruct c
    | |- keepsHeader (match ?x with Some _ => _ | None => _ end) => destruct x
    | |- _ => solve [auto with keeps]
    end.

Section DensitiesHeader.
Variable cfg : Setup.

Lemma declarations_set dh :
  dh <> [] -> snd (makeDensitiesFunctions (scatterers cfg) (absorbers cfg) dh) = dh.
Proof. intros H. destruct dh; [contradiction|reflexivity]. Qed.

Lemma declarations_nonempty : densitiesDeclarations cfg <> [].
Proof.
  unfold densitiesDeclarations, makeDensitiesFunctions. cbn [snd].
  intros H. apply (f_equal (@length QChar)) in H. rewrite !length_app in H.
  cbn [length txt list_ascii_of_string map] in H. lia.
Qed.

(** The world [withGlobals] leaves, for the two generators of
    src/shaders.cpp that call [makeDensitiesFunctions]. *)
Lemma withGlobals_header generator w :
  (forall src ch dh,
     snd (generator src ch dh)
     = snd (makeDensitiesFunctions (scatterers cfg) (absorbers cfg) dh)) ->
  densitiesHeader (finalWorld (withGlobals cfg generator) w)
  = match densitiesHeader w with
    | [] => densitiesDeclarations cfg
    | h => h
    end.
Proof.
  intros Hgen. unfold withGlobals, finalWorld, bind, getWorld.
  specialize (Hgen (getShaderSrc (disk cfg)) (constantsHeader w) (densitiesHeader w)).
  destruct (generator (getShaderSrc (disk cfg)) (constantsHeader w) (densitiesHeader w))
    as [r dh']. cbn [snd] in Hgen. subst dh'.
  unfold setDensitiesHeader, setWorld, liftResult. destruct r; cbn;
    destruct (densitiesHeader w); reflexivity.
Qed.

Lemma transmittance_generator src ch dh wavelengths :
  snd (makeTransmittanceComputeFunctionsSrc src (scatterers cfg) (absorbers cfg)
         (toString cfg) (COMPUTE_TRANSMITTANCE_SHADER_FILENAME cfg) ch dh wavelengths)
  = snd (makeDensitiesFunctions (scatterers cfg) (absorbers cfg) dh).
Proof.
  unfold makeTransmittanceComputeFunctionsSrc.
  destruct (makeDensitiesFunctions _ _ dh). reflexivity.
Qed.

Lemma densities_generator src ch dh wavelengths :
  snd (makeScattererDensityFunctionsSrc src (scatterers cfg) (absorbers cfg)
         (DENSITIES_SHADER_FILENAME cfg) ch dh wavelengths)
  = snd (makeDensitiesFunctions (scatterers cfg) (absorbers cfg) dh).
Proof.
  unfold makeScattererDensityFunctionsSrc.
  destruct (makeDensitiesFunctions _ _ dh). reflexivity.
Qed.

Lemma keeps_withGlobals generator :
  (forall src ch dh,
     snd (generator src ch dh)
     = snd (makeDensitiesFunctions (scatterers cfg) (absorbers cfg) dh)) ->
  keepsHeader (withGlobals cfg generator).
Proof.
  intros Hgen w Hw. rewrite (withGlobals_header _ _ Hgen).
  destruct (densitiesHeader w); [contradiction|reflexivity].
Qed.

Lemma keeps_densities k :
  keepsHeader (withGlobals cfg (fun shaderSrc constantsHeader densitiesHeader =>
     makeScattererDensityFunctionsSrc shaderSrc (scatterers cfg) (absorbers cfg)
       (DENSITIES_SHADER_FILENAME cfg) constantsHeader densitiesHeader
       (wavelengthsOf cfg k))).
Proof. apply keeps_withGlobals. intros. apply densities_generator. Qed.

Lemma keeps_transmittance k :
  keepsHeader (withGlobals cfg (fun shaderSrc constantsHeader densitiesHeader =>
     makeTransmittanceComputeFunctionsSrc shaderSrc (scatterers cfg) (absorbers cfg)
       (toString cfg) (COMPUTE_TRANSMITTANCE_SHADER_FILENAME cfg)
       constantsHeader densitiesHeader (wavelengthsOf cfg k))).
Proof. apply keeps_withGlobals. intros. apply transmittance_generator. Qed.

Lemma keeps_compileShaderProgram mainSrcFileName description useGeomShader :
  keepsHeader (compileShaderProgram cfg mainSrcFileName description useGeomShader).
Proof. apply keeps_quiet, quiet_compileShaderProgram. Qed.

Lemma keeps_render3DTexLayers program what :
  keepsHeader (render3DTexLayers cfg program what).
Proof. unfold render3DTexLayers. keeps_tac. Qed.

Lemma keeps_checkFramebufferStatus what : keepsHeader (checkFramebufferStatus cfg what).
Proof. unfold checkFramebufferStatus. keeps_tac. Qed.

Lemma keeps_saveIrradiance o k : keepsHeader (saveIrradiance cfg o k).
Proof. unfold saveIrradiance. keeps_tac. Qed.

Lemma keeps_saveScatteringDensity o k : keepsHeader (saveScatteringDensity cfg o k).
Proof. unfold saveScatteringDensity. keeps_tac. Qed.

Lemma keeps_scatteringDensitySource g o : keepsHeader (scatteringDensitySource cfg g o).
Proof. unfold scatteringDensitySource. keeps_tac. Qed.

Lemma keeps_indirectIrradianceSource o : keepsHeader (indirectIrradianceSource cfg o).
Proof. unfold indirectIrradianceSource. keeps_tac. Qed.

Lemma keeps_phaseFunctionsSrc : keepsHeader (phaseFunctionsSrc cfg).
Proof. unfold phaseFunctionsSrc. keeps_tac. Qed.

#[local] Hint Resolve keeps_densities keeps_transmittance keeps_compileShaderProgram
  keeps_render3DTexLayers keeps_checkFramebufferStatus keeps_saveIrradiance
  keeps_saveScatteringDensity keeps_scatteringDensitySource keeps_indirectIrradianceSource
  keeps_phaseFunctionsSrc : keeps.

Lemma keeps_computeTransmittance k : keepsHeader (computeTransmittance cfg k).
Proof. unfold computeTransmittance. keeps_tac. Qed.

Lemma keeps_computeDirectGroundIrradiance k :
  keepsHeader (computeDirectGroundIrradiance cfg k).
Proof. unfold computeDirectGroundIrradiance. keeps_tac. Qed.

Lemma keeps_computeSingleScattering k scatterer :
  keepsHeader (computeSingleScattering cfg k scatterer).
Proof. unfold computeSingleScattering. keeps_tac. Qed.

Lemma keeps_computeIndirectIrradianceOrder1 k i :
  keepsHeader (computeIndirectIrradianceOrder1 cfg k i).
Proof. unfold computeIndirectIrradianceOrder1. keeps_tac. Qed.

#[local] Hint Resolve keeps_computeSingleScattering keeps_computeIndirectIrradianceOrder1
  : keeps.

Lemma keeps_computeScatteringDensityOrder2 k :
  keepsHeader (computeScatteringDensityOrder2 cfg k).
Proof. unfold computeScatteringDensityOrder2. keeps_tac. Qed.

Lemma keeps_computeScatteringDensity o k : keepsHeader (computeScatteringDensity cfg o k).
Proof. unfold computeScatteringDensity. keeps_tac. Qed.

Lemma keeps_computeIndirectIrradiance o k : keepsHeader (computeIndirectIrradiance cfg o k).
Proof. unfold computeIndirectIrradiance. keeps_tac. Qed.

Lemma keeps_accumulateMultipleScattering o k :
  keepsHeader (accumulateMultipleScattering cfg o k).
Proof. unfold accumulateMultipleScattering. keeps_tac. Qed.

#[local] Hint Resolve keeps_accumulateMultipleScattering : keeps.

Lemma keeps_computeMultipleScatteringFromDensity o k :
  keepsHeader (computeMultipleScatteringFromDensity cfg o k).
Proof. unfold computeMultipleScatteringFromDensity. keeps_tac. Qed.

#[local] Hint Resolve keeps_computeScatteringDensityOrder2 keeps_computeScatteringDensity
  keeps_computeIndirectIrradiance keeps_computeMultipleScatteringFromDensity : keeps.

Lemma keeps_computeMultipleScattering k : keepsHeader (computeMultipleScattering cfg k).
Proof. unfold computeMultipleScattering. keeps_tac. Qed.

#[local] Hint Resolve keeps_computeTransmittance keeps_computeDirectGroundIrradiance
  keeps_computeMultipleScattering : keeps.

Lemma keeps_processWavelengthSet k : keepsHeader (processWavelengthSet cfg k).
Proof. unfold processWavelengthSet. keeps_tac. Qed.

(** One wavelength set: the header is set by the first generator call,
    before anything can throw. *)
Lemma processWavelengthSet_header k w :
  densitiesHeader (finalWorld (processWavelengthSet cfg k) w)
  = match densitiesHeader w with
    | [] => densitiesDeclarations cfg
    | h => h
    end.
Proof.
  destruct (densitiesHeader w) as [|c h] eqn:Hw.
  2:{ rewrite <- Hw. apply keeps_processWavelengthSet. rewrite Hw. discriminate. }
  unfold processWavelengthSet.
  rewrite finalWorld_bind. change (outcome (cerr ?m) w) with (@Ok unit tt). cbv iota.
  change (finalWorld (cerr ?m) w) with w.
  rewrite finalWorld_bind. change (outcome clearShaders w) with (@Ok unit tt). cbv iota.
  set (w1 := finalWorld clearShaders w).
  rewrite finalWorld_bind.
  change (outcome (initConstHeader cfg ?v) w1) with (@Ok unit tt). cbv iota.
  set (w2 := finalWorld (initConstHeader cfg _) w1).
  assert (H2 : densitiesHeader w2 = []) by exact Hw.
  rewrite finalWorld_bind.
  match goal with
  | |- context [outcome (withGlobals cfg ?g) w2] =>
      pose proof (withGlobals_header g w2
                    (fun src ch dh => transmittance_generator src ch dh _)) as H3;
      rewrite H2 in H3;
      destruct (outcome (withGlobals cfg g) w2) as [source|e]; [|exact H3]
  end.
  match goal with
  | |- densitiesHeader (finalWorld ?rest ?w3) = _ =>
      assert (Hk : keepsHeader rest) by keeps_tac;
      rewrite (Hk w3); [exact H3 | rewrite H3; apply declarations_nonempty]
  end.
Qed.

Lemma forEach_sets_header (sets : list Z) : forall w,
  densitiesHeader (finalWorld (forEach sets (processWavelengthSet cfg)) w)
  = match densitiesHeader w, sets with
    | [], _ :: _ => densitiesDeclarations cfg
    | h, _ => h
    end.
Proof.
  destruct sets as [|k sets]; intros w; cbn [forEach].
  - change (finalWorld (ret tt) w) with w. destruct (densitiesHeader w); reflexivity.
  - rewrite finalWorld_bind.
    pose proof (processWavelengthSet_header k w) as H1.
    assert (Hne : densitiesHeader (finalWorld (processWavelengthSet cfg k) w) <> []).
    { rewrite H1. destruct (densitiesHeader w); [apply declarations_nonempty|discriminate]. }
    assert (Hgoal : densitiesHeader (finalWorld (processWavelengthSet cfg k) w)
                    = match densitiesHeader w with
                      | [] => densitiesDeclarations cfg
                      | h => h
                      end) by exact H1.
    destruct (outcome (processWavelengthSet cfg k) w).
    + rewrite (keeps_forEach sets _ (keeps_processWavelengthSet)); [|exact Hne].
      rewrite Hgoal. destruct (densitiesHeader w); reflexivity.
    + rewrite Hgoal. destruct (densitiesHeader w); reflexivity.
Qed.

(** X16.  The densities header is written once.  A run that finds it
    empty leaves in it the declarations of the density functions of the
    scatterers and absorbers, written by the first source generator of
    the first wavelength set before anything can throw; a run that finds
    it set, or has no wavelength set, leaves it as it is.  This holds
    whether the run returns or throws. *)
Theorem densities_header_of_a_run w :
  densitiesHeader (finalWorld (generate cfg) w)
  = match densitiesHeader w, allWavelengths cfg with
    | [], _ :: _ => densitiesDeclarations cfg
    | h, _ => h
    end.
Proof.
  unfold generate.
  rewrite (forEach_sets_header (map Z.of_nat (seq 0 (length (allWavelengths cfg)))) w).
  destruct (allWavelengths cfg); reflexivity.
Qed.
End DensitiesHeader.

(** ** The names of the debug files *)

Lemma digits_split ds1 : forall ds2 c1 c2 (r1 r2 : text),
  forallb isDigit ds1 = true -> forallb isDigit ds2 = true ->
  isDigit c1 = false -> isDigit c2 = false ->
  ds1 ++ c1 :: r1 = ds2 ++ c2 :: r2 -> ds1 = ds2 /\ r1 = r2.
Proof.
  induction ds1 as [|d ds1 IH]; intros ds2 c1 c2 r1 r2 H1 H2 Hc1 Hc2 H.
  - destruct ds2 as [|d2 ds2]; [now injection H as _ ->|].
    simpl in H, H2. injection H as -> _. apply andb_prop in H2 as [H2 _]. congruence.
  - destruct ds2 as [|d2 ds2].
    + simpl in H, H1. injection H as -> _. apply andb_prop in H1 as [H1 _]. congruence.
    + simpl in *. injection H as -> H. apply andb_prop in H1 as [_ H1].
      apply andb_prop in H2 as [_ H2].
      destruct (IH ds2 c1 c2 r1 r2 H1 H2 Hc1 Hc2 H) as [-> ->]. auto.
Qed.

(** Order and set can be read off a name made of the two numbers. *)
Lemma numbered_name_inj o k o' k' :
  0 <= o -> 0 <= o' ->
  number o ++ wlsetSuffix k = number o' ++ wlsetSuffix k' -> o = o' /\ k = k'.
Proof.
  intros Ho Ho' H. unfold wlsetSuffix in H.
  destruct (number_nonneg o Ho) as (_ & Hd & _).
  destruct (number_nonneg o' Ho') as (_ & Hd' & _).
  change (txt "-wlset" ++ ?x) with (45%N :: txt "wlset" ++ x) in H.
  apply digits_split in H; [|assumption|assumption|reflexivity|reflexivity].
  destruct H as [H1 H2]. apply number_inj in H1.
  apply app_inv_head, app_inv_tail, number_inj in H2. auto.
Qed.

Section DebugFiles.
Variable cfg : Setup.

Lemma saveScatteringDensity_saves o k w :
  savesOf (events (saveScatteringDensity cfg o k) w)
  = if dbgSaveScatDensity cfg
    then [(TEX_DELTA_SCATTERING_DENSITY,
           textureOutputDir cfg ++ txt "/scattering-density" ++ number o ++ wlsetSuffix k)]
    else [].
Proof. unfold saveScatteringDensity. destruct (dbgSaveScatDensity cfg); reflexivity. Qed.

Lemma saveIrradiance_saves o k w :
  savesOf (events (saveIrradiance cfg o k) w)
  = if dbgSaveGroundIrradiance cfg
    then [(TEX_DELTA_IRRADIANCE,
           textureOutputDir cfg ++ txt "/irradiance-delta-order" ++ number (o - 1)
             ++ wlsetSuffix k);
          (TEX_IRRADIANCE,
           textureOutputDir cfg ++ txt "/irradiance-accum-order" ++ number (o - 1)
             ++ wlsetSuffix k)]
    else [].
Proof. unfold saveIrradiance. destruct (dbgSaveGroundIrradiance cfg); reflexivity. Qed.

(** The two names [saveIrradiance] writes differ, and differ from the
    name [saveScatteringDensity] writes, whatever follows the prefix. *)
Lemma prefixes_apart (a b x y : text) :
  firstn 13 a <> firstn 13 b -> (13 <= length a)%nat -> (13 <= length b)%nat ->
  a ++ x <> b ++ y.
Proof.
  intros Hne Ha Hb H. apply Hne.
  apply (f_equal (firstn 13)) in H. rewrite !firstn_app in H.
  replace (13 - length a)%nat with 0%nat in H by lia.
  replace (13 - length b)%nat with 0%nat in H by lia.
  now rewrite !firstn_O, !app_nil_r in H.
Qed.

(** X17.  The debug files are named apart.  [saveScatteringDensity] and
    [saveIrradiance] write nothing unless their debug option is set; with
    it, two files written by calls of them have the same name only when
    they hold the same texture and were written for the same scattering
    order and the same wavelength set (orders from 0 on for the
    scattering density, from 1 on for the irradiance, whose names carry
    the order less one). *)
Theorem debug_files_named_apart o k o' k' w w' :
  (dbgSaveScatDensity cfg = false ->
   savesOf (events (saveScatteringDensity cfg o k) w) = [])
  /\ (dbgSaveGroundIrradiance cfg = false ->
      savesOf (events (saveIrradiance cfg o k) w) = [])
  /\ (dbgSaveScatDensity cfg = true -> 0 <= o -> 0 <= o' ->
      forall file file',
        In file (savesOf (events (saveScatteringDensity cfg o k) w)) ->
        In file' (savesOf (events (saveScatteringDensity cfg o' k') w')) ->
        snd file = snd file' -> o = o' /\ k = k' /\ fst file = fst file')
  /\ (dbgSaveGroundIrradiance cfg = true -> 1 <= o -> 1 <= o' ->
      forall file file',
        In file (savesOf (events (saveIrradiance cfg o k) w)) ->
        In file' (savesOf (events (saveIrradiance cfg o' k') w')) ->
        snd file = snd file' -> o = o' /\ k = k' /\ fst file = fst file')
  /\ (forall file file',
        In file (savesOf (events (saveScatteringDensity cfg o k) w)) ->
        In file' (savesOf (events (saveIrradiance cfg o' k') w')) ->
        snd file <> snd file').
Proof.
  rewrite !saveScatteringDensity_saves, !saveIrradiance_saves.
  split; [|split; [|split; [|split]]].
  - intros ->. reflexivity.
  - intros ->. reflexivity.
  - intros -> Ho Ho' file file' [<-|[]] [<-|[]]. cbn [fst snd]. intros H.
    apply app_inv_head in H. apply (app_inv_head (txt "/scattering-density")) in H.
    apply numbered_name_inj in H; [|assumption..]. tauto.
  - intros -> Ho Ho' file file'.
    intros [<-|[<-|[]]] [<-|[<-|[]]]; cbn [fst snd]; intros H; apply app_inv_head in H.
    + apply (app_inv_head (txt "/irradiance-delta-order")) in H.
      apply numbered_name_inj in H; [|lia..]. repeat split; lia.
    + exfalso. revert H. apply prefixes_apart; [discriminate | cbn; lia..].
    + exfalso. revert H. apply prefixes_apart; [discriminate | cbn; lia..].
    + apply (app_inv_head (txt "/irradiance-accum-order")) in H.
      apply numbered_name_inj in H; [|lia..]. repeat split; lia.
  - intros file file' Hf Hf'.
    destruct (dbgSaveScatDensity cfg); [|destruct Hf].
    destruct (dbgSaveGroundIrradiance cfg); [|destruct Hf'].
    destruct Hf as [<-|[]]. destruct Hf' as [<-|[<-|[]]]; cbn [snd]; intros H;
      apply app_inv_head in H; revert H; apply prefixes_apart;
      first [discriminate | cbn; lia].
Qed.
End DebugFiles.
